(** * pb_xml_util: the chunked XML stream parser and the XML object writer

    A shallow embedding of
      - src/google/protobuf/util/internal/xml_stream_parser.{h,cc}
        (class XmlStreamParser), and
      - src/google/protobuf/util/internal/xml_objectwriter.{h,cc}
        (class XmlObjectWriter),
    followed by the properties of the two that the specification states.

    Conventions.  A [StringPiece] or [std::string] is a list of bytes; a
    cursor such as [p_] is the list of bytes that remain.  Member functions
    take the object state as an argument and return the new state together
    with their result.  The [ObjectWriter] the parser drives is an event log.
    Executions that leave the C++ contract ([top()] or [pop()] of an empty
    [std::stack], a null [element_]) end in a result of their own. *)

From Stdlib Require Import Strings.String Strings.Byte.
From Stdlib Require Import List ZArith Lia Bool Arith.
Import ListNotations.

Local Open Scope Z_scope.

(** ** Bytes *)

Definition bytes := list byte.

(** A string literal as the bytes it denotes. *)
Definition B (s : string) : bytes := list_byte_of_string s.

(** The value of a [char] read as [unsigned char]. *)
Definition u8 (c : byte) : Z := Z.of_N (Byte.to_N c).

Definition bytes_eqb (a b : bytes) : bool :=
  if list_eq_dec Byte.byte_eq_dec a b then true else false.

(** [StringPiece::starts_with]. *)
Fixpoint starts_with (s prefix : bytes) : bool :=
  match prefix, s with
  | [], _ => true
  | _ :: _, [] => false
  | a :: prefix', b :: s' => Byte.eqb a b && starts_with s' prefix'
  end.

(** ** Helpers of the protobuf runtime used by the parser

    These live in the protobuf library (stubs/strutil.h,
    stubs/stringpiece.h, stubs/structurally_valid.cc,
    util/internal/json_escaping.h), outside the repository; they are
    written here after their definitions there. *)

(** [ascii_isspace], stubs/strutil.h. *)
Definition ascii_isspace (c : byte) : bool :=
  let n := u8 c in
  (n =? 32) || (n =? 9) || (n =? 10) || (n =? 11) || (n =? 12) || (n =? 13).

(** [isxdigit] of <cctype> in the C locale. *)
Definition isxdigit (c : byte) : bool :=
  let n := u8 c in
  ((48 <=? n) && (n <=? 57)) || ((97 <=? n) && (n <=? 102)) ||
  ((65 <=? n) && (n <=? 70)).

(** [hex_digit_to_int], stubs/strutil.h. *)
Definition hex_digit_to_int (c : byte) : Z :=
  let x := u8 c in
  Z.land (if 57 <? x then x + 9 else x) 15.

(** [kUTF8LenTbl], stubs/strutil.cc: the length of a UTF-8 sequence by its
    first byte. *)
Definition kUTF8LenTbl (c : byte) : nat :=
  let n := u8 c in
  if n <? 192 then 1%nat
  else if n <? 224 then 2%nat
  else if n <? 240 then 3%nat
  else 4%nat.

(** [UTF8FirstLetterNumBytes(src, len)], stubs/strutil.cc. *)
Definition UTF8FirstLetterNumBytes (p : bytes) : nat :=
  match p with
  | [] => 0%nat
  | c :: _ => kUTF8LenTbl c
  end.

(** Constants of [JsonEscaping], util/internal/json_escaping.h. *)
Definition kMinHighSurrogate : Z := 55296.          (* 0xd800 *)
Definition kMaxHighSurrogate : Z := 56319.          (* 0xdbff *)
Definition kMinLowSurrogate : Z := 56320.           (* 0xdc00 *)
Definition kMaxLowSurrogate : Z := 57343.           (* 0xdfff *)
Definition kMinSupplementaryCodePoint : Z := 65536. (* 0x10000 *)

(** [IsValidCodePoint], stubs/strutil.h. *)
Definition IsValidCodePoint (code_point : Z) : bool :=
  (code_point <? 55296) ||
  ((57344 <=? code_point) && (code_point <=? 1114111)).

Definition byte_of_Z (z : Z) : byte :=
  match Byte.of_N (Z.to_N (z mod 256)) with
  | Some b => b
  | None => x00
  end.

(** [EncodeAsUTF8Char], stubs/strutil.cc: the bytes written to [output]. *)
Definition EncodeAsUTF8Char (code_point : Z) : bytes :=
  if code_point <=? 127 then [byte_of_Z code_point]
  else if code_point <=? 2047 then
    [byte_of_Z (Z.lor 192 (Z.shiftr (Z.land code_point 1984) 6));
     byte_of_Z (Z.lor 128 (Z.land code_point 63))]
  else if code_point <=? 65535 then
    [byte_of_Z (Z.lor 224 (Z.shiftr (Z.land code_point 61440) 12));
     byte_of_Z (Z.lor 128 (Z.shiftr (Z.land code_point 4032) 6));
     byte_of_Z (Z.lor 128 (Z.land code_point 63))]
  else
    [byte_of_Z (Z.lor 240 (Z.shiftr (Z.land code_point 1835008) 18));
     byte_of_Z (Z.lor 128 (Z.shiftr (Z.land code_point 258048) 12));
     byte_of_Z (Z.lor 128 (Z.shiftr (Z.land code_point 4032) 6));
     byte_of_Z (Z.lor 128 (Z.land code_point 63))].

(** Structural validity of UTF-8, stubs/structurally_valid.cc: the scanner
    accepts the well-formed byte sequences of the Unicode standard (no
    overlong form, no surrogate, nothing above U+10FFFF).  [utf8_char_len p]
    is the length of the well-formed sequence [p] starts with, or 0. *)
Definition in_range (lo hi : Z) (c : byte) : bool :=
  (lo <=? u8 c) && (u8 c <=? hi).

Definition utf8_char_len (p : bytes) : nat :=
  match p with
  | [] => 0%nat
  | c0 :: r =>
    if u8 c0 <=? 127 then 1%nat
    else
      match r with
      | c1 :: r1 =>
        if in_range 194 223 c0 then
          if in_range 128 191 c1 then 2%nat else 0%nat
        else
          match r1 with
          | c2 :: r2 =>
            if (in_range 224 224 c0 && in_range 160 191 c1
                || in_range 225 236 c0 && in_range 128 191 c1
                || in_range 237 237 c0 && in_range 128 159 c1
                || in_range 238 239 c0 && in_range 128 191 c1)
            then if in_range 128 191 c2 then 3%nat else 0%nat
            else
              match r2 with
              | c3 :: _ =>
                if (in_range 240 240 c0 && in_range 144 191 c1
                    || in_range 241 243 c0 && in_range 128 191 c1
                    || in_range 244 244 c0 && in_range 128 143 c1)
                   && in_range 128 191 c2 && in_range 128 191 c3
                then 4%nat else 0%nat
              | [] => 0%nat
              end
          | [] => 0%nat
          end
      | [] => 0%nat
      end
  end.

Fixpoint UTF8Spn_fuel (fuel : nat) (p : bytes) : nat :=
  match fuel with
  | O => 0%nat
  | S fuel' =>
    match utf8_char_len p with
    | O => 0%nat
    | n => (n + UTF8Spn_fuel fuel' (skipn n p))%nat
    end
  end.

(** [internal::UTF8SpnStructurallyValid]: the length of the longest
    structurally valid prefix. *)
Definition UTF8SpnStructurallyValid (p : bytes) : nat :=
  UTF8Spn_fuel (length p) p.

(** [internal::IsStructurallyValidUTF8]. *)
Definition IsStructurallyValidUTF8 (p : bytes) : bool :=
  Nat.eqb (UTF8SpnStructurallyValid p) (length p).

(** [StrCat] of an integer: its decimal digits, with a sign when negative. *)
Fixpoint digits_fuel (fuel : nat) (n : Z) (acc : bytes) : bytes :=
  match fuel with
  | O => acc
  | S fuel' =>
    let acc' := byte_of_Z (48 + n mod 10) :: acc in
    if n / 10 =? 0 then acc' else digits_fuel fuel' (n / 10) acc'
  end.

Definition StrCat_int (v : Z) : bytes :=
  let fuel := S (N.to_nat (N.size (Z.to_N (Z.abs v)))) in
  if v <? 0 then B "-" ++ digits_fuel fuel (- v) []
  else digits_fuel fuel v [].

(** ** The ObjectWriter interface, as far as the parser drives it

    [XmlStreamParser] calls [StartObject], [EndObject], [StartList],
    [EndList] and [RenderString] of its [ow_]; a call is recorded as an
    event. *)
Module ObjectWriter.

Inductive Event :=
| StartObject (name : bytes)
| EndObject
| StartList (name : bytes)
| EndList
| RenderString (name value : bytes).

Definition Event_eq_dec (a b : Event) : {a = b} + {a <> b}.
Proof.
  decide equality; apply (list_eq_dec Byte.byte_eq_dec).
Defined.

End ObjectWriter.

(** ** XmlStreamParser *)
Module XmlStreamParser.

Import ObjectWriter.

(** [enum ParseErrorType], xml_stream_parser.h. *)
Inductive ParseErrorType :=
| INVALID_KEY | NON_UTF_8 | PARSING_TERMINATED_BEFORE_END_OF_INPUT
| EXPECTED_CLOSING_QUOTE | EXPECTED_TAG_NAME | ILLEGAL_HEX_STRING
| INVALID_ESCAPE_SEQUENCE | MISSING_LOW_SURROGATE | INVALID_LOW_SURROGATE
| INVALID_UNICODE | UNABLE_TO_PARSE_NUMBER | EXPECTED_OPEN_TAG
| EXPECTED_OPEN_TAG_IN_END_ELEMENT | EXPECTED_CLOSE_TAG_IN_BEGIN_ELEMENT
| INVALID_TEXT | INVALID_END_TAG_NAME | TAG_NAME_NOT_MATCH
| EXPECTED_TAG_NAME_IN_END_TAG | EXPECTED_BEGIN_KEY_OR_SLASH
| EXPECTED_QUOTE_BEFORE_ATTR_VALUE | ILLEGAL_COMMENT
| EXPECTED_DASH_IN_COMMENT | ILLEGAL_CLOSE_COMMENT
| EXPECTED_CLOSE_DASH_IN_COMMENT | ILLEGAL_DECLARATION
| EXPECTED_QUESTION_MARK_IN_COMMENT | ILLEGAL_CLOSE_DECLARATION
| EXPECTED_CLOSE_QUESTION_MARK_IN_DECLARATION | EXPECTED_CLOSING_TAG
| INVALID_TAG_NAME | EXPECTED_END_TAG_SLASH
| OCTAL_OR_HEX_ARE_NOT_VALID_JSON_VALUES | EXPECTED_OBJECT_KEY_OR_BRACES
| UNEXPECTED_TOKEN | EXPECTED_VALID_TAG | EXPECTED_COMMA_OR_BRACES
| EXPECTED_COLON | EXPECTED_COMMA_OR_BRACKET | NUMBER_EXCEEDS_RANGE_DOUBLE
| EXPECTED_VALUE | OCTAL_OR_HEX_ARE_NOT_VALID_XML_VALUES
| EXPECTED_SPACE_OR_CLOSE_TAG | EXPECTED_CLOSE_TAG | EXPECTED_SLASH
| EXPECTED_EQUAL_MARK | EXPECTED_CLOSE_IN_END_ELEMENT.

(** [util::Status], as the parser builds it.  [ReportFailure] receives a
    [ParseErrorType] and drops it ([(void)parse_code]); the model keeps it
    beside the message so that a property can name the kind of an error.
    [IncrementRecursionDepth] builds its error without one.  [Undefined] is
    the result of an execution that leaves the C++ contract. *)
Inductive Status :=
| OkStatus
| CancelledError
| InvalidArgumentError (parse_code : option ParseErrorType) (message : bytes)
| InternalError (message : bytes)
| Undefined.

Definition ok (s : Status) : bool :=
  match s with OkStatus => true | _ => false end.

Definition IsCancelled (s : Status) : bool :=
  match s with CancelledError => true | _ => false end.

Inductive TokenType :=
| OPEN_TAG | CLOSE_TAG | END_TAG_SLASH | DECLARATION | COMMENT
| BEGIN_STRING | ATTR_SEPARATOR | ATTR_VALUE_SEPARATOR | BEGIN_KEY
| BEGIN_TEXT | UNKNOWN.

Inductive ParseType :=
| BEGIN_ELEMENT | START_TAG | BEGIN_ELEMENT_MID | ATTR_KEY | ATTR_MID
| ATTR_VALUE | BEGIN_ELEMENT_CLOSE | TEXT | END_ELEMENT | END_ELEMENT_MID
| END_TAG | END_ELEMENT_CLOSE | ELEMENT_MID.

Inductive ElementType := OBJECT | LIST.

Definition ParseType_eqb (a b : ParseType) : bool :=
  match a, b with
  | BEGIN_ELEMENT, BEGIN_ELEMENT | START_TAG, START_TAG
  | BEGIN_ELEMENT_MID, BEGIN_ELEMENT_MID | ATTR_KEY, ATTR_KEY
  | ATTR_MID, ATTR_MID | ATTR_VALUE, ATTR_VALUE
  | BEGIN_ELEMENT_CLOSE, BEGIN_ELEMENT_CLOSE | TEXT, TEXT
  | END_ELEMENT, END_ELEMENT | END_ELEMENT_MID, END_ELEMENT_MID
  | END_TAG, END_TAG | END_ELEMENT_CLOSE, END_ELEMENT_CLOSE
  | ELEMENT_MID, ELEMENT_MID => true
  | _, _ => false
  end.

(** The position of a [ParseType] in its enum, for [StrCat]. *)
Definition ParseType_index (t : ParseType) : Z :=
  match t with
  | BEGIN_ELEMENT => 0 | START_TAG => 1 | BEGIN_ELEMENT_MID => 2
  | ATTR_KEY => 3 | ATTR_MID => 4 | ATTR_VALUE => 5
  | BEGIN_ELEMENT_CLOSE => 6 | TEXT => 7 | END_ELEMENT => 8
  | END_ELEMENT_MID => 9 | END_TAG => 10 | END_ELEMENT_CLOSE => 11
  | ELEMENT_MID => 12
  end.

Definition kUnicodeEscapedLength : nat := 6.

Definition kDefaultMaxRecursionDepth : Z := 100.

(** The data members of [XmlStreamParser] (xml_stream_parser.h). *)
Record Parser := mkParser {
  ow_ : list ObjectWriter.Event;  (* the events delivered to the ObjectWriter, oldest first *)
  stack_ : list ParseType;  (* std::stack, top first *)
  leftover_ : bytes;
  xml_ : bytes;
  p_ : bytes;  (* the part of xml_ not yet consumed *)
  key_ : bytes;
  key_storage_ : bytes;
  finishing_ : bool;
  seen_non_whitespace_ : bool;
  allow_no_root_element_ : bool;
  parsed_ : bytes;
  parsed_storage_ : bytes;
  string_open_ : byte;  (* 0 when no string is being parsed *)
  chunk_storage_ : bytes;
  coerce_to_utf8_ : bool;
  utf8_replacement_character_ : bytes;
  recursion_depth_ : Z;
  max_recursion_depth_ : Z;
  text_ : bytes;
  tag_name_ : bytes;
  tag_name_stack_ : list (bytes * bool);  (* std::stack, top first *)
  element_type_stack_ : list ElementType  (* std::stack, top first *)
}.

(** Assignment to one data member. *)
Definition set_ow_ (v : list ObjectWriter.Event) (s : Parser) : Parser :=
  mkParser v (stack_ s) (leftover_ s) (xml_ s) (p_ s) (key_ s) (key_storage_ s) (finishing_ s) (seen_non_whitespace_ s) (allow_no_root_element_ s) (parsed_ s) (parsed_storage_ s) (string_open_ s) (chunk_storage_ s) (coerce_to_utf8_ s) (utf8_replacement_character_ s) (recursion_depth_ s) (max_recursion_depth_ s) (text_ s) (tag_name_ s) (tag_name_stack_ s) (element_type_stack_ s).
Definition set_stack_ (v : list ParseType) (s : Parser) : Parser :=
  mkParser (ow_ s) v (leftover_ s) (xml_ s) (p_ s) (key_ s) (key_storage_ s) (finishing_ s) (seen_non_whitespace_ s) (allow_no_root_element_ s) (parsed_ s) (parsed_storage_ s) (string_open_ s) (chunk_storage_ s) (coerce_to_utf8_ s) (utf8_replacement_character_ s) (recursion_depth_ s) (max_recursion_depth_ s) (text_ s) (tag_name_ s) (tag_name_stack_ s) (element_type_stack_ s).
Definition set_leftover_ (v : bytes) (s : Parser) : Parser :=
  mkParser (ow_ s) (stack_ s) v (xml_ s) (p_ s) (key_ s) (key_storage_ s) (finishing_ s) (seen_non_whitespace_ s) (allow_no_root_element_ s) (parsed_ s) (parsed_storage_ s) (string_open_ s) (chunk_storage_ s) (coerce_to_utf8_ s) (utf8_replacement_character_ s) (recursion_depth_ s) (max_recursion_depth_ s) (text_ s) (tag_name_ s) (tag_name_stack_ s) (element_type_stack_ s).
Definition set_xml_ (v : bytes) (s : Parser) : Parser :=
  mkParser (ow_ s) (stack_ s) (leftover_ s) v (p_ s) (key_ s) (key_storage_ s) (finishing_ s) (seen_non_whitespace_ s) (allow_no_root_element_ s) (parsed_ s) (parsed_storage_ s) (string_open_ s) (chunk_storage_ s) (coerce_to_utf8_ s) (utf8_replacement_character_ s) (recursion_depth_ s) (max_recursion_depth_ s) (text_ s) (tag_name_ s) (tag_name_stack_ s) (element_type_stack_ s).
Definition set_p_ (v : bytes) (s : Parser) : Parser :=
  mkParser (ow_ s) (stack_ s) (leftover_ s) (xml_ s) v (key_ s) (key_storage_ s) (finishing_ s) (seen_non_whitespace_ s) (allow_no_root_element_ s) (parsed_ s) (parsed_storage_ s) (string_open_ s) (chunk_storage_ s) (coerce_to_utf8_ s) (utf8_replacement_character_ s) (recursion_depth_ s) (max_recursion_depth_ s) (text_ s) (tag_name_ s) (tag_name_stack_ s) (element_type_stack_ s).
Definition set_key_ (v : bytes) (s : Parser) : Parser :=
  mkParser (ow_ s) (stack_ s) (leftover_ s) (xml_ s) (p_ s) v (key_storage_ s) (finishing_ s) (seen_non_whitespace_ s) (allow_no_root_element_ s) (parsed_ s) (parsed_storage_ s) (string_open_ s) (chunk_storage_ s) (coerce_to_utf8_ s) (utf8_replacement_character_ s) (recursion_depth_ s) (max_recursion_depth_ s) (text_ s) (tag_name_ s) (tag_name_stack_ s) (element_type_stack_ s).
Definition set_key_storage_ (v : bytes) (s : Parser) : Parser :=
  mkParser (ow_ s) (stack_ s) (leftover_ s) (xml_ s) (p_ s) (key_ s) v (finishing_ s) (seen_non_whitespace_ s) (allow_no_root_element_ s) (parsed_ s) (parsed_storage_ s) (string_open_ s) (chunk_storage_ s) (coerce_to_utf8_ s) (utf8_replacement_character_ s) (recursion_depth_ s) (max_recursion_depth_ s) (text_ s) (tag_name_ s) (tag_name_stack_ s) (element_type_stack_ s).
Definition set_finishing_ (v : bool) (s : Parser) : Parser :=
  mkParser (ow_ s) (stack_ s) (leftover_ s) (xml_ s) (p_ s) (key_ s) (key_storage_ s) v (seen_non_whitespace_ s) (allow_no_root_element_ s) (parsed_ s) (parsed_storage_ s) (string_open_ s) (chunk_storage_ s) (coerce_to_utf8_ s) (utf8_replacement_character_ s) (recursion_depth_ s) (max_recursion_depth_ s) (text_ s) (tag_name_ s) (tag_name_stack_ s) (element_type_stack_ s).
Definition set_seen_non_whitespace_ (v : bool) (s : Parser) : Parser :=
  mkParser (ow_ s) (stack_ s) (leftover_ s) (xml_ s) (p_ s) (key_ s) (key_storage_ s) (finishing_ s) v (allow_no_root_element_ s) (parsed_ s) (parsed_storage_ s) (string_open_ s) (chunk_storage_ s) (coerce_to_utf8_ s) (utf8_replacement_character_ s) (recursion_depth_ s) (max_recursion_depth_ s) (text_ s) (tag_name_ s) (tag_name_stack_ s) (element_type_stack_ s).
Definition set_allow_no_root_element_ (v : bool) (s : Parser) : Parser :=
  mkParser (ow_ s) (stack_ s) (leftover_ s) (xml_ s) (p_ s) (key_ s) (key_storage_ s) (finishing_ s) (seen_non_whitespace_ s) v (parsed_ s) (parsed_storage_ s) (string_open_ s) (chunk_storage_ s) (coerce_to_utf8_ s) (utf8_replacement_character_ s) (recursion_depth_ s) (max_recursion_depth_ s) (text_ s) (tag_name_ s) (tag_name_stack_ s) (element_type_stack_ s).
Definition set_parsed_ (v : bytes) (s : Parser) : Parser :=
  mkParser (ow_ s) (stack_ s) (leftover_ s) (xml_ s) (p_ s) (key_ s) (key_storage_ s) (finishing_ s) (seen_non_whitespace_ s) (allow_no_root_element_ s) v (parsed_storage_ s) (string_open_ s) (chunk_storage_ s) (coerce_to_utf8_ s) (utf8_replacement_character_ s) (recursion_depth_ s) (max_recursion_depth_ s) (text_ s) (tag_name_ s) (tag_name_stack_ s) (element_type_stack_ s).
Definition set_parsed_storage_ (v : bytes) (s : Parser) : Parser :=
  mkParser (ow_ s) (stack_ s) (leftover_ s) (xml_ s) (p_ s) (key_ s) (key_storage_ s) (finishing_ s) (seen_non_whitespace_ s) (allow_no_root_element_ s) (parsed_ s) v (string_open_ s) (chunk_storage_ s) (coerce_to_utf8_ s) (utf8_replacement_character_ s) (recursion_depth_ s) (max_recursion_depth_ s) (text_ s) (tag_name_ s) (tag_name_stack_ s) (element_type_stack_ s).
Definition set_string_open_ (v : byte) (s : Parser) : Parser :=
  mkParser (ow_ s) (stack_ s) (leftover_ s) (xml_ s) (p_ s) (key_ s) (key_storage_ s) (finishing_ s) (seen_non_whitespace_ s) (allow_no_root_element_ s) (parsed_ s) (parsed_storage_ s) v (chunk_storage_ s) (coerce_to_utf8_ s) (utf8_replacement_character_ s) (recursion_depth_ s) (max_recursion_depth_ s) (text_ s) (tag_name_ s) (tag_name_stack_ s) (element_type_stack_ s).
Definition set_chunk_storage_ (v : bytes) (s : Parser) : Parser :=
  mkParser (ow_ s) (stack_ s) (leftover_ s) (xml_ s) (p_ s) (key_ s) (key_storage_ s) (finishing_ s) (seen_non_whitespace_ s) (allow_no_root_element_ s) (parsed_ s) (parsed_storage_ s) (string_open_ s) v (coerce_to_utf8_ s) (utf8_replacement_character_ s) (recursion_depth_ s) (max_recursion_depth_ s) (text_ s) (tag_name_ s) (tag_name_stack_ s) (element_type_stack_ s).
Definition set_coerce_to_utf8_ (v : bool) (s : Parser) : Parser :=
  mkParser (ow_ s) (stack_ s) (leftover_ s) (xml_ s) (p_ s) (key_ s) (key_storage_ s) (finishing_ s) (seen_non_whitespace_ s) (allow_no_root_element_ s) (parsed_ s) (parsed_storage_ s) (string_open_ s) (chunk_storage_ s) v (utf8_replacement_character_ s) (recursion_depth_ s) (max_recursion_depth_ s) (text_ s) (tag_name_ s) (tag_name_stack_ s) (element_type_stack_ s).
Definition set_utf8_replacement_character_ (v : bytes) (s : Parser) : Parser :=
  mkParser (ow_ s) (stack_ s) (leftover_ s) (xml_ s) (p_ s) (key_ s) (key_storage_ s) (finishing_ s) (seen_non_whitespace_ s) (allow_no_root_element_ s) (parsed_ s) (parsed_storage_ s) (string_open_ s) (chunk_storage_ s) (coerce_to_utf8_ s) v (recursion_depth_ s) (max_recursion_depth_ s) (text_ s) (tag_name_ s) (tag_name_stack_ s) (element_type_stack_ s).
Definition set_recursion_depth_ (v : Z) (s : Parser) : Parser :=
  mkParser (ow_ s) (stack_ s) (leftover_ s) (xml_ s) (p_ s) (key_ s) (key_storage_ s) (finishing_ s) (seen_non_whitespace_ s) (allow_no_root_element_ s) (parsed_ s) (parsed_storage_ s) (string_open_ s) (chunk_storage_ s) (coerce_to_utf8_ s) (utf8_replacement_character_ s) v (max_recursion_depth_ s) (text_ s) (tag_name_ s) (tag_name_stack_ s) (element_type_stack_ s).
Definition set_max_recursion_depth_ (v : Z) (s : Parser) : Parser :=
  mkParser (ow_ s) (stack_ s) (leftover_ s) (xml_ s) (p_ s) (key_ s) (key_storage_ s) (finishing_ s) (seen_non_whitespace_ s) (allow_no_root_element_ s) (parsed_ s) (parsed_storage_ s) (string_open_ s) (chunk_storage_ s) (coerce_to_utf8_ s) (utf8_replacement_character_ s) (recursion_depth_ s) v (text_ s) (tag_name_ s) (tag_name_stack_ s) (element_type_stack_ s).
Definition set_text_ (v : bytes) (s : Parser) : Parser :=
  mkParser (ow_ s) (stack_ s) (leftover_ s) (xml_ s) (p_ s) (key_ s) (key_storage_ s) (finishing_ s) (seen_non_whitespace_ s) (allow_no_root_element_ s) (parsed_ s) (parsed_storage_ s) (string_open_ s) (chunk_storage_ s) (coerce_to_utf8_ s) (utf8_replacement_character_ s) (recursion_depth_ s) (max_recursion_depth_ s) v (tag_name_ s) (tag_name_stack_ s) (element_type_stack_ s).
Definition set_tag_name_ (v : bytes) (s : Parser) : Parser :=
  mkParser (ow_ s) (stack_ s) (leftover_ s) (xml_ s) (p_ s) (key_ s) (key_storage_ s) (finishing_ s) (seen_non_whitespace_ s) (allow_no_root_element_ s) (parsed_ s) (parsed_storage_ s) (string_open_ s) (chunk_storage_ s) (coerce_to_utf8_ s) (utf8_replacement_character_ s) (recursion_depth_ s) (max_recursion_depth_ s) (text_ s) v (tag_name_stack_ s) (element_type_stack_ s).
Definition set_tag_name_stack_ (v : list (bytes * bool)) (s : Parser) : Parser :=
  mkParser (ow_ s) (stack_ s) (leftover_ s) (xml_ s) (p_ s) (key_ s) (key_storage_ s) (finishing_ s) (seen_non_whitespace_ s) (allow_no_root_element_ s) (parsed_ s) (parsed_storage_ s) (string_open_ s) (chunk_storage_ s) (coerce_to_utf8_ s) (utf8_replacement_character_ s) (recursion_depth_ s) (max_recursion_depth_ s) (text_ s) (tag_name_ s) v (element_type_stack_ s).
Definition set_element_type_stack_ (v : list ElementType) (s : Parser) : Parser :=
  mkParser (ow_ s) (stack_ s) (leftover_ s) (xml_ s) (p_ s) (key_ s) (key_storage_ s) (finishing_ s) (seen_non_whitespace_ s) (allow_no_root_element_ s) (parsed_ s) (parsed_storage_ s) (string_open_ s) (chunk_storage_ s) (coerce_to_utf8_ s) (utf8_replacement_character_ s) (recursion_depth_ s) (max_recursion_depth_ s) (text_ s) (tag_name_ s) (tag_name_stack_ s) v.

(** *** Character classes and lexical helpers (xml_stream_parser.cc) *)

Definition IsLetter (c : byte) : bool :=
  in_range 97 122 c || in_range 65 90 c || Byte.eqb c "_"%byte.

Definition IsAlphanumeric (c : byte) : bool :=
  IsLetter c || in_range 48 57 c.

Definition IsAlphanumericOrHyphen (c : byte) : bool :=
  IsAlphanumeric c || Byte.eqb c "-"%byte.

Definition IsPredefinedEntities (input : bytes) : bool :=
  bytes_eqb input (B "&lt;") || bytes_eqb input (B "&gt;") ||
  bytes_eqb input (B "&amp;") || bytes_eqb input (B "&apos;") ||
  bytes_eqb input (B "&quot;").

(** The number of leading bytes of [l] that may continue a name: the loop
    of [ConsumeKey] and [ConsumeTagName], started at index 1. *)
Fixpoint name_tail_len (l : bytes) : nat :=
  match l with
  | c :: r => if IsAlphanumericOrHyphen c then S (name_tail_len r) else O
  | [] => O
  end.

(** [ConsumeKey(input, key)]: [Some (key, input')] when it returns true. *)
Definition ConsumeKey (input : bytes) : option (bytes * bytes) :=
  match input with
  | [] => None
  | c :: r =>
    if IsLetter c then
      let len := S (name_tail_len r) in
      Some (firstn len input, skipn len input)
    else None
  end.

Definition MatchKey (input : bytes) : bool :=
  match input with
  | [] => false
  | c :: _ => IsLetter c
  end.

(** [ConsumeTagName(input, tag_name)]. *)
Definition ConsumeTagName (input : bytes) : option (bytes * bytes) :=
  match input with
  | [] => None
  | c :: r =>
    if IsLetter c then
      let len := S (name_tail_len r) in
      Some (firstn len input, skipn len input)
    else None
  end.

(** The loop of [ConsumeText] from index [len] on, [l] being
    [input.substr(len)]: the number of further bytes of the text, or [None]
    when the loop returns false. *)
Fixpoint text_tail_len (l : bytes) : option nat :=
  match l with
  | [] => Some O
  | c :: r =>
    if Byte.eqb c "<"%byte then Some O
    else if Byte.eqb c "&"%byte then
      if IsPredefinedEntities l then option_map S (text_tail_len r) else None
    else option_map S (text_tail_len r)
  end.

(** [ConsumeText(input, text)]. *)
Definition ConsumeText (input : bytes) : option (bytes * bytes) :=
  match input with
  | [] => None
  | _ :: r =>
    match text_tail_len r with
    | Some n => Some (firstn (S n) input, skipn (S n) input)
    | None => None
    end
  end.

(** [ReplaceInvalidCodePoints(str, replacement, dst)]: the new [*dst].  Each
    round removes at least one byte of [str], so [length str] rounds are
    enough. *)
Fixpoint ReplaceInvalidCodePoints_fuel (fuel : nat) (str replacement dst : bytes)
  : bytes :=
  match fuel, str with
  | S fuel', _ :: _ =>
    let n_valid_bytes := UTF8SpnStructurallyValid str in
    let dst1 := dst ++ firstn n_valid_bytes str in
    if Nat.eqb n_valid_bytes (length str) then dst1
    else ReplaceInvalidCodePoints_fuel fuel' (skipn (n_valid_bytes + 1) str)
           replacement (dst1 ++ replacement)
  | _, _ => dst
  end.

Definition ReplaceInvalidCodePoints (str replacement dst : bytes) : bytes :=
  ReplaceInvalidCodePoints_fuel (length str) str replacement dst.

(** *** Small steps on the state *)

Definition push (t : ParseType) (st : Parser) : Parser :=
  set_stack_ (t :: stack_ st) st.

Definition emit (e : Event) (st : Parser) : Parser :=
  set_ow_ (ow_ st ++ [e]) st.

Definition remove_prefix (n : nat) (st : Parser) : Parser :=
  set_p_ (skipn n (p_ st)) st.

(** [XmlStreamParser::Advance]. *)
Definition Advance (st : Parser) : Parser :=
  remove_prefix (Nat.min (length (p_ st)) (UTF8FirstLetterNumBytes (p_ st))) st.

Definition kContextLength : nat := 20.

(** [XmlStreamParser::ReportFailure]: the message, the 20 bytes of [xml_]
    on either side of the cursor, and a caret under the cursor. *)
Definition ReportFailure (message : bytes) (parse_code : ParseErrorType)
    (st : Parser) : Status :=
  let p_start := (length (xml_ st) - length (p_ st))%nat in
  let begin := (p_start - kContextLength)%nat in
  let end_ := Nat.min (p_start + kContextLength) (length (xml_ st)) in
  let segment := firstn (end_ - begin) (skipn begin (xml_ st)) in
  let location := repeat " "%byte (p_start - begin) ++ B "^" in
  InvalidArgumentError (Some parse_code)
    (message ++ [x0a] ++ segment ++ [x0a] ++ location).

(** [XmlStreamParser::ReportUnknown]. *)
Definition ReportUnknown (message : bytes) (parse_code : ParseErrorType)
    (st : Parser) : Status :=
  if negb (finishing_ st) then CancelledError
  else
    match p_ st with
    | [] => ReportFailure (B "Unexpected end of string. " ++ message) parse_code st
    | _ :: _ => ReportFailure message parse_code st
    end.

(** [XmlStreamParser::IncrementRecursionDepth]. *)
Definition IncrementRecursionDepth (tag_name : bytes) (st : Parser)
  : Status * Parser :=
  let st1 := set_recursion_depth_ (recursion_depth_ st + 1) st in
  if max_recursion_depth_ st1 <? recursion_depth_ st1 then
    (InvalidArgumentError None
       (B "Message too deep. Max recursion depth reached for tag '" ++
        tag_name ++ B "'"), st1)
  else (OkStatus, st1).

(** [XmlStreamParser::SkipWhitespace()]: the loop; a space is one byte long,
    so [length p] rounds are enough. *)
Fixpoint SkipWhitespace_loop (fuel : nat) (st : Parser) : Parser :=
  match fuel, p_ st with
  | S fuel', c :: _ =>
    if ascii_isspace c then SkipWhitespace_loop fuel' (Advance st) else st
  | _, _ => st
  end.

Definition mark_non_whitespace (st : Parser) : Parser :=
  match p_ st with
  | c :: _ => if negb (ascii_isspace c) then set_seen_non_whitespace_ true st else st
  | [] => st
  end.

Definition SkipWhitespace (st : Parser) : Parser :=
  mark_non_whitespace (SkipWhitespace_loop (length (p_ st)) st).

(** [XmlStreamParser::SkipWhitespace(ParseType)]. *)
Fixpoint SkipWhitespace_t_loop (type : ParseType) (fuel : nat) (st : Parser)
  : Parser :=
  match fuel, p_ st with
  | S fuel', c :: _ =>
    if ascii_isspace c then
      if ParseType_eqb type BEGIN_ELEMENT_MID then
        if Nat.eqb (length (p_ st)) 1 then set_seen_non_whitespace_ true st
        else if Nat.leb 2 (length (p_ st))
                && negb (ascii_isspace (nth 1 (p_ st) x00))
        then set_seen_non_whitespace_ true st
        else SkipWhitespace_t_loop type fuel' (Advance st)
      else SkipWhitespace_t_loop type fuel' (Advance st)
    else st
  | _, _ => st
  end.

Definition SkipWhitespace_t (type : ParseType) (st : Parser) : Parser :=
  mark_non_whitespace (SkipWhitespace_t_loop type (length (p_ st)) st).

(** [XmlStreamParser::GetNextTokenType]. *)
Definition GetNextTokenType (type : ParseType) (st : Parser)
  : TokenType * Parser :=
  let st1 := SkipWhitespace_t type st in
  match p_ st1 with
  | [] => (UNKNOWN, st1)
  | c :: _ =>
    (if Byte.eqb c x22 || Byte.eqb c "'"%byte then BEGIN_STRING
     else if Byte.eqb c "<"%byte then OPEN_TAG
     else if Byte.eqb c ">"%byte then CLOSE_TAG
     else if Byte.eqb c "/"%byte then END_TAG_SLASH
     else if Byte.eqb c "?"%byte then DECLARATION
     else if Byte.eqb c "!"%byte then COMMENT
     else if Byte.eqb c " "%byte then ATTR_SEPARATOR
     else if Byte.eqb c "="%byte then ATTR_VALUE_SEPARATOR
     else if MatchKey (p_ st1) then BEGIN_KEY
     else BEGIN_TEXT, st1)
  end.

(** *** The parse functions

    Each returns the status and the state it leaves.  A function that
    returns a failure built by [ReportFailure] leaves the cursor where the
    C++ function leaves it. *)

Definition fail (message : string) (parse_code : ParseErrorType) (st : Parser)
  : Status * Parser :=
  (ReportFailure (B message) parse_code st, st).

Definition unknown (message : string) (parse_code : ParseErrorType)
    (st : Parser) : Status * Parser :=
  (ReportUnknown (B message) parse_code st, st).

(** The branch [if (!finishing_) return CancelledError; return
    ReportFailure(...)]. *)
Definition cancel_or_fail (message : string) (parse_code : ParseErrorType)
    (st : Parser) : Status * Parser :=
  if negb (finishing_ st) then (CancelledError, st)
  else fail message parse_code st.

Definition ParseBeginElement (type : TokenType) (st : Parser)
  : Status * Parser :=
  match type with
  | OPEN_TAG => (OkStatus, push START_TAG (Advance st))
  | UNKNOWN => unknown "Expected an open tag." EXPECTED_OPEN_TAG st
  | _ => fail "Expected an open tag." EXPECTED_OPEN_TAG st
  end.

Definition ParseBeginElementMid (type : TokenType) (st : Parser)
  : Status * Parser :=
  match type with
  | ATTR_SEPARATOR => (OkStatus, push ATTR_KEY (Advance st))
  | CLOSE_TAG => (OkStatus, push TEXT (Advance st))
  | UNKNOWN =>
    unknown "Expected a space or a close tag." EXPECTED_SPACE_OR_CLOSE_TAG st
  | _ => fail "Expected a space or a close tag." EXPECTED_SPACE_OR_CLOSE_TAG st
  end.

(** [ParseText()]. *)
Definition ParseText (st : Parser) : Status * Parser :=
  let original := p_ st in
  match ConsumeText (p_ st) with
  | None => fail "Invalid text." INVALID_TEXT st
  | Some (text, rest) =>
    let st1 := set_text_ text (set_p_ rest st) in
    if negb (finishing_ st1) && Nat.eqb (length (p_ st1)) 0 then
      (CancelledError, set_p_ original st1)
    else
      (OkStatus, push END_ELEMENT (emit (RenderString [] (text_ st1)) st1))
  end.

(** [ParseText(TokenType)]. *)
Definition ParseText_t (type : TokenType) (st : Parser) : Status * Parser :=
  match type with
  | OPEN_TAG => (OkStatus, push START_TAG (push TEXT (Advance st)))
  | UNKNOWN => unknown "Expected an open tag." EXPECTED_OPEN_TAG st
  | _ => ParseText st
  end.

(** [ParseEndElement()]. *)
Definition ParseEndElement (st : Parser) : Status * Parser :=
  (OkStatus, push END_ELEMENT_MID (Advance st)).

(** [ParseEndElement(TokenType)]. *)
Definition ParseEndElement_t (type : TokenType) (st : Parser)
  : Status * Parser :=
  match type with
  | OPEN_TAG => ParseEndElement st
  | UNKNOWN => unknown "Expected an open tag." EXPECTED_OPEN_TAG st
  | _ =>
    fail "Expected a open tag in end element." EXPECTED_OPEN_TAG_IN_END_ELEMENT st
  end.

Definition ParseBeginElementClose (type : TokenType) (st : Parser)
  : Status * Parser :=
  match type with
  | CLOSE_TAG => (OkStatus, push TEXT (Advance st))
  | UNKNOWN => unknown "Expected a close tag." EXPECTED_CLOSE_TAG st
  | _ =>
    fail "Expected a close tag in begin element."
      EXPECTED_CLOSE_TAG_IN_BEGIN_ELEMENT st
  end.

(** [ParseEndElementMid(TokenType)]. *)
Definition ParseEndElementMid_t (type : TokenType) (st : Parser)
  : Status * Parser :=
  match type with
  | END_TAG_SLASH => (OkStatus, push END_TAG (Advance st))
  | UNKNOWN => unknown "Expected a slash." EXPECTED_SLASH st
  | _ => fail "Expected an end tag slash." EXPECTED_END_TAG_SLASH st
  end.

(** [ParseEndElementMid()]: [stack_.top()] is read without a test for an
    empty stack. *)
Definition ParseEndElementMid (st : Parser) : Status * Parser :=
  let st1 := Advance st in
  match stack_ st1 with
  | [] => (Undefined, st1)
  | top :: rest =>
    let st2 := if ParseType_eqb top TEXT then set_stack_ rest st1 else st1 in
    (OkStatus, push END_TAG st2)
  end.

Definition ParseEndElementClose (type : TokenType) (st : Parser)
  : Status * Parser :=
  match type with
  | CLOSE_TAG => (OkStatus, Advance st)
  | UNKNOWN => unknown "Expected a close tag." EXPECTED_CLOSE_TAG st
  | _ =>
    fail "Expected an close tag in end element." EXPECTED_CLOSE_IN_END_ELEMENT st
  end.

(** [element_type_stack_.pop()]. *)
Definition pop_element_type (st : Parser) : option Parser :=
  match element_type_stack_ st with
  | [] => None
  | _ :: rest => Some (set_element_type_stack_ rest st)
  end.

Definition ParseEndTag (type : TokenType) (st : Parser) : Status * Parser :=
  let original := p_ st in
  match type with
  | BEGIN_KEY =>
    match ConsumeTagName (p_ st) with
    | None => fail "Invalid end tag name." INVALID_END_TAG_NAME st
    | Some (name, rest) =>
      let st1 := set_tag_name_ name (set_p_ rest st) in
      if negb (finishing_ st1) && Nat.eqb (length (p_ st1)) 0 then
        (CancelledError, set_p_ original st1)
      else
        let end_list := starts_with (tag_name_ st1) (B "_list_") in
        let tag_name :=
          if end_list then skipn 6 (tag_name_ st1) else tag_name_ st1 in
        match tag_name_stack_ st1 with
        | [] => (Undefined, st1)
        | (start_tag_name, _) :: tag_rest =>
          if bytes_eqb start_tag_name tag_name then
            let popped :=
              if end_list then pop_element_type (emit EndList st1)
              else
                let st2 :=
                  if negb (bytes_eqb tag_name (B "anonymous"))
                  then emit EndObject st1 else st1 in
                option_map
                  (fun s => set_recursion_depth_ (recursion_depth_ s - 1) s)
                  (pop_element_type st2) in
            match popped with
            | None => (Undefined, st1)
            | Some st3 =>
              (OkStatus, push END_ELEMENT_CLOSE (set_tag_name_stack_ tag_rest st3))
            end
          else fail "Tag name not match." TAG_NAME_NOT_MATCH st1
        end
    end
  | UNKNOWN => unknown "Expected a tag name." EXPECTED_TAG_NAME st
  | _ => fail "Expected a tag name in end tag." EXPECTED_TAG_NAME_IN_END_TAG st
  end.

Definition ParseKey (st : Parser) : Status * Parser :=
  let original := p_ st in
  match ConsumeKey (p_ st) with
  | None => fail "Invalid key." INVALID_KEY st
  | Some (key, rest) =>
    let st1 := set_key_ key (set_p_ rest st) in
    if negb (finishing_ st1) && Nat.eqb (length (p_ st1)) 0 then
      (CancelledError, set_p_ original st1)
    else (OkStatus, set_key_storage_ [] st1)
  end.

Definition ParseAttrKey (type : TokenType) (st : Parser) : Status * Parser :=
  match type with
  | END_TAG_SLASH => (OkStatus, push BEGIN_ELEMENT_CLOSE (Advance st))
  | BEGIN_KEY =>
    let (result, st1) := ParseKey st in
    if ok result then (result, push ATTR_MID st1) else (result, st1)
  | UNKNOWN =>
    unknown "Expected a begin key or a slash." EXPECTED_BEGIN_KEY_OR_SLASH st
  | _ => fail "Expected a begin key or a slash." EXPECTED_BEGIN_KEY_OR_SLASH st
  end.

Definition ParseAttrMid (type : TokenType) (st : Parser) : Status * Parser :=
  match type with
  | ATTR_VALUE_SEPARATOR => (OkStatus, push ATTR_VALUE (Advance st))
  | UNKNOWN => unknown "Expected a equal mark." EXPECTED_EQUAL_MARK st
  | _ => fail "Expected a equal mark." EXPECTED_EQUAL_MARK st
  end.

(** The loop [code = (code << 4) + hex_digit_to_int(...)] over the digits
    [l]; [None] at the first byte that is no hexadecimal digit. *)
Fixpoint hex_code (l : bytes) (code : Z) : option Z :=
  match l with
  | [] => Some code
  | c :: r =>
    if isxdigit c then hex_code r (Z.shiftl code 4 + hex_digit_to_int c)
    else None
  end.

Definition append_parsed_storage (s : bytes) (st : Parser) : Parser :=
  set_parsed_storage_ (parsed_storage_ st ++ s) st.

(** The end of [ParseUnicodeEscape]: the validity test of the code point,
    its encoding, and the step past the final escape. *)
Definition ParseUnicodeEscape_finish (code : Z) (st : Parser)
  : Status * Parser :=
  if negb (coerce_to_utf8_ st) && negb (IsValidCodePoint code) then
    fail "Invalid unicode code point." INVALID_UNICODE st
  else
    (OkStatus,
     append_parsed_storage (EncodeAsUTF8Char code)
       (remove_prefix kUnicodeEscapedLength st)).

Definition ParseUnicodeEscape (st : Parser) : Status * Parser :=
  if Nat.ltb (length (p_ st)) kUnicodeEscapedLength then
    cancel_or_fail "Illegal hex string." ILLEGAL_HEX_STRING st
  else
    match hex_code (firstn 4 (skipn 2 (p_ st))) 0 with
    | None => fail "Invalid escape sequence." INVALID_ESCAPE_SEQUENCE st
    | Some code =>
      if (kMinHighSurrogate <=? code) && (code <=? kMaxHighSurrogate) then
        if Nat.ltb (length (p_ st)) (2 * kUnicodeEscapedLength) then
          if negb (finishing_ st) then (CancelledError, st)
          else if negb (coerce_to_utf8_ st) then
            fail "Missing low surrogate." MISSING_LOW_SURROGATE st
          else ParseUnicodeEscape_finish code st
        else if Byte.eqb (nth 6 (p_ st) x00) "\"%byte
                && Byte.eqb (nth 7 (p_ st) x00) "u"%byte then
          match hex_code (firstn 4 (skipn 8 (p_ st))) 0 with
          | None => fail "Invalid escape sequence." INVALID_ESCAPE_SEQUENCE st
          | Some low_code =>
            if (kMinLowSurrogate <=? low_code)
               && (low_code <=? kMaxLowSurrogate) then
              ParseUnicodeEscape_finish
                (Z.lor (Z.shiftl (Z.land code 1023) 10) (Z.land low_code 1023)
                 + kMinSupplementaryCodePoint)
                (remove_prefix kUnicodeEscapedLength st)
            else if negb (coerce_to_utf8_ st) then
              fail "Invalid low surrogate." INVALID_LOW_SURROGATE st
            else ParseUnicodeEscape_finish code st
          end
        else if negb (coerce_to_utf8_ st) then
          fail "Missing low surrogate." MISSING_LOW_SURROGATE st
        else ParseUnicodeEscape_finish code st
      else ParseUnicodeEscape_finish code st
    end.

(** The byte a backslash escape stands for. *)
Definition escaped_char (c : byte) : byte :=
  if Byte.eqb c "b"%byte then x08
  else if Byte.eqb c "f"%byte then x0c
  else if Byte.eqb c "n"%byte then x0a
  else if Byte.eqb c "r"%byte then x0d
  else if Byte.eqb c "t"%byte then x09
  else if Byte.eqb c "v"%byte then x0b
  else c.

(** [if (last < data) parsed_storage_.append(last, data - last)], [run]
    being the bytes from [last] to [data]. *)
Definition flush_run (run : bytes) (st : Parser) : Parser :=
  match run with
  | [] => st
  | _ :: _ => append_parsed_storage run st
  end.

(** The loop of [ParseStringHelper] and what follows it.  [run] holds the
    bytes between the pointer [last] and the cursor.  Each round consumes a
    byte at least, so [length p_] rounds are enough. *)
Fixpoint ParseStringHelper_loop (fuel : nat) (run : bytes) (st : Parser)
  : Status * Parser :=
  match fuel, p_ st with
  | S fuel', c :: _ =>
    if Byte.eqb c "\"%byte then
      let st1 := flush_run run st in
      if Nat.eqb (length (p_ st1)) 1 then
        cancel_or_fail "Closing quote expected in string."
          EXPECTED_CLOSING_QUOTE st1
      else if Byte.eqb (nth 1 (p_ st1) x00) "u"%byte then
        let (result, st2) := ParseUnicodeEscape st1 in
        if negb (ok result) then (result, st2)
        else ParseStringHelper_loop fuel' [] st2
      else
        ParseStringHelper_loop fuel' []
          (remove_prefix 2
             (append_parsed_storage [escaped_char (nth 1 (p_ st1) x00)] st1))
    else if Byte.eqb c (string_open_ st) then
      let st1 :=
        match parsed_storage_ st with
        | [] => set_parsed_ run st
        | _ :: _ =>
          let st' := flush_run run st in set_parsed_ (parsed_storage_ st') st'
        end in
      (OkStatus, Advance (set_string_open_ x00 st1))
    else
      let st1 := Advance st in
      ParseStringHelper_loop fuel'
        (run ++ firstn (length (p_ st) - length (p_ st1)) (p_ st)) st1
  | _, _ =>
    let st1 := flush_run run st in
    if negb (finishing_ st1) then (CancelledError, st1)
    else
      fail "Closing quote expected in string." EXPECTED_CLOSING_QUOTE
        (set_string_open_ x00 st1)
  end.

(** [XmlStreamParser::ParseStringHelper]: [*p_.data()] is read without a
    test for an empty cursor. *)
Definition ParseStringHelper (st : Parser) : Status * Parser :=
  if Byte.eqb (string_open_ st) x00 then
    match p_ st with
    | [] => (Undefined, st)
    | c :: _ =>
      let st1 := Advance (set_string_open_ c st) in
      ParseStringHelper_loop (length (p_ st1)) [] st1
    end
  else ParseStringHelper_loop (length (p_ st)) [] st.

Definition ParseAttrValue (type : TokenType) (st : Parser) : Status * Parser :=
  match type with
  | BEGIN_STRING =>
    let (result, st1) := ParseStringHelper st in
    if ok result then
      let st2 := emit (RenderString (key_ st1) (parsed_ st1)) st1 in
      (result,
       push BEGIN_ELEMENT_MID
         (set_parsed_storage_ []
            (set_key_storage_ [] (set_parsed_ [] (set_key_ [] st2)))))
    else (result, st1)
  | UNKNOWN =>
    unknown "Expected a quote before attribute value."
      EXPECTED_QUOTE_BEFORE_ATTR_VALUE st
  | _ =>
    fail "Expected a quote before attribute value."
      EXPECTED_QUOTE_BEFORE_ATTR_VALUE st
  end.

(** The loop of [ParseComments] and what follows it. *)
Fixpoint ParseComments_loop (fuel : nat) (st : Parser) : Status * Parser :=
  match fuel, p_ st with
  | S fuel', c :: _ =>
    if Byte.eqb c "-"%byte then
      if Nat.ltb (length (p_ st)) 3 then
        cancel_or_fail "Illegal close comment." ILLEGAL_CLOSE_COMMENT st
      else if negb (Byte.eqb (nth 1 (p_ st) x00) "-"%byte)
              || negb (Byte.eqb (nth 2 (p_ st) x00) ">"%byte) then
        fail "Illegal close comment." ILLEGAL_CLOSE_COMMENT st
      else (OkStatus, remove_prefix 3 st)
    else ParseComments_loop fuel' (Advance st)
  | _, _ =>
    cancel_or_fail "Close dash expected in comment."
      EXPECTED_CLOSE_DASH_IN_COMMENT st
  end.

Definition ParseComments (st : Parser) : Status * Parser :=
  if Nat.ltb (length (p_ st)) 2 then
    cancel_or_fail "Illegal comment." ILLEGAL_COMMENT st
  else if negb (Byte.eqb (nth 0 (p_ st) x00) "-"%byte)
          || negb (Byte.eqb (nth 1 (p_ st) x00) "-"%byte) then
    fail "Dash expected in comment." EXPECTED_DASH_IN_COMMENT st
  else
    let st1 := remove_prefix 2 st in
    ParseComments_loop (length (p_ st1)) st1.

(** The loop of [ParseDeclaration] and what follows it. *)
Fixpoint ParseDeclaration_loop (fuel : nat) (st : Parser) : Status * Parser :=
  match fuel, p_ st with
  | S fuel', c :: _ =>
    if Byte.eqb c "?"%byte then
      if Nat.ltb (length (p_ st)) 2 then
        cancel_or_fail "Illegal close declaration." ILLEGAL_CLOSE_DECLARATION st
      else if negb (Byte.eqb (nth 1 (p_ st) x00) ">"%byte) then
        fail "Illegal close declaration." ILLEGAL_CLOSE_DECLARATION st
      else (OkStatus, remove_prefix 2 st)
    else ParseDeclaration_loop fuel' (Advance st)
  | _, _ =>
    cancel_or_fail "Close question mark expected in comment."
      EXPECTED_CLOSE_QUESTION_MARK_IN_DECLARATION st
  end.

Definition ParseDeclaration (st : Parser) : Status * Parser :=
  if Nat.ltb (length (p_ st)) 1 then
    cancel_or_fail "Illegal comment." ILLEGAL_DECLARATION st
  else if negb (Byte.eqb (nth 0 (p_ st) x00) "?"%byte) then
    fail "Question mark expected in comment." EXPECTED_QUESTION_MARK_IN_COMMENT st
  else
    let st1 := remove_prefix 1 st in
    ParseDeclaration_loop (length (p_ st1)) st1.

Definition ParseTagName (st : Parser) : Status * Parser :=
  let original := p_ st in
  match ConsumeTagName (p_ st) with
  | None => fail "Invalid tag name." INVALID_TAG_NAME st
  | Some (name, rest) =>
    let st1 := set_tag_name_ name (set_p_ rest st) in
    if negb (finishing_ st1) && Nat.eqb (length (p_ st1)) 0 then
      (CancelledError, set_p_ original st1)
    else (OkStatus, st1)
  end.

Definition ParseStartTagName (st : Parser) : Status * Parser :=
  let (result, st1) := ParseTagName st in
  if ok result then
    if starts_with (tag_name_ st1) (B "_list_") then
      let tag_name := skipn 6 (tag_name_ st1) in
      let st2 := emit (StartList tag_name) st1 in
      let st3 := set_element_type_stack_ (LIST :: element_type_stack_ st2) st2 in
      let st4 := set_tag_name_stack_ ((tag_name, true) :: tag_name_stack_ st3) st3 in
      (result, push BEGIN_ELEMENT_MID (set_tag_name_ [] st4))
    else
      let tag_name := tag_name_ st1 in
      let parent_is_list_object :=
        match tag_name_stack_ st1 with
        | [] => false
        | top :: _ => snd top
        end in
      let st2 :=
        if negb (bytes_eqb tag_name (B "anonymous")) then
          if bytes_eqb tag_name (B "root") || parent_is_list_object
          then emit (StartObject []) st1
          else emit (StartObject tag_name) st1
        else st1 in
      let st3 := set_element_type_stack_ (OBJECT :: element_type_stack_ st2) st2 in
      let (status, st4) := IncrementRecursionDepth tag_name st3 in
      if negb (ok status) then (status, st4)
      else
        let st5 :=
          set_tag_name_stack_ ((tag_name, false) :: tag_name_stack_ st4) st4 in
        (result, push BEGIN_ELEMENT_MID (set_tag_name_ [] st5))
  else (result, st1).

Definition ParseStartTag (type : TokenType) (st : Parser) : Status * Parser :=
  match type with
  | DECLARATION => ParseDeclaration st
  | COMMENT => ParseComments st
  | BEGIN_KEY => ParseStartTagName st
  | END_TAG_SLASH => ParseEndElementMid st
  | UNKNOWN => unknown "Expected a tag name." EXPECTED_TAG_NAME st
  | _ => fail "Expected a tag name." EXPECTED_TAG_NAME st
  end.

(** *** The driver *)

(** The [switch] of [RunParser]. *)
Definition dispatch (type : ParseType) (t : TokenType) (st : Parser)
  : Status * Parser :=
  match type with
  | BEGIN_ELEMENT => ParseBeginElement t st
  | START_TAG => ParseStartTag t st
  | BEGIN_ELEMENT_MID => ParseBeginElementMid t st
  | ATTR_KEY => ParseAttrKey t st
  | ATTR_MID => ParseAttrMid t st
  | ATTR_VALUE => ParseAttrValue t st
  | BEGIN_ELEMENT_CLOSE => ParseBeginElementClose t st
  | TEXT => ParseText_t t st
  | END_ELEMENT => ParseEndElement_t t st
  | END_ELEMENT_MID => ParseEndElementMid_t t st
  | END_TAG => ParseEndTag t st
  | END_ELEMENT_CLOSE => ParseEndElementClose t st
  | ELEMENT_MID =>
    (InternalError
       (B "Unknown parse type: " ++ StrCat_int (ParseType_index type)), st)
  end.

(** The token a round of [RunParser] starts with. *)
Definition next_token (type : ParseType) (st : Parser) : TokenType * Parser :=
  if Byte.eqb (string_open_ st) x00 then GetNextTokenType type st
  else (BEGIN_STRING, st).

(** The key is copied to [key_storage_] when the parser suspends. *)
Definition save_key (st : Parser) : Parser :=
  match key_ st, key_storage_ st with
  | _ :: _, [] =>
    let st1 := set_key_storage_ (key_storage_ st ++ key_ st) st in
    set_key_ (key_storage_ st1) st1
  | _, _ => st
  end.

(** One round of the [while] loop of [RunParser], the stack being
    [type :: rest]: [inl] when the loop goes on, [inr] when it returns. *)
Definition RunParser_round (type : ParseType) (rest : list ParseType)
    (st : Parser) : Parser + Status * Parser :=
  let (t, st1) := next_token type st in
  let st2 := set_stack_ rest st1 in
  let (result, st3) := dispatch type t st2 in
  if ok result then inl st3
  else if negb (finishing_ st3) && IsCancelled result then
    inr (OkStatus, save_key (push type st3))
  else inr (result, st3).

(** [XmlStreamParser::RunParser].  A round that goes on has consumed a byte
    at least (lemma [RunParser_round_consumes]), so the loop makes at most
    [length p_ + 1] rounds and the first branch on [O] is never taken from
    [RunParser] (lemma [RunParser_fuel_enough]). *)
Fixpoint RunParser_fuel (fuel : nat) (st : Parser) : Status * Parser :=
  match stack_ st with
  | [] => (OkStatus, st)
  | type :: rest =>
    match fuel with
    | O => (Undefined, st)
    | S fuel' =>
      match RunParser_round type rest st with
      | inl st' => RunParser_fuel fuel' st'
      | inr r => r
      end
    end
  end.

Definition RunParser (st : Parser) : Status * Parser :=
  RunParser_fuel (S (length (p_ st))) st.

(** *** The public interface *)

(** The constructor [XmlStreamParser(ow)], [ow] having received nothing. *)
Definition New : Parser :=
  {| ow_ := [];
     stack_ := [BEGIN_ELEMENT];
     leftover_ := [];
     xml_ := [];
     p_ := [];
     key_ := [];
     key_storage_ := [];
     finishing_ := false;
     seen_non_whitespace_ := false;
     allow_no_root_element_ := false;
     parsed_ := [];
     parsed_storage_ := [];
     string_open_ := x00;
     chunk_storage_ := [];
     coerce_to_utf8_ := false;
     utf8_replacement_character_ := B " ";
     recursion_depth_ := 0;
     max_recursion_depth_ := kDefaultMaxRecursionDepth;
     text_ := [];
     tag_name_ := [];
     tag_name_stack_ := [];
     element_type_stack_ := [] |}.

Definition set_max_recursion_depth (max_depth : Z) (st : Parser) : Parser :=
  set_max_recursion_depth_ max_depth st.

Definition recursion_depth (st : Parser) : Z := recursion_depth_ st.

(** [XmlStreamParser::ParseChunk]. *)
Definition ParseChunk (chunk : bytes) (st : Parser) : Status * Parser :=
  match chunk with
  | [] => (OkStatus, st)
  | _ :: _ =>
    let st1 := set_finishing_ false (set_p_ chunk (set_xml_ chunk st)) in
    let (result, st2) := RunParser st1 in
    if negb (ok result) then (result, st2)
    else
      let st3 := SkipWhitespace st2 in
      match p_ st3 with
      | [] => (OkStatus, set_leftover_ [] st3)
      | _ :: _ =>
        match stack_ st3 with
        | [] =>
          fail "Parsing terminated before end of input."
            PARSING_TERMINATED_BEFORE_END_OF_INPUT st3
        | _ :: _ => (OkStatus, set_leftover_ (p_ st3) st3)
        end
      end
  end.

(** [XmlStreamParser::Parse]. *)
Definition Parse (xml : bytes) (st : Parser) : Status * Parser :=
  let (chunk, st1) :=
    match leftover_ st with
    | [] => (xml, st)
    | _ :: _ =>
      let swapped :=
        set_leftover_ (chunk_storage_ st) (set_chunk_storage_ (leftover_ st) st) in
      let st' := set_chunk_storage_ (chunk_storage_ swapped ++ xml) swapped in
      (chunk_storage_ st', st')
    end in
  let n := UTF8SpnStructurallyValid chunk in
  if Nat.ltb 0 n then
    let (status, st2) := ParseChunk (firstn n chunk) st1 in
    (status, set_leftover_ (leftover_ st2 ++ skipn n chunk) st2)
  else (OkStatus, set_leftover_ chunk st1).

(** The end of [FinishParse], which both branches of its UTF-8 test reach:
    the run in finishing mode and the test for input left over. *)
Definition FinishParse_run (st : Parser) : Status * Parser :=
  let (result, st2) := RunParser (set_finishing_ true st) in
  if ok result then
    let st3 := SkipWhitespace st2 in
    match p_ st3 with
    | [] => (result, st3)
    | _ :: _ =>
      fail "Parsing terminated before end of input."
        PARSING_TERMINATED_BEFORE_END_OF_INPUT st3
    end
  else (result, st2).

(** [XmlStreamParser::FinishParse]. *)
Definition FinishParse (st : Parser) : Status * Parser :=
  match stack_ st, leftover_ st, tag_name_stack_ st with
  | [], [], [] => (OkStatus, st)
  | _, _, _ =>
    let is_valid_utf8 := IsStructurallyValidUTF8 (leftover_ st) in
    if coerce_to_utf8_ st && negb is_valid_utf8 then
      let scratch :=
        ReplaceInvalidCodePoints (leftover_ st)
          (utf8_replacement_character_ st) [] in
      FinishParse_run (set_p_ scratch (set_xml_ scratch st))
    else
      let st1 := set_p_ (leftover_ st) (set_xml_ (leftover_ st) st) in
      if negb is_valid_utf8 then
        fail "Encountered non UTF-8 code points." NON_UTF_8 st1
      else FinishParse_run st1
  end.

(** Feeding chunks one after the other, stopping at the first status that
    is not OK, then finishing: the loop of [XmlToBinaryStream]
    (xml_util.cc) and of the test fixture's [RunTest]. *)
Fixpoint ParseChunks (chunks : list bytes) (st : Parser) : Status * Parser :=
  match chunks with
  | [] => FinishParse st
  | c :: rest =>
    let (result, st1) := Parse c st in
    if ok result then ParseChunks rest st1 else (result, st1)
  end.

End XmlStreamParser.

(** ** XmlObjectWriter *)
Module XmlObjectWriter.

(** [XmlObjectWriter::Element] (xml_objectwriter.h).  The parent pointer of
    its base class [BaseElement] is the rest of the chain the writer holds. *)
Record Element := mkElement {
  name_ : bytes;
  is_first_ : bool;
  is_xml_object_ : bool;
  is_xml_list_ : bool;
  has_child_ : bool;
  has_text_ : bool;
  has_attribute_ : bool;
  list_child_needs_end_tag_ : bool;
  anonymous_ : bool
}.

Definition set_has_child_ (v : bool) (e : Element) : Element :=
  mkElement (name_ e) (is_first_ e) (is_xml_object_ e) (is_xml_list_ e) v (has_text_ e) (has_attribute_ e) (list_child_needs_end_tag_ e) (anonymous_ e).
Definition set_has_text_ (v : bool) (e : Element) : Element :=
  mkElement (name_ e) (is_first_ e) (is_xml_object_ e) (is_xml_list_ e) (has_child_ e) v (has_attribute_ e) (list_child_needs_end_tag_ e) (anonymous_ e).
Definition set_has_attribute_ (v : bool) (e : Element) : Element :=
  mkElement (name_ e) (is_first_ e) (is_xml_object_ e) (is_xml_list_ e) (has_child_ e) (has_text_ e) v (list_child_needs_end_tag_ e) (anonymous_ e).
Definition set_list_child_needs_end_tag_ (v : bool) (e : Element) : Element :=
  mkElement (name_ e) (is_first_ e) (is_xml_object_ e) (is_xml_list_ e) (has_child_ e) (has_text_ e) (has_attribute_ e) v (anonymous_ e).
Definition set_anonymous_ (v : bool) (e : Element) : Element :=
  mkElement (name_ e) (is_first_ e) (is_xml_object_ e) (is_xml_list_ e) (has_child_ e) (has_text_ e) (has_attribute_ e) (list_child_needs_end_tag_ e) v.

(** The constructor [Element(parent, is_xml_object, is_xml_list, name)];
    that it calls [parent->set_has_child()] is part of [push_element]. *)
Definition new_Element (is_xml_object is_xml_list : bool) (name : bytes)
  : Element :=
  mkElement name true is_xml_object is_xml_list false false false false false.

(** The data members of [XmlObjectWriter].  [element_] is the chain from
    the current element to the root element, [[]] being a null pointer;
    [stream_] is what has been written to the output stream. *)
Record Writer := mkWriter {
  element_ : list Element;
  stream_ : bytes;
  indent_string_ : bytes;
  indent_char_ : byte;
  indent_count_ : nat;
  use_websafe_base64_for_bytes_ : bool;
  tag_needs_closed_ : bool;
  start_element_ : bool
}.

Definition set_element_ (v : list Element) (w : Writer) : Writer :=
  mkWriter v (stream_ w) (indent_string_ w) (indent_char_ w) (indent_count_ w) (use_websafe_base64_for_bytes_ w) (tag_needs_closed_ w) (start_element_ w).
Definition set_stream_ (v : bytes) (w : Writer) : Writer :=
  mkWriter (element_ w) v (indent_string_ w) (indent_char_ w) (indent_count_ w) (use_websafe_base64_for_bytes_ w) (tag_needs_closed_ w) (start_element_ w).
Definition set_use_websafe_base64_for_bytes (v : bool) (w : Writer) : Writer :=
  mkWriter (element_ w) (stream_ w) (indent_string_ w) (indent_char_ w) (indent_count_ w) v (tag_needs_closed_ w) (start_element_ w).
Definition set_tag_needs_closed_ (v : bool) (w : Writer) : Writer :=
  mkWriter (element_ w) (stream_ w) (indent_string_ w) (indent_char_ w) (indent_count_ w) (use_websafe_base64_for_bytes_ w) v (start_element_ w).
Definition set_start_element_ (v : bool) (w : Writer) : Writer :=
  mkWriter (element_ w) (stream_ w) (indent_string_ w) (indent_char_ w) (indent_count_ w) (use_websafe_base64_for_bytes_ w) (tag_needs_closed_ w) v.

(** The constructor [XmlObjectWriter(indent_string, out)], [out] empty. *)
Definition New (indent_string : bytes) : Writer :=
  let trivial :=
    match indent_string with
    | [] => None
    | c :: rest =>
      if forallb (Byte.eqb c) rest then Some (c, length indent_string) else None
    end in
  {| element_ := [new_Element false false []];
     stream_ := [];
     indent_string_ := indent_string;
     indent_char_ := match trivial with Some (c, _) => c | None => x00 end;
     indent_count_ := match trivial with Some (_, n) => n | None => O end;
     use_websafe_base64_for_bytes_ := false;
     tag_needs_closed_ := false;
     start_element_ := false |}.

(** [BaseElement::is_root] and [BaseElement::level] of the current element
    (structured_objectwriter.h of the protobuf library). *)
Definition is_root (chain : list Element) : bool :=
  match chain with
  | [_] => true
  | _ => false
  end.

Definition level (chain : list Element) : nat := pred (length chain).

(** A member function of [*element()] that changes it; [None] when
    [element()] is null. *)
Definition update_element (f : Element -> Element) (w : Writer)
  : option Writer :=
  match element_ w with
  | [] => None
  | e :: parents => Some (set_element_ (f e :: parents) w)
  end.

(** [element_.reset(new Element(element_.release(), ...))]. *)
Definition push_element (e : Element) (w : Writer) : Writer :=
  match element_ w with
  | [] => set_element_ [e] w
  | parent :: rest => set_element_ (e :: set_has_child_ true parent :: rest) w
  end.

Definition PushArray (name : bytes) (w : Writer) : Writer :=
  push_element (new_Element false true name) w.

Definition PushObject (name : bytes) (w : Writer) : Writer :=
  push_element (new_Element true false name) w.

(** [Pop()]: [element_.reset(element_->pop<Element>())]. *)
Definition Pop (w : Writer) : option Writer :=
  match element_ w with
  | [] => None
  | _ :: parents => Some (set_element_ parents w)
  end.

Definition WriteChar (c : byte) (w : Writer) : Writer :=
  set_stream_ (stream_ w ++ [c]) w.

Definition WriteRawString (s : bytes) (w : Writer) : Writer :=
  set_stream_ (stream_ w ++ s) w.

(** [NewLine(pop)].  With a trivial indent string the C++ code may take a
    direct buffer and fill it with [memset]; the bytes are those of the
    other path, which is the one written here. *)
Definition NewLine (pop : bool) (w : Writer) : option Writer :=
  match element_ w with
  | [] => None
  | _ :: _ =>
    let lvl := if pop then pred (level (element_ w)) else level (element_ w) in
    match indent_string_ w with
    | [] => Some w
    | _ :: _ =>
      Some (WriteRawString (concat (repeat (indent_string_ w) lvl))
              (WriteChar x0a w))
    end
  end.

Definition bind {A C : Type} (o : option A) (f : A -> option C) : option C :=
  match o with
  | Some a => f a
  | None => None
  end.

Notation "x <- e ;; k" := (bind e (fun x => k))
  (at level 61, e at next level, right associativity).

(** [XmlObjectWriter::WriteCloseTag]. *)
Definition WriteCloseTag (w : Writer) : option Writer :=
  let w1 :=
    if tag_needs_closed_ w
    then set_tag_needs_closed_ false (WriteChar ">"%byte w) else w in
  match element_ w1 with
  | [] => None
  | e :: _ =>
    if negb (is_root (element_ w1)) then
      if start_element_ w1 then
        w2 <- NewLine false w1 ;; Some (set_start_element_ false w2)
      else if has_child_ e && negb (anonymous_ e) then NewLine true w1
      else Some w1
    else Some w1
  end.

(** [XmlObjectWriter::SetHasTextOrAttribute]. *)
Definition SetHasTextOrAttribute (name : bytes) (w : Writer) : option Writer :=
  match name with
  | [] => update_element (set_has_text_ true) w
  | _ :: _ => update_element (set_has_attribute_ true) w
  end.

(** [XmlObjectWriter::WriteSuffix]. *)
Definition WriteSuffix (w : Writer) : option Writer :=
  match element_ w with
  | [] => Some w
  | e :: _ =>
    if is_xml_list_ e && list_child_needs_end_tag_ e then
      w1 <- WriteCloseTag w ;;
      let w2 := WriteRawString (B "</") w1 in
      w3 <- match element_ w2 with
            | [] => None
            | e2 :: _ =>
              if anonymous_ e2 then
                update_element (set_anonymous_ false)
                  (WriteRawString (B "anonymous") w2)
              else Some (WriteRawString (name_ e2) w2)
            end ;;
      update_element (set_list_child_needs_end_tag_ false)
        (WriteChar ">"%byte w3)
    else Some w
  end.

Section Rendering.

(** Functions of the protobuf library the writer calls and the repository
    does not contain: [JsonEscaping::Escape] (util/internal/json_escaping.cc)
    as the bytes it appends to the sink, and the two base64 encoders of
    stubs/strutil.cc. *)
Variable Escape : bytes -> bytes.
Variable Base64Escape : bytes -> bytes.
Variable WebSafeBase64EscapeWithPadding : bytes -> bytes.

(** [XmlObjectWriter::WritePrefix(name, render)]. *)
Definition WritePrefix (name : bytes) (render : bool) (w : Writer)
  : option Writer :=
  let w1 :=
    if tag_needs_closed_ w && negb render
    then set_tag_needs_closed_ false (WriteChar ">"%byte w) else w in
  w2 <- (if negb render then
           match element_ w1 with
           | [] => None
           | e :: _ =>
             if negb (is_root (element_ w1)) then
               if start_element_ w1 then
                 w' <- NewLine false w1 ;; Some (set_start_element_ false w')
               else if has_child_ e then NewLine true w1
               else Some w1
             else Some w1
           end
         else Some w1) ;;
  w3 <- (match element_ w2 with
         | e :: _ =>
           if render && is_xml_list_ e then
             w' <- NewLine false w2 ;;
             w'' <- update_element
                      (fun e' =>
                         set_list_child_needs_end_tag_ true
                           (set_has_child_ true (set_anonymous_ true e')))
                      (WriteRawString (B "anonymous") (WriteChar "<"%byte w')) ;;
             Some (set_tag_needs_closed_ true w'')
           else Some w2
         | [] => Some w2
         end) ;;
  if render then
    match name with
    | _ :: _ =>
      Some (WriteChar "="%byte (WriteRawString (Escape name) (WriteChar " "%byte w3)))
    | [] => Some (set_tag_needs_closed_ false (WriteChar ">"%byte w3))
    end
  else if tag_needs_closed_ w3 then
    Some (set_tag_needs_closed_ false (WriteChar ">"%byte w3))
  else Some w3.

(** [XmlObjectWriter::StartObject]. *)
Definition StartObject (name : bytes) (w : Writer) : option Writer :=
  let w1 :=
    match element_ w with
    | [] => w
    | e :: parents =>
      set_element_
        (set_has_attribute_ false (set_has_text_ false (set_has_child_ false e))
         :: parents) w
    end in
  let w2 := set_start_element_ true w1 in
  tag_name <- match name with
              | _ :: _ => Some name
              | [] =>
                match element_ w2 with
                | [] => None
                | e :: _ =>
                  if is_root (element_ w2) then Some (B "root")
                  else if is_xml_list_ e then Some (name_ e)
                  else Some name
                end
              end ;;
  w3 <- WritePrefix tag_name false w2 ;;
  let w4 := WriteRawString tag_name (WriteChar "<"%byte w3) in
  Some (PushObject tag_name (set_tag_needs_closed_ true w4)).

(** [XmlObjectWriter::EndObject]. *)
Definition EndObject (w : Writer) : option Writer :=
  let w1 := set_start_element_ false w in
  match element_ w1 with
  | [] => None
  | e :: _ =>
    let tag_name := name_ e in
    w2 <- WriteCloseTag w1 ;;
    let w3 :=
      match tag_name with
      | _ :: _ =>
        WriteChar ">"%byte (WriteRawString tag_name (WriteRawString (B "</") w2))
      | [] => w2
      end in
    w4 <- Pop w3 ;;
    w5 <- WriteSuffix w4 ;;
    if is_root (element_ w5) then NewLine false w5 else Some w5
  end.

(** [XmlObjectWriter::StartList]. *)
Definition StartList (name : bytes) (w : Writer) : option Writer :=
  let w1 := set_start_element_ true w in
  w2 <- WritePrefix name false w1 ;;
  Some (PushArray name
          (WriteChar ">"%byte
             (WriteRawString name (WriteRawString (B "<_list_") w2)))).

(** [XmlObjectWriter::EndList]. *)
Definition EndList (w : Writer) : option Writer :=
  let w1 := set_start_element_ false w in
  w2 <- WriteCloseTag w1 ;;
  match element_ w2 with
  | [] => None
  | e :: _ =>
    let tag_name := name_ e in
    let w3 :=
      WriteRawString (B ">")
        (WriteRawString tag_name (WriteRawString (B "</_list_") w2)) in
    w4 <- Pop w3 ;;
    w5 <- WriteSuffix w4 ;;
    match element_ w5 with
    | [] => None
    | _ :: _ => if is_root (element_ w5) then NewLine false w5 else Some w5
    end
  end.

Definition quote_if_named (name : bytes) (w : Writer) : Writer :=
  match name with
  | _ :: _ => WriteChar x22 w
  | [] => w
  end.

(** [XmlObjectWriter::RenderSimple] (xml_objectwriter.h). *)
Definition RenderSimple (name value : bytes) (w : Writer) : option Writer :=
  w1 <- WritePrefix name true w ;;
  w2 <- SetHasTextOrAttribute name
          (quote_if_named name (WriteRawString value (quote_if_named name w1))) ;;
  WriteSuffix w2.

Definition RenderBool (name : bytes) (value : bool) (w : Writer)
  : option Writer :=
  RenderSimple name (if value then B "true" else B "false") w.

Definition RenderInt32 (name : bytes) (value : Z) (w : Writer) : option Writer :=
  RenderSimple name (StrCat_int value) w.

Definition RenderUint32 (name : bytes) (value : Z) (w : Writer)
  : option Writer :=
  RenderSimple name (StrCat_int value) w.

Definition RenderInt64 (name : bytes) (value : Z) (w : Writer) : option Writer :=
  w1 <- WritePrefix name true w ;;
  w2 <- SetHasTextOrAttribute name
          (quote_if_named name
             (WriteRawString (StrCat_int value) (quote_if_named name w1))) ;;
  WriteSuffix w2.

Definition RenderUint64 (name : bytes) (value : Z) (w : Writer)
  : option Writer :=
  w1 <- WritePrefix name true w ;;
  w2 <- SetHasTextOrAttribute name
          (WriteChar x22 (WriteRawString (StrCat_int value) (WriteChar x22 w1))) ;;
  WriteSuffix w2.

Definition RenderString (name value : bytes) (w : Writer) : option Writer :=
  w1 <- WritePrefix name true w ;;
  w2 <- SetHasTextOrAttribute name
          (quote_if_named name
             (WriteRawString (Escape value) (quote_if_named name w1))) ;;
  WriteSuffix w2.

Definition RenderBytes (name value : bytes) (w : Writer) : option Writer :=
  w1 <- WritePrefix name true w ;;
  let base64 :=
    if use_websafe_base64_for_bytes_ w1
    then WebSafeBase64EscapeWithPadding value else Base64Escape value in
  w2 <- SetHasTextOrAttribute name
          (quote_if_named name (WriteRawString base64 (quote_if_named name w1))) ;;
  WriteSuffix w2.

(** [XmlObjectWriter::RenderDouble] and [RenderFloat].  Of the value the
    writer uses [std::isfinite] and the texts the protobuf library makes of
    it: [SimpleDtoa] and [SimpleFtoa] (stubs/strutil.cc), [DoubleAsString]
    and [FloatAsString] (util/internal/utility.cc). *)
Variable double : Type.
Variable isfinite : double -> bool.
Variable SimpleDtoa : double -> bytes.
Variable DoubleAsString : double -> bytes.
Variable float : Type.
Variable isfinite_float : float -> bool.
Variable SimpleFtoa : float -> bytes.
Variable FloatAsString : float -> bytes.

Definition RenderDouble (name : bytes) (value : double) (w : Writer)
  : option Writer :=
  if isfinite value then RenderSimple name (SimpleDtoa value) w
  else RenderString name (DoubleAsString value) w.

Definition RenderFloat (name : bytes) (value : float) (w : Writer)
  : option Writer :=
  if isfinite_float value then RenderSimple name (SimpleFtoa value) w
  else RenderString name (FloatAsString value) w.

Definition RenderNull (name : bytes) (w : Writer) : option Writer :=
  RenderSimple name (B "null") w.

Definition RenderNullAsEmpty (name : bytes) (w : Writer) : option Writer :=
  RenderSimple name [] w.

Definition RenderComments (comments : bytes) (w : Writer) : option Writer :=
  Some (WriteRawString (B "-->")
          (WriteRawString comments (WriteRawString (B "<!--") w))).

(** The writer as an [ObjectWriter]: the call an event stands for. *)
Definition feed (e : ObjectWriter.Event) (w : Writer) : option Writer :=
  match e with
  | ObjectWriter.StartObject name => StartObject name w
  | ObjectWriter.EndObject => EndObject w
  | ObjectWriter.StartList name => StartList name w
  | ObjectWriter.EndList => EndList w
  | ObjectWriter.RenderString name value => RenderString name value w
  end.

Fixpoint feed_all (es : list ObjectWriter.Event) (w : Writer) : option Writer :=
  match es with
  | [] => Some w
  | e :: rest => w1 <- feed e w ;; feed_all rest w1
  end.

End Rendering.

End XmlObjectWriter.

(** * Notions used to state the properties *)

(** The number a string of decimal digits denotes. *)
Fixpoint decimal_value (l : bytes) : Z :=
  match l with
  | [] => 0
  | c :: r => (u8 c - 48) * 10 ^ Z.of_nat (length r) + decimal_value r
  end.

Definition is_digit (c : byte) : bool := in_range 48 57 c.

(** What the writer puts before and after the value of a scalar: the rest
    of the open start tag, and in a list the anonymous element around it.
    [Escape] is the escaping function of the writer. *)
Definition scalar_prefix (Escape : bytes -> bytes) (in_list : bool)
    (name : bytes) : bytes :=
  (if in_list then B "<anonymous" else []) ++
  match name with
  | [] => B ">"
  | _ :: _ => B " " ++ Escape name ++ B "="
  end.

Definition scalar_suffix (in_list : bool) (name : bytes) : bytes :=
  if in_list then
    match name with
    | [] => B "</anonymous>"
    | _ :: _ => B "></anonymous>"
    end
  else [].

(** *** Well-formed UTF-8 text *)

(** A continuation byte. *)
Definition is_cont (c : byte) : bool := in_range 128 191 c.

(** Text that is a sequence of well-formed characters. *)
Inductive utf8_wf : bytes -> Prop :=
| wf_nil : utf8_wf []
| wf_char p k :
    utf8_char_len p = S k -> utf8_wf (skipn (S k) p) -> utf8_wf p.

(** Replacing each invalid byte: going through the text, every well-formed
    character is kept and every byte at which no well-formed character
    starts is replaced by the replacement sequence. *)
Inductive replaced (replacement : bytes) : bytes -> bytes -> Prop :=
| replaced_nil : replaced replacement [] []
| replaced_char p k out :
    utf8_char_len p = S k ->
    replaced replacement (skipn (S k) p) out ->
    replaced replacement p (firstn (S k) p ++ out)
| replaced_byte c p out :
    utf8_char_len (c :: p) = 0%nat ->
    replaced replacement p out ->
    replaced replacement (c :: p) (replacement ++ out).

(** What [NewLine()] appends to the stream: nothing when no indent string is
    set, else a line feed and the indent string once for every level of the
    current element. *)
Definition line_break (w : XmlObjectWriter.Writer) : bytes :=
  match XmlObjectWriter.indent_string_ w with
  | [] => []
  | _ :: _ =>
    x0a :: concat (repeat (XmlObjectWriter.indent_string_ w)
                     (XmlObjectWriter.level (XmlObjectWriter.element_ w)))
  end.

Definition in_quotes (value : bytes) : bytes := [x22] ++ value ++ [x22].

(** An element named anonymous that holds one primitive, as the writer [w]
    lays it out: the value is the text of the element when [name] is empty
    (in quotes when [quote_text] is set) and the attribute name="value" of
    its start tag when it is not; a line break comes before the start tag,
    and one before the end tag when start_element_ is still set and the
    current element is not the root element, as it is for the first
    primitive of a list that was started as the outermost element. *)
Definition anonymous_element (Escape : bytes -> bytes) (name value : bytes)
    (quote_text : bool) (w : XmlObjectWriter.Writer) : bytes :=
  line_break w ++ B "<anonymous"
  ++ match name with
     | [] => B ">" ++ (if quote_text then in_quotes value else value)
     | _ :: _ => B " " ++ Escape name ++ B "=" ++ in_quotes value ++ B ">"
     end
  ++ (if XmlObjectWriter.start_element_ w
         && negb (XmlObjectWriter.is_root (XmlObjectWriter.element_ w))
      then line_break w else [])
  ++ B "</anonymous>".

Section ParserNotions.

Import XmlStreamParser.

(** [a] is what remains of [b] after some bytes. *)
Definition is_suffix (a b : bytes) : Prop := exists k, a = skipn k b.

(** What no parse function changes: the options, the chunk, the leftover;
    and the cursor only moves forward. *)
Definition frame (st st' : Parser) : Prop :=
  finishing_ st' = finishing_ st /\
  coerce_to_utf8_ st' = coerce_to_utf8_ st /\
  utf8_replacement_character_ st' = utf8_replacement_character_ st /\
  max_recursion_depth_ st' = max_recursion_depth_ st /\
  xml_ st' = xml_ st /\
  leftover_ st' = leftover_ st /\
  chunk_storage_ st' = chunk_storage_ st /\
  is_suffix (p_ st') (p_ st).

(** A result that respects the frame and, in finishing mode, is not the
    cancelled sentinel. *)
Definition good (st : Parser) (r : Status * Parser) : Prop :=
  frame st (snd r) /\ (finishing_ st = true -> fst r <> CancelledError).

(** A result that, when OK, has consumed input. *)
Definition consumes (st : Parser) (r : Status * Parser) : Prop :=
  ok (fst r) = true -> (length (p_ (snd r)) < length (p_ st))%nat.

(** What only ParseStartTagName and ParseEndTag change. *)
Definition lexical (st st' : Parser) : Prop :=
  recursion_depth_ st' = recursion_depth_ st /\
  element_type_stack_ st' = element_type_stack_ st /\
  tag_name_stack_ st' = tag_name_stack_ st.

(** The number of OBJECT entries of an element-kind stack. *)
Fixpoint object_count (kinds : list ElementType) : Z :=
  match kinds with
  | [] => 0
  | OBJECT :: rest => 1 + object_count rest
  | LIST :: rest => object_count rest
  end.

Definition depth_counts_objects (st : Parser) : Prop :=
  recursion_depth_ st = object_count (element_type_stack_ st).

Definition is_LIST (k : ElementType) : bool :=
  match k with LIST => true | OBJECT => false end.

(** The round about to run closes an element with a tag of the other kind:
    a list with a name without the _list_ prefix, or an object with a name
    that has it. *)
Definition closes_other_kind (type : ParseType) (st : Parser) : bool :=
  let (t, st1) := next_token type st in
  match type, t with
  | END_TAG, BEGIN_KEY =>
    match ConsumeTagName (p_ st1), element_type_stack_ st1 with
    | Some (name, _), k :: _ => xorb (starts_with name (B "_list_")) (is_LIST k)
    | _, _ => false
    end
  | _, _ => false
  end.

(** The number of entries that are OBJECT and not named anonymous, the two
    stacks read side by side. *)
Fixpoint non_anonymous_object_count (kinds : list ElementType)
    (tags : list (bytes * bool)) : Z :=
  match kinds, tags with
  | OBJECT :: kinds', (name, _) :: tags' =>
    (if bytes_eqb name (B "anonymous") then 0 else 1)
    + non_anonymous_object_count kinds' tags'
  | LIST :: kinds', _ :: tags' => non_anonymous_object_count kinds' tags'
  | _, _ => 0
  end.

(** The Parse calls of a sequence of chunks, up to the first that fails,
    without the closing FinishParse. *)
Fixpoint ParseAll (chunks : list bytes) (st : Parser) : Status * Parser :=
  match chunks with
  | [] => (OkStatus, st)
  | c :: rest =>
    let (result, st1) := Parse c st in
    if ok result then ParseAll rest st1 else (result, st1)
  end.

Import ObjectWriter.

(** *** Runs of the parser loop *)

(** [runs st st']: rounds of the loop of RunParser lead from [st] to [st'],
    none of them returning. *)
Inductive runs : Parser -> Parser -> Prop :=
| runs_refl st : runs st st
| runs_step st type rest st1 st2 :
    stack_ st = type :: rest ->
    RunParser_round type rest st = inl st1 ->
    runs st1 st2 ->
    runs st st2.

(** What the rounds read and write of the state, the string buffers
    apart. *)
Record Config := mkConfig {
  c_stack : list ParseType;
  c_p : bytes;
  c_ow : list Event;
  c_depth : Z;
  c_tags : list (bytes * bool);
  c_kinds : list ElementType }.

Definition config (st : Parser) : Config :=
  mkConfig (stack_ st) (p_ st) (ow_ st) (recursion_depth_ st)
    (tag_name_stack_ st) (element_type_stack_ st).

(** A parser inside a Parse call, no string open, with the given bound. *)
Definition ready (max : Z) (st : Parser) : Prop :=
  finishing_ st = false /\ string_open_ st = x00 /\
  parsed_storage_ st = [] /\ max_recursion_depth_ st = max.

(** From every ready state with configuration [C] the loop runs to a ready
    state with configuration [C']. *)
Definition leads (max : Z) (C C' : Config) : Prop :=
  forall st, ready max st -> config st = C ->
  exists st', runs st st' /\ ready max st' /\ config st' = C'.

(** From every ready state with configuration [C] the loop returns the
    status [r], the sink having received [ow]. *)
Definition returns (max : Z) (C : Config) (r : Status) (ow : list Event)
  : Prop :=
  forall st, ready max st -> config st = C ->
  fst (RunParser st) = r /\ ow_ (snd (RunParser st)) = ow.

(** A tag name or key as ConsumeTagName and ConsumeKey read it. *)
Definition is_name (t : bytes) : bool :=
  match t with
  | c :: r => IsLetter c && forallb IsAlphanumericOrHyphen r
  | [] => false
  end.

(** The event ParseStartTagName emits for an object tag. *)
Definition start_object_event (t : bytes) (tags : list (bytes * bool)) : Event :=
  StartObject
    (if bytes_eqb t (B "root")
        || match tags with [] => false | top :: _ => snd top end
     then [] else t).

Definition too_deep (t : bytes) : Status :=
  InvalidArgumentError None
    (B "Message too deep. Max recursion depth reached for tag '" ++ t ++ B "'").

Definition is_ascii (c : byte) : bool := u8 c <=? 127.

(** A tag name of an element that is no list and not the list wrapper. *)
Definition plain_tag (t : bytes) : bool :=
  is_name t && negb (starts_with t (B "_list_"))
  && negb (bytes_eqb t (B "anonymous")).

Definition opener (t : bytes) : bytes := B "<" ++ t ++ B ">".
Definition closer (t : bytes) : bytes := B "</" ++ t ++ B ">".

(** The elements [ts] nested one in the other, the first outermost. *)
Definition nest (ts : list bytes) : bytes :=
  concat (map opener ts) ++ concat (map closer (rev ts)).

(** The events of the openers [ts] met with the open tags [tags]. *)
Fixpoint start_events (ts : list bytes) (tags : list (bytes * bool))
  : list Event :=
  match ts with
  | [] => []
  | t :: ts' => start_object_event t tags :: start_events ts' ((t, false) :: tags)
  end.

Definition object_tags (ts : list bytes) : list (bytes * bool) :=
  map (fun t => (t, false)) ts.

(** From every ready state with configuration [C] the loop returns the
    failure ReportFailure builds for [message] with the cursor at [p], the
    sink having received [ow]. *)
Definition fails (max : Z) (C : Config) (message : string)
    (code : ParseErrorType) (p : bytes) (ow : list Event) : Prop :=
  forall st, ready max st -> config st = C ->
  fst (RunParser st) = ReportFailure (B message) code (set_p_ p st)
  /\ ow_ (snd (RunParser st)) = ow.

(** The failure of ReportFailure for the text [xml] with the cursor before
    its part [p]. *)
Definition failure_at (message : string) (code : ParseErrorType)
    (xml p : bytes) : Status :=
  ReportFailure (B message) code (set_p_ p (set_xml_ xml New)).

(** The openers of the elements [ts], the first outermost, followed by the
    closers [us] of the innermost ones. *)
Definition partial_nest (ts us : list bytes) : bytes :=
  concat (map opener ts) ++ concat (map closer us).

(** The body of a declaration: ASCII text without a question mark. *)
Definition declaration_body (body : bytes) : bool :=
  forallb (fun c => is_ascii c && negb (Byte.eqb c "?"%byte)) body.

Definition declaration (body : bytes) : bytes := B "<?" ++ body ++ B "?>".

(** Bytes of a text other than its first: no open angle bracket and no
    ampersand. *)
Definition text_tail (body : bytes) : bool :=
  forallb (fun c => negb (Byte.eqb c "<"%byte) && negb (Byte.eqb c "&"%byte))
    body.

(** The first byte of a text as the parser reads it: no white space and
    not the open angle bracket. *)
Definition text_head (c : byte) : bool :=
  negb (ascii_isspace c) && negb (Byte.eqb c "<"%byte).

(** The bytes of the two branches of XmlObjectWriter::NewLine for a level:
    the direct buffer filled with memset, and the loop over the indent
    string. *)
Definition NewLine_direct (w : XmlObjectWriter.Writer) (lvl : nat) : bytes :=
  x0a :: repeat (XmlObjectWriter.indent_char_ w)
           (length (XmlObjectWriter.indent_string_ w) * lvl).

Definition NewLine_loop (w : XmlObjectWriter.Writer) (lvl : nat) : bytes :=
  x0a :: concat (repeat (XmlObjectWriter.indent_string_ w) lvl).

(** A quoted value the parser reads back as it stands: structurally valid
    UTF-8 without the quote and without a backslash. *)
Definition plain_value (q : byte) (v : bytes) : bool :=
  IsStructurallyValidUTF8 v
  && forallb (fun c => negb (Byte.eqb c q) && negb (Byte.eqb c "\"%byte)) v.

Definition is_quote (q : byte) : bool :=
  Byte.eqb q x22 || Byte.eqb q "'"%byte.

(** An attribute as the writer writes it. *)
Definition attribute (kv : bytes * bytes) : bytes :=
  B " " ++ fst kv ++ B "=" ++ [x22] ++ snd kv ++ [x22].

Definition attribute_ok (kv : bytes * bytes) : bool :=
  is_name (fst kv) && plain_value x22 (snd kv).

Definition attribute_event (kv : bytes * bytes) : Event :=
  RenderString (fst kv) (snd kv).

(** The name of a list as it stands behind _list_ in its tag. *)
Definition list_name (name : bytes) : bool :=
  forallb IsAlphanumericOrHyphen name.

Definition list_tag (name : bytes) : bytes := B "_list_" ++ name.

(** A quoted value with backslash escapes: a plain run, then escapes each
    followed by a plain run; and the value it stands for. *)
Definition escaped_value (v0 : bytes) (segs : list (byte * bytes)) : bytes :=
  v0 ++ concat (map (fun s => "\"%byte :: fst s :: snd s) segs).

Definition decoded_value (v0 : bytes) (segs : list (byte * bytes)) : bytes :=
  v0 ++ concat (map (fun s => escaped_char (fst s) :: snd s) segs).

Definition escape_ok (q : byte) (s : byte * bytes) : bool :=
  is_ascii (fst s) && negb (Byte.eqb (fst s) "u"%byte) && plain_value q (snd s).

(** *** Documents as the writer writes them

    The calls an ObjectWriter receives, as a tree: an object with its
    attributes and its content, a text or children; a list with its items;
    a value that is an item of a list.  [name] is the name of the call. *)
#[warnings="-register-all"] Inductive Node :=
| Elem (name : bytes) (attrs : list (bytes * bytes)) (text : bytes)
    (children : list Node)
| Lst (name : bytes) (items : list Node)
| Val (name value : bytes).

(** Where a node stands: at the root, in an object, or in the list of a
    name. *)
Inductive Place :=
| AtRoot
| InObject
| InList (name : bytes).

(** The tag StartObject writes for a name. *)
Definition tag_of (place : Place) (name : bytes) : bytes :=
  match name with
  | _ :: _ => name
  | [] =>
    match place with
    | AtRoot => B "root"
    | InList l => l
    | InObject => []
    end
  end.

(** The ObjectWriter calls of a node. *)
Fixpoint events_of (n : Node) : list Event :=
  match n with
  | Elem name attrs text children =>
    StartObject name :: map attribute_event attrs
    ++ match text with [] => [] | _ :: _ => [RenderString [] text] end
    ++ concat (map events_of children) ++ [EndObject]
  | Lst name items =>
    StartList name :: concat (map events_of items) ++ [EndList]
  | Val name value => [RenderString name value]
  end.

(** The bytes of NewLine at a level. *)
Definition NewLine_bytes (ind : bytes) (lvl : nat) : bytes :=
  match ind with
  | [] => []
  | _ :: _ => x0a :: concat (repeat ind lvl)
  end.

(** A node at a level of indentation, from its tag name on. *)
Fixpoint node_body (ind : bytes) (lvl : nat) (place : Place) (n : Node)
  : bytes :=
  match n with
  | Elem name attrs text children =>
    tag_of place name ++ concat (map attribute attrs) ++ B ">" ++ text
    ++ concat (map (fun c => NewLine_bytes ind (S lvl) ++ B "<"
                             ++ node_body ind (S lvl) InObject c) children)
    ++ match children with [] => [] | _ :: _ => NewLine_bytes ind lvl end
    ++ B "</" ++ tag_of place name ++ B ">"
  | Lst name items =>
    list_tag name ++ B ">"
    ++ concat (map (fun c => NewLine_bytes ind (S lvl) ++ B "<"
                             ++ node_body ind (S lvl) (InList name) c) items)
    ++ match items with [] => [] | _ :: _ => NewLine_bytes ind lvl end
    ++ B "</" ++ list_tag name ++ B ">"
  | Val name value =>
    B "anonymous"
    ++ match name with
       | [] => B ">" ++ value
       | _ :: _ => attribute (name, value) ++ B ">"
       end
    ++ B "</anonymous>"
  end.

Definition document (ind : bytes) (n : Node) : bytes :=
  B "<" ++ node_body ind 0 AtRoot n ++ NewLine_bytes ind 0.

Definition name_ok (place : Place) (name : bytes) : bool :=
  match name, place with
  | [], AtRoot => true
  | [], InList l => plain_tag l
  | [], InObject => false
  | _ :: _, InList _ => false
  | _ :: _, _ => plain_tag name && negb (bytes_eqb name (B "root"))
  end.

(** A text the parser reads back as it stands. *)
Definition text_ok (text : bytes) : bool :=
  match text with
  | [] => false
  | c :: body =>
    text_head c && text_tail body && IsStructurallyValidUTF8 text
  end.

Definition content_ok (text : bytes) (children : list Node) : bool :=
  match text with
  | [] => true
  | _ :: _ =>
    text_ok text && match children with [] => true | _ :: _ => false end
  end.

(** The nodes that are read back as they were written. *)
Fixpoint legal (place : Place) (n : Node) : bool :=
  match n with
  | Elem name attrs text children =>
    name_ok place name && forallb attribute_ok attrs
    && content_ok text children && forallb (legal InObject) children
  | Lst name items =>
    match place with AtRoot => false | _ => true end
    && list_name name && forallb (legal (InList name)) items
  | Val name value =>
    match place with InList _ => true | _ => false end
    && match name with
       | [] => text_ok value
       | _ :: _ => attribute_ok (name, value)
       end
  end.

(** The elements a node nests, the anonymous element of a value counted
    and the element of a list not. *)
Fixpoint height (n : Node) : nat :=
  match n with
  | Elem _ _ _ children => S (fold_right Nat.max O (map height children))
  | Lst _ items => fold_right Nat.max O (map height items)
  | Val _ _ => 1%nat
  end.

Definition top_flag (tags : list (bytes * bool)) : bool :=
  match tags with
  | [] => false
  | top :: _ => snd top
  end.

Definition flag_ok (place : Place) (tags : list (bytes * bool)) : bool :=
  match place with
  | InList _ => top_flag tags
  | _ => negb (top_flag tags)
  end.

(** The parser reads a node, from its tag name on, at every place. *)
Definition parses_node (ind : bytes) (max : Z) (n : Node) : Prop :=
  forall place lvl rest K ow d tags kinds,
  legal place n = true -> d + Z.of_nat (height n) <= max ->
  flag_ok place tags = true ->
  leads max
    (mkConfig (START_TAG :: K) (node_body ind lvl place n ++ rest) ow d tags
       kinds)
    (mkConfig K rest (ow ++ events_of n) d tags kinds).

(** The current element of the writer after a child has been started:
    StartObject clears its three flags and the constructor of the child
    sets has_child. *)
Definition with_child (e : XmlObjectWriter.Element) : XmlObjectWriter.Element :=
  XmlObjectWriter.set_has_child_ true
    (XmlObjectWriter.set_has_attribute_ false
       (XmlObjectWriter.set_has_text_ false
          (XmlObjectWriter.set_has_child_ false e))).

(** The current element of the writer when a node is written at a place,
    and what it is when the node has been written. *)
Definition good_parent (place : Place) (e : XmlObjectWriter.Element) : Prop :=
  XmlObjectWriter.anonymous_ e = false
  /\ XmlObjectWriter.list_child_needs_end_tag_ e = false
  /\ match place with
     | InList l =>
       XmlObjectWriter.is_xml_list_ e = true /\ XmlObjectWriter.name_ e = l
     | _ => XmlObjectWriter.is_xml_list_ e = false
     end.

Definition parent_after (e e' : XmlObjectWriter.Element) : Prop :=
  XmlObjectWriter.name_ e' = XmlObjectWriter.name_ e
  /\ XmlObjectWriter.is_xml_list_ e' = XmlObjectWriter.is_xml_list_ e
  /\ XmlObjectWriter.anonymous_ e' = XmlObjectWriter.anonymous_ e
  /\ XmlObjectWriter.list_child_needs_end_tag_ e'
     = XmlObjectWriter.list_child_needs_end_tag_ e
  /\ XmlObjectWriter.has_child_ e' = true.

(** The names and values of a node that the writer escapes. *)
Fixpoint strings_of (n : Node) : list bytes :=
  match n with
  | Elem name attrs text children =>
    map fst attrs ++ map snd attrs
    ++ match text with [] => [] | _ :: _ => [text] end
    ++ concat (map strings_of children)
  | Lst name items => concat (map strings_of items)
  | Val name value =>
    match name with [] => [value] | _ :: _ => [name; value] end
  end.

(** The writer writes a node at every place: the bytes that close a
    pending opener, the new line, and the node. *)
Definition writes_node (Escape : bytes -> bytes) (ind : bytes) (ic : byte)
    (icn : nat) (uw : bool) (n : Node) : Prop :=
  forall place e parents s b se more,
  good_parent place e -> legal place n = true ->
  (place = AtRoot <-> parents = []) ->
  (match place with InList _ => b = false /\ se = false | _ => True end) ->
  Forall (fun x => Escape x = x) (strings_of n) ->
  exists e',
    XmlObjectWriter.feed_all Escape (events_of n ++ more)
      (XmlObjectWriter.mkWriter (e :: parents) s ind ic icn uw b se)
    = XmlObjectWriter.feed_all Escape more
        (XmlObjectWriter.mkWriter (e' :: parents)
           (s ++ (if b then [">"%byte] else [])
            ++ match parents with
               | [] => []
               | _ :: _ => NewLine_bytes ind (length parents)
               end ++ "<"%byte :: node_body ind (length parents) place n
            ++ match parents with
               | [] => NewLine_bytes ind 0
               | _ :: _ => []
               end)
           ind ic icn uw false false)
    /\ parent_after e e'.

(** A root object with a child object and, behind it, the bytes of one
    more call. *)
Definition child_then (ind : bytes) (c written : bytes) : bytes :=
  B "<root>" ++ NewLine_bytes ind 1 ++ opener c ++ closer c ++ written
  ++ NewLine_bytes ind 0 ++ B "</root>" ++ NewLine_bytes ind 0.

(** The value of a hexadecimal digit and of a sequence of them. *)
Definition hex_digit_value (c : byte) : Z :=
  let n := u8 c in
  if n <=? 57 then n - 48 else if n <=? 70 then n - 55 else n - 87.

Definition hex_value (ds : bytes) : Z :=
  fold_left (fun acc d => acc * 16 + hex_digit_value d) ds 0.

Definition is_hex4 (ds : bytes) : bool :=
  Nat.eqb (length ds) 4 && forallb isxdigit ds.

(** A backslash escape of a quoted value: a single byte, a code point in
    four hexadecimal digits, or a pair of surrogates. *)
Inductive Esc :=
| EChar (c : byte)
| EUnicode (ds : bytes)
| EPair (high low : bytes).

Definition esc_source (e : Esc) : bytes :=
  match e with
  | EChar c => ["\"%byte; c]
  | EUnicode ds => B "\u" ++ ds
  | EPair high low => B "\u" ++ high ++ B "\u" ++ low
  end.

Definition esc_ok (e : Esc) : bool :=
  match e with
  | EChar c => is_ascii c && negb (Byte.eqb c "u"%byte)
  | EUnicode ds => is_hex4 ds && IsValidCodePoint (hex_value ds)
  | EPair high low =>
    is_hex4 high && is_hex4 low
    && (kMinHighSurrogate <=? hex_value high)
    && (hex_value high <=? kMaxHighSurrogate)
    && (kMinLowSurrogate <=? hex_value low)
    && (hex_value low <=? kMaxLowSurrogate)
  end.

(** The code point of a unicode escape; a pair of surrogates stands for a
    code point above U+FFFF. *)
Definition code_point (e : Esc) : Z :=
  match e with
  | EChar c => u8 (escaped_char c)
  | EUnicode ds => hex_value ds
  | EPair high low =>
    kMinSupplementaryCodePoint
    + (hex_value high - kMinHighSurrogate) * 1024
    + (hex_value low - kMinLowSurrogate)
  end.

Definition esc_decoded (e : Esc) : bytes :=
  match e with
  | EChar c => [escaped_char c]
  | _ => EncodeAsUTF8Char (code_point e)
  end.

(** A quoted value: a plain run, then escapes each followed by a plain
    run; and the value it stands for. *)
Definition quoted_source (v0 : bytes) (segs : list (Esc * bytes)) : bytes :=
  v0 ++ concat (map (fun s => esc_source (fst s) ++ snd s) segs).

Definition quoted_meaning (v0 : bytes) (segs : list (Esc * bytes)) : bytes :=
  v0 ++ concat (map (fun s => esc_decoded (fst s) ++ snd s) segs).

Definition seg_ok (q : byte) (s : Esc * bytes) : bool :=
  esc_ok (fst s) && plain_value q (snd s).

(** As [fails], for a parser whose option coerce_to_utf8_ is off, which is
    how the constructor leaves it. *)
Definition fails_uncoerced (max : Z) (C : Config) (message : string)
    (code : ParseErrorType) (p : bytes) (ow : list Event) : Prop :=
  forall st, ready max st -> coerce_to_utf8_ st = false -> config st = C ->
  fst (RunParser st) = ReportFailure (B message) code (set_p_ p st)
  /\ ow_ (snd (RunParser st)) = ow.

(** The error for the escape of a surrogate, written with the digits [ds]
    and followed by [rest], that is not half of a pair; [None] when the
    digits denote no surrogate or a high surrogate that [rest] completes. *)
Definition lone_surrogate_error (ds rest : bytes)
  : option (string * ParseErrorType) :=
  if hex_value ds <? kMinHighSurrogate then None
  else if kMaxLowSurrogate <? hex_value ds then None
  else if kMaxHighSurrogate <? hex_value ds then
    Some ("Invalid unicode code point."%string, INVALID_UNICODE)
  else
    match rest with
    | c1 :: c2 :: low =>
      if Byte.eqb c1 "\"%byte && Byte.eqb c2 "u"%byte then
        if forallb isxdigit (firstn 4 low) then
          if (kMinLowSurrogate <=? hex_value (firstn 4 low))
             && (hex_value (firstn 4 low) <=? kMaxLowSurrogate)
          then None
          else Some ("Invalid low surrogate."%string, INVALID_LOW_SURROGATE)
        else Some ("Invalid escape sequence."%string, INVALID_ESCAPE_SEQUENCE)
      else Some ("Missing low surrogate."%string, MISSING_LOW_SURROGATE)
    | _ => Some ("Missing low surrogate."%string, MISSING_LOW_SURROGATE)
    end.

(** The number of open elements a parser stack stands for: under its top
    entry the stack holds one TEXT per open element whose opener is
    complete; the top entry stands for one more element when it is a state
    inside an opener or inside the closing of an element. *)
Definition is_TEXT (t : ParseType) : bool := ParseType_eqb t TEXT.

Definition open_elements (stack : list ParseType) : option nat :=
  match stack with
  | [] => Some 0%nat
  | top :: below =>
    if forallb is_TEXT below then
      match top with
      | BEGIN_ELEMENT =>
        match below with [] => Some 0%nat | _ :: _ => None end
      | START_TAG | END_ELEMENT_CLOSE => Some (length below)
      | ELEMENT_MID => None
      | _ => Some (S (length below))
      end
    else None
  end.

(** The stacks of a parser that has not read a tag name yet. *)
Definition before_first_tag (stack : list ParseType) : bool :=
  match stack with
  | [BEGIN_ELEMENT] | [START_TAG] => true
  | _ => false
  end.

(** The three stacks of the parser agree. *)
Definition balanced (st : Parser) : Prop :=
  open_elements (stack_ st) = Some (length (tag_name_stack_ st))
  /\ length (element_type_stack_ st) = length (tag_name_stack_ st)
  /\ (before_first_tag (stack_ st) = true -> ow_ st = []).

(** [st'] has the stacks and the sink of [st]. *)
Definition same_stacks (st st' : Parser) : Prop :=
  stack_ st' = stack_ st /\ tag_name_stack_ st' = tag_name_stack_ st
  /\ element_type_stack_ st' = element_type_stack_ st /\ ow_ st' = ow_ st.

(** A result within the contract that leaves the stacks and the sink as
    they are. *)
Definition keeps (st : Parser) (r : Status * Parser) : Prop :=
  same_stacks st (snd r) /\ fst r <> Undefined.
(** The premises of a round: the state after the top of the stack has been
    popped, [type] being what was popped and [t] the token. *)
Definition popped (type : ParseType) (t : TokenType) (st : Parser) : Prop :=
  open_elements (type :: stack_ st) = Some (length (tag_name_stack_ st))
  /\ length (element_type_stack_ st) = length (tag_name_stack_ st)
  /\ (before_first_tag (type :: stack_ st) = true -> ow_ st = [])
  /\ (t = BEGIN_STRING -> string_open_ st = x00 -> p_ st <> []).

(** What a parse function leaves: balanced stacks when the round goes on,
    the stacks as they were when it asks for more input, and an execution
    outside the contract only before anything was delivered. *)
Definition settles (st : Parser) (r : Status * Parser) : Prop :=
  (ok (fst r) = true -> balanced (snd r))
  /\ (IsCancelled (fst r) = true -> same_stacks st (snd r))
  /\ (fst r = Undefined -> ow_ (snd r) = [] /\ tag_name_stack_ (snd r) = []).
(** A result of the loop, of Parse or of FinishParse: balanced stacks when
    the status is OK, and an execution outside the contract only before
    anything was delivered. *)
Definition safe_result (r : Status * Parser) : Prop :=
  (ok (fst r) = true -> balanced (snd r))
  /\ (fst r = Undefined -> ow_ (snd r) = [] /\ tag_name_stack_ (snd r) = []).

(** The text a Parse call works on, the leftover followed by the input,
    and the state in which it goes on: when there is a leftover it has been
    moved to chunk_storage_ and the input appended to it. *)
Definition Parse_chunk (xml : bytes) (st : Parser) : bytes * Parser :=
  match leftover_ st with
  | [] => (xml, st)
  | _ :: _ =>
    let swapped :=
      set_leftover_ (chunk_storage_ st) (set_chunk_storage_ (leftover_ st) st) in
    let st' := set_chunk_storage_ (chunk_storage_ swapped ++ xml) swapped in
    (chunk_storage_ st', st')
  end.

(** The state in which a Parse call enters the parser loop: ParseChunk is
    given the longest structurally valid UTF-8 prefix of the text, points
    xml_ and p_ to it and clears finishing_. *)
Definition Parse_entry (xml : bytes) (st : Parser) : Parser :=
  let (chunk, st1) := Parse_chunk xml st in
  let chunk' := firstn (UTF8SpnStructurallyValid chunk) chunk in
  set_finishing_ false (set_p_ chunk' (set_xml_ chunk' st1)).

End ParserNotions.

(** ** ZeroCopyStreamByteSink (xml_util.cc) *)
Module ZeroCopyStreamByteSink.

(** Conversions of the integer types: [int] is 32 bits wide, [size_t] 64. *)
Definition to_int (z : Z) : Z := (z + 2147483648) mod 4294967296 - 2147483648.
Definition to_size_t (z : Z) : Z := z mod 18446744073709551616.

(** [SegmentedZeroCopyOutputStream] of the unit tests: an output stream over
    several buffers.  A segment is given by the bytes its buffer holds;
    [segments_] has the back of the vector first.  [done_] is the memory of
    the segments handed out before [last_segment_], which the stream itself
    no longer refers to. *)
Record Stream := mkStream {
  done_ : bytes;
  last_segment_ : bytes;
  segments_ : list bytes;
  byte_count_ : Z
}.

(** The constructor, which reverses the vector: the first segment is the
    first handed out. *)
Definition SegmentedZeroCopyOutputStream (segments : list bytes) : Stream :=
  mkStream [] [] segments 0.

(** [Next(&buffer, &length)]: the stream, the buffer being the whole of
    [last_segment_], and the length. *)
Definition Next (s : Stream) : option (Stream * Z) :=
  match segments_ s with
  | [] => None
  | seg :: rest =>
    Some (mkStream (done_ s ++ last_segment_ s) seg rest
            (byte_count_ s + Z.of_nat (length seg)),
          to_int (Z.of_nat (length seg)))
  end.

(** [BackUp(length)]; [None] when the GOOGLE_CHECK fails. *)
Definition BackUp (n : Z) (s : Stream) : option Stream :=
  if n <=? to_int (Z.of_nat (length (last_segment_ s))) then
    let backup := Z.to_nat (to_size_t (Z.of_nat (length (last_segment_ s))
                                       - to_size_t n)) in
    Some (mkStream (done_ s) (firstn backup (last_segment_ s))
            (skipn backup (last_segment_ s) :: segments_ s)
            (byte_count_ s - n))
  else None.

Definition ByteCount (s : Stream) : Z := byte_count_ s.

(** The bytes of all the buffers, in the order of the segments. *)
Definition memory (s : Stream) : bytes :=
  done_ s ++ last_segment_ s ++ concat (segments_ s).

(** [memcpy(buffer, data, length data)], [buffer] pointing into a segment at
    an offset. *)
Definition memcpy (segment : bytes) (buffer : nat) (data : bytes) : bytes :=
  firstn buffer segment ++ data ++ skipn (buffer + length data) segment.

(** The data members of [ZeroCopyStreamByteSink]; [buffer_] is an offset
    into [last_segment_] of the stream. *)
Record Sink := mkSink {
  stream_ : Stream;
  buffer_ : nat;
  buffer_size_ : Z
}.

Definition New (stream : Stream) : Sink := mkSink stream 0 0.

(** The loop of [Append], by recursion on the segments the stream has yet
    to hand out: an iteration that does not return calls [Next]. *)
Fixpoint Append_loop (segments : list bytes) (done last : bytes) (count : Z)
    (buffer : nat) (size : Z) (data : bytes) : Sink :=
  let len := Z.of_nat (length data) in
  if len <=? to_size_t size then
    mkSink (mkStream done (memcpy last buffer data) segments count)
      (buffer + length data) (to_int (to_size_t size - len))
  else
    let n := Z.to_nat (to_size_t size) in
    let last1 := if 0 <? size then memcpy last buffer (firstn n data) else last in
    let data1 := if 0 <? size then skipn n data else data in
    match segments with
    | [] => mkSink (mkStream done last1 [] count) buffer 0
    | seg :: rest =>
      Append_loop rest (done ++ last1) seg (count + Z.of_nat (length seg))
        0 (to_int (Z.of_nat (length seg))) data1
    end.

(** [ZeroCopyStreamByteSink::Append]. *)
Definition Append (data : bytes) (s : Sink) : Sink :=
  Append_loop (segments_ (stream_ s)) (done_ (stream_ s))
    (last_segment_ (stream_ s)) (byte_count_ (stream_ s))
    (buffer_ s) (buffer_size_ s) data.

(** The destructor: the stream it leaves. *)
Definition Destroy (s : Sink) : option Stream :=
  if 0 <? buffer_size_ s then BackUp (buffer_size_ s) (stream_ s)
  else Some (stream_ s).

(** The state of a sink that has received [inp] and has room left, and the
    state of one that has received more than the stream holds; [mem0] is
    the memory of the stream at the start. *)
Definition has_room (mem0 inp : bytes) (s : Sink) : Prop :=
  done_ (stream_ s) ++ firstn (buffer_ s) (last_segment_ (stream_ s)) = inp
  /\ skipn (buffer_ s) (last_segment_ (stream_ s))
     ++ concat (segments_ (stream_ s))
     = skipn (length inp) mem0
  /\ (length inp <= length mem0)%nat
  /\ (buffer_ s <= length (last_segment_ (stream_ s)))%nat
  /\ buffer_size_ s
     = Z.of_nat (length (last_segment_ (stream_ s)) - buffer_ s).

Definition is_full (mem0 inp : bytes) (s : Sink) : Prop :=
  segments_ (stream_ s) = [] /\ buffer_size_ s = 0
  /\ done_ (stream_ s) ++ last_segment_ (stream_ s)
     = firstn (length mem0) inp
  /\ (length mem0 < length inp)%nat
  /\ (buffer_ s <= length (last_segment_ (stream_ s)))%nat.

Definition small (seg : bytes) : Prop := Z.of_nat (length seg) < 2147483648.

Definition tracks (mem0 inp : bytes) (s : Sink) : Prop :=
  (has_room mem0 inp s \/ is_full mem0 inp s)
  /\ byte_count_ (stream_ s)
     = Z.of_nat (length (done_ (stream_ s))
                 + length (last_segment_ (stream_ s)))
  /\ small (last_segment_ (stream_ s))
  /\ Forall small (segments_ (stream_ s)).

End ZeroCopyStreamByteSink.


(*PROPERTIES*)
(** * Properties *)

Ltac norm_app :=
  repeat rewrite <- app_assoc; simpl; repeat rewrite <- app_assoc;
  rewrite ?app_nil_r.

(** ** The writer *)
Section WriterProperties.

Import XmlObjectWriter.

Variable Escape : bytes -> bytes.
Variable Base64Escape : bytes -> bytes.
Variable WebSafeBase64EscapeWithPadding : bytes -> bytes.
Variable double : Type.
Variable isfinite : double -> bool.
Variable SimpleDtoa : double -> bytes.
Variable DoubleAsString : double -> bytes.
Variable float : Type.
Variable isfinite_float : float -> bool.
Variable SimpleFtoa : float -> bytes.
Variable FloatAsString : float -> bytes.

Ltac in_list w e :=
  intros He Hl;
  destruct w as [el st ind ic icnt ws tnc se]; simpl in *; subst;
  destruct e as [nm fst ob li hc ht ha lc an]; simpl in Hl; subst.

Ltac by_cases name ps :=
  match goal with
  | |- context [mkWriter _ _ ?ind _ _ _ ?tnc ?se] =>
    destruct name as [|c name], tnc, se, ps as [|p ps], ind as [|i ind]
  end;
  cbv -[app concat repeat length B StrCat_int];
  rewrite <- ?app_assoc; cbn [app length repeat concat];
  rewrite <- ?app_assoc; reflexivity.

(** What each renderer that has a body of its own writes when the current
    element is a list: the value in an element named anonymous. *)
Lemma RenderString_in_list (w : Writer) e ps name value :
  element_ w = e :: ps -> is_xml_list_ e = true ->
  option_map stream_ (RenderString Escape name value w)
  = Some (stream_ w ++ anonymous_element Escape name (Escape value) false w).
Proof. in_list w e. by_cases name ps. Qed.

Lemma RenderSimple_in_list (w : Writer) e ps name value :
  element_ w = e :: ps -> is_xml_list_ e = true ->
  option_map stream_ (RenderSimple Escape name value w)
  = Some (stream_ w ++ anonymous_element Escape name value false w).
Proof. in_list w e. by_cases name ps. Qed.

Lemma RenderInt64_in_list (w : Writer) e ps name value :
  element_ w = e :: ps -> is_xml_list_ e = true ->
  option_map stream_ (RenderInt64 Escape name value w)
  = Some (stream_ w
          ++ anonymous_element Escape name (StrCat_int value) false w).
Proof. in_list w e. by_cases name ps. Qed.

Lemma RenderUint64_in_list (w : Writer) e ps name value :
  element_ w = e :: ps -> is_xml_list_ e = true ->
  option_map stream_ (RenderUint64 Escape name value w)
  = Some (stream_ w
          ++ anonymous_element Escape name (StrCat_int value) true w).
Proof. in_list w e. by_cases name ps. Qed.

Lemma RenderBytes_in_list (w : Writer) e ps name value :
  element_ w = e :: ps -> is_xml_list_ e = true ->
  option_map stream_
    (RenderBytes Escape Base64Escape WebSafeBase64EscapeWithPadding
       name value w)
  = Some (stream_ w
          ++ anonymous_element Escape name
               (if use_websafe_base64_for_bytes_ w
                then WebSafeBase64EscapeWithPadding value
                else Base64Escape value) false w).
Proof. in_list w e. destruct ws; by_cases name ps. Qed.

(** C7.  The writer, with no indent string, turns
    start_object(""), start_list("test"), render_scalar("","a"), end_list(),
    end_object() into <root><_list_test><anonymous>a</anonymous></_list_test></root>
    (the escaping of "a" being "a").  In general, whenever the current
    element is a list, with or without an indent string, every renderer of
    a primitive (RenderString, RenderBytes, RenderInt64, RenderUint64, and
    RenderSimple with the renderers that call it or RenderString:
    RenderBool, RenderInt32, RenderUint32, RenderDouble, RenderFloat,
    RenderNull and RenderNullAsEmpty) appends to the stream one element
    named anonymous that holds the value: as the text between the start tag
    and the end tag when the name is empty (RenderUint64 puts the text in
    quotes), as the attribute name="value" of the start tag when it is
    not.  With an indent string a line break comes before the start tag,
    and one before the end tag when start_element_ is still set, as it is
    for the first primitive of a list started as the outermost element. *)
Theorem writer_wraps_list_primitive_in_anonymous :
  forall (w : Writer) e ps name value (b : bool) (i : Z) (d : double)
         (f : float),
    Escape (B "a") = B "a" ->
    element_ w = e :: ps ->
    is_xml_list_ e = true ->
    let wrapped := fun (text : bytes) (quote_text : bool) =>
      Some (stream_ w ++ anonymous_element Escape name text quote_text w) in
    option_map stream_
      (feed_all Escape
         [ObjectWriter.StartObject []; ObjectWriter.StartList (B "test");
          ObjectWriter.RenderString [] (B "a"); ObjectWriter.EndList;
          ObjectWriter.EndObject]
         (New []))
    = Some (B "<root><_list_test><anonymous>a</anonymous></_list_test></root>")
    /\ option_map stream_ (RenderString Escape name value w)
       = wrapped (Escape value) false
    /\ option_map stream_
         (RenderBytes Escape Base64Escape WebSafeBase64EscapeWithPadding
            name value w)
       = wrapped (if use_websafe_base64_for_bytes_ w
                  then WebSafeBase64EscapeWithPadding value
                  else Base64Escape value) false
    /\ option_map stream_ (RenderInt64 Escape name i w)
       = wrapped (StrCat_int i) false
    /\ option_map stream_ (RenderUint64 Escape name i w)
       = wrapped (StrCat_int i) true
    /\ option_map stream_ (RenderSimple Escape name value w)
       = wrapped value false
    /\ option_map stream_ (RenderBool Escape name b w)
       = wrapped (if b then B "true" else B "false") false
    /\ option_map stream_ (RenderInt32 Escape name i w)
       = wrapped (StrCat_int i) false
    /\ option_map stream_ (RenderUint32 Escape name i w)
       = wrapped (StrCat_int i) false
    /\ option_map stream_
         (RenderDouble Escape double isfinite SimpleDtoa DoubleAsString
            name d w)
       = wrapped (if isfinite d then SimpleDtoa d
                  else Escape (DoubleAsString d)) false
    /\ option_map stream_
         (RenderFloat Escape float isfinite_float SimpleFtoa FloatAsString
            name f w)
       = wrapped (if isfinite_float f then SimpleFtoa f
                  else Escape (FloatAsString f)) false
    /\ option_map stream_ (RenderNull Escape name w)
       = wrapped (B "null") false
    /\ option_map stream_ (RenderNullAsEmpty Escape name w)
       = wrapped [] false.
Proof.
  intros w e ps name value b i d f Ha He Hl wrapped. subst wrapped.
  split.
  { cbn in Ha |- *. rewrite Ha. reflexivity. }
  repeat split.
  - eapply RenderString_in_list; eassumption.
  - eapply RenderBytes_in_list; eassumption.
  - eapply RenderInt64_in_list; eassumption.
  - eapply RenderUint64_in_list; eassumption.
  - eapply RenderSimple_in_list; eassumption.
  - eapply RenderSimple_in_list; eassumption.
  - eapply RenderSimple_in_list; eassumption.
  - eapply RenderSimple_in_list; eassumption.
  - unfold RenderDouble. destruct (isfinite d).
    + eapply RenderSimple_in_list; eassumption.
    + eapply RenderString_in_list; eassumption.
  - unfold RenderFloat. destruct (isfinite_float f).
    + eapply RenderSimple_in_list; eassumption.
    + eapply RenderString_in_list; eassumption.
  - eapply RenderSimple_in_list; eassumption.
  - eapply RenderSimple_in_list; eassumption.
Qed.

End WriterProperties.

Lemma writer_wraps_list_primitive_in_anonymous_witness :
  let Escape := fun s : bytes => s in
  let list_in_root := fun indent =>
    XmlObjectWriter.PushArray (B "test")
      (XmlObjectWriter.PushObject (B "root") (XmlObjectWriter.New indent)) in
  option_map XmlObjectWriter.stream_
    (XmlObjectWriter.RenderString Escape [] (B "a") (list_in_root []))
  = Some (B "<anonymous>a</anonymous>")
  /\ option_map XmlObjectWriter.stream_
       (XmlObjectWriter.RenderUint64 Escape (B "n") 42
          (list_in_root (B "  ")))
     = Some ([x0a] ++ B "    <anonymous n=" ++ [x22] ++ B "42" ++ [x22]
             ++ B "></anonymous>").
Proof.
  intros Escape list_in_root.
  pose (chain :=
    [XmlObjectWriter.set_has_child_ true
       (XmlObjectWriter.new_Element true false (B "root"));
     XmlObjectWriter.set_has_child_ true
       (XmlObjectWriter.new_Element false false [])]).
  split.
  - exact (proj1 (proj2
      (writer_wraps_list_primitive_in_anonymous Escape Escape Escape
         bool (fun _ => true) (fun _ => []) (fun _ => [])
         bool (fun _ => true) (fun _ => []) (fun _ => [])
         (list_in_root [])
         (XmlObjectWriter.new_Element false true (B "test")) chain
         [] (B "a") true 0 true true eq_refl eq_refl eq_refl))).
  - exact (proj1 (proj2 (proj2 (proj2 (proj2
      (writer_wraps_list_primitive_in_anonymous Escape Escape Escape
         bool (fun _ => true) (fun _ => []) (fun _ => [])
         bool (fun _ => true) (fun _ => []) (fun _ => [])
         (list_in_root (B "  "))
         (XmlObjectWriter.new_Element false true (B "test")) chain
         (B "n") [] true 42 true true eq_refl eq_refl eq_refl)))))).
Defined.

(** ** Decimal rendering *)

Lemma u8_byte_of_Z z : 0 <= z < 256 -> u8 (byte_of_Z z) = z.
Proof.
  intros Hz. unfold u8, byte_of_Z.
  rewrite Z.mod_small by lia.
  destruct (Byte.of_N (Z.to_N z)) eqn:E.
  - apply Byte.to_of_N in E. rewrite E. lia.
  - apply Byte.of_N_None_iff in E. lia.
Qed.

Lemma digits_fuel_S fuel n acc :
  digits_fuel (S fuel) n acc =
  if n / 10 =? 0 then byte_of_Z (48 + n mod 10) :: acc
  else digits_fuel fuel (n / 10) (byte_of_Z (48 + n mod 10) :: acc).
Proof. reflexivity. Qed.

Lemma digits_fuel_spec fuel : forall n acc,
  0 <= n < 2 ^ Z.of_nat fuel ->
  forallb is_digit acc = true ->
  forallb is_digit (digits_fuel (S fuel) n acc) = true /\
  decimal_value (digits_fuel (S fuel) n acc)
  = n * 10 ^ Z.of_nat (length acc) + decimal_value acc.
Proof.
  induction fuel as [|fuel IH]; intros n acc Hn Hacc.
  - assert (n = 0) by (simpl in Hn; lia). subst n.
    simpl. split; [assumption|]. lia.
  - rewrite (digits_fuel_S (S fuel)).
    assert (Hmod : 0 <= n mod 10 < 10) by (apply Z.mod_pos_bound; lia).
    assert (Hd : u8 (byte_of_Z (48 + n mod 10)) = 48 + n mod 10)
      by (apply u8_byte_of_Z; lia).
    assert (Hacc' : forallb is_digit (byte_of_Z (48 + n mod 10) :: acc) = true).
    { cbn [forallb]. rewrite Hacc. unfold is_digit, in_range. rewrite Hd.
      apply andb_true_iff; split; [|reflexivity].
      apply andb_true_iff; split; apply Z.leb_le; lia. }
    assert (Hval : decimal_value (byte_of_Z (48 + n mod 10) :: acc)
                   = (n mod 10) * 10 ^ Z.of_nat (length acc) + decimal_value acc).
    { cbn [decimal_value]. rewrite Hd. f_equal. f_equal. lia. }
    destruct (n / 10 =? 0) eqn:E.
    + apply Z.eqb_eq in E. split; [assumption|].
      rewrite Hval. pose proof (Z.div_mod n 10). f_equal. f_equal. lia.
    + apply Z.eqb_neq in E.
      assert (Hn' : 0 <= n / 10 < 2 ^ Z.of_nat fuel).
      { split; [apply Z.div_pos; lia|].
        apply Z.div_lt_upper_bound; [lia|].
        replace (Z.of_nat (S fuel)) with (Z.of_nat fuel + 1) in Hn by lia.
        rewrite Z.pow_add_r in Hn by lia.
        assert (0 < 2 ^ Z.of_nat fuel) by (apply Z.pow_pos_nonneg; lia).
        lia. }
      destruct (IH (n / 10) _ Hn' Hacc') as [H1 H2].
      split; [exact H1|].
      rewrite H2, Hval.
      replace (Z.of_nat (length (byte_of_Z (48 + n mod 10) :: acc)))
        with (Z.of_nat (length acc) + 1) by (simpl length; lia).
      rewrite Z.pow_add_r by lia.
      assert (Hdm : n = 10 * (n / 10) + n mod 10) by (apply Z.div_mod; lia).
      rewrite Hdm at 3. ring.
Qed.

Lemma StrCat_int_decimal v : 0 <= v ->
  forallb is_digit (StrCat_int v) = true /\ decimal_value (StrCat_int v) = v.
Proof.
  intros Hv. unfold StrCat_int.
  destruct (v <? 0) eqn:E; [apply Z.ltb_lt in E; lia|].
  rewrite Z.abs_eq by lia.
  destruct (digits_fuel_spec (N.to_nat (N.size (Z.to_N v))) v []) as [H1 H2].
  - split; [lia|].
    rewrite N_nat_Z.
    destruct (Z.eq_dec v 0) as [->|Hne]; [simpl; lia|].
    pose proof (N.size_gt (Z.to_N v)) as Hs.
    apply N2Z.inj_lt in Hs. rewrite Z2N.id in Hs by lia.
    rewrite N2Z.inj_pow in Hs. exact Hs.
  - reflexivity.
  - split; [exact H1|]. rewrite H2. simpl. lia.
Qed.

Section Int64Rendering.

Import XmlObjectWriter.

Variable Escape : bytes -> bytes.

Lemma RenderUint64_stream (w : Writer) e ps name v :
  element_ w = e :: ps ->
  is_xml_list_ e = false \/ indent_string_ w = [] ->
  option_map stream_ (RenderUint64 Escape name v w) =
  Some (stream_ w ++ scalar_prefix Escape (is_xml_list_ e) name ++ [x22]
          ++ StrCat_int v ++ [x22] ++ scalar_suffix (is_xml_list_ e) name).
Proof.
  intros He Hc. unfold RenderUint64. generalize (StrCat_int v) as digits.
  intros digits.
  destruct w as [el st ind ic icnt ws tnc se]; simpl in *; subst.
  destruct e as [nm fst ob li hc ht ha lc an]; simpl in *.
  destruct li.
  - destruct Hc as [Hc|Hc]; [discriminate|subst ind].
    destruct name as [|c name], tnc, se, ps as [|p ps]; cbn; norm_app;
      reflexivity.
  - destruct name as [|c name], tnc; cbn; norm_app; reflexivity.
Qed.

Lemma RenderInt64_stream (w : Writer) e ps v :
  element_ w = e :: ps ->
  is_xml_list_ e = false \/ indent_string_ w = [] ->
  option_map stream_ (RenderInt64 Escape [] v w) =
  Some (stream_ w ++ scalar_prefix Escape (is_xml_list_ e) [] ++ StrCat_int v
          ++ scalar_suffix (is_xml_list_ e) []).
Proof.
  intros He Hc. unfold RenderInt64. generalize (StrCat_int v) as digits.
  intros digits.
  destruct w as [el st ind ic icnt ws tnc se]; simpl in *; subst.
  destruct e as [nm fst ob li hc ht ha lc an]; simpl in *.
  destruct li.
  - destruct Hc as [Hc|Hc]; [discriminate|subst ind].
    destruct tnc, se, ps as [|p ps]; cbn; norm_app; reflexivity.
  - destruct tnc; cbn; norm_app; reflexivity.
Qed.

End Int64Rendering.

(** C10.  For every uint64 value v, RenderUint64(name, v) writes the
    decimal digits of v between double quotes whatever the name, so also in
    text position (empty name), where RenderInt64("", i) writes the digits
    of i bare.  Both write them after the same prefix and before the same
    suffix: ">" and nothing in an object, "<anonymous>" and "</anonymous>"
    in a list. *)
Theorem RenderUint64_quotes_text_RenderInt64_does_not :
  forall (Escape : bytes -> bytes) (w : XmlObjectWriter.Writer) e ps name v i,
    XmlObjectWriter.element_ w = e :: ps ->
    XmlObjectWriter.is_xml_list_ e = false
      \/ XmlObjectWriter.indent_string_ w = [] ->
    0 <= v < 2 ^ 64 ->
    - 2 ^ 63 <= i < 2 ^ 63 ->
    option_map XmlObjectWriter.stream_
      (XmlObjectWriter.RenderUint64 Escape name v w)
    = Some (XmlObjectWriter.stream_ w
              ++ scalar_prefix Escape (XmlObjectWriter.is_xml_list_ e) name
              ++ [x22] ++ StrCat_int v ++ [x22]
              ++ scalar_suffix (XmlObjectWriter.is_xml_list_ e) name)
    /\ option_map XmlObjectWriter.stream_
         (XmlObjectWriter.RenderInt64 Escape [] i w)
       = Some (XmlObjectWriter.stream_ w
                 ++ scalar_prefix Escape (XmlObjectWriter.is_xml_list_ e) []
                 ++ StrCat_int i
                 ++ scalar_suffix (XmlObjectWriter.is_xml_list_ e) [])
    /\ forallb is_digit (StrCat_int v) = true
    /\ decimal_value (StrCat_int v) = v.
Proof.
  intros Escape w e ps name v i He Hc Hv Hi.
  split; [|split].
  - apply RenderUint64_stream with (ps := ps); assumption.
  - apply RenderInt64_stream with (ps := ps); assumption.
  - apply StrCat_int_decimal. lia.
Qed.

Lemma RenderUint64_quotes_text_RenderInt64_does_not_witness :
  let Escape := fun s : bytes => s in
  let w := XmlObjectWriter.PushObject (B "root") (XmlObjectWriter.New []) in
  option_map XmlObjectWriter.stream_
    (XmlObjectWriter.RenderUint64 Escape [] 18446744073709551615 w)
  = Some (B ">" ++ [x22] ++ B "18446744073709551615" ++ [x22])
  /\ option_map XmlObjectWriter.stream_
       (XmlObjectWriter.RenderInt64 Escape [] (-9223372036854775808) w)
     = Some (B ">-9223372036854775808").
Proof.
  intros Escape w.
  assert (H := RenderUint64_quotes_text_RenderInt64_does_not Escape w
                 (XmlObjectWriter.new_Element true false (B "root"))
                 [XmlObjectWriter.set_has_child_ true
                    (XmlObjectWriter.new_Element false false [])]
                 [] 18446744073709551615 (-9223372036854775808)
                 eq_refl (or_introl eq_refl)).
  specialize (H ltac:(lia) ltac:(lia)).
  destruct H as [H1 [H2 _]].
  split; [exact H1 | exact H2].
Defined.

(** ** The parser on concrete inputs *)
Section ParserScenarios.

Import ObjectWriter XmlStreamParser.

(** The scenarios of the specification. *)
Example scenario_empty_root :
  let r := ParseChunks [B "<root></root>"] New in
  fst r = OkStatus /\ ow_ (snd r) = [StartObject []; EndObject].
Proof. vm_compute. split; reflexivity. Qed.

Example scenario_empty_list :
  let r := ParseChunks [B "<_list_empty></_list_empty>"] New in
  fst r = OkStatus /\ ow_ (snd r) = [StartList (B "empty"); EndList].
Proof. vm_compute. split; reflexivity. Qed.

Example scenario_attribute :
  let r := ParseChunks [B "<root test='Some String'></root>"] New in
  fst r = OkStatus /\
  ow_ (snd r) =
  [StartObject []; RenderString (B "test") (B "Some String"); EndObject].
Proof. vm_compute. split; reflexivity. Qed.

Example scenario_text :
  let r := ParseChunks [B "<root>true</root>"] New in
  fst r = OkStatus /\
  ow_ (snd r) = [StartObject []; RenderString [] (B "true"); EndObject].
Proof. vm_compute. split; reflexivity. Qed.

Example scenario_numeric_key :
  exists context,
    fst (ParseChunks [B "<root 01234='x'></root>"] New) =
    InvalidArgumentError (Some EXPECTED_BEGIN_KEY_OR_SLASH)
      (B "Expected a begin key or a slash." ++ context).
Proof. eexists. vm_compute. reflexivity. Qed.

End ParserScenarios.

(** C1, evaluated.  The document <root><?abc?></root> parses in one call
    to the events start_object(""), end_object().  Cut after its tenth byte
    (inside the declaration) it does not: ParseDeclaration suspends with the
    cursor left where it stopped, the first chunk is dropped, and the second
    chunk is read from a START_TAG state, so that "c" is taken for a tag
    name; the parse ends in an error after start_object("c"). *)
Theorem resumption_differs_inside_declaration :
  let S := B "<root><?abc?></root>" in
  let whole := XmlStreamParser.ParseChunks [S] XmlStreamParser.New in
  let cut :=
    XmlStreamParser.ParseChunks [firstn 10 S; skipn 10 S] XmlStreamParser.New in
  fst whole = XmlStreamParser.OkStatus
  /\ XmlStreamParser.ow_ (snd whole)
     = [ObjectWriter.StartObject []; ObjectWriter.EndObject]
  /\ fst (XmlStreamParser.Parse (firstn 10 S) XmlStreamParser.New)
     = XmlStreamParser.OkStatus
  /\ XmlStreamParser.ok (fst cut) = false
  /\ XmlStreamParser.ow_ (snd cut)
     = [ObjectWriter.StartObject []; ObjectWriter.StartObject (B "c")].
Proof. vm_compute. repeat split; reflexivity. Qed.

(** C2, evaluated.  The element opened as <_list_F> is closed by </F>:
    the parse succeeds, the events are start_list("F"), end_object(), and
    the recursion counter ends at -1.  ParseEndTag compares the names with
    the _list_ prefix removed and does not look at the flag that
    ParseStartTagName stored beside the name. *)
Theorem list_element_closed_by_object_tag :
  let r := XmlStreamParser.ParseChunks [B "<_list_F></F>"] XmlStreamParser.New in
  fst r = XmlStreamParser.OkStatus
  /\ XmlStreamParser.ow_ (snd r)
     = [ObjectWriter.StartList (B "F"); ObjectWriter.EndObject]
  /\ XmlStreamParser.recursion_depth (snd r) = -1.
Proof. vm_compute. repeat split; reflexivity. Qed.

(** ** The parser: what every parse function preserves *)

Import ObjectWriter XmlStreamParser.

Lemma is_suffix_refl a : is_suffix a a.
Proof. exists 0%nat. reflexivity. Qed.

Lemma is_suffix_skipn n a : is_suffix (skipn n a) a.
Proof. exists n. reflexivity. Qed.

Lemma is_suffix_trans a b c : is_suffix a b -> is_suffix b c -> is_suffix a c.
Proof.
  intros [k ->] [j ->]. exists (k + j)%nat. apply skipn_skipn.
Qed.

Lemma is_suffix_length a b : is_suffix a b -> (length a <= length b)%nat.
Proof. intros [k ->]. rewrite length_skipn. lia. Qed.

Lemma ConsumeKey_skipn p k r :
  ConsumeKey p = Some (k, r) -> r = skipn (length k) p /\ k ++ r = p /\ k <> [].
Proof.
  unfold ConsumeKey. destruct p as [|c p]; [discriminate|].
  destruct (IsLetter c); [|discriminate].
  intros [= <- <-].
  assert (Hl : (length (firstn (name_tail_len p) p) = name_tail_len p)%nat).
  { rewrite length_firstn. apply Nat.min_l.
    clear. induction p as [|a p IH]; simpl; [lia|].
    destruct (IsAlphanumericOrHyphen a); lia. }
  simpl. rewrite Hl. split; [reflexivity|].
  split; [f_equal; apply firstn_skipn|discriminate].
Qed.

Lemma ConsumeTagName_skipn p k r :
  ConsumeTagName p = Some (k, r) -> r = skipn (length k) p /\ k ++ r = p /\ k <> [].
Proof. apply ConsumeKey_skipn. Qed.

Lemma text_tail_len_le l n : text_tail_len l = Some n -> (n <= length l)%nat.
Proof.
  revert n. induction l as [|c l IH]; intros n; simpl.
  - intros H; inversion H; lia.
  - destruct (Byte.eqb c "<"%byte); [intros H; inversion H; lia|].
    destruct (Byte.eqb c "&"%byte).
    + destruct (IsPredefinedEntities (c :: l)); [|discriminate].
      destruct (text_tail_len l); [|discriminate].
      intros H; inversion H; subst. specialize (IH _ eq_refl). lia.
    + destruct (text_tail_len l); [|discriminate].
      intros H; inversion H; subst. specialize (IH _ eq_refl). lia.
Qed.

Lemma ConsumeText_skipn p k r :
  ConsumeText p = Some (k, r) -> r = skipn (length k) p /\ k ++ r = p /\ k <> [].
Proof.
  unfold ConsumeText. destruct p as [|c p]; [discriminate|].
  destruct (text_tail_len p) as [n|] eqn:E; [|discriminate].
  intros [= <- <-].
  apply text_tail_len_le in E.
  assert (Hl : (length (firstn n p) = n)%nat).
  { rewrite length_firstn. apply Nat.min_l. lia. }
  simpl. rewrite Hl. split; [reflexivity|].
  split; [f_equal; apply firstn_skipn|discriminate].
Qed.

Lemma frame_refl st : frame st st.
Proof. unfold frame. repeat split. apply is_suffix_refl. Qed.

Lemma frame_trans a b c : frame a b -> frame b c -> frame a c.
Proof.
  unfold frame. intros H1 H2.
  repeat match goal with H : _ /\ _ |- _ => destruct H end.
  repeat split; try congruence.
  eapply is_suffix_trans; [eassumption|].
  match goal with H : p_ b = _ |- _ => idtac | _ => idtac end. assumption.
Qed.

Lemma good_step st st2 r : frame st st2 -> good st2 r -> good st r.
Proof.
  unfold good. intros H1 [H2 H3]. split; [eapply frame_trans; eassumption|].
  intros Hf. apply H3. destruct H1 as [H1 _]. congruence.
Qed.

Ltac break_match :=
  match goal with
  | |- context [match ?x with _ => _ end] =>
    match type of x with
    | sumbool _ _ => destruct x
    | _ => destruct x eqn:?
    end
  end.

Ltac break_hyp :=
  match goal with
  | H : Some _ = Some _ |- _ => inversion H; subst; clear H
  | H : None = Some _ |- _ => discriminate H
  | H : Some _ = None |- _ => discriminate H
  | H : (_, _) = (_, _) |- _ => inversion H; subst; clear H
  | H : context [match ?x with _ => _ end] |- _ => destruct x eqn:?
  end.

Ltac suffix_solve :=
  cbn -[skipn firstn nth];
  first
    [ apply is_suffix_refl
    | apply is_suffix_skipn
    | match goal with
      | H : ConsumeKey _ = Some (_, ?r) |- is_suffix ?r _ =>
        apply ConsumeKey_skipn in H; destruct H as [-> _]; apply is_suffix_skipn
      | H : ConsumeTagName _ = Some (_, ?r) |- is_suffix ?r _ =>
        apply ConsumeTagName_skipn in H; destruct H as [-> _]; apply is_suffix_skipn
      | H : ConsumeText _ = Some (_, ?r) |- is_suffix ?r _ =>
        apply ConsumeText_skipn in H; destruct H as [-> _]; apply is_suffix_skipn
      end
    | (eapply is_suffix_trans; [apply is_suffix_skipn|]); suffix_solve ].

Ltac frame_solve :=
  unfold frame; cbn -[skipn firstn nth]; repeat split; try reflexivity;
  try suffix_solve.

Ltac good_close :=
  unfold good, fail, unknown, cancel_or_fail, ReportUnknown, ReportFailure in *;
  repeat break_match; cbn -[skipn firstn nth] in *;
  (split;
   [ frame_solve
   | let Hf := fresh "Hf" in
     intros Hf; try discriminate; try congruence;
     try (rewrite Hf in *; simpl in *; discriminate) ]).

Ltac good_solve := repeat break_match; good_close.

Lemma good_ParseBeginElement t st : good st (ParseBeginElement t st).
Proof. unfold ParseBeginElement. good_solve. Qed.

Lemma good_ParseBeginElementMid t st : good st (ParseBeginElementMid t st).
Proof. unfold ParseBeginElementMid. good_solve. Qed.

Lemma good_ParseText st : good st (ParseText st).
Proof. unfold ParseText. good_solve. Qed.

Lemma good_ParseText_t t st : good st (ParseText_t t st).
Proof. destruct t; try apply good_ParseText; unfold ParseText_t; good_solve. Qed.

Lemma good_ParseEndElement_t t st : good st (ParseEndElement_t t st).
Proof. unfold ParseEndElement_t, ParseEndElement. good_solve. Qed.

Lemma good_ParseBeginElementClose t st : good st (ParseBeginElementClose t st).
Proof. unfold ParseBeginElementClose. good_solve. Qed.

Lemma good_ParseEndElementMid_t t st : good st (ParseEndElementMid_t t st).
Proof. unfold ParseEndElementMid_t. good_solve. Qed.

Lemma good_ParseEndElementMid st : good st (ParseEndElementMid st).
Proof. unfold ParseEndElementMid. good_solve. Qed.

Lemma good_ParseEndElementClose t st : good st (ParseEndElementClose t st).
Proof. unfold ParseEndElementClose. good_solve. Qed.

Lemma good_ParseEndTag t st : good st (ParseEndTag t st).
Proof.
  unfold ParseEndTag, pop_element_type, option_map. good_solve.
  all: repeat break_hyp; simpl; try reflexivity; try suffix_solve.
Qed.

Lemma good_ParseKey st : good st (ParseKey st).
Proof. unfold ParseKey. good_solve. Qed.

Lemma good_map st r st1 st2 :
  good st (r, st1) -> frame st1 st2 -> good st (r, st2).
Proof.
  unfold good; simpl. intros [H1 H2] H3. split; [|exact H2].
  eapply frame_trans; eassumption.
Qed.

Lemma good_ParseAttrKey t st : good st (ParseAttrKey t st).
Proof.
  unfold ParseAttrKey. pose proof (good_ParseKey st) as H.
  destruct (ParseKey st) as [r st1].
  destruct t; try (good_solve; fail).
  destruct (ok r); [|exact H].
  eapply good_map; [exact H|frame_solve].
Qed.

Lemma good_ParseAttrMid t st : good st (ParseAttrMid t st).
Proof. unfold ParseAttrMid. good_solve. Qed.

Lemma good_ParseUnicodeEscape st : good st (ParseUnicodeEscape st).
Proof. unfold ParseUnicodeEscape, ParseUnicodeEscape_finish. good_solve. Qed.

Lemma frame_flush_run run st : frame st (flush_run run st).
Proof. destruct run; frame_solve. Qed.

Lemma good_ParseStringHelper_loop fuel : forall run st,
  good st (ParseStringHelper_loop fuel run st).
Proof.
  induction fuel as [|fuel IH]; intros run st.
  - eapply good_step; [apply (frame_flush_run run)|].
    simpl. destruct (p_ st); good_solve.
  - cbn [ParseStringHelper_loop].
    destruct (p_ st) as [|c r] eqn:Hp.
    + eapply good_step; [apply (frame_flush_run run)|]. good_solve.
    + destruct (Byte.eqb c "\"%byte).
      * eapply good_step; [apply (frame_flush_run run)|].
        destruct (Nat.eqb _ 1); [good_solve|].
        destruct (Byte.eqb _ "u"%byte).
        -- pose proof (good_ParseUnicodeEscape (flush_run run st)) as H.
           destruct (ParseUnicodeEscape (flush_run run st)) as [r1 st2].
           destruct (negb (ok r1)); [exact H|].
           eapply good_step; [apply H|apply IH].
        -- eapply good_step; [|apply IH]. frame_solve.
      * destruct (Byte.eqb c (string_open_ st)).
        -- destruct run; good_solve.
        -- eapply good_step; [|apply IH]. frame_solve.
Qed.

Lemma good_ParseStringHelper st : good st (ParseStringHelper st).
Proof.
  unfold ParseStringHelper.
  destruct (Byte.eqb (string_open_ st) x00);
    [|apply good_ParseStringHelper_loop].
  destruct (p_ st) eqn:Hp; [good_solve|].
  eapply good_step; [|apply good_ParseStringHelper_loop]. frame_solve.
Qed.

Lemma good_ParseAttrValue t st : good st (ParseAttrValue t st).
Proof.
  unfold ParseAttrValue. pose proof (good_ParseStringHelper st) as H.
  destruct (ParseStringHelper st) as [r st1].
  destruct t; try (good_solve; fail).
  destruct (ok r); [|exact H].
  eapply good_map; [exact H|frame_solve].
Qed.

Lemma good_ParseComments_loop fuel : forall st,
  good st (ParseComments_loop fuel st).
Proof.
  induction fuel as [|fuel IH]; intros st.
  - simpl. destruct (p_ st); good_solve.
  - cbn [ParseComments_loop]. destruct (p_ st) as [|c r] eqn:Hp; [good_solve|].
    destruct (Byte.eqb c "-"%byte); [good_solve|].
    eapply good_step; [|apply IH]. frame_solve.
Qed.

Lemma good_ParseComments st : good st (ParseComments st).
Proof.
  unfold ParseComments.
  destruct (Nat.ltb _ 2); [good_solve|].
  destruct (_ || _); [good_solve|].
  eapply good_step; [|apply good_ParseComments_loop]. frame_solve.
Qed.

Lemma good_ParseDeclaration_loop fuel : forall st,
  good st (ParseDeclaration_loop fuel st).
Proof.
  induction fuel as [|fuel IH]; intros st.
  - simpl. destruct (p_ st); good_solve.
  - cbn [ParseDeclaration_loop].
    destruct (p_ st) as [|c r] eqn:Hp; [good_solve|].
    destruct (Byte.eqb c "?"%byte); [good_solve|].
    eapply good_step; [|apply IH]. frame_solve.
Qed.

Lemma good_ParseDeclaration st : good st (ParseDeclaration st).
Proof.
  unfold ParseDeclaration.
  destruct (Nat.ltb _ 1); [good_solve|].
  destruct (negb _); [good_solve|].
  eapply good_step; [|apply good_ParseDeclaration_loop]. frame_solve.
Qed.

Lemma good_ParseTagName st : good st (ParseTagName st).
Proof. unfold ParseTagName. good_solve. Qed.

Lemma good_ParseStartTagName st : good st (ParseStartTagName st).
Proof.
  unfold ParseStartTagName. pose proof (good_ParseTagName st) as H.
  destruct (ParseTagName st) as [r st1].
  destruct (ok r) eqn:Hok; [|exact H].
  destruct r; try discriminate.
  unfold IncrementRecursionDepth.
  repeat break_match; repeat break_hyp; simpl in *;
    try (eapply good_map; [exact H|frame_solve]).
  all: destruct H as [H _]; split; simpl;
    [eapply frame_trans; [exact H|frame_solve]|discriminate].
Qed.

Lemma good_ParseStartTag t st : good st (ParseStartTag t st).
Proof.
  destruct t; simpl;
    auto using good_ParseDeclaration, good_ParseComments,
      good_ParseStartTagName, good_ParseEndElementMid; good_solve.
Qed.

Lemma good_dispatch type t st : good st (dispatch type t st).
Proof.
  destruct type; simpl;
    auto using good_ParseBeginElement, good_ParseStartTag,
      good_ParseBeginElementMid, good_ParseAttrKey, good_ParseAttrMid,
      good_ParseAttrValue, good_ParseBeginElementClose, good_ParseText_t,
      good_ParseEndElement_t, good_ParseEndElementMid_t, good_ParseEndTag,
      good_ParseEndElementClose.
  good_solve.
Qed.

Lemma frame_SkipWhitespace_loop fuel : forall st,
  frame st (SkipWhitespace_loop fuel st).
Proof.
  induction fuel as [|fuel IH]; intros st; simpl.
  - apply frame_refl.
  - destruct (p_ st) as [|c r]; [apply frame_refl|].
    destruct (ascii_isspace c); [|apply frame_refl].
    eapply frame_trans; [|apply IH]. frame_solve.
Qed.

Lemma frame_mark_non_whitespace st : frame st (mark_non_whitespace st).
Proof.
  unfold mark_non_whitespace. destruct (p_ st); [apply frame_refl|].
  destruct (negb _); frame_solve.
Qed.

Lemma frame_SkipWhitespace st : frame st (SkipWhitespace st).
Proof.
  unfold SkipWhitespace.
  eapply frame_trans; [apply frame_SkipWhitespace_loop|].
  apply frame_mark_non_whitespace.
Qed.

Lemma frame_SkipWhitespace_t_loop type fuel : forall st,
  frame st (SkipWhitespace_t_loop type fuel st).
Proof.
  induction fuel as [|fuel IH]; intros st; simpl.
  - apply frame_refl.
  - destruct (p_ st) as [|c r]; [apply frame_refl|].
    destruct (ascii_isspace c); [|apply frame_refl].
    destruct (ParseType_eqb type BEGIN_ELEMENT_MID).
    + destruct (Nat.eqb _ 1); [frame_solve|].
      destruct (_ && _); [frame_solve|].
      eapply frame_trans; [|apply IH]. frame_solve.
    + eapply frame_trans; [|apply IH]. frame_solve.
Qed.

Lemma frame_SkipWhitespace_t type st : frame st (SkipWhitespace_t type st).
Proof.
  unfold SkipWhitespace_t.
  eapply frame_trans; [apply frame_SkipWhitespace_t_loop|].
  apply frame_mark_non_whitespace.
Qed.

Lemma frame_next_token type st : frame st (snd (next_token type st)).
Proof.
  unfold next_token, GetNextTokenType.
  destruct (Byte.eqb (string_open_ st) x00); [|apply frame_refl].
  destruct (p_ (SkipWhitespace_t type st)); apply frame_SkipWhitespace_t.
Qed.

Lemma frame_save_key st : frame st (save_key st).
Proof.
  unfold save_key. destruct (key_ st); [apply frame_refl|].
  destruct (key_storage_ st); [|apply frame_refl]. frame_solve.
Qed.

Lemma RunParser_round_inl type rest st st' :
  RunParser_round type rest st = inl st' -> frame st st'.
Proof.
  unfold RunParser_round.
  pose proof (frame_next_token type st) as Hn.
  destruct (next_token type st) as [t st1]. simpl in Hn.
  pose proof (good_dispatch type t (set_stack_ rest st1)) as [Hd _].
  destruct (dispatch type t (set_stack_ rest st1)) as [r st3]. simpl in Hd.
  destruct (ok r); [|destruct (_ && _); discriminate].
  intros [= <-].
  eapply frame_trans; [exact Hn|].
  eapply frame_trans; [|exact Hd]. frame_solve.
Qed.

Lemma RunParser_round_inr type rest st r st' :
  RunParser_round type rest st = inr (r, st') ->
  frame st st' /\ r <> CancelledError.
Proof.
  unfold RunParser_round.
  pose proof (frame_next_token type st) as Hn.
  destruct (next_token type st) as [t st1]. simpl in Hn.
  pose proof (good_dispatch type t (set_stack_ rest st1)) as [Hd Hc].
  destruct (dispatch type t (set_stack_ rest st1)) as [r3 st3]. simpl in Hd, Hc.
  assert (H13 : frame st st3).
  { eapply frame_trans; [exact Hn|].
    eapply frame_trans; [|exact Hd]. frame_solve. }
  destruct (ok r3); [discriminate|].
  destruct (negb (finishing_ st3) && IsCancelled r3) eqn:E; intros [= <- <-].
  - split; [|discriminate].
    eapply frame_trans; [exact H13|].
    eapply frame_trans; [|apply frame_save_key]. frame_solve.
  - split; [exact H13|].
    intros ->. simpl in E. rewrite andb_true_r in E.
    apply negb_false_iff in E. apply Hc; [|reflexivity].
    destruct Hd as [Hd _]. simpl in Hd. congruence.
Qed.

Lemma RunParser_fuel_good fuel : forall st,
  frame st (snd (RunParser_fuel fuel st)) /\
  fst (RunParser_fuel fuel st) <> CancelledError.
Proof.
  induction fuel as [|fuel IH]; intros st; simpl.
  - destruct (stack_ st); simpl; (split; [apply frame_refl|discriminate]).
  - destruct (stack_ st) as [|type rest];
      [simpl; split; [apply frame_refl|discriminate]|].
    destruct (RunParser_round type rest st) as [st'|[r st']] eqn:E.
    + apply RunParser_round_inl in E. destruct (IH st') as [H1 H2].
      split; [eapply frame_trans; eassumption|exact H2].
    + apply RunParser_round_inr in E. exact E.
Qed.

Lemma RunParser_good st :
  frame st (snd (RunParser st)) /\ fst (RunParser st) <> CancelledError.
Proof. apply RunParser_fuel_good. Qed.

(** What ParseChunk leaves. *)
Lemma ParseChunk_good chunk st :
  fst (ParseChunk chunk st) <> CancelledError /\
  coerce_to_utf8_ (snd (ParseChunk chunk st)) = coerce_to_utf8_ st /\
  utf8_replacement_character_ (snd (ParseChunk chunk st))
    = utf8_replacement_character_ st /\
  max_recursion_depth_ (snd (ParseChunk chunk st)) = max_recursion_depth_ st /\
  (chunk <> [] -> ok (fst (ParseChunk chunk st)) = true ->
   is_suffix (leftover_ (snd (ParseChunk chunk st))) chunk).
Proof.
  unfold ParseChunk. destruct chunk as [|c chunk].
  - simpl. repeat split; try discriminate. intros H; contradiction H; reflexivity.
  - set (st1 := set_finishing_ false (set_p_ (c :: chunk) (set_xml_ (c :: chunk) st))).
    pose proof (RunParser_good st1) as [Hf Hc].
    destruct (RunParser st1) as [r st2]. simpl in Hf, Hc.
    pose proof (frame_SkipWhitespace st2) as Hs.
    pose proof (frame_trans _ _ _ Hf Hs) as H3.
    unfold frame in Hf, H3. subst st1. cbn -[skipn firstn nth] in Hf, H3.
    destruct Hf as (Hf1 & Hf2 & Hf3 & Hf4 & Hf5 & Hf6 & Hf7 & Hf8).
    destruct H3 as (Hg1 & Hg2 & Hg3 & Hg4 & Hg5 & Hg6 & Hg7 & Hg8).
    destruct (negb (ok r)) eqn:Hok.
    + simpl. repeat split; auto. intros _ H. apply negb_true_iff in Hok.
      congruence.
    + destruct (p_ (SkipWhitespace st2)) eqn:Hp.
      * simpl. repeat split; auto; discriminate.
      * destruct (stack_ (SkipWhitespace st2)); cbn -[skipn firstn nth].
        -- repeat split; auto; try discriminate.
        -- repeat split; auto; discriminate.
Qed.

Lemma Parse_good xml st :
  fst (Parse xml st) <> CancelledError /\
  coerce_to_utf8_ (snd (Parse xml st)) = coerce_to_utf8_ st /\
  utf8_replacement_character_ (snd (Parse xml st))
    = utf8_replacement_character_ st /\
  max_recursion_depth_ (snd (Parse xml st)) = max_recursion_depth_ st.
Proof.
  unfold Parse.
  set (cs := match leftover_ st with
             | [] => (xml, st)
             | _ :: _ => _
             end).
  assert (Hcs : coerce_to_utf8_ (snd cs) = coerce_to_utf8_ st /\
                utf8_replacement_character_ (snd cs)
                  = utf8_replacement_character_ st /\
                max_recursion_depth_ (snd cs) = max_recursion_depth_ st).
  { subst cs. destruct (leftover_ st); simpl; repeat split. }
  destruct cs as [chunk st1]. simpl in Hcs. destruct Hcs as (E1 & E2 & E3).
  destruct (Nat.ltb 0 (UTF8SpnStructurallyValid chunk)).
  - pose proof (ParseChunk_good (firstn (UTF8SpnStructurallyValid chunk) chunk) st1)
      as (H1 & H2 & H3 & H4 & _).
    destruct (ParseChunk _ st1) as [r st2]. simpl in *.
    repeat split; congruence.
  - simpl. repeat split; try assumption. discriminate.
Qed.




(** *** A round that goes on consumes input *)
Lemma kUTF8LenTbl_pos c : (1 <= kUTF8LenTbl c)%nat.
Proof. unfold kUTF8LenTbl. repeat break_match; lia. Qed.

Lemma length_Advance st :
  p_ st <> [] -> (length (p_ (Advance st)) < length (p_ st))%nat.
Proof.
  unfold Advance, remove_prefix. cbn -[skipn]. intros Hne.
  destruct (p_ st) as [|c r]; [contradiction|].
  rewrite length_skipn. cbn [UTF8FirstLetterNumBytes length].
  pose proof (kUTF8LenTbl_pos c). lia.
Qed.


Lemma frame_length st st' :
  frame st st' -> (length (p_ st') <= length (p_ st))%nat.
Proof. intros H. apply is_suffix_length. apply H. Qed.

Lemma consumes_step st st2 r :
  (length (p_ st2) <= length (p_ st))%nat -> consumes st2 r -> consumes st r.
Proof. unfold consumes. intros H1 H2 Hok. specialize (H2 Hok). lia. Qed.

Ltac cons_close :=
  unfold consumes, fail, unknown, cancel_or_fail, ReportUnknown in *;
  repeat break_match; cbn -[skipn firstn nth Advance] in *;
  let Hok := fresh "Hok" in
  intros Hok; try discriminate;
  try (apply length_Advance; cbn -[skipn firstn nth]; congruence);
  repeat match goal with
         | H : Nat.leb _ _ = false |- _ => apply Nat.leb_gt in H
         | H : Nat.leb _ _ = true |- _ => apply Nat.leb_le in H
         | H : Nat.ltb _ _ = false |- _ => apply Nat.ltb_ge in H
         | H : Nat.ltb _ _ = true |- _ => apply Nat.ltb_lt in H
         end;
  try (rewrite ?length_skipn; cbn [length] in *; lia).

Lemma consumes_ParseText st : consumes st (ParseText st).
Proof.
  unfold ParseText. destruct (ConsumeText (p_ st)) as [[k r]|] eqn:E; [|cons_close].
  apply ConsumeText_skipn in E. destruct E as (_ & E & Hk).
  cons_close. rewrite <- E. rewrite length_app. destruct k; [contradiction|simpl; lia].
Qed.

Lemma consumes_ParseKey st : consumes st (ParseKey st).
Proof.
  unfold ParseKey. destruct (ConsumeKey (p_ st)) as [[k r]|] eqn:E; [|cons_close].
  apply ConsumeKey_skipn in E. destruct E as (_ & E & Hk).
  cons_close. rewrite <- E. rewrite length_app. destruct k; [contradiction|simpl; lia].
Qed.

Lemma consumes_ParseTagName st : consumes st (ParseTagName st).
Proof.
  unfold ParseTagName. destruct (ConsumeTagName (p_ st)) as [[k r]|] eqn:E; [|cons_close].
  apply ConsumeTagName_skipn in E. destruct E as (_ & E & Hk).
  cons_close. rewrite <- E. rewrite length_app. destruct k; [contradiction|simpl; lia].
Qed.

Lemma consumes_ParseEndTag t st : consumes st (ParseEndTag t st).
Proof.
  unfold ParseEndTag. destruct t; try (cons_close; fail).
  destruct (ConsumeTagName (p_ st)) as [[k r]|] eqn:E; [|cons_close].
  apply ConsumeTagName_skipn in E. destruct E as (_ & E & Hk).
  unfold pop_element_type, option_map.
  cons_close; repeat break_hyp; cbn -[skipn firstn nth] in *;
  rewrite <- E; rewrite length_app; (destruct k; [contradiction|simpl; lia]).
Qed.

Lemma consumes_ParseStartTagName st : consumes st (ParseStartTagName st).
Proof.
  unfold ParseStartTagName. pose proof (consumes_ParseTagName st) as H.
  destruct (ParseTagName st) as [r st1]. unfold consumes in *. simpl in H.
  unfold IncrementRecursionDepth.
  destruct (ok r) eqn:Hok; [|simpl; congruence].
  specialize (H eq_refl).
  repeat break_match; repeat break_hyp; cbn -[skipn firstn nth] in *; intros; try discriminate; assumption.
Qed.

Lemma consumes_ParseUnicodeEscape st : consumes st (ParseUnicodeEscape st).
Proof.
  unfold ParseUnicodeEscape, ParseUnicodeEscape_finish.
  destruct (Nat.ltb (length (p_ st)) kUnicodeEscapedLength) eqn:E; [cons_close|].
  apply Nat.ltb_ge in E. unfold kUnicodeEscapedLength in *.
  cons_close; repeat rewrite length_skipn; lia.
Qed.

Lemma consumes_ParseStringHelper_loop fuel : forall run st,
  consumes st (ParseStringHelper_loop fuel run st).
Proof.
  induction fuel as [|fuel IH]; intros run st.
  - simpl. destruct (p_ st); cons_close.
  - cbn [ParseStringHelper_loop].
    destruct (p_ st) as [|c r] eqn:Hp; [cons_close|].
    destruct (Byte.eqb c "\"%byte).
    + apply consumes_step with (st2 := flush_run run st);
        [apply frame_length, frame_flush_run|].
      destruct (Nat.eqb _ 1); [cons_close|].
      destruct (Byte.eqb _ "u"%byte).
      * pose proof (consumes_ParseUnicodeEscape (flush_run run st)) as H.
        pose proof (good_ParseUnicodeEscape (flush_run run st)) as [Hg _].
        destruct (ParseUnicodeEscape (flush_run run st)) as [r1 st2].
        destruct (negb (ok r1)) eqn:Hn; [intros Hok; simpl in Hok; apply negb_true_iff in Hn; congruence|].
        eapply consumes_step; [|apply IH]. apply frame_length. exact Hg.
      * eapply consumes_step; [|apply IH]. apply frame_length. frame_solve.
    + destruct (Byte.eqb c (string_open_ st)).
      * intros _. cbn -[Advance].
        match goal with |- context [Advance ?s] =>
          pose proof (length_Advance s) as HA end.
        destruct (parsed_storage_ st); destruct run; cbn -[Advance] in *;
          rewrite Hp in *; apply HA; discriminate.
      * eapply consumes_step; [|apply IH]. apply frame_length. frame_solve.
Qed.

Lemma consumes_ParseStringHelper st : consumes st (ParseStringHelper st).
Proof.
  unfold ParseStringHelper.
  destruct (Byte.eqb (string_open_ st) x00);
    [|apply consumes_ParseStringHelper_loop].
  destruct (p_ st) eqn:Hp; [cons_close|].
  eapply consumes_step; [|apply consumes_ParseStringHelper_loop].
  apply frame_length. frame_solve.
Qed.

Lemma consumes_ParseAttrValue t st : consumes st (ParseAttrValue t st).
Proof.
  unfold ParseAttrValue. pose proof (consumes_ParseStringHelper st) as H.
  destruct (ParseStringHelper st) as [r st1].
  destruct t; try (cons_close; fail).
  unfold consumes in *. simpl in H.
  destruct (ok r) eqn:Hok; simpl; rewrite Hok; [intros _; auto|discriminate].
Qed.

Lemma consumes_ParseComments_loop fuel : forall st,
  consumes st (ParseComments_loop fuel st).
Proof.
  induction fuel as [|fuel IH]; intros st.
  - simpl. destruct (p_ st); cons_close.
  - cbn [ParseComments_loop].
    destruct (p_ st) as [|c r] eqn:Hp; [cons_close|].
    destruct (Byte.eqb c "-"%byte).
    + cons_close. rewrite Hp, length_skipn. cbn [length]. lia.
    + eapply consumes_step; [|apply IH]. apply frame_length. frame_solve.
Qed.

Lemma consumes_ParseComments st : consumes st (ParseComments st).
Proof.
  unfold ParseComments.
  destruct (Nat.ltb _ 2); [cons_close|].
  destruct (_ || _); [cons_close|].
  eapply consumes_step; [|apply consumes_ParseComments_loop].
  apply frame_length. frame_solve.
Qed.

Lemma consumes_ParseDeclaration_loop fuel : forall st,
  consumes st (ParseDeclaration_loop fuel st).
Proof.
  induction fuel as [|fuel IH]; intros st.
  - simpl. destruct (p_ st); cons_close.
  - cbn [ParseDeclaration_loop].
    destruct (p_ st) as [|c r] eqn:Hp; [cons_close|].
    destruct (Byte.eqb c "?"%byte).
    + cons_close. rewrite Hp, length_skipn. cbn [length]. lia.
    + eapply consumes_step; [|apply IH]. apply frame_length. frame_solve.
Qed.

Lemma consumes_ParseDeclaration st : consumes st (ParseDeclaration st).
Proof.
  unfold ParseDeclaration.
  destruct (Nat.ltb _ 1); [cons_close|].
  destruct (negb _); [cons_close|].
  eapply consumes_step; [|apply consumes_ParseDeclaration_loop].
  apply frame_length. frame_solve.
Qed.

Lemma consumes_ParseAttrKey t st :
  p_ st <> [] \/ t = BEGIN_STRING \/ t = UNKNOWN ->
  consumes st (ParseAttrKey t st).
Proof.
  intros Hp. unfold ParseAttrKey. pose proof (consumes_ParseKey st) as H.
  destruct (ParseKey st) as [r st1].
  destruct t; try (cons_close; fail).
  - destruct Hp as [Hp|[Hp|Hp]]; try discriminate. cons_close.
  - unfold consumes in *. simpl in H.
    destruct (ok r) eqn:Hok; simpl; rewrite Hok; [intros _; auto|discriminate].
Qed.

Lemma consumes_ParseStartTag t st :
  p_ st <> [] \/ t = BEGIN_STRING \/ t = UNKNOWN ->
  consumes st (ParseStartTag t st).
Proof.
  intros Hp.
  destruct t; simpl;
    auto using consumes_ParseDeclaration, consumes_ParseComments,
      consumes_ParseStartTagName; try (cons_close; fail).
  destruct Hp as [Hp|[Hp|Hp]]; try discriminate.
  unfold ParseEndElementMid. pose proof (length_Advance st Hp).
  cons_close; assumption.
Qed.

Lemma consumes_ParseText_t t st :
  p_ st <> [] \/ t = BEGIN_STRING \/ t = UNKNOWN ->
  consumes st (ParseText_t t st).
Proof.
  intros Hp.
  destruct t; simpl; auto using consumes_ParseText; try (cons_close; fail).
  destruct Hp as [Hp|[Hp|Hp]]; try discriminate. cons_close.
Qed.

Lemma consumes_dispatch type t st :
  p_ st <> [] \/ t = BEGIN_STRING \/ t = UNKNOWN ->
  consumes st (dispatch type t st).
Proof.
  intros Hp.
  destruct type; simpl;
    auto using consumes_ParseStartTag, consumes_ParseAttrKey,
      consumes_ParseAttrValue, consumes_ParseText_t, consumes_ParseEndTag;
    try (cons_close; fail);
    unfold ParseBeginElement, ParseBeginElementMid, ParseAttrMid,
      ParseBeginElementClose, ParseEndElement_t, ParseEndElement,
      ParseEndElementMid_t, ParseEndElementClose;
    destruct t; try (cons_close; fail);
    destruct Hp as [Hp|[Hp|Hp]]; try discriminate; cons_close.
Qed.

Lemma next_token_fits type st :
  p_ (snd (next_token type st)) <> []
  \/ fst (next_token type st) = BEGIN_STRING
  \/ fst (next_token type st) = UNKNOWN.
Proof.
  unfold next_token, GetNextTokenType.
  destruct (Byte.eqb (string_open_ st) x00); [|right; left; reflexivity].
  destruct (p_ (SkipWhitespace_t type st)) eqn:E; simpl.
  - right; right; reflexivity.
  - left. rewrite E. discriminate.
Qed.

Lemma RunParser_round_consumes type rest st st' :
  RunParser_round type rest st = inl st' ->
  (length (p_ st') < length (p_ st))%nat.
Proof.
  unfold RunParser_round.
  pose proof (frame_next_token type st) as Hn.
  pose proof (next_token_fits type st) as Hfit.
  destruct (next_token type st) as [t st1]. simpl in Hn, Hfit.
  pose proof (consumes_dispatch type t (set_stack_ rest st1) Hfit) as Hd.
  destruct (dispatch type t (set_stack_ rest st1)) as [r st3].
  unfold consumes in Hd. simpl in Hd.
  destruct (ok r); [|destruct (_ && _); discriminate].
  intros [= <-]. apply frame_length in Hn. specialize (Hd eq_refl). lia.
Qed.

Lemma RunParser_fuel_enough n : forall m st,
  (length (p_ st) < n)%nat -> (length (p_ st) < m)%nat ->
  RunParser_fuel n st = RunParser_fuel m st.
Proof.
  induction n as [|n IH]; intros m st Hn Hm; [lia|].
  destruct m as [|m]; [lia|]. simpl.
  destruct (stack_ st) as [|type rest]; [reflexivity|].
  destruct (RunParser_round type rest st) as [st'|r] eqn:E; [|reflexivity].
  apply RunParser_round_consumes in E. apply IH; lia.
Qed.

Lemma RunParser_fuel_defined n : forall st,
  (length (p_ st) < n)%nat -> RunParser_fuel n st = RunParser st.
Proof.
  intros st Hn. unfold RunParser. apply RunParser_fuel_enough; lia.
Qed.

(** *** The loops have fuel enough *)
Lemma SkipWhitespace_loop_enough n : forall m st,
  (length (p_ st) <= n)%nat -> (length (p_ st) <= m)%nat ->
  SkipWhitespace_loop n st = SkipWhitespace_loop m st.
Proof.
  induction n as [|n IH]; intros m st Hn Hm.
  - destruct (p_ st) eqn:Hp; [|simpl in Hn; lia].
    destruct m; simpl; rewrite ?Hp; reflexivity.
  - destruct m as [|m].
    + destruct (p_ st) eqn:Hp; [|simpl in Hm; lia]. simpl. rewrite ?Hp. reflexivity.
    + simpl. destruct (p_ st) as [|c r] eqn:Hp; [reflexivity|].
      destruct (ascii_isspace c); [|reflexivity].
      assert (Hne : p_ st <> []) by (rewrite Hp; discriminate).
      pose proof (length_Advance st Hne) as HA. rewrite Hp in HA.
      cbn [length] in Hn, Hm, HA. apply IH; lia.
Qed.

Lemma SkipWhitespace_t_loop_enough type n : forall m st,
  (length (p_ st) <= n)%nat -> (length (p_ st) <= m)%nat ->
  SkipWhitespace_t_loop type n st = SkipWhitespace_t_loop type m st.
Proof.
  induction n as [|n IH]; intros m st Hn Hm.
  - destruct (p_ st) eqn:Hp; [|simpl in Hn; lia].
    destruct m; simpl; rewrite ?Hp; reflexivity.
  - destruct m as [|m].
    + destruct (p_ st) eqn:Hp; [|simpl in Hm; lia]. simpl. rewrite ?Hp. reflexivity.
    + simpl. destruct (p_ st) as [|c r] eqn:Hp; [reflexivity|].
      destruct (ascii_isspace c); [|reflexivity].
      assert (Hne : p_ st <> []) by (rewrite Hp; discriminate).
      pose proof (length_Advance st Hne) as HA. rewrite Hp in HA.
      cbn [length] in Hn, Hm, HA.
      destruct (ParseType_eqb type BEGIN_ELEMENT_MID);
        [destruct (Nat.eqb _ 1); [reflexivity|];
         destruct (_ && _); [reflexivity|]|]; apply IH; lia.
Qed.

Lemma ParseComments_loop_enough n : forall m st,
  (length (p_ st) <= n)%nat -> (length (p_ st) <= m)%nat ->
  ParseComments_loop n st = ParseComments_loop m st.
Proof.
  induction n as [|n IH]; intros m st Hn Hm.
  - destruct (p_ st) eqn:Hp; [|simpl in Hn; lia].
    destruct m; simpl; rewrite ?Hp; reflexivity.
  - destruct m as [|m].
    + destruct (p_ st) eqn:Hp; [|simpl in Hm; lia]. simpl. rewrite ?Hp. reflexivity.
    + simpl. destruct (p_ st) as [|c r] eqn:Hp; [reflexivity|].
      destruct (Byte.eqb c "-"%byte); [reflexivity|].
      assert (Hne : p_ st <> []) by (rewrite Hp; discriminate).
      pose proof (length_Advance st Hne) as HA. rewrite Hp in HA.
      cbn [length] in Hn, Hm, HA. apply IH; lia.
Qed.

Lemma ParseDeclaration_loop_enough n : forall m st,
  (length (p_ st) <= n)%nat -> (length (p_ st) <= m)%nat ->
  ParseDeclaration_loop n st = ParseDeclaration_loop m st.
Proof.
  induction n as [|n IH]; intros m st Hn Hm.
  - destruct (p_ st) eqn:Hp; [|simpl in Hn; lia].
    destruct m; simpl; rewrite ?Hp; reflexivity.
  - destruct m as [|m].
    + destruct (p_ st) eqn:Hp; [|simpl in Hm; lia]. simpl. rewrite ?Hp. reflexivity.
    + simpl. destruct (p_ st) as [|c r] eqn:Hp; [reflexivity|].
      destruct (Byte.eqb c "?"%byte); [reflexivity|].
      assert (Hne : p_ st <> []) by (rewrite Hp; discriminate).
      pose proof (length_Advance st Hne) as HA. rewrite Hp in HA.
      cbn [length] in Hn, Hm, HA. apply IH; lia.
Qed.

Lemma p_flush_run run st : p_ (flush_run run st) = p_ st.
Proof. destruct run; reflexivity. Qed.

Lemma ParseStringHelper_loop_enough n : forall m run st,
  (length (p_ st) <= n)%nat -> (length (p_ st) <= m)%nat ->
  ParseStringHelper_loop n run st = ParseStringHelper_loop m run st.
Proof.
  induction n as [|n IH]; intros m run st Hn Hm.
  - destruct (p_ st) eqn:Hp; [|simpl in Hn; lia].
    destruct m; simpl; rewrite ?Hp; reflexivity.
  - destruct m as [|m].
    + destruct (p_ st) eqn:Hp; [|simpl in Hm; lia]. simpl. rewrite ?Hp. reflexivity.
    + cbn [ParseStringHelper_loop].
      destruct (p_ st) as [|c r] eqn:Hp; [reflexivity|].
      assert (Hne : p_ st <> []) by (rewrite Hp; discriminate).
      destruct (Byte.eqb c "\"%byte).
      * rewrite p_flush_run, Hp.
        destruct (Nat.eqb (length (c :: r)) 1) eqn:E1; [reflexivity|].
        destruct (Byte.eqb _ "u"%byte).
        -- pose proof (consumes_ParseUnicodeEscape (flush_run run st)) as Hc.
           destruct (ParseUnicodeEscape (flush_run run st)) as [r1 st2].
           unfold consumes in Hc. simpl in Hc. rewrite p_flush_run in Hc.
           destruct (ok r1); [|reflexivity]. simpl.
           specialize (Hc eq_refl). rewrite Hp in Hc. cbn [length] in Hn, Hm, Hc.
           apply IH; lia.
        -- apply Nat.eqb_neq in E1. cbn [length] in Hn, Hm, E1.
           apply IH; cbn -[skipn]; rewrite p_flush_run, Hp, length_skipn;
             cbn [length]; lia.
      * destruct (Byte.eqb c (string_open_ st)); [reflexivity|].
        pose proof (length_Advance st Hne) as HA. rewrite Hp in HA.
      cbn [length] in Hn, Hm, HA. apply IH; lia.
Qed.

Lemma UTF8Spn_fuel_enough n : forall m p,
  (length p <= n)%nat -> (length p <= m)%nat ->
  UTF8Spn_fuel n p = UTF8Spn_fuel m p.
Proof.
  induction n as [|n IH]; intros m p Hn Hm.
  - destruct p; [|simpl in Hn; lia]. destruct m; reflexivity.
  - destruct m as [|m].
    + destruct p; [|simpl in Hm; lia]. reflexivity.
    + cbn [UTF8Spn_fuel]. destruct (utf8_char_len p) eqn:E; [reflexivity|].
      f_equal. destruct p; [discriminate|].
      apply IH; rewrite length_skipn; cbn [length] in *; lia.
Qed.

Lemma ReplaceInvalidCodePoints_fuel_enough n : forall m str replacement dst,
  (length str <= n)%nat -> (length str <= m)%nat ->
  ReplaceInvalidCodePoints_fuel n str replacement dst
  = ReplaceInvalidCodePoints_fuel m str replacement dst.
Proof.
  induction n as [|n IH]; intros m str replacement dst Hn Hm.
  - destruct str; [|simpl in Hn; lia]. destruct m; reflexivity.
  - destruct m as [|m].
    + destruct str; [|simpl in Hm; lia]. reflexivity.
    + cbn [ReplaceInvalidCodePoints_fuel]. destruct str as [|c str]; [reflexivity|].
      destruct (Nat.eqb _ _); [reflexivity|].
      apply IH; rewrite length_skipn; cbn [length] in *; lia.
Qed.


(** C9, the claim as stated fails.  After <root a='1' the parser is in
    BEGIN_ELEMENT_MID with nothing left over.  The chunk " " is then
    given: the whitespace skipper keeps the space, but leftover_ is empty
    when Parse returns. *)
Lemma trailing_space_is_not_left_over :
  let st := snd (Parse (B "<root a='1'") New) in
  stack_ st = [BEGIN_ELEMENT_MID]
  /\ leftover_ st = []
  /\ p_ (SkipWhitespace_t BEGIN_ELEMENT_MID (set_p_ (B " ") st)) = B " "
  /\ leftover_ (snd (Parse (B " ") st)) <> B " ".
Proof. vm_compute. repeat split; try reflexivity. discriminate. Qed.

(** ** The recursion counter and the element-kind stack *)

Lemma lexical_refl st : lexical st st.
Proof. repeat split. Qed.

Lemma lexical_trans a b c : lexical a b -> lexical b c -> lexical a c.
Proof. unfold lexical. intros (?&?&?) (?&?&?). repeat split; congruence. Qed.

Ltac lex_solve :=
  unfold lexical, fail, unknown, cancel_or_fail in *;
  repeat break_match; cbn -[skipn firstn nth] in *; repeat split; reflexivity.

Lemma lexical_ParseText st : lexical st (snd (ParseText st)).
Proof. unfold ParseText. lex_solve. Qed.

Lemma lexical_ParseKey st : lexical st (snd (ParseKey st)).
Proof. unfold ParseKey. lex_solve. Qed.

Lemma lexical_ParseUnicodeEscape st : lexical st (snd (ParseUnicodeEscape st)).
Proof. unfold ParseUnicodeEscape, ParseUnicodeEscape_finish. lex_solve. Qed.

Lemma lexical_flush_run run st : lexical st (flush_run run st).
Proof. destruct run; lex_solve. Qed.

Lemma lexical_ParseStringHelper_loop fuel : forall run st,
  lexical st (snd (ParseStringHelper_loop fuel run st)).
Proof.
  induction fuel as [|fuel IH]; intros run st.
  - eapply lexical_trans; [apply (lexical_flush_run run)|].
    simpl. destruct (p_ st); lex_solve.
  - cbn [ParseStringHelper_loop].
    destruct (p_ st) as [|c r] eqn:Hp.
    + eapply lexical_trans; [apply (lexical_flush_run run)|]. lex_solve.
    + destruct (Byte.eqb c "\"%byte).
      * eapply lexical_trans; [apply (lexical_flush_run run)|].
        destruct (Nat.eqb _ 1); [lex_solve|].
        destruct (Byte.eqb _ "u"%byte).
        -- pose proof (lexical_ParseUnicodeEscape (flush_run run st)) as H.
           destruct (ParseUnicodeEscape (flush_run run st)) as [r1 st2].
           destruct (negb (ok r1)); [exact H|].
           eapply lexical_trans; [apply H|apply IH].
        -- eapply lexical_trans; [|apply IH]. lex_solve.
      * destruct (Byte.eqb c (string_open_ st)).
        -- destruct run; lex_solve.
        -- eapply lexical_trans; [|apply IH]. lex_solve.
Qed.

Lemma lexical_ParseStringHelper st : lexical st (snd (ParseStringHelper st)).
Proof.
  unfold ParseStringHelper.
  destruct (Byte.eqb (string_open_ st) x00);
    [|apply lexical_ParseStringHelper_loop].
  destruct (p_ st) eqn:Hp; [lex_solve|].
  eapply lexical_trans; [|apply lexical_ParseStringHelper_loop]. lex_solve.
Qed.

Lemma lexical_ParseAttrValue t st : lexical st (snd (ParseAttrValue t st)).
Proof.
  unfold ParseAttrValue. pose proof (lexical_ParseStringHelper st) as H.
  destruct (ParseStringHelper st) as [r st1].
  destruct t; try (lex_solve; fail).
  destruct (ok r); [|exact H].
  eapply lexical_trans; [exact H|lex_solve].
Qed.

Lemma lexical_ParseAttrKey t st : lexical st (snd (ParseAttrKey t st)).
Proof.
  unfold ParseAttrKey. pose proof (lexical_ParseKey st) as H.
  destruct (ParseKey st) as [r st1].
  destruct t; try (lex_solve; fail).
  destruct (ok r); [|exact H].
  eapply lexical_trans; [exact H|lex_solve].
Qed.

Lemma lexical_ParseComments_loop fuel : forall st,
  lexical st (snd (ParseComments_loop fuel st)).
Proof.
  induction fuel as [|fuel IH]; intros st.
  - simpl. destruct (p_ st); lex_solve.
  - cbn [ParseComments_loop]. destruct (p_ st) as [|c r] eqn:Hp; [lex_solve|].
    destruct (Byte.eqb c "-"%byte); [lex_solve|].
    eapply lexical_trans; [|apply IH]. lex_solve.
Qed.

Lemma lexical_ParseComments st : lexical st (snd (ParseComments st)).
Proof.
  unfold ParseComments.
  destruct (Nat.ltb _ 2); [lex_solve|].
  destruct (_ || _); [lex_solve|].
  eapply lexical_trans; [|apply lexical_ParseComments_loop]. lex_solve.
Qed.

Lemma lexical_ParseDeclaration_loop fuel : forall st,
  lexical st (snd (ParseDeclaration_loop fuel st)).
Proof.
  induction fuel as [|fuel IH]; intros st.
  - simpl. destruct (p_ st); lex_solve.
  - cbn [ParseDeclaration_loop].
    destruct (p_ st) as [|c r] eqn:Hp; [lex_solve|].
    destruct (Byte.eqb c "?"%byte); [lex_solve|].
    eapply lexical_trans; [|apply IH]. lex_solve.
Qed.

Lemma lexical_ParseDeclaration st : lexical st (snd (ParseDeclaration st)).
Proof.
  unfold ParseDeclaration.
  destruct (Nat.ltb _ 1); [lex_solve|].
  destruct (negb _); [lex_solve|].
  eapply lexical_trans; [|apply lexical_ParseDeclaration_loop]. lex_solve.
Qed.

Lemma lexical_SkipWhitespace_t_loop type fuel : forall st,
  lexical st (SkipWhitespace_t_loop type fuel st).
Proof.
  induction fuel as [|fuel IH]; intros st; simpl.
  - apply lexical_refl.
  - destruct (p_ st) as [|c r]; [apply lexical_refl|].
    destruct (ascii_isspace c); [|apply lexical_refl].
    destruct (ParseType_eqb type BEGIN_ELEMENT_MID).
    + destruct (Nat.eqb _ 1); [lex_solve|].
      destruct (_ && _); [lex_solve|].
      eapply lexical_trans; [|apply IH]. lex_solve.
    + eapply lexical_trans; [|apply IH]. lex_solve.
Qed.

Lemma lexical_next_token type st : lexical st (snd (next_token type st)).
Proof.
  unfold next_token, GetNextTokenType.
  destruct (Byte.eqb (string_open_ st) x00); [|apply lexical_refl].
  assert (H : lexical st (SkipWhitespace_t type st)).
  { unfold SkipWhitespace_t.
    eapply lexical_trans; [apply lexical_SkipWhitespace_t_loop|].
    unfold mark_non_whitespace. lex_solve. }
  destruct (p_ (SkipWhitespace_t type st)); exact H.
Qed.

Lemma lexical_save_key st : lexical st (save_key st).
Proof. unfold save_key. lex_solve. Qed.

Lemma object_count_ParseStartTagName st :
  depth_counts_objects st -> depth_counts_objects (snd (ParseStartTagName st)).
Proof.
  unfold depth_counts_objects, ParseStartTagName, ParseTagName,
    IncrementRecursionDepth, fail.
  intros H.
  repeat break_match; repeat break_hyp; cbn -[skipn firstn nth object_count] in *;
    try assumption; try discriminate; cbn [object_count]; lia.
Qed.

Lemma object_count_ParseEndTag st :
  depth_counts_objects st ->
  match ConsumeTagName (p_ st), element_type_stack_ st with
  | Some (name, _), k :: _ => xorb (starts_with name (B "_list_")) (is_LIST k)
  | _, _ => false
  end = false ->
  depth_counts_objects (snd (ParseEndTag BEGIN_KEY st)).
Proof.
  unfold depth_counts_objects, ParseEndTag, pop_element_type, option_map, fail.
  intros H Hk.
  destruct (ConsumeTagName (p_ st)) as [[name rest]|] eqn:E; [|exact H].
  cbn -[skipn firstn nth B] in *.
  destruct (negb (finishing_ st) && Nat.eqb (length rest) 0); [exact H|].
  destruct (tag_name_stack_ st) as [|[nm fl] tags]; [exact H|].
  destruct (bytes_eqb nm _); [|exact H].
  destruct (starts_with name (B "_list_")) eqn:Es;
    destruct (element_type_stack_ st) as [|k kinds] eqn:Ek;
    try destruct k; simpl in Hk; try discriminate;
    cbn -[skipn firstn nth B]; try destruct (negb _);
    cbn -[skipn firstn nth B]; rewrite ?Ek; cbn -[skipn firstn nth B];
    rewrite ?Ek; cbn [object_count] in *; try assumption; lia.
Qed.

Lemma lexical_depth st st' :
  lexical st st' -> depth_counts_objects st -> depth_counts_objects st'.
Proof. unfold lexical, depth_counts_objects. intros (H1 & H2 & _) H. congruence. Qed.

Lemma dispatch_depth type t st :
  depth_counts_objects st ->
  match type, t with
  | END_TAG, BEGIN_KEY =>
    match ConsumeTagName (p_ st), element_type_stack_ st with
    | Some (name, _), k :: _ => xorb (starts_with name (B "_list_")) (is_LIST k)
    | _, _ => false
    end
  | _, _ => false
  end = false ->
  depth_counts_objects (snd (dispatch type t st)).
Proof.
  intros H Hk.
  destruct type; simpl;
    try (apply lexical_depth with (st := st); [|exact H];
         auto using lexical_ParseAttrKey, lexical_ParseAttrValue;
         unfold ParseBeginElement, ParseBeginElementMid, ParseAttrMid,
           ParseBeginElementClose, ParseEndElement_t, ParseEndElement,
           ParseEndElementMid_t, ParseEndElementClose; lex_solve).
  - destruct t; simpl;
      try (apply lexical_depth with (st := st); [|exact H];
           auto using lexical_ParseDeclaration, lexical_ParseComments;
           unfold ParseEndElementMid; lex_solve).
    apply object_count_ParseStartTagName. exact H.
  - destruct t; simpl;
      try (apply lexical_depth with (st := st); [|exact H];
           auto using lexical_ParseText; lex_solve).
  - destruct t;
      try (apply lexical_depth with (st := st); [|exact H];
           unfold ParseEndTag; lex_solve).
    apply object_count_ParseEndTag; assumption.
Qed.

Lemma RunParser_round_depth type rest st :
  depth_counts_objects st ->
  closes_other_kind type st = false ->
  depth_counts_objects
    (match RunParser_round type rest st with
     | inl st' => st'
     | inr (_, st') => st'
     end).
Proof.
  intros H Hk. unfold closes_other_kind in Hk. unfold RunParser_round.
  pose proof (lexical_next_token type st) as Hn.
  destruct (next_token type st) as [t st1]. simpl in Hn.
  assert (H1 : depth_counts_objects (set_stack_ rest st1)).
  { apply lexical_depth with (st := st); [|exact H].
    eapply lexical_trans; [exact Hn|]. repeat split. }
  pose proof (dispatch_depth type t (set_stack_ rest st1) H1) as Hd.
  destruct (dispatch type t (set_stack_ rest st1)) as [r st3]. simpl in Hd.
  assert (H3 : depth_counts_objects st3).
  { apply Hd. destruct type; try reflexivity. destruct t; try reflexivity.
    exact Hk. }
  destruct (ok r); [exact H3|].
  destruct (negb (finishing_ st3) && IsCancelled r); [|exact H3].
  apply lexical_depth with (st := st3); [|exact H3].
  eapply lexical_trans; [|apply lexical_save_key]. repeat split.
Qed.

(** C3, the claim as stated fails.  The writer's form of a list of one
    primitive is parsed in three chunks.  The tag anonymous emits no
    event, but the recursion counter goes from 1 to 2, so that it differs
    from the number of OBJECT entries not named anonymous, which is 1; the
    closing tag brings it back to 1. *)
Lemma anonymous_element_is_counted :
  let st1 := snd (Parse (B "<root><_list_x>") New) in
  let st2 := snd (Parse (B "<anonymous>") st1) in
  let st3 := snd (Parse (B "v</anonymous>") st2) in
  ow_ st2 = ow_ st1
  /\ recursion_depth_ st1 = 1
  /\ recursion_depth_ st2 = 2
  /\ element_type_stack_ st2 = [OBJECT; LIST; OBJECT]
  /\ non_anonymous_object_count (element_type_stack_ st2) (tag_name_stack_ st2)
     = 1
  /\ recursion_depth_ st2
     <> non_anonymous_object_count (element_type_stack_ st2)
          (tag_name_stack_ st2)
  /\ recursion_depth_ st3 = 1.
Proof. vm_compute. repeat split; try reflexivity. discriminate. Qed.

(** C3, amended.  Opening an element whose tag is exactly anonymous emits
    no event, pushes an OBJECT entry and increments the recursion counter,
    and succeeds exactly when the incremented counter is within the limit;
    closing it emits no event, pops the entry and decrements the counter.
    The recursion counter equals the number of OBJECT entries on the
    element-kind stack, the anonymous ones included: this holds of a new
    parser and every round of RunParser keeps it, unless the round closes an
    element with a tag of the other kind (list or not). *)
Theorem anonymous_counts_toward_recursion_depth :
  forall st rest,
    ConsumeTagName (p_ st) = Some (B "anonymous", rest) ->
    finishing_ st = true \/ rest <> [] ->
    (ow_ (snd (ParseStartTagName st)) = ow_ st
     /\ recursion_depth_ (snd (ParseStartTagName st)) = recursion_depth_ st + 1
     /\ element_type_stack_ (snd (ParseStartTagName st))
        = OBJECT :: element_type_stack_ st
     /\ (fst (ParseStartTagName st) = OkStatus
         <-> recursion_depth_ st + 1 <= max_recursion_depth_ st))
    /\ (forall flag tags k kinds,
           tag_name_stack_ st = (B "anonymous", flag) :: tags ->
           element_type_stack_ st = k :: kinds ->
           fst (ParseEndTag BEGIN_KEY st) = OkStatus
           /\ ow_ (snd (ParseEndTag BEGIN_KEY st)) = ow_ st
           /\ recursion_depth_ (snd (ParseEndTag BEGIN_KEY st))
              = recursion_depth_ st - 1
           /\ element_type_stack_ (snd (ParseEndTag BEGIN_KEY st)) = kinds
           /\ tag_name_stack_ (snd (ParseEndTag BEGIN_KEY st)) = tags)
    /\ depth_counts_objects New
    /\ (forall type stack s,
           depth_counts_objects s ->
           closes_other_kind type s = false ->
           depth_counts_objects
             (match RunParser_round type stack s with
              | inl s' => s'
              | inr (_, s') => s'
              end)).
Proof.
  intros st rest Hc Hr.
  assert (Hcancel : negb (finishing_ st) && Nat.eqb (length rest) 0 = false).
  { destruct Hr as [-> | Hr]; [reflexivity|].
    destruct rest; [contradiction|]. apply andb_false_r. }
  split; [|split; [|split]].
  - unfold ParseStartTagName, ParseTagName, IncrementRecursionDepth.
    rewrite Hc. cbn -[skipn firstn nth]. rewrite Hcancel.
    cbn -[skipn firstn nth].
    destruct (max_recursion_depth_ st <? recursion_depth_ st + 1) eqn:E;
      cbn -[skipn firstn nth]; repeat split; try reflexivity;
      try discriminate; intros; try lia.
  - intros flag tags k kinds Ht Hk.
    unfold ParseEndTag, pop_element_type. rewrite Hc.
    cbn -[skipn firstn nth]. rewrite Hcancel, Ht.
    cbn -[skipn firstn nth]. rewrite Hk. cbn -[skipn firstn nth].
    repeat split; reflexivity.
  - reflexivity.
  - intros type stack s. apply RunParser_round_depth.
Qed.

Lemma anonymous_counts_toward_recursion_depth_witness :
  let st := set_p_ (B "anonymous>v") New in
  recursion_depth_ (snd (ParseStartTagName st)) = 1
  /\ ow_ (snd (ParseStartTagName st)) = [].
Proof.
  intros st.
  assert (Hc : ConsumeTagName (p_ st) = Some (B "anonymous", B ">v"))
    by (vm_compute; reflexivity).
  assert (Hn : B ">v" <> []) by discriminate.
  destruct (anonymous_counts_toward_recursion_depth st (B ">v")
              Hc (or_intror Hn))
    as [(H1 & H2 & _) _].
  split; [rewrite H2 | rewrite H1]; vm_compute; reflexivity.
Defined.

(** ** UTF-8 validation and coercion *)


Lemma utf8_char_len_le p : (utf8_char_len p <= length p)%nat.
Proof.
  unfold utf8_char_len.
  destruct p as [|c0 [|c1 [|c2 [|c3 r]]]]; repeat break_match; simpl; lia.
Qed.

Lemma utf8_char_len_le4 p : (utf8_char_len p <= 4)%nat.
Proof.
  unfold utf8_char_len.
  destruct p as [|c0 [|c1 [|c2 [|c3 r]]]]; repeat break_match; simpl; lia.
Qed.

(** The length of the first character depends on its own bytes only. *)
Lemma utf8_char_len_app p q k :
  utf8_char_len p = S k -> utf8_char_len (p ++ q) = S k.
Proof.
  unfold utf8_char_len.
  destruct p as [|c0 [|c1 [|c2 [|c3 r]]]]; simpl;
    repeat break_match; try discriminate; try reflexivity; intros H; exact H.
Qed.

Lemma utf8_char_len_cont c r : is_cont c = true -> utf8_char_len (c :: r) = 0%nat.
Proof.
  unfold is_cont, utf8_char_len, in_range. intros H.
  apply andb_true_iff in H. destruct H as [H1 H2].
  apply Z.leb_le in H1. apply Z.leb_le in H2.
  repeat break_match; try reflexivity;
    repeat match goal with
           | H : _ && _ = true |- _ => apply andb_true_iff in H; destruct H
           | H : _ || _ = true |- _ => apply orb_true_iff in H; destruct H
           | H : (_ <=? _)%Z = true |- _ => apply Z.leb_le in H
           end; lia.
Qed.

(** The bytes of a character after the first are continuation bytes. *)
Lemma utf8_char_len_tail p k i :
  utf8_char_len p = S k -> (1 <= i <= k)%nat -> is_cont (nth i p x00) = true.
Proof.
  unfold utf8_char_len, is_cont.
  destruct p as [|c0 [|c1 [|c2 [|c3 r]]]]; simpl;
    repeat break_match; try discriminate; intros [= <-] Hi;
    try lia;
    (destruct i as [|[|[|[|i]]]]; try lia; simpl);
    repeat match goal with
           | H : _ && _ = true |- _ => apply andb_true_iff in H; destruct H
           | H : _ || _ = true |- _ => apply orb_true_iff in H; destruct H
           end;
    try assumption;
    unfold in_range in *;
    repeat match goal with
           | H : _ && _ = true |- _ => apply andb_true_iff in H; destruct H
           | H : (_ <=? _)%Z = true |- _ => apply Z.leb_le in H
           end;
    apply andb_true_iff; split; apply Z.leb_le; lia.
Qed.


Lemma UTF8Spn_nil : UTF8SpnStructurallyValid [] = 0%nat.
Proof. reflexivity. Qed.

Lemma UTF8Spn_unfold p :
  UTF8SpnStructurallyValid p =
  match utf8_char_len p with
  | O => 0%nat
  | S k => (S k + UTF8SpnStructurallyValid (skipn (S k) p))%nat
  end.
Proof.
  unfold UTF8SpnStructurallyValid.
  destruct p as [|c p]; [reflexivity|].
  cbn [length UTF8Spn_fuel].
  destruct (utf8_char_len (c :: p)) as [|k] eqn:E; [reflexivity|].
  f_equal. apply UTF8Spn_fuel_enough; rewrite length_skipn; simpl; lia.
Qed.

Lemma UTF8Spn_le p : (UTF8SpnStructurallyValid p <= length p)%nat.
Proof.
  remember (length p) as n eqn:Hn. revert p Hn.
  induction n as [n IH] using lt_wf_ind. intros p Hn.
  rewrite UTF8Spn_unfold.
  destruct (utf8_char_len p) as [|k] eqn:E; [lia|].
  pose proof (utf8_char_len_le p) as Hle. rewrite E in Hle.
  specialize (IH (length (skipn (S k) p))).
  rewrite length_skipn in IH.
  assert (Hlt : (length p - S k < n)%nat) by lia.
  specialize (IH Hlt (skipn (S k) p)). rewrite length_skipn in IH.
  specialize (IH eq_refl). lia.
Qed.

Lemma valid_wf p : IsStructurallyValidUTF8 p = true <-> utf8_wf p.
Proof.
  unfold IsStructurallyValidUTF8. split.
  - remember (length p) as n eqn:Hn. revert p Hn.
    induction n as [n IH] using lt_wf_ind. intros p Hn H.
    apply Nat.eqb_eq in H.
    destruct p as [|c p]; [constructor|].
    rewrite UTF8Spn_unfold in H.
    destruct (utf8_char_len (c :: p)) as [|k] eqn:E;
      [subst n; simpl in H; lia|].
    pose proof (utf8_char_len_le (c :: p)) as Hle. rewrite E in Hle.
    pose proof (UTF8Spn_le (skipn (S k) (c :: p))) as Hs.
    rewrite length_skipn in Hs.
    apply wf_char with (k := k); [exact E|].
    apply (IH (length (skipn (S k) (c :: p)))).
    + rewrite length_skipn. simpl in *. lia.
    + reflexivity.
    + apply Nat.eqb_eq. rewrite length_skipn. lia.
  - intros Hwf. apply Nat.eqb_eq. induction Hwf as [|p k E Hwf IH].
    + reflexivity.
    + rewrite UTF8Spn_unfold, E, IH, length_skipn.
      pose proof (utf8_char_len_le p) as Hle. rewrite E in Hle. lia.
Qed.

Lemma skipn_app_le {A} n (l1 l2 : list A) :
  (n <= length l1)%nat -> skipn n (l1 ++ l2) = skipn n l1 ++ l2.
Proof.
  intros H. rewrite skipn_app.
  replace (n - length l1)%nat with 0%nat by lia. reflexivity.
Qed.

(** The scanner passes over a well-formed prefix. *)
Lemma UTF8Spn_app V X :
  utf8_wf V ->
  UTF8SpnStructurallyValid (V ++ X)
  = (length V + UTF8SpnStructurallyValid X)%nat.
Proof.
  intros Hwf. induction Hwf as [|p k E Hwf IH]; [reflexivity|].
  pose proof (utf8_char_len_le p) as Hle. rewrite E in Hle.
  rewrite UTF8Spn_unfold, (utf8_char_len_app p X k E).
  rewrite skipn_app_le by lia. rewrite IH, length_skipn. lia.
Qed.

Lemma valid_app V X :
  utf8_wf V ->
  IsStructurallyValidUTF8 (V ++ X) = IsStructurallyValidUTF8 X.
Proof.
  intros Hwf. unfold IsStructurallyValidUTF8.
  rewrite UTF8Spn_app by assumption. rewrite length_app.
  destruct (Nat.eqb_spec (UTF8SpnStructurallyValid X) (length X));
    [apply Nat.eqb_eq|apply Nat.eqb_neq]; lia.
Qed.

Lemma utf8_char_len_firstn p k :
  utf8_char_len p = S k -> utf8_char_len (firstn (S k) p) = S k.
Proof.
  unfold utf8_char_len.
  destruct p as [|c0 [|c1 [|c2 [|c3 r]]]]; cbn -[firstn]; intros E;
    repeat match goal with
           | H : context [if ?b then _ else _] |- _ => destruct b eqn:?
           end;
    try discriminate; injection E as <-; cbn;
    repeat match goal with
           | H : ?b = _ |- context [?b] => rewrite H
           end; reflexivity.
Qed.

Lemma firstn_plus {A} n m (l : list A) :
  firstn (n + m) l = firstn n l ++ firstn m (skipn n l).
Proof.
  revert l. induction n as [|n IH]; intros l; [reflexivity|].
  destruct l as [|a l]; [simpl; rewrite firstn_nil; reflexivity|].
  simpl. f_equal. apply IH.
Qed.

(** The prefix the scanner accepts is well formed. *)
Lemma UTF8Spn_prefix_wf p : utf8_wf (firstn (UTF8SpnStructurallyValid p) p).
Proof.
  remember (length p) as n eqn:Hn. revert p Hn.
  induction n as [n IH] using lt_wf_ind. intros p Hn.
  rewrite UTF8Spn_unfold.
  destruct (utf8_char_len p) as [|k] eqn:E; [constructor|].
  pose proof (utf8_char_len_le p) as Hle. rewrite E in Hle.
  pose proof (firstn_plus (S k) (UTF8SpnStructurallyValid (skipn (S k) p)) p)
    as Hsplit.
  rewrite Hsplit.
  pose proof (utf8_char_len_firstn p k E) as E'.
  apply wf_char with (k := k).
  - apply utf8_char_len_app. exact E'.
  - rewrite skipn_app_le by (rewrite length_firstn; lia).
    rewrite skipn_all2 by (rewrite length_firstn; lia). simpl.
    apply (IH (length (skipn (S k) p))); [|reflexivity].
    rewrite length_skipn. lia.
Qed.

Lemma skipn_cons_nth {A} (d : A) k : forall l,
  (k < length l)%nat -> skipn k l = nth k l d :: skipn (S k) l.
Proof.
  induction k as [|k IH]; intros l Hl.
  - destruct l; [simpl in Hl; lia|reflexivity].
  - destruct l as [|a l]; [simpl in Hl; lia|].
    simpl in Hl. cbn [skipn nth]. apply IH. lia.
Qed.

(** What remains of well-formed text, followed by text that is not valid,
    is not valid. *)
Lemma invalid_after_suffix V :
  utf8_wf V -> forall k X,
  IsStructurallyValidUTF8 X = false ->
  IsStructurallyValidUTF8 (skipn k V ++ X) = false.
Proof.
  intros Hwf. induction Hwf as [|p j E Hwf IH]; intros k X HX.
  - rewrite skipn_nil. exact HX.
  - pose proof (utf8_char_len_le p) as Hle. rewrite E in Hle.
    destruct (Nat.eq_dec k 0) as [->|Hk0].
    + simpl. rewrite valid_app; [exact HX|].
      apply wf_char with (k := j); assumption.
    + destruct (Nat.le_gt_cases (S j) k) as [Hge|Hlt].
      * replace k with ((k - S j) + S j)%nat by lia.
        rewrite <- skipn_skipn. apply IH. exact HX.
      * assert (Hc : is_cont (nth k p x00) = true)
          by (apply utf8_char_len_tail with (k := j); [exact E|lia]).
        assert (Hs : skipn k p = nth k p x00 :: skipn (S k) p)
          by (apply skipn_cons_nth; lia).
        rewrite Hs. unfold IsStructurallyValidUTF8.
        rewrite UTF8Spn_unfold. cbn [app].
        rewrite utf8_char_len_cont by exact Hc. reflexivity.
Qed.


Lemma UTF8Spn_firstn_nonempty p :
  (0 < UTF8SpnStructurallyValid p)%nat ->
  firstn (UTF8SpnStructurallyValid p) p <> [].
Proof.
  intros H. pose proof (UTF8Spn_le p).
  destruct p; [simpl in *; lia|].
  destruct (UTF8SpnStructurallyValid (b :: p)); [lia|discriminate].
Qed.



Lemma Parse_leftover c st :
  ok (fst (Parse c st)) = true ->
  exists k,
    leftover_ (snd (Parse c st))
    = skipn k (firstn (UTF8SpnStructurallyValid (leftover_ st ++ c))
                 (leftover_ st ++ c))
      ++ skipn (UTF8SpnStructurallyValid (leftover_ st ++ c))
           (leftover_ st ++ c).
Proof.
  unfold Parse.
  set (cs := match leftover_ st with
             | [] => (c, st)
             | _ :: _ => _
             end).
  assert (Hcs : fst cs = leftover_ st ++ c).
  { subst cs. destruct (leftover_ st); reflexivity. }
  destruct cs as [chunk st1]. simpl in Hcs. rewrite <- Hcs.
  destruct (Nat.ltb 0 (UTF8SpnStructurallyValid chunk)) eqn:En.
  - apply Nat.ltb_lt in En.
    pose proof (ParseChunk_good
                  (firstn (UTF8SpnStructurallyValid chunk) chunk) st1)
      as (_ & _ & _ & _ & Hs).
    destruct (ParseChunk _ st1) as [r st2]. simpl in *.
    intros Hok. destruct (Hs (UTF8Spn_firstn_nonempty chunk En) Hok) as [k Hk].
    exists k. rewrite Hk. reflexivity.
  - apply Nat.ltb_ge in En. intros _. exists 0%nat. simpl.
    replace (UTF8SpnStructurallyValid chunk) with 0%nat by lia. reflexivity.
Qed.

Lemma invalid_input_stays_invalid c rest st :
  IsStructurallyValidUTF8 (leftover_ st ++ concat (c :: rest)) = false ->
  ok (fst (Parse c st)) = true ->
  IsStructurallyValidUTF8 (leftover_ (snd (Parse c st)) ++ concat rest) = false.
Proof.
  intros Hinv Hok. destruct (Parse_leftover c st Hok) as [k Hk].
  rewrite Hk. clear Hk.
  set (chunk := leftover_ st ++ c) in *.
  set (n := UTF8SpnStructurallyValid chunk).
  rewrite <- app_assoc.
  apply invalid_after_suffix; [apply UTF8Spn_prefix_wf|].
  rewrite <- (valid_app (firstn n chunk)) by apply UTF8Spn_prefix_wf.
  rewrite app_assoc, firstn_skipn. subst chunk.
  rewrite <- app_assoc. exact Hinv.
Qed.

Lemma FinishParse_invalid st :
  coerce_to_utf8_ st = false ->
  IsStructurallyValidUTF8 (leftover_ st) = false ->
  exists context,
    fst (FinishParse st)
    = InvalidArgumentError (Some NON_UTF_8)
        (B "Encountered non UTF-8 code points." ++ context).
Proof.
  intros Hc Hv. unfold FinishParse. rewrite Hc, Hv. simpl.
  destruct (leftover_ st) eqn:El; [discriminate Hv|].
  destruct (stack_ st); eexists; unfold ReportFailure; simpl; reflexivity.
Qed.

Lemma invalid_input_never_parses chunks : forall st,
  coerce_to_utf8_ st = false ->
  IsStructurallyValidUTF8 (leftover_ st ++ concat chunks) = false ->
  ok (fst (ParseChunks chunks st)) = false
  /\ (ok (fst (ParseAll chunks st)) = true ->
      exists context,
        fst (ParseChunks chunks st)
        = InvalidArgumentError (Some NON_UTF_8)
            (B "Encountered non UTF-8 code points." ++ context)).
Proof.
  induction chunks as [|c rest IH]; intros st Hc Hinv.
  - simpl in *. rewrite app_nil_r in Hinv.
    destruct (FinishParse_invalid st Hc Hinv) as [ctx Hctx].
    split; [rewrite Hctx; reflexivity|]. intros _. exists ctx. exact Hctx.
  - cbn [ParseChunks ParseAll].
    pose proof (invalid_input_stays_invalid c rest st Hinv) as Hstay.
    pose proof (Parse_good c st) as (_ & Hc1 & _).
    destruct (Parse c st) as [r st1]. simpl in *.
    destruct (ok r) eqn:Hok; simpl.
    + apply IH; [congruence|]. apply Hstay. reflexivity.
    + split; [exact Hok|]. intros H. simpl in H. congruence.
Qed.


Lemma utf8_wf_app a b : utf8_wf a -> utf8_wf b -> utf8_wf (a ++ b).
Proof.
  intros Ha Hb. apply valid_wf. rewrite valid_app by exact Ha.
  apply valid_wf. exact Hb.
Qed.

Lemma UTF8Spn_stops p :
  utf8_char_len (skipn (UTF8SpnStructurallyValid p) p) = 0%nat.
Proof.
  pose proof (UTF8Spn_app (firstn (UTF8SpnStructurallyValid p) p)
                (skipn (UTF8SpnStructurallyValid p) p)
                (UTF8Spn_prefix_wf p)) as H.
  rewrite firstn_skipn in H. rewrite length_firstn in H.
  pose proof (UTF8Spn_le p).
  rewrite (UTF8Spn_unfold (skipn _ p)) in H.
  destruct (utf8_char_len (skipn _ p)); [reflexivity|lia].
Qed.

Lemma ReplaceInvalidCodePoints_unfold c str replacement dst :
  ReplaceInvalidCodePoints (c :: str) replacement dst
  = let n := UTF8SpnStructurallyValid (c :: str) in
    if Nat.eqb n (length (c :: str)) then dst ++ firstn n (c :: str)
    else ReplaceInvalidCodePoints (skipn (n + 1) (c :: str)) replacement
           ((dst ++ firstn n (c :: str)) ++ replacement).
Proof.
  unfold ReplaceInvalidCodePoints at 1.
  cbn [length ReplaceInvalidCodePoints_fuel]. cbv zeta.
  destruct (Nat.eqb _ _); [reflexivity|].
  apply ReplaceInvalidCodePoints_fuel_enough;
    rewrite length_skipn; cbn [length]; lia.
Qed.

Lemma ReplaceInvalidCodePoints_dst replacement n : forall str dst,
  (length str <= n)%nat ->
  ReplaceInvalidCodePoints str replacement dst
  = dst ++ ReplaceInvalidCodePoints str replacement [].
Proof.
  induction n as [|n IH]; intros str dst Hn.
  - destruct str; [|simpl in Hn; lia]. cbn. rewrite app_nil_r. reflexivity.
  - destruct str as [|c str]; [cbn; rewrite app_nil_r; reflexivity|].
    rewrite !ReplaceInvalidCodePoints_unfold. cbv zeta.
    destruct (Nat.eqb _ _); [reflexivity|].
    assert (Hl : (length (skipn (UTF8SpnStructurallyValid (c :: str) + 1)
                            (c :: str)) <= n)%nat).
    { rewrite length_skipn. cbn [length] in *. lia. }
    rewrite (IH _ ((dst ++ _) ++ _) Hl), (IH _ (([] ++ _) ++ _) Hl).
    cbn [app]. rewrite <- !app_assoc. reflexivity.
Qed.

Lemma replaced_wf_app replacement V :
  utf8_wf V -> forall X out,
  replaced replacement X out -> replaced replacement (V ++ X) (V ++ out).
Proof.
  induction 1 as [|p k Hk Hwf IH]; intros X out HX; [exact HX|].
  pose proof (utf8_char_len_le p) as Hle. rewrite Hk in Hle.
  rewrite <- (firstn_skipn (S k) p) at 2. rewrite <- app_assoc.
  replace (firstn (S k) p) with (firstn (S k) (p ++ X))
    by (rewrite firstn_app; replace (S k - length p)%nat with 0%nat by lia;
        cbn [firstn]; apply app_nil_r).
  apply replaced_char; [apply utf8_char_len_app; exact Hk|].
  rewrite skipn_app_le by exact Hle. apply IH. exact HX.
Qed.

Lemma ReplaceInvalidCodePoints_replaced replacement n : forall str,
  (length str <= n)%nat ->
  replaced replacement str (ReplaceInvalidCodePoints str replacement []).
Proof.
  induction n as [|n IH]; intros str Hn.
  - destruct str; [|simpl in Hn; lia]. constructor.
  - destruct str as [|c str]; [constructor|].
    rewrite ReplaceInvalidCodePoints_unfold. cbv zeta.
    set (p := c :: str) in *. set (m := UTF8SpnStructurallyValid p).
    pose proof (UTF8Spn_le p) as Hle. fold m in Hle.
    pose proof (UTF8Spn_prefix_wf p) as Hwf. fold m in Hwf.
    pose proof (UTF8Spn_stops p) as Hstop. fold m in Hstop.
    destruct (Nat.eqb m (length p)) eqn:E.
    + apply Nat.eqb_eq in E. cbn [app].
      rewrite <- (firstn_skipn m p) at 1.
      rewrite <- (app_nil_r (firstn m p)) at 2.
      apply replaced_wf_app; [exact Hwf|].
      rewrite E, skipn_all. constructor.
    + apply Nat.eqb_neq in E. cbn [app].
      rewrite ReplaceInvalidCodePoints_dst with (n := n)
        by (rewrite length_skipn; subst p; cbn [length] in *; lia).
      rewrite <- app_assoc.
      rewrite <- (firstn_skipn m p) at 1.
      apply replaced_wf_app; [exact Hwf|].
      rewrite (skipn_cons_nth x00 m p) in * by lia.
      replace (m + 1)%nat with (S m) by lia.
      apply replaced_byte; [exact Hstop|].
      apply IH. rewrite length_skipn. subst p; cbn [length] in *; lia.
Qed.

Lemma replaced_valid replacement :
  utf8_wf replacement -> forall str out,
  replaced replacement str out -> utf8_wf out.
Proof.
  intros Hr str out H. induction H as [|p k out Hk _ IH|c p out _ _ IH].
  - constructor.
  - apply utf8_wf_app; [|exact IH].
    apply wf_char with (k := k); [apply utf8_char_len_firstn; exact Hk|].
    pose proof (utf8_char_len_le p) as Hle. rewrite Hk in Hle.
    rewrite skipn_all2 by (rewrite length_firstn; lia). constructor.
  - apply utf8_wf_app; assumption.
Qed.

Lemma replaced_functional replacement str : forall out1 out2,
  replaced replacement str out1 -> replaced replacement str out2 ->
  out1 = out2.
Proof.
  intros out1 out2 H. revert out2.
  induction H as [|p k out Hk _ IH|c p out Hc _ IH]; intros out2 H2.
  - inversion H2; subst; try reflexivity.
    match goal with H : utf8_char_len [] = S _ |- _ => discriminate H end.
  - inversion H2; subst.
    + discriminate Hk.
    + assert (k0 = k) by congruence. subst k0. f_equal. apply IH. assumption.
    + congruence.
  - inversion H2; subst.
    + congruence.
    + f_equal. apply IH. assumption.
Qed.

Lemma ParseChunks_ParseAll chunks : forall st,
  ParseChunks chunks st
  = if ok (fst (ParseAll chunks st))
    then FinishParse (snd (ParseAll chunks st))
    else ParseAll chunks st.
Proof.
  induction chunks as [|c rest IH]; intros st; [reflexivity|].
  cbn [ParseChunks ParseAll]. destruct (Parse c st) as [r st1].
  destruct (ok r) eqn:Hok; [apply IH|]. cbn [fst]. rewrite Hok. reflexivity.
Qed.

Lemma ParseAll_keeps chunks : forall st,
  ok (fst (ParseAll chunks st)) = true ->
  coerce_to_utf8_ (snd (ParseAll chunks st)) = coerce_to_utf8_ st
  /\ utf8_replacement_character_ (snd (ParseAll chunks st))
     = utf8_replacement_character_ st
  /\ (IsStructurallyValidUTF8 (leftover_ st ++ concat chunks) = false ->
      IsStructurallyValidUTF8 (leftover_ (snd (ParseAll chunks st))) = false).
Proof.
  induction chunks as [|c rest IH]; intros st.
  - cbn. rewrite app_nil_r. auto.
  - cbn [ParseAll].
    pose proof (invalid_input_stays_invalid c rest st) as Hstay.
    pose proof (Parse_good c st) as (_ & Hc & Hr & _).
    destruct (Parse c st) as [r st1]. cbn [fst snd] in *.
    destruct (ok r) eqn:Hok; [|cbn [fst]; congruence].
    intros H. destruct (IH st1 H) as (Hc1 & Hr1 & Hi1).
    repeat split; [congruence|congruence|].
    intros Hinv. apply Hi1, Hstay; [exact Hinv|reflexivity].
Qed.

Lemma FinishParse_coerces st :
  coerce_to_utf8_ st = true ->
  IsStructurallyValidUTF8 (leftover_ st) = false ->
  FinishParse st
  = FinishParse_run
      (set_p_ (ReplaceInvalidCodePoints (leftover_ st)
                 (utf8_replacement_character_ st) [])
         (set_xml_ (ReplaceInvalidCodePoints (leftover_ st)
                      (utf8_replacement_character_ st) []) st)).
Proof.
  intros Hc Hv. unfold FinishParse. rewrite Hc, Hv. cbn [negb andb].
  destruct (leftover_ st) eqn:El; [discriminate Hv|].
  destruct (stack_ st); reflexivity.
Qed.

(** C5, as stated, does not hold.  With coercion off, the text x followed
    by the byte FF fails, but with EXPECTED_OPEN_TAG: the valid prefix is
    parsed first and its error comes first.  With coercion on, the single
    byte FF is replaced by a space and the parse of that space fails. *)
Lemma invalid_utf8_is_not_always_NON_UTF_8_nor_coerced_to_success :
  IsStructurallyValidUTF8 (B "x" ++ [xff]) = false
  /\ coerce_to_utf8_ New = false
  /\ fst (ParseChunks [B "x" ++ [xff]] New)
     = InvalidArgumentError (Some EXPECTED_OPEN_TAG)
         (B "Expected an open tag." ++ [x0a] ++ B "x" ++ [x0a] ++ B "^")
  /\ IsStructurallyValidUTF8 [xff] = false
  /\ ok (fst (ParseChunks [[xff]] (set_coerce_to_utf8_ true New))) = false.
Proof. vm_compute. repeat split; reflexivity. Qed.

(** C5, amended.  The text is what is left over followed by the chunks, and
    it is not structurally valid UTF-8.  Without coercion no sequence of
    Parse calls followed by FinishParse succeeds, and when every Parse call
    succeeds the failure is NON_UTF_8 with the message Encountered non UTF-8
    code points.  With coercion, when every Parse call succeeds, FinishParse
    runs the parser on the left-over text in which every well-formed
    character is kept and every other byte is replaced by the replacement
    sequence; that text is structurally valid when the replacement is. *)
Theorem invalid_utf8_is_rejected_or_replaced chunks st :
  IsStructurallyValidUTF8 (leftover_ st ++ concat chunks) = false ->
  (coerce_to_utf8_ st = false ->
   ok (fst (ParseChunks chunks st)) = false
   /\ (ok (fst (ParseAll chunks st)) = true ->
       exists context,
         fst (ParseChunks chunks st)
         = InvalidArgumentError (Some NON_UTF_8)
             (B "Encountered non UTF-8 code points." ++ context)))
  /\ (coerce_to_utf8_ st = true ->
      ok (fst (ParseAll chunks st)) = true ->
      exists scratch,
        replaced (utf8_replacement_character_ st)
          (leftover_ (snd (ParseAll chunks st))) scratch
        /\ (utf8_wf (utf8_replacement_character_ st) ->
            IsStructurallyValidUTF8 scratch = true)
        /\ ParseChunks chunks st
           = FinishParse_run
               (set_p_ scratch (set_xml_ scratch (snd (ParseAll chunks st))))).
Proof.
  intros Hinv. split.
  - intros Hc. apply invalid_input_never_parses; assumption.
  - intros Hc Hall.
    destruct (ParseAll_keeps chunks st Hall) as (Hc1 & Hr1 & Hi1).
    specialize (Hi1 Hinv).
    exists (ReplaceInvalidCodePoints (leftover_ (snd (ParseAll chunks st)))
              (utf8_replacement_character_ st) []).
    pose proof (ReplaceInvalidCodePoints_replaced
                  (utf8_replacement_character_ st) _
                  (leftover_ (snd (ParseAll chunks st))) (Nat.le_refl _))
      as Hrep.
    split; [exact Hrep|]. split.
    + intros Hwf. apply valid_wf.
      exact (replaced_valid _ Hwf _ _ Hrep).
    + rewrite ParseChunks_ParseAll, Hall. rewrite <- Hr1.
      apply FinishParse_coerces; [congruence|exact Hi1].
Qed.

Lemma invalid_utf8_is_rejected_or_replaced_witness :
  (exists context,
      fst (ParseChunks [B "<a>" ++ [xff]; B "</a>"] New)
      = InvalidArgumentError (Some NON_UTF_8)
          (B "Encountered non UTF-8 code points." ++ context))
  /\ (exists scratch,
        replaced (B " ")
          (leftover_ (snd (ParseAll [B "<a k='" ++ [xff] ++ B "'></a>"]
                             (set_coerce_to_utf8_ true New)))) scratch
        /\ IsStructurallyValidUTF8 scratch = true
        /\ ParseChunks [B "<a k='" ++ [xff] ++ B "'></a>"]
             (set_coerce_to_utf8_ true New)
           = FinishParse_run
               (set_p_ scratch
                  (set_xml_ scratch
                     (snd (ParseAll [B "<a k='" ++ [xff] ++ B "'></a>"]
                             (set_coerce_to_utf8_ true New))))))
  /\ fst (ParseChunks [B "<a k='" ++ [xff] ++ B "'></a>"]
            (set_coerce_to_utf8_ true New)) = OkStatus
  /\ ow_ (snd (ParseChunks [B "<a k='" ++ [xff] ++ B "'></a>"]
                 (set_coerce_to_utf8_ true New)))
     = [StartObject (B "a"); RenderString (B "k") (B " "); EndObject].
Proof.
  assert (Hinv : IsStructurallyValidUTF8
                   (leftover_ New ++ concat [B "<a>" ++ [xff]; B "</a>"])
                 = false) by (vm_compute; reflexivity).
  assert (Hall : ok (fst (ParseAll [B "<a>" ++ [xff]; B "</a>"] New)) = true)
    by (vm_compute; reflexivity).
  assert (Hc : coerce_to_utf8_ New = false) by reflexivity.
  assert (Hinv2 : IsStructurallyValidUTF8
                    (leftover_ (set_coerce_to_utf8_ true New)
                     ++ concat [B "<a k='" ++ [xff] ++ B "'></a>"])
                  = false) by (vm_compute; reflexivity).
  assert (Hall2 : ok (fst (ParseAll [B "<a k='" ++ [xff] ++ B "'></a>"]
                             (set_coerce_to_utf8_ true New))) = true)
    by (vm_compute; reflexivity).
  assert (Hc2 : coerce_to_utf8_ (set_coerce_to_utf8_ true New) = true)
    by reflexivity.
  assert (Hsp : utf8_wf (B " "))
    by (apply valid_wf; vm_compute; reflexivity).
  split; [|split].
  - exact (proj2 (proj1 (invalid_utf8_is_rejected_or_replaced _ _ Hinv) Hc)
             Hall).
  - destruct (proj2 (invalid_utf8_is_rejected_or_replaced _ _ Hinv2) Hc2 Hall2)
      as (scratch & Hrep & Hval & Heq).
    exists scratch. split; [exact Hrep|]. split; [exact (Hval Hsp)|exact Heq].
  - vm_compute. split; reflexivity.
Defined.

(** ** Further properties of the parser and the writer *)

Lemma runs_trans st1 st2 st3 : runs st1 st2 -> runs st2 st3 -> runs st1 st3.
Proof.
  induction 1 as [|st type rest sa sb Hs Hr _ IH]; intros H; [exact H|].
  eapply runs_step; [exact Hs|exact Hr|]. apply IH, H.
Qed.

Lemma runs_RunParser_fuel st st' :
  runs st st' -> forall n, (length (p_ st) < n)%nat ->
  RunParser_fuel n st = RunParser_fuel n st'
  /\ (length (p_ st') <= length (p_ st))%nat.
Proof.
  induction 1 as [|st type rest sa sb Hs Hr _ IH]; intros n Hn; [split; [reflexivity|lia]|].
  pose proof (RunParser_round_consumes _ _ _ _ Hr) as Hc.
  destruct n as [|n]; [lia|].
  destruct (IH (S n) ltac:(lia)) as [IH1 IH2]. split; [|lia].
  rewrite <- IH1. transitivity (RunParser_fuel n sa).
  - cbn [RunParser_fuel]. rewrite Hs, Hr. reflexivity.
  - apply RunParser_fuel_enough; lia.
Qed.

Lemma runs_RunParser st st' : runs st st' -> RunParser st = RunParser st'.
Proof.
  intros H. unfold RunParser at 1.
  destruct (runs_RunParser_fuel _ _ H (S (length (p_ st))) ltac:(lia))
    as [H1 H2].
  rewrite H1. apply RunParser_fuel_defined. lia.
Qed.

Lemma leads_trans max C1 C2 C3 :
  leads max C1 C2 -> leads max C2 C3 -> leads max C1 C3.
Proof.
  intros H12 H23 st Hr Hc.
  destruct (H12 st Hr Hc) as (st2 & Hruns & Hr2 & Hc2).
  destruct (H23 st2 Hr2 Hc2) as (st3 & Hruns3 & Hr3 & Hc3).
  exists st3. split; [eapply runs_trans; eassumption|]. split; assumption.
Qed.

Lemma leads_returns max C1 C2 r ow :
  leads max C1 C2 -> returns max C2 r ow -> returns max C1 r ow.
Proof.
  intros H12 H2 st Hr Hc.
  destruct (H12 st Hr Hc) as (st2 & Hruns & Hr2 & Hc2).
  rewrite (runs_RunParser _ _ Hruns). apply H2; assumption.
Qed.

Lemma returns_empty_stack max p ow d tags kinds :
  returns max (mkConfig [] p ow d tags kinds) OkStatus ow.
Proof.
  intros st _ Hc. unfold config in Hc. injection Hc as Hs _ Ho _ _ _.
  unfold RunParser. cbn [RunParser_fuel]. rewrite Hs. split; [reflexivity|exact Ho].
Qed.

Lemma set_p_same st : set_p_ (p_ st) st = st.
Proof. destruct st; reflexivity. Qed.

Lemma set_p_set_p a b st : set_p_ a (set_p_ b st) = set_p_ a st.
Proof. destruct st; reflexivity. Qed.

Lemma Advance_one st c r :
  p_ st = c :: r -> kUTF8LenTbl c = 1%nat -> Advance st = set_p_ r st.
Proof.
  intros Hp Hk. unfold Advance, remove_prefix, UTF8FirstLetterNumBytes.
  rewrite Hp, Hk. cbn [length]. rewrite Nat.min_r by lia. reflexivity.
Qed.

Lemma space_one c : ascii_isspace c = true -> kUTF8LenTbl c = 1%nat.
Proof. intros H; destruct c; vm_compute in H; try discriminate H; reflexivity. Qed.

Lemma letter_one c : IsAlphanumericOrHyphen c = true -> kUTF8LenTbl c = 1%nat.
Proof. intros H; destruct c; vm_compute in H; try discriminate H; reflexivity. Qed.

Lemma SkipWhitespace_t_loop_spaces type ws :
  type <> BEGIN_ELEMENT_MID ->
  forallb ascii_isspace ws = true ->
  forall n st c r,
  ascii_isspace c = false -> p_ st = ws ++ c :: r -> (length ws < n)%nat ->
  SkipWhitespace_t_loop type n st = set_p_ (c :: r) st.
Proof.
  intros Ht. induction ws as [|w ws IH]; intros Hws n st c r Hc Hp Hn.
  - destruct n as [|n]; [cbn in Hn; lia|]. cbn [app] in Hp.
    cbn [SkipWhitespace_t_loop]. rewrite Hp, Hc, <- Hp. symmetry. apply set_p_same.
  - destruct n as [|n]; [cbn in Hn; lia|]. cbn [app forallb] in Hp, Hws.
    apply andb_true_iff in Hws as [Hw Hws].
    cbn [SkipWhitespace_t_loop]. rewrite Hp, Hw.
    replace (ParseType_eqb type BEGIN_ELEMENT_MID) with false
      by (destruct type; try reflexivity; congruence).
    rewrite (Advance_one st w _ Hp (space_one w Hw)).
    rewrite (IH Hws n (set_p_ (ws ++ c :: r) st) c r Hc);
      [apply set_p_set_p|destruct st; reflexivity|cbn [length] in Hn; lia].
Qed.

Lemma SkipWhitespace_t_spaces type ws c r st :
  type <> BEGIN_ELEMENT_MID ->
  forallb ascii_isspace ws = true ->
  ascii_isspace c = false -> p_ st = ws ++ c :: r ->
  SkipWhitespace_t type st = set_seen_non_whitespace_ true (set_p_ (c :: r) st).
Proof.
  intros Ht Hws Hc Hp. unfold SkipWhitespace_t.
  rewrite (SkipWhitespace_t_loop_spaces type ws Ht Hws _ st c r Hc Hp)
    by (rewrite Hp, length_app; cbn [length]; lia).
  unfold mark_non_whitespace.
  replace (p_ (set_p_ (c :: r) st)) with (c :: r) by (destruct st; reflexivity).
  rewrite Hc. reflexivity.
Qed.

Lemma SkipWhitespace_t_none type c r st :
  ascii_isspace c = false -> p_ st = c :: r ->
  SkipWhitespace_t type st = set_seen_non_whitespace_ true st.
Proof.
  intros Hc Hp. unfold SkipWhitespace_t. rewrite Hp. cbn [length SkipWhitespace_t_loop].
  rewrite Hp, Hc. unfold mark_non_whitespace. rewrite Hp, Hc. reflexivity.
Qed.

Lemma name_tail_len_app r x rest :
  forallb IsAlphanumericOrHyphen r = true ->
  IsAlphanumericOrHyphen x = false ->
  name_tail_len (r ++ x :: rest) = length r.
Proof.
  induction r as [|c r IH]; intros Hr Hx; cbn [app name_tail_len length].
  - rewrite Hx. reflexivity.
  - cbn [forallb] in Hr. apply andb_true_iff in Hr as [Hc Hr].
    rewrite Hc, IH by assumption. reflexivity.
Qed.

Lemma ConsumeTagName_name t x rest :
  is_name t = true -> IsAlphanumericOrHyphen x = false ->
  ConsumeTagName (t ++ x :: rest) = Some (t, x :: rest).
Proof.
  destruct t as [|c r]; [discriminate|]. cbn [is_name]. intros H Hx.
  apply andb_true_iff in H as [Hc Hr]. cbn [app ConsumeTagName]. rewrite Hc.
  rewrite name_tail_len_app by assumption.
  change (c :: r ++ x :: rest) with ((c :: r) ++ x :: rest).
  replace (S (length r)) with (length (c :: r) + 0)%nat by (cbn [length]; lia).
  rewrite firstn_app_2, skipn_app, skipn_all2 by lia.
  replace (length (c :: r) + 0 - length (c :: r))%nat with 0%nat by lia.
  cbn [firstn skipn app]. rewrite app_nil_r. reflexivity.
Qed.

Lemma ConsumeKey_name t x rest :
  is_name t = true -> IsAlphanumericOrHyphen x = false ->
  ConsumeKey (t ++ x :: rest) = Some (t, x :: rest).
Proof. exact (ConsumeTagName_name t x rest). Qed.

Lemma letter_token c :
  IsLetter c = true ->
  ascii_isspace c = false /\
  (Byte.eqb c x22 || Byte.eqb c "'"%byte) = false /\
  Byte.eqb c "<"%byte = false /\ Byte.eqb c ">"%byte = false /\
  Byte.eqb c "/"%byte = false /\ Byte.eqb c "?"%byte = false /\
  Byte.eqb c "!"%byte = false /\ Byte.eqb c " "%byte = false /\
  Byte.eqb c "="%byte = false.
Proof.
  intros H; destruct c; vm_compute in H; try discriminate H;
    vm_compute; repeat split.
Qed.

Lemma next_token_letter type ws c r st :
  type <> BEGIN_ELEMENT_MID ->
  string_open_ st = x00 ->
  forallb ascii_isspace ws = true ->
  IsLetter c = true -> p_ st = ws ++ c :: r ->
  next_token type st
  = (BEGIN_KEY, set_seen_non_whitespace_ true (set_p_ (c :: r) st)).
Proof.
  intros Ht Hso Hws Hc Hp.
  destruct (letter_token c Hc) as (H0 & H1 & H2 & H3 & H4 & H5 & H6 & H7 & H8).
  unfold next_token, GetNextTokenType. rewrite Hso. cbn [Byte.eqb].
  change (Byte.eqb x00 x00) with true. cbv iota.
  rewrite (SkipWhitespace_t_spaces type ws c r st Ht Hws H0 Hp).
  replace (p_ (set_seen_non_whitespace_ true (set_p_ (c :: r) st)))
    with (c :: r) by (destruct st; reflexivity).
  rewrite H1, H2, H3, H4, H5, H6, H7, H8. cbn [MatchKey]. rewrite Hc.
  reflexivity.
Qed.

(** The token at a byte that is a token by itself. *)
Lemma next_token_char type ws c r st :
  type <> BEGIN_ELEMENT_MID ->
  string_open_ st = x00 ->
  forallb ascii_isspace ws = true ->
  ascii_isspace c = false -> p_ st = ws ++ c :: r ->
  next_token type st
  = (fst (GetNextTokenType TEXT (set_p_ [c] st)),
     set_seen_non_whitespace_ true (set_p_ (c :: r) st)).
Proof.
  intros Ht Hso Hws Hc Hp.
  unfold next_token. rewrite Hso. change (Byte.eqb x00 x00) with true. cbv iota.
  unfold GetNextTokenType.
  rewrite (SkipWhitespace_t_spaces type ws c r st Ht Hws Hc Hp).
  rewrite (SkipWhitespace_t_none TEXT c [] (set_p_ [c] st) Hc)
    by (destruct st; reflexivity).
  replace (p_ (set_seen_non_whitespace_ true (set_p_ (c :: r) st)))
    with (c :: r) by (destruct st; reflexivity).
  replace (p_ (set_seen_non_whitespace_ true (set_p_ [c] st)))
    with [c] by (destruct st; reflexivity).
  cbn [fst MatchKey]. reflexivity.
Qed.

Lemma next_token_open type ws r st :
  type <> BEGIN_ELEMENT_MID -> string_open_ st = x00 ->
  forallb ascii_isspace ws = true -> p_ st = ws ++ "<"%byte :: r ->
  next_token type st
  = (OPEN_TAG, set_seen_non_whitespace_ true (set_p_ ("<"%byte :: r) st)).
Proof.
  intros Ht Hso Hws Hp.
  rewrite (next_token_char type ws "<"%byte r st Ht Hso Hws eq_refl Hp).
  reflexivity.
Qed.

Lemma next_token_close type ws r st :
  type <> BEGIN_ELEMENT_MID -> string_open_ st = x00 ->
  forallb ascii_isspace ws = true -> p_ st = ws ++ ">"%byte :: r ->
  next_token type st
  = (CLOSE_TAG, set_seen_non_whitespace_ true (set_p_ (">"%byte :: r) st)).
Proof.
  intros Ht Hso Hws Hp.
  rewrite (next_token_char type ws ">"%byte r st Ht Hso Hws eq_refl Hp).
  reflexivity.
Qed.

Lemma next_token_slash type ws r st :
  type <> BEGIN_ELEMENT_MID -> string_open_ st = x00 ->
  forallb ascii_isspace ws = true -> p_ st = ws ++ "/"%byte :: r ->
  next_token type st
  = (END_TAG_SLASH, set_seen_non_whitespace_ true (set_p_ ("/"%byte :: r) st)).
Proof.
  intros Ht Hso Hws Hp.
  rewrite (next_token_char type ws "/"%byte r st Ht Hso Hws eq_refl Hp).
  reflexivity.
Qed.

(** In BEGIN_ELEMENT_MID no space stands before the byte. *)
Lemma next_token_mid_close r st :
  string_open_ st = x00 -> p_ st = ">"%byte :: r ->
  next_token BEGIN_ELEMENT_MID st
  = (CLOSE_TAG, set_seen_non_whitespace_ true st).
Proof.
  intros Hso Hp. unfold next_token, GetNextTokenType. rewrite Hso.
  change (Byte.eqb x00 x00) with true. cbv iota.
  rewrite (SkipWhitespace_t_none BEGIN_ELEMENT_MID ">"%byte r st eq_refl Hp).
  replace (p_ (set_seen_non_whitespace_ true st)) with (">"%byte :: r)
    by (destruct st; cbn in *; congruence).
  reflexivity.
Qed.

Ltac finish_round st :=
  destruct st; cbn in *; subst; repeat split; reflexivity.

Ltac one_round Hs Hround :=
  eexists; split;
  [eapply runs_step; [exact Hs|exact Hround|apply runs_refl]|].

Ltac start_leads st Hf Hso Hps Hm Hs Hp Ho Hd Ht Hk :=
  intros st (Hf & Hso & Hps & Hm) Hc; unfold config in Hc;
  injection Hc as Hs Hp Ho Hd Ht Hk.

Lemma leads_open_tag max ws rest K ow d tags kinds :
  forallb ascii_isspace ws = true ->
  leads max (mkConfig (TEXT :: K) (ws ++ "<"%byte :: rest) ow d tags kinds)
    (mkConfig (START_TAG :: TEXT :: K) rest ow d tags kinds).
Proof.
  intros Hws. start_leads st Hf Hso Hps Hm Hs Hp Ho Hd Ht Hk.
  assert (Hround : RunParser_round TEXT K st
            = inl (push START_TAG (push TEXT (set_p_ rest
                (set_stack_ K (set_seen_non_whitespace_ true st)))))).
  { unfold RunParser_round.
    rewrite (next_token_open TEXT ws rest st ltac:(discriminate) Hso Hws Hp).
    cbn [dispatch ParseText_t].
    rewrite (Advance_one _ "<"%byte rest) by (destruct st; reflexivity).
    cbn [ok]. destruct st; reflexivity. }
  one_round Hs Hround. finish_round st.
Qed.

Lemma leads_first_open_tag max ws rest K ow d tags kinds :
  forallb ascii_isspace ws = true ->
  leads max
    (mkConfig (BEGIN_ELEMENT :: K) (ws ++ "<"%byte :: rest) ow d tags kinds)
    (mkConfig (START_TAG :: K) rest ow d tags kinds).
Proof.
  intros Hws. start_leads st Hf Hso Hps Hm Hs Hp Ho Hd Ht Hk.
  assert (Hround : RunParser_round BEGIN_ELEMENT K st
            = inl (push START_TAG (set_p_ rest
                (set_stack_ K (set_seen_non_whitespace_ true st))))).
  { unfold RunParser_round.
    rewrite (next_token_open BEGIN_ELEMENT ws rest st ltac:(discriminate)
               Hso Hws Hp).
    cbn [dispatch ParseBeginElement].
    rewrite (Advance_one _ "<"%byte rest) by (destruct st; reflexivity).
    cbn [ok]. destruct st; reflexivity. }
  one_round Hs Hround. finish_round st.
Qed.

Lemma leads_tag_close max rest K ow d tags kinds :
  leads max
    (mkConfig (BEGIN_ELEMENT_MID :: K) (">"%byte :: rest) ow d tags kinds)
    (mkConfig (TEXT :: K) rest ow d tags kinds).
Proof.
  start_leads st Hf Hso Hps Hm Hs Hp Ho Hd Ht Hk.
  assert (Hround : RunParser_round BEGIN_ELEMENT_MID K st
            = inl (push TEXT (set_p_ rest
                (set_stack_ K (set_seen_non_whitespace_ true st))))).
  { unfold RunParser_round.
    rewrite (next_token_mid_close rest st Hso Hp).
    cbn [dispatch ParseBeginElementMid].
    rewrite (Advance_one _ ">"%byte rest)
      by (destruct st; cbn in *; congruence || reflexivity).
    cbn [ok]. destruct st; reflexivity. }
  one_round Hs Hround. finish_round st.
Qed.

Lemma leads_end_close max rest K ow d tags kinds :
  leads max
    (mkConfig (END_ELEMENT_CLOSE :: K) (">"%byte :: rest) ow d tags kinds)
    (mkConfig K rest ow d tags kinds).
Proof.
  start_leads st Hf Hso Hps Hm Hs Hp Ho Hd Ht Hk.
  assert (Hround : RunParser_round END_ELEMENT_CLOSE K st
            = inl (set_p_ rest
                (set_stack_ K (set_seen_non_whitespace_ true st)))).
  { unfold RunParser_round.
    rewrite (next_token_close END_ELEMENT_CLOSE [] rest st ltac:(discriminate)
               Hso eq_refl Hp).
    cbn [dispatch ParseEndElementClose].
    rewrite (Advance_one _ ">"%byte rest) by (destruct st; reflexivity).
    cbn [ok]. destruct st; reflexivity. }
  one_round Hs Hround. finish_round st.
Qed.

Lemma leads_end_slash max rest K ow d tags kinds :
  leads max
    (mkConfig (START_TAG :: TEXT :: K) ("/"%byte :: rest) ow d tags kinds)
    (mkConfig (END_TAG :: K) rest ow d tags kinds).
Proof.
  start_leads st Hf Hso Hps Hm Hs Hp Ho Hd Ht Hk.
  assert (Hround : RunParser_round START_TAG (TEXT :: K) st
            = inl (push END_TAG (set_stack_ K (set_p_ rest
                (set_stack_ (TEXT :: K) (set_seen_non_whitespace_ true st)))))).
  { unfold RunParser_round.
    rewrite (next_token_slash START_TAG [] rest st ltac:(discriminate)
               Hso eq_refl Hp).
    cbn [dispatch ParseStartTag]. unfold ParseEndElementMid.
    rewrite (Advance_one _ "/"%byte rest) by (destruct st; reflexivity).
    destruct st; reflexivity. }
  one_round Hs Hround. finish_round st.
Qed.

Ltac unfold_state :=
  cbv [emit push set_ow_ set_stack_ set_leftover_ set_xml_ set_p_ set_key_
       set_key_storage_ set_finishing_ set_seen_non_whitespace_
       set_parsed_ set_parsed_storage_ set_string_open_ set_chunk_storage_
       set_recursion_depth_ set_text_ set_tag_name_ set_tag_name_stack_
       set_element_type_stack_
       ow_ stack_ leftover_ xml_ p_ key_ key_storage_ finishing_
       seen_non_whitespace_ allow_no_root_element_ parsed_ parsed_storage_
       string_open_ chunk_storage_ coerce_to_utf8_
       utf8_replacement_character_ recursion_depth_ max_recursion_depth_
       text_ tag_name_ tag_name_stack_ element_type_stack_].

Lemma is_name_letter t :
  is_name t = true -> exists c r, t = c :: r /\ IsLetter c = true.
Proof.
  destruct t as [|c r]; [discriminate|]. cbn [is_name]. intros H.
  apply andb_true_iff in H as [Hc _]. exists c, r. split; [reflexivity|exact Hc].
Qed.

Lemma next_token_name type t x rest st :
  type <> BEGIN_ELEMENT_MID -> string_open_ st = x00 ->
  is_name t = true -> p_ st = t ++ x :: rest ->
  next_token type st = (BEGIN_KEY, set_seen_non_whitespace_ true st).
Proof.
  intros Ht Hso Hn Hp. destruct (is_name_letter t Hn) as (c & r & -> & Hc).
  rewrite (next_token_letter type [] c (r ++ x :: rest) st Ht Hso eq_refl Hc Hp).
  cbn [app] in Hp. rewrite <- Hp, set_p_same. reflexivity.
Qed.

Lemma ParseTagName_name t x rest st :
  finishing_ st = false ->
  is_name t = true -> IsAlphanumericOrHyphen x = false ->
  p_ st = t ++ x :: rest ->
  ParseTagName st = (OkStatus, set_tag_name_ t (set_p_ (x :: rest) st)).
Proof.
  intros Hf Hn Hx Hp. unfold ParseTagName.
  rewrite Hp, (ConsumeTagName_name t x rest Hn Hx).
  replace (finishing_ (set_tag_name_ t (set_p_ (x :: rest) st))) with false
    by (destruct st; cbn in *; congruence).
  replace (p_ (set_tag_name_ t (set_p_ (x :: rest) st))) with (x :: rest)
    by (destruct st; reflexivity).
  reflexivity.
Qed.

Lemma IncrementRecursionDepth_eq t st :
  IncrementRecursionDepth t st
  = if max_recursion_depth_ st <? recursion_depth_ st + 1
    then (too_deep t, set_recursion_depth_ (recursion_depth_ st + 1) st)
    else (OkStatus, set_recursion_depth_ (recursion_depth_ st + 1) st).
Proof. unfold IncrementRecursionDepth. destruct st; reflexivity. Qed.

Lemma start_name_round t x rest K st :
  finishing_ st = false -> string_open_ st = x00 ->
  is_name t = true -> IsAlphanumericOrHyphen x = false ->
  starts_with t (B "_list_") = false ->
  bytes_eqb t (B "anonymous") = false ->
  p_ st = t ++ x :: rest ->
  let st1 := set_tag_name_ t (set_p_ (x :: rest)
               (set_stack_ K (set_seen_non_whitespace_ true st))) in
  let st3 := set_element_type_stack_ (OBJECT :: element_type_stack_ st)
               (emit (start_object_event t (tag_name_stack_ st)) st1) in
  let st4 := set_recursion_depth_ (recursion_depth_ st + 1) st3 in
  RunParser_round START_TAG K st
  = if max_recursion_depth_ st <? recursion_depth_ st + 1
    then inr (too_deep t, st4)
    else inl (push BEGIN_ELEMENT_MID
                (set_tag_name_ []
                   (set_tag_name_stack_ ((t, false) :: tag_name_stack_ st) st4))).
Proof.
  intros Hf Hso Hn Hx Hl Ha Hp. cbv zeta. unfold RunParser_round.
  rewrite (next_token_name START_TAG t x rest st ltac:(discriminate) Hso Hn Hp).
  cbn [dispatch ParseStartTag]. unfold ParseStartTagName.
  rewrite (ParseTagName_name t x rest) by (destruct st; cbn in *; congruence).
  cbn [ok].
  replace (tag_name_ (set_tag_name_ t _)) with t by (destruct st; reflexivity).
  rewrite Hl, Ha. cbn [negb]. rewrite IncrementRecursionDepth_eq.
  unfold start_object_event.
  destruct st; cbn in Hf, Hso, Hp; subst. unfold_state.
  destruct (bytes_eqb t (B "root") || _);
    match goal with |- context [?a <? ?b] => destruct (a <? b) end;
    reflexivity.
Qed.

Lemma leads_start_name max t x rest K ow d tags kinds :
  is_name t = true -> IsAlphanumericOrHyphen x = false ->
  starts_with t (B "_list_") = false ->
  bytes_eqb t (B "anonymous") = false ->
  d + 1 <= max ->
  leads max (mkConfig (START_TAG :: K) (t ++ x :: rest) ow d tags kinds)
    (mkConfig (BEGIN_ELEMENT_MID :: K) (x :: rest)
       (ow ++ [start_object_event t tags]) (d + 1) ((t, false) :: tags)
       (OBJECT :: kinds)).
Proof.
  intros Hn Hx Hl Ha Hle. start_leads st Hf Hso Hps Hm Hs Hp Ho Hd Ht Hk.
  pose proof (start_name_round t x rest K st Hf Hso Hn Hx Hl Ha Hp) as Hround.
  cbv zeta in Hround.
  replace (max_recursion_depth_ st <? recursion_depth_ st + 1) with false
    in Hround by (symmetry; apply Z.ltb_ge; lia).
  one_round Hs Hround. finish_round st.
Qed.

Lemma returns_too_deep max t x rest K ow d tags kinds :
  is_name t = true -> IsAlphanumericOrHyphen x = false ->
  starts_with t (B "_list_") = false ->
  bytes_eqb t (B "anonymous") = false ->
  max < d + 1 ->
  returns max (mkConfig (START_TAG :: K) (t ++ x :: rest) ow d tags kinds)
    (too_deep t) (ow ++ [start_object_event t tags]).
Proof.
  intros Hn Hx Hl Ha Hlt. start_leads st Hf Hso Hps Hm Hs Hp Ho Hd Ht Hk.
  pose proof (start_name_round t x rest K st Hf Hso Hn Hx Hl Ha Hp) as Hround.
  cbv zeta in Hround.
  replace (max_recursion_depth_ st <? recursion_depth_ st + 1) with true
    in Hround by (symmetry; apply Z.ltb_lt; lia).
  unfold RunParser. cbn [RunParser_fuel]. rewrite Hs, Hround.
  destruct st; cbn in *; subst. split; reflexivity.
Qed.

Lemma bytes_eqb_refl a : bytes_eqb a a = true.
Proof. unfold bytes_eqb. destruct (list_eq_dec _ a a); congruence. Qed.

Lemma ParseEndTag_object t x rest flag tags kinds st :
  finishing_ st = false ->
  is_name t = true -> IsAlphanumericOrHyphen x = false ->
  starts_with t (B "_list_") = false ->
  bytes_eqb t (B "anonymous") = false ->
  p_ st = t ++ x :: rest ->
  tag_name_stack_ st = (t, flag) :: tags ->
  element_type_stack_ st = OBJECT :: kinds ->
  ParseEndTag BEGIN_KEY st
  = (OkStatus,
     push END_ELEMENT_CLOSE
       (set_tag_name_stack_ tags
          (set_recursion_depth_ (recursion_depth_ st - 1)
             (set_element_type_stack_ kinds
                (emit EndObject
                   (set_tag_name_ t (set_p_ (x :: rest) st))))))).
Proof.
  intros Hf Hn Hx Hl Ha Hp Ht Hk. unfold ParseEndTag.
  rewrite Hp, (ConsumeTagName_name t x rest Hn Hx).
  set (st1 := set_tag_name_ t (set_p_ (x :: rest) st)).
  replace (finishing_ st1) with false by (destruct st; cbn in *; congruence).
  replace (p_ st1) with (x :: rest) by (destruct st; reflexivity).
  replace (tag_name_ st1) with t by (destruct st; reflexivity).
  replace (tag_name_stack_ st1) with ((t, flag) :: tags)
    by (destruct st; cbn in *; congruence).
  cbn [negb andb length Nat.eqb]. rewrite Hl, bytes_eqb_refl, Ha. cbn [negb].
  unfold pop_element_type.
  replace (element_type_stack_ (emit EndObject st1)) with (OBJECT :: kinds)
    by (destruct st; cbn in *; congruence).
  cbn [option_map].
  replace (recursion_depth_ (set_element_type_stack_ kinds (emit EndObject st1)))
    with (recursion_depth_ st) by (destruct st; reflexivity).
  reflexivity.
Qed.

Lemma leads_end_name max t x rest K ow d flag tags kinds :
  is_name t = true -> IsAlphanumericOrHyphen x = false ->
  starts_with t (B "_list_") = false ->
  bytes_eqb t (B "anonymous") = false ->
  leads max
    (mkConfig (END_TAG :: K) (t ++ x :: rest) ow d ((t, flag) :: tags)
       (OBJECT :: kinds))
    (mkConfig (END_ELEMENT_CLOSE :: K) (x :: rest) (ow ++ [EndObject]) (d - 1)
       tags kinds).
Proof.
  intros Hn Hx Hl Ha. start_leads st Hf Hso Hps Hm Hs Hp Ho Hd Ht Hk.
  assert (Hround : RunParser_round END_TAG K st
    = inl (push END_ELEMENT_CLOSE
             (set_tag_name_stack_ tags
                (set_recursion_depth_ (d - 1)
                   (set_element_type_stack_ kinds
                      (emit EndObject
                         (set_tag_name_ t
                            (set_p_ (x :: rest)
                               (set_stack_ K
                                  (set_seen_non_whitespace_ true st)))))))))).
  { unfold RunParser_round.
    rewrite (next_token_name END_TAG t x rest st ltac:(discriminate) Hso Hn Hp).
    cbn [dispatch].
    rewrite (ParseEndTag_object t x rest flag tags kinds)
      by (try assumption; destruct st; cbn in *; congruence).
    cbn [ok].
    replace (recursion_depth_ (set_stack_ K (set_seen_non_whitespace_ true st)))
      with d by (destruct st; cbn in *; congruence).
    reflexivity. }
  one_round Hs Hround. finish_round st.
Qed.

Lemma ascii_wf p : forallb is_ascii p = true -> utf8_wf p.
Proof.
  induction p as [|c p IH]; intros H; [constructor|].
  cbn [forallb] in H. apply andb_true_iff in H as [Hc Hp].
  apply wf_char with (k := 0%nat).
  - cbn [utf8_char_len]. unfold is_ascii in Hc. rewrite Hc. reflexivity.
  - cbn [skipn]. apply IH, Hp.
Qed.

Lemma ascii_UTF8Spn p :
  forallb is_ascii p = true -> UTF8SpnStructurallyValid p = length p.
Proof.
  intros H. pose proof (UTF8Spn_app p [] (ascii_wf p H)) as E.
  rewrite app_nil_r, UTF8Spn_nil in E. lia.
Qed.

Lemma leads_refl max C : leads max C C.
Proof. intros st Hr Hc. exists st. split; [apply runs_refl|]. split; assumption. Qed.

(** A Parse call on a whole ASCII text, nothing being left over from a call
    before: the parser loop runs on the text. *)
Lemma Parse_ascii xml st :
  leftover_ st = [] -> xml <> [] -> forallb is_ascii xml = true ->
  Parse xml st
  = let (status, st2) := ParseChunk xml st in
    (status, set_leftover_ (leftover_ st2 ++ []) st2).
Proof.
  intros Hl Hne Ha. unfold Parse. rewrite Hl, (ascii_UTF8Spn xml Ha).
  rewrite firstn_all, skipn_all.
  destruct xml as [|c xml]; [congruence|]. reflexivity.
Qed.

Lemma ready_start max chunk st :
  string_open_ st = x00 -> parsed_storage_ st = [] ->
  max_recursion_depth_ st = max ->
  ready max (set_finishing_ false (set_p_ chunk (set_xml_ chunk st)))
  /\ config (set_finishing_ false (set_p_ chunk (set_xml_ chunk st)))
     = mkConfig (stack_ st) chunk (ow_ st) (recursion_depth_ st)
         (tag_name_stack_ st) (element_type_stack_ st).
Proof. intros H1 H2 H3. destruct st; cbn in *; subst. repeat split. Qed.

(** The loop returns a failure: so do Parse and the sequence. *)
Lemma ParseChunks_returns max xml st r ow :
  leftover_ st = [] -> xml <> [] -> forallb is_ascii xml = true ->
  string_open_ st = x00 -> parsed_storage_ st = [] ->
  max_recursion_depth_ st = max ->
  returns max
    (mkConfig (stack_ st) xml (ow_ st) (recursion_depth_ st)
       (tag_name_stack_ st) (element_type_stack_ st)) r ow ->
  ok r = false ->
  fst (ParseChunks [xml] st) = r /\ ow_ (snd (ParseChunks [xml] st)) = ow.
Proof.
  intros Hl Hne Ha Hso Hps Hm Hret Hok.
  destruct (ready_start max xml st Hso Hps Hm) as [Hr Hc].
  destruct (Hret _ Hr Hc) as [H1 H2].
  cbn [ParseChunks]. rewrite (Parse_ascii xml st Hl Hne Ha).
  unfold ParseChunk. destruct xml as [|c xml]; [congruence|].
  destruct (RunParser _) as [r0 st2]. cbn [fst snd] in H1, H2. subst r0.
  rewrite Hok. cbn [negb]. rewrite Hok. cbn [fst snd].
  split; [reflexivity|]. destruct st2; exact H2.
Qed.

(** The loop runs to an empty stack at the end of the text: Parse and
    FinishParse succeed. *)
Lemma ParseChunks_leads max xml st ow d kinds :
  leftover_ st = [] -> xml <> [] -> forallb is_ascii xml = true ->
  string_open_ st = x00 -> parsed_storage_ st = [] ->
  max_recursion_depth_ st = max ->
  leads max
    (mkConfig (stack_ st) xml (ow_ st) (recursion_depth_ st)
       (tag_name_stack_ st) (element_type_stack_ st))
    (mkConfig [] [] ow d [] kinds) ->
  fst (ParseChunks [xml] st) = OkStatus
  /\ ow_ (snd (ParseChunks [xml] st)) = ow
  /\ recursion_depth_ (snd (ParseChunks [xml] st)) = d.
Proof.
  intros Hl Hne Ha Hso Hps Hm Hleads.
  destruct (ready_start max xml st Hso Hps Hm) as [Hr Hc].
  destruct (Hleads _ Hr Hc) as (st' & Hruns & Hr' & Hc').
  unfold config in Hc'. injection Hc' as Hs' Hp' Ho' Hd' Ht' Hk'.
  cbn [ParseChunks]. rewrite (Parse_ascii xml st Hl Hne Ha).
  unfold ParseChunk. destruct xml as [|c xml]; [congruence|].
  rewrite (runs_RunParser _ _ Hruns).
  unfold RunParser. cbn [RunParser_fuel]. rewrite Hs'. cbn [ok negb].
  unfold SkipWhitespace. rewrite Hp'. cbn [length SkipWhitespace_loop].
  unfold mark_non_whitespace. rewrite Hp'. cbn [ok].
  destruct st'; cbn in Hs', Hp', Ho', Hd', Ht', Hk'; subst.
  unfold FinishParse. cbn. repeat split.
Qed.

Lemma plain_tag_inv t :
  plain_tag t = true ->
  is_name t = true /\ starts_with t (B "_list_") = false
  /\ bytes_eqb t (B "anonymous") = false.
Proof.
  unfold plain_tag. intros H. apply andb_true_iff in H as [H H3].
  apply andb_true_iff in H as [H1 H2].
  apply negb_true_iff in H2, H3. auto.
Qed.

Lemma leads_opener max t rest K ow d tags kinds :
  plain_tag t = true -> d + 1 <= max ->
  leads max (mkConfig (TEXT :: K) (opener t ++ rest) ow d tags kinds)
    (mkConfig (TEXT :: TEXT :: K) rest (ow ++ [start_object_event t tags])
       (d + 1) ((t, false) :: tags) (OBJECT :: kinds)).
Proof.
  intros Hp Hd. destruct (plain_tag_inv t Hp) as (Hn & Hl & Ha).
  unfold opener. rewrite <- !app_assoc. cbn [B app list_byte_of_string].
  eapply leads_trans; [apply (leads_open_tag max []); reflexivity|].
  eapply leads_trans;
    [apply (leads_start_name max t ">"%byte rest); try assumption; reflexivity|].
  apply leads_tag_close.
Qed.

Lemma leads_first_opener max t rest K ow d tags kinds :
  plain_tag t = true -> d + 1 <= max ->
  leads max (mkConfig (BEGIN_ELEMENT :: K) (opener t ++ rest) ow d tags kinds)
    (mkConfig (TEXT :: K) rest (ow ++ [start_object_event t tags])
       (d + 1) ((t, false) :: tags) (OBJECT :: kinds)).
Proof.
  intros Hp Hd. destruct (plain_tag_inv t Hp) as (Hn & Hl & Ha).
  unfold opener. rewrite <- !app_assoc. cbn [B app list_byte_of_string].
  eapply leads_trans; [apply (leads_first_open_tag max []); reflexivity|].
  eapply leads_trans;
    [apply (leads_start_name max t ">"%byte rest); try assumption; reflexivity|].
  apply leads_tag_close.
Qed.

Lemma leads_closer max t rest K ow d flag tags kinds :
  plain_tag t = true ->
  leads max
    (mkConfig (TEXT :: K) (closer t ++ rest) ow d ((t, flag) :: tags)
       (OBJECT :: kinds))
    (mkConfig K rest (ow ++ [EndObject]) (d - 1) tags kinds).
Proof.
  intros Hp. destruct (plain_tag_inv t Hp) as (Hn & Hl & Ha).
  unfold closer. rewrite <- !app_assoc. cbn [B app list_byte_of_string].
  eapply leads_trans; [apply (leads_open_tag max []); reflexivity|].
  eapply leads_trans; [apply leads_end_slash|].
  eapply leads_trans;
    [apply (leads_end_name max t ">"%byte rest); try assumption; reflexivity|].
  apply leads_end_close.
Qed.

Lemma repeat_shift {A} (x : A) n l :
  repeat x n ++ x :: l = x :: repeat x n ++ l.
Proof. induction n as [|n IH]; cbn; [reflexivity|]. rewrite IH. reflexivity. Qed.

Lemma leads_openers max ts : forall rest K ow d tags kinds,
  forallb plain_tag ts = true ->
  (ts <> [] -> d + Z.of_nat (length ts) <= max) ->
  leads max
    (mkConfig (TEXT :: K) (concat (map opener ts) ++ rest) ow d tags kinds)
    (mkConfig (repeat TEXT (length ts) ++ TEXT :: K) rest
       (ow ++ start_events ts tags) (d + Z.of_nat (length ts))
       (object_tags (rev ts) ++ tags) (repeat OBJECT (length ts) ++ kinds)).
Proof.
  induction ts as [|t ts IH]; intros rest K ow d tags kinds Hp Hd.
  - cbn. rewrite app_nil_r, Z.add_0_r. apply leads_refl.
  - cbn [forallb] in Hp. apply andb_true_iff in Hp as [Ht Hp].
    specialize (Hd ltac:(discriminate)). cbn [length] in Hd.
    cbn [map concat]. rewrite <- app_assoc.
    eapply leads_trans; [apply leads_opener; [exact Ht|lia]|].
    eapply leads_trans; [apply IH; [exact Hp|intros _; lia]|].
    cbn [length repeat start_events rev]. unfold object_tags.
    rewrite map_app, <- !app_assoc. cbn [map app].
    replace (repeat TEXT (length ts) ++ TEXT :: TEXT :: K)
      with (TEXT :: repeat TEXT (length ts) ++ TEXT :: K)
      by (symmetry; apply repeat_shift).
    replace (repeat OBJECT (length ts) ++ OBJECT :: kinds)
      with (OBJECT :: repeat OBJECT (length ts) ++ kinds)
      by (symmetry; apply repeat_shift).
    replace (d + 1 + Z.of_nat (length ts)) with (d + Z.of_nat (S (length ts)))
      by lia.
    apply leads_refl.
Qed.

Lemma leads_closers max us : forall rest K ow d tags kinds,
  forallb plain_tag us = true ->
  leads max
    (mkConfig (repeat TEXT (length us) ++ K) (concat (map closer us) ++ rest)
       ow d (object_tags us ++ tags) (repeat OBJECT (length us) ++ kinds))
    (mkConfig K rest (ow ++ repeat EndObject (length us))
       (d - Z.of_nat (length us)) tags kinds).
Proof.
  induction us as [|t us IH]; intros rest K ow d tags kinds Hp.
  - cbn. rewrite app_nil_r, Z.sub_0_r. apply leads_refl.
  - cbn [forallb] in Hp. apply andb_true_iff in Hp as [Ht Hp].
    cbn [map concat length repeat object_tags app]. rewrite <- app_assoc.
    eapply leads_trans; [apply leads_closer; exact Ht|].
    eapply leads_trans; [apply IH; exact Hp|].
    rewrite <- app_assoc. cbn [app].
    replace (d - 1 - Z.of_nat (length us)) with (d - Z.of_nat (S (length us)))
      by lia.
    apply leads_refl.
Qed.

Lemma name_char_ascii c : IsAlphanumericOrHyphen c = true -> is_ascii c = true.
Proof. intros H; destruct c; vm_compute in H; try discriminate H; reflexivity. Qed.

Lemma letter_name_char c : IsLetter c = true -> IsAlphanumericOrHyphen c = true.
Proof.
  intros H. unfold IsAlphanumericOrHyphen, IsAlphanumeric. rewrite H. reflexivity.
Qed.

Lemma is_name_ascii t : is_name t = true -> forallb is_ascii t = true.
Proof.
  destruct t as [|c r]; [discriminate|]. cbn [is_name forallb]. intros H.
  apply andb_true_iff in H as [Hc Hr].
  rewrite (name_char_ascii c (letter_name_char c Hc)). cbn [andb].
  apply forallb_forall. intros x Hx.
  apply name_char_ascii. exact (proj1 (forallb_forall _ _) Hr x Hx).
Qed.

Lemma forallb_concat {A} (f : A -> bool) ls :
  forallb (fun l => forallb f l) ls = true -> forallb f (concat ls) = true.
Proof.
  induction ls as [|l ls IH]; cbn [forallb concat]; [reflexivity|].
  intros H. apply andb_true_iff in H as [Hl Hls].
  rewrite forallb_app, Hl, IH by exact Hls. reflexivity.
Qed.

Lemma opener_ascii t : plain_tag t = true -> forallb is_ascii (opener t) = true.
Proof.
  intros H. destruct (plain_tag_inv t H) as (Hn & _).
  unfold opener. rewrite !forallb_app, (is_name_ascii t Hn). reflexivity.
Qed.

Lemma closer_ascii t : plain_tag t = true -> forallb is_ascii (closer t) = true.
Proof.
  intros H. destruct (plain_tag_inv t H) as (Hn & _).
  unfold closer. rewrite !forallb_app, (is_name_ascii t Hn). reflexivity.
Qed.

Lemma forallb_map_true {A C} (f : C -> bool) (g : A -> C) (p : A -> bool) l :
  (forall x, p x = true -> f (g x) = true) ->
  forallb p l = true -> forallb f (map g l) = true.
Proof.
  intros Hfg. induction l as [|x l IH]; cbn [forallb map]; [reflexivity|].
  intros H. apply andb_true_iff in H as [Hx Hl].
  rewrite (Hfg x Hx), IH by exact Hl. reflexivity.
Qed.

Lemma forallb_rev {A} (f : A -> bool) l : forallb f (rev l) = forallb f l.
Proof.
  induction l as [|x l IH]; [reflexivity|]. cbn [rev forallb].
  rewrite forallb_app, IH. cbn [forallb]. rewrite andb_true_r. apply andb_comm.
Qed.

Lemma nest_ascii ts :
  forallb plain_tag ts = true -> forallb is_ascii (nest ts) = true.
Proof.
  intros H. unfold nest. rewrite forallb_app. apply andb_true_iff. split.
  - apply forallb_concat.
    apply (forallb_map_true _ opener plain_tag); [apply opener_ascii|exact H].
  - apply forallb_concat.
    apply (forallb_map_true _ closer plain_tag); [apply closer_ascii|].
    rewrite forallb_rev. exact H.
Qed.

Lemma start_events_app a : forall b tags,
  start_events (a ++ b) tags
  = start_events a tags ++ start_events b (object_tags (rev a) ++ tags).
Proof.
  induction a as [|t a IH]; intros b tags; [reflexivity|].
  cbn [app start_events rev]. rewrite IH. unfold object_tags.
  rewrite map_app, <- app_assoc. reflexivity.
Qed.

Lemma nest_nonempty ts : ts <> [] -> nest ts <> [].
Proof. destruct ts; [congruence|]. intros _. discriminate. Qed.

Lemma leads_nest max t ts :
  forallb plain_tag (t :: ts) = true ->
  Z.of_nat (length (t :: ts)) <= max ->
  leads max (mkConfig [BEGIN_ELEMENT] (nest (t :: ts)) [] 0 [] [])
    (mkConfig [] []
       (start_events (t :: ts) [] ++ repeat EndObject (length (t :: ts)))
       0 [] []).
Proof.
  intros Hp Hle. pose proof Hp as Hp0.
  cbn [forallb] in Hp. apply andb_true_iff in Hp as [Ht Hts].
  cbn [length] in Hle. unfold nest. cbn [map concat]. rewrite <- app_assoc.
  eapply leads_trans; [apply leads_first_opener; [exact Ht|lia]|].
  eapply leads_trans; [apply leads_openers; [exact Hts|intros _; lia]|].
  rewrite <- (app_nil_r (concat (map closer (rev (t :: ts))))).
  replace (repeat TEXT (length ts) ++ [TEXT])
    with (repeat TEXT (length (rev (t :: ts))) ++ [])
    by (rewrite length_rev; cbn [length repeat app]; symmetry;
        apply (repeat_shift TEXT (length ts) [])).
  replace (object_tags (rev ts) ++ [(t, false)])
    with (object_tags (rev (t :: ts)) ++ [])
    by (cbn [rev]; unfold object_tags; rewrite map_app, app_nil_r; reflexivity).
  replace (repeat OBJECT (length ts) ++ [OBJECT])
    with (repeat OBJECT (length (rev (t :: ts))) ++ [])
    by (rewrite length_rev; cbn [length repeat app]; symmetry;
        apply (repeat_shift OBJECT (length ts) [])).
  eapply leads_trans; [apply leads_closers; rewrite forallb_rev; exact Hp0|].
  rewrite length_rev. cbn [length app start_events].
  replace (0 + 1 + Z.of_nat (length ts) - Z.of_nat (S (length ts))) with 0 by lia.
  apply leads_refl.
Qed.

Lemma returns_nest_too_deep max ts :
  ts <> [] -> forallb plain_tag ts = true ->
  max < Z.of_nat (length ts) ->
  returns max (mkConfig [BEGIN_ELEMENT] (nest ts) [] 0 [] [])
    (too_deep (nth (Z.to_nat max) ts []))
    (start_events (firstn (S (Z.to_nat max)) ts) []).
Proof.
  intros Hne Hp Hlt.
  assert (Hm : (Z.to_nat max < length ts)%nat)
    by (destruct ts; [congruence|cbn [length] in *; lia]).
  set (m := Z.to_nat max) in *.
  destruct (nth_split ts [] Hm) as (pre & post & Hts & Hpre).
  set (u := nth m ts []) in *.
  assert (Hfirst : firstn (S m) ts = pre ++ [u]).
  { rewrite Hts. replace (S m) with (length pre + 1)%nat by lia.
    rewrite firstn_app_2. reflexivity. }
  rewrite Hfirst. rewrite Hts in Hp.
  rewrite forallb_app in Hp. apply andb_true_iff in Hp as [Hppre Hp].
  cbn [forallb] in Hp. apply andb_true_iff in Hp as [Hu Hpost].
  destruct (plain_tag_inv u Hu) as (Hn & Hl & Ha).
  unfold nest. rewrite Hts at 1. rewrite map_app, concat_app. cbn [map concat].
  unfold opener at 2. rewrite <- !app_assoc. cbn [B app list_byte_of_string].
  rewrite start_events_app. cbn [start_events].
  destruct pre as [|t pre].
  - cbn [map concat app rev object_tags start_events].
    eapply leads_returns;
      [apply (leads_first_open_tag max []); reflexivity|].
    apply returns_too_deep; try assumption; [reflexivity|].
    cbn [length] in Hpre. lia.
  - cbn [forallb] in Hppre. apply andb_true_iff in Hppre as [Ht Hppre].
    cbn [length] in Hpre.
    cbn [map concat app start_events]. rewrite <- !app_assoc.
    eapply leads_returns; [apply leads_first_opener; [exact Ht|lia]|].
    eapply leads_returns; [apply leads_openers; [exact Hppre|intros _; lia]|].
    rewrite (repeat_shift TEXT (length pre) []).
    cbn [B app list_byte_of_string].
    eapply leads_returns; [apply (leads_open_tag max []); reflexivity|].
    cbn [rev]. unfold object_tags at 2. rewrite map_app. cbn [map].
    rewrite <- !app_assoc. cbn [app].
    apply returns_too_deep; try assumption; [reflexivity|]. lia.
Qed.

(** X1.  A document of nested elements, none a list or the list wrapper, parses
    exactly when the nesting does not exceed max_recursion_depth: then every
    opener gives its start event, every closer an end event, and the depth
    counter is back at 0.  Otherwise Parse fails at the first opener past the
    bound, names its tag in the message, and the sink has received the start
    events up to and including that opener's. *)
Theorem nested_objects_parse_up_to_max_recursion_depth ts max :
  ts <> [] -> forallb plain_tag ts = true ->
  (Z.of_nat (length ts) <= max ->
   fst (ParseChunks [nest ts] (set_max_recursion_depth max New)) = OkStatus
   /\ ow_ (snd (ParseChunks [nest ts] (set_max_recursion_depth max New)))
      = start_events ts [] ++ repeat EndObject (length ts)
   /\ recursion_depth
        (snd (ParseChunks [nest ts] (set_max_recursion_depth max New))) = 0)
  /\ (max < Z.of_nat (length ts) ->
      fst (ParseChunks [nest ts] (set_max_recursion_depth max New))
      = InvalidArgumentError None
          (B "Message too deep. Max recursion depth reached for tag '"
           ++ nth (Z.to_nat max) ts [] ++ B "'")
      /\ ow_ (snd (ParseChunks [nest ts] (set_max_recursion_depth max New)))
         = start_events (firstn (S (Z.to_nat max)) ts) []).
Proof.
  intros Hne Hp. split.
  - intros Hle. destruct ts as [|t ts]; [congruence|].
    apply (ParseChunks_leads max (nest (t :: ts))
             (set_max_recursion_depth max New) _ 0 []);
      try reflexivity;
      [apply nest_nonempty; exact Hne|apply nest_ascii; exact Hp|].
    apply leads_nest; assumption.
  - intros Hlt.
    apply (ParseChunks_returns max (nest ts)
             (set_max_recursion_depth max New));
      try reflexivity;
      [apply nest_nonempty; exact Hne|apply nest_ascii; exact Hp|].
    apply returns_nest_too_deep; assumption.
Qed.

Lemma nested_objects_parse_up_to_max_recursion_depth_witness :
  fst (ParseChunks [B "<root><a><b></b></a></root>"]
         (set_max_recursion_depth 3 New)) = OkStatus
  /\ fst (ParseChunks [B "<root><a><b></b></a></root>"]
            (set_max_recursion_depth 2 New))
     = InvalidArgumentError None
         (B "Message too deep. Max recursion depth reached for tag 'b'").
Proof.
  assert (Hne : [B "root"; B "a"; B "b"] <> []) by discriminate.
  assert (Hp : forallb plain_tag [B "root"; B "a"; B "b"] = true)
    by (vm_compute; reflexivity).
  split.
  - apply (proj1 (nested_objects_parse_up_to_max_recursion_depth
                    [B "root"; B "a"; B "b"] 3 Hne Hp)).
    cbn; lia.
  - apply (proj2 (nested_objects_parse_up_to_max_recursion_depth
                    [B "root"; B "a"; B "b"] 2 Hne Hp)).
    cbn; lia.
Defined.

Lemma runs_frame st st' : runs st st' -> frame st st'.
Proof.
  induction 1 as [|st type rest sa sb Hs Hr _ IH]; [apply frame_refl|].
  eapply frame_trans; [|exact IH]. exact (RunParser_round_inl _ _ _ _ Hr).
Qed.

Lemma ReportFailure_frame message code p st st' :
  xml_ st' = xml_ st ->
  ReportFailure message code (set_p_ p st')
  = ReportFailure message code (set_p_ p st).
Proof.
  intros H. unfold ReportFailure.
  replace (xml_ (set_p_ p st')) with (xml_ st) by (destruct st'; exact (eq_sym H)).
  replace (xml_ (set_p_ p st)) with (xml_ st) by (destruct st; reflexivity).
  replace (p_ (set_p_ p st')) with p by (destruct st'; reflexivity).
  replace (p_ (set_p_ p st)) with p by (destruct st; reflexivity).
  reflexivity.
Qed.

Lemma leads_fails max C1 C2 message code p ow :
  leads max C1 C2 -> fails max C2 message code p ow ->
  fails max C1 message code p ow.
Proof.
  intros H12 H2 st Hr Hc.
  destruct (H12 st Hr Hc) as (st2 & Hruns & Hr2 & Hc2).
  rewrite (runs_RunParser _ _ Hruns).
  destruct (H2 st2 Hr2 Hc2) as [H3 H4]. split; [|exact H4].
  rewrite H3. apply ReportFailure_frame.
  pose proof (runs_frame _ _ Hruns) as F. apply F.
Qed.

(** The loop fails in a Parse call: so do Parse and the sequence. *)
Lemma ParseChunks_fails max xml st message code p ow :
  leftover_ st = [] -> xml <> [] -> forallb is_ascii xml = true ->
  string_open_ st = x00 -> parsed_storage_ st = [] ->
  max_recursion_depth_ st = max ->
  fails max
    (mkConfig (stack_ st) xml (ow_ st) (recursion_depth_ st)
       (tag_name_stack_ st) (element_type_stack_ st)) message code p ow ->
  fst (ParseChunks [xml] st)
  = ReportFailure (B message) code (set_p_ p (set_xml_ xml st))
  /\ ow_ (snd (ParseChunks [xml] st)) = ow.
Proof.
  intros Hl Hne Ha Hso Hps Hm Hf.
  destruct (ready_start max xml st Hso Hps Hm) as [Hr Hc].
  destruct (Hf _ Hr Hc) as [H1 H2].
  cbn [ParseChunks]. rewrite (Parse_ascii xml st Hl Hne Ha).
  unfold ParseChunk. destruct xml as [|c xml]; [congruence|].
  destruct (RunParser _) as [r0 st2]. cbn [fst snd] in H1, H2. subst r0.
  cbn [ok ReportFailure negb fst snd]. split; [|destruct st2; exact H2].
  unfold ReportFailure. destruct st; reflexivity.
Qed.

Lemma SkipWhitespace_loop_spaces ws : forall n st c r,
  forallb ascii_isspace ws = true ->
  ascii_isspace c = false -> p_ st = ws ++ c :: r -> (length ws < n)%nat ->
  SkipWhitespace_loop n st = set_p_ (c :: r) st.
Proof.
  induction ws as [|w ws IH]; intros n st c r Hws Hc Hp Hn.
  - destruct n as [|n]; [cbn in Hn; lia|]. cbn [app] in Hp.
    cbn [SkipWhitespace_loop]. rewrite Hp, Hc, <- Hp. symmetry. apply set_p_same.
  - destruct n as [|n]; [cbn in Hn; lia|]. cbn [app forallb] in Hp, Hws.
    apply andb_true_iff in Hws as [Hw Hws].
    cbn [SkipWhitespace_loop]. rewrite Hp, Hw.
    rewrite (Advance_one st w _ Hp (space_one w Hw)).
    rewrite (IH n (set_p_ (ws ++ c :: r) st) c r Hws Hc);
      [apply set_p_set_p|destruct st; reflexivity|cbn [length] in Hn; lia].
Qed.

Lemma SkipWhitespace_loop_all ws : forall n st,
  forallb ascii_isspace ws = true -> p_ st = ws -> (length ws <= n)%nat ->
  SkipWhitespace_loop n st = set_p_ [] st.
Proof.
  induction ws as [|w ws IH]; intros n st Hws Hp Hn.
  - destruct n; cbn [SkipWhitespace_loop]; rewrite ?Hp, <- Hp;
      symmetry; apply set_p_same.
  - destruct n as [|n]; [cbn in Hn; lia|]. cbn [forallb] in Hws.
    apply andb_true_iff in Hws as [Hw Hws].
    cbn [SkipWhitespace_loop]. rewrite Hp, Hw.
    rewrite (Advance_one st w _ Hp (space_one w Hw)).
    rewrite (IH n (set_p_ ws st) Hws);
      [apply set_p_set_p|destruct st; reflexivity|cbn [length] in Hn; lia].
Qed.

Lemma SkipWhitespace_spaces ws c r st :
  forallb ascii_isspace ws = true ->
  ascii_isspace c = false -> p_ st = ws ++ c :: r ->
  SkipWhitespace st = set_seen_non_whitespace_ true (set_p_ (c :: r) st).
Proof.
  intros Hws Hc Hp. unfold SkipWhitespace.
  rewrite (SkipWhitespace_loop_spaces ws _ st c r Hws Hc Hp)
    by (rewrite Hp, length_app; cbn [length]; lia).
  unfold mark_non_whitespace.
  replace (p_ (set_p_ (c :: r) st)) with (c :: r) by (destruct st; reflexivity).
  rewrite Hc. reflexivity.
Qed.

Lemma SkipWhitespace_all ws st :
  forallb ascii_isspace ws = true -> p_ st = ws ->
  SkipWhitespace st = set_p_ [] st.
Proof.
  intros Hws Hp. unfold SkipWhitespace.
  rewrite (SkipWhitespace_loop_all ws _ st Hws Hp) by (rewrite Hp; lia).
  unfold mark_non_whitespace.
  replace (p_ (set_p_ [] st)) with (@nil byte) by (destruct st; reflexivity).
  reflexivity.
Qed.

Lemma SkipWhitespace_t_loop_all type ws : forall n st,
  type <> BEGIN_ELEMENT_MID ->
  forallb ascii_isspace ws = true -> p_ st = ws -> (length ws <= n)%nat ->
  SkipWhitespace_t_loop type n st = set_p_ [] st.
Proof.
  induction ws as [|w ws IH]; intros n st Ht Hws Hp Hn.
  - destruct n; cbn [SkipWhitespace_t_loop]; rewrite ?Hp, <- Hp;
      symmetry; apply set_p_same.
  - destruct n as [|n]; [cbn in Hn; lia|]. cbn [forallb] in Hws.
    apply andb_true_iff in Hws as [Hw Hws].
    cbn [SkipWhitespace_t_loop]. rewrite Hp, Hw.
    replace (ParseType_eqb type BEGIN_ELEMENT_MID) with false
      by (destruct type; try reflexivity; congruence).
    rewrite (Advance_one st w _ Hp (space_one w Hw)).
    rewrite (IH n (set_p_ ws st) Ht Hws);
      [apply set_p_set_p|destruct st; reflexivity|cbn [length] in Hn; lia].
Qed.

Lemma next_token_other type ws c r st :
  type <> BEGIN_ELEMENT_MID -> string_open_ st = x00 ->
  forallb ascii_isspace ws = true ->
  ascii_isspace c = false -> c <> "<"%byte -> p_ st = ws ++ c :: r ->
  exists t,
    next_token type st
    = (t, set_seen_non_whitespace_ true (set_p_ (c :: r) st))
    /\ t <> OPEN_TAG /\ t <> UNKNOWN.
Proof.
  intros Ht Hso Hws Hc Hlt Hp.
  rewrite (next_token_char type ws c r st Ht Hso Hws Hc Hp).
  eexists. split; [reflexivity|].
  unfold GetNextTokenType.
  rewrite (SkipWhitespace_t_none TEXT c [] (set_p_ [c] st) Hc)
    by (destruct st; reflexivity).
  replace (p_ (set_seen_non_whitespace_ true (set_p_ [c] st)))
    with [c] by (destruct st; reflexivity).
  cbn [fst MatchKey].
  destruct (Byte.eqb c x22 || Byte.eqb c "'"%byte); [split; discriminate|].
  destruct (Byte.eqb c "<"%byte) eqn:E;
    [apply Byte.byte_dec_bl in E; congruence|].
  repeat match goal with
         | |- context [if ?b then _ else _] => destruct b
         end; split; discriminate.
Qed.

Lemma fails_no_open_tag max ws c rest K ow d tags kinds :
  forallb ascii_isspace ws = true ->
  ascii_isspace c = false -> c <> "<"%byte ->
  fails max
    (mkConfig (BEGIN_ELEMENT :: K) (ws ++ c :: rest) ow d tags kinds)
    "Expected an open tag." EXPECTED_OPEN_TAG (c :: rest) ow.
Proof.
  intros Hws Hc Hlt st (Hf & Hso & Hps & Hm) Hcfg. unfold config in Hcfg.
  injection Hcfg as Hs Hp Ho Hd Ht Hk.
  destruct (next_token_other BEGIN_ELEMENT ws c rest st ltac:(discriminate)
              Hso Hws Hc Hlt Hp) as (t & Hnt & Ht1 & Ht2).
  unfold RunParser. cbn [RunParser_fuel]. rewrite Hs.
  unfold RunParser_round. rewrite Hnt. cbn [dispatch].
  assert (Hd' : ParseBeginElement t
            (set_stack_ K (set_seen_non_whitespace_ true (set_p_ (c :: rest) st)))
          = fail "Expected an open tag." EXPECTED_OPEN_TAG
              (set_stack_ K (set_seen_non_whitespace_ true (set_p_ (c :: rest) st)))).
  { destruct t; try reflexivity; congruence. }
  rewrite Hd'. unfold fail. cbn [ok ReportFailure IsCancelled andb].
  rewrite andb_false_r. cbn [fst snd].
  split; [|destruct st; exact Ho].
  unfold ReportFailure. destruct st; reflexivity.
Qed.

Lemma FinishParse_at_end top K st :
  top = BEGIN_ELEMENT \/ top = TEXT ->
  stack_ st = top :: K -> leftover_ st = [] -> string_open_ st = x00 ->
  fst (FinishParse st)
  = failure_at "Unexpected end of string. Expected an open tag."
      EXPECTED_OPEN_TAG [] []
  /\ ow_ (snd (FinishParse st)) = ow_ st.
Proof.
  intros Ht Hs Hl Hso. unfold FinishParse. rewrite Hs, Hl.
  change (IsStructurallyValidUTF8 []) with true.
  rewrite andb_false_r. cbn [negb].
  unfold FinishParse_run, RunParser.
  replace (p_ (set_finishing_ true (set_p_ [] (set_xml_ [] st))))
    with (@nil byte) by (destruct st; reflexivity).
  cbn [length RunParser_fuel].
  replace (stack_ (set_finishing_ true (set_p_ [] (set_xml_ [] st))))
    with (top :: K) by (destruct st; cbn in *; congruence).
  unfold RunParser_round, next_token.
  replace (string_open_ (set_finishing_ true (set_p_ [] (set_xml_ [] st))))
    with x00 by (destruct st; cbn in *; congruence).
  change (Byte.eqb x00 x00) with true. cbv iota.
  unfold GetNextTokenType, SkipWhitespace_t.
  replace (p_ (set_finishing_ true (set_p_ [] (set_xml_ [] st))))
    with (@nil byte) by (destruct st; reflexivity).
  cbn [length SkipWhitespace_t_loop]. unfold mark_non_whitespace.
  replace (p_ (set_finishing_ true (set_p_ [] (set_xml_ [] st))))
    with (@nil byte) by (destruct st; reflexivity).
  destruct Ht as [-> | ->]; destruct st; split; reflexivity.
Qed.

Lemma space_ascii ws : forallb ascii_isspace ws = true -> forallb is_ascii ws = true.
Proof.
  intros Hws. apply forallb_forall. intros x Hx.
  pose proof (proj1 (forallb_forall _ _) Hws x Hx) as H.
  destruct x; vm_compute in H; try discriminate H; reflexivity.
Qed.

(** The loop runs to an empty stack with white space left: Parse and
    FinishParse succeed. *)
Lemma ParseChunks_leads_ws max xml st ws ow d kinds :
  leftover_ st = [] -> xml <> [] -> forallb is_ascii xml = true ->
  string_open_ st = x00 -> parsed_storage_ st = [] ->
  max_recursion_depth_ st = max ->
  forallb ascii_isspace ws = true ->
  leads max
    (mkConfig (stack_ st) xml (ow_ st) (recursion_depth_ st)
       (tag_name_stack_ st) (element_type_stack_ st))
    (mkConfig [] ws ow d [] kinds) ->
  fst (ParseChunks [xml] st) = OkStatus
  /\ ow_ (snd (ParseChunks [xml] st)) = ow
  /\ recursion_depth_ (snd (ParseChunks [xml] st)) = d.
Proof.
  intros Hl Hne Ha Hso Hps Hm Hws Hleads.
  destruct (ready_start max xml st Hso Hps Hm) as [Hr Hc].
  destruct (Hleads _ Hr Hc) as (st' & Hruns & Hr' & Hc').
  unfold config in Hc'. injection Hc' as Hs' Hp' Ho' Hd' Ht' Hk'.
  cbn [ParseChunks]. rewrite (Parse_ascii xml st Hl Hne Ha).
  unfold ParseChunk. destruct xml as [|c xml]; [congruence|].
  rewrite (runs_RunParser _ _ Hruns).
  unfold RunParser. cbn [RunParser_fuel]. rewrite Hs'. cbn [ok negb].
  rewrite (SkipWhitespace_all ws st' Hws Hp').
  replace (p_ (set_p_ [] st')) with (@nil byte) by (destruct st'; reflexivity).
  cbn [ok].
  destruct st'; cbn in Hs', Hp', Ho', Hd', Ht', Hk'; subst.
  unfold FinishParse. cbn. repeat split.
Qed.

(** The loop runs to an empty stack with more than white space left: Parse
    fails. *)
Lemma ParseChunks_terminated max xml st ws c rest ow d tags kinds :
  leftover_ st = [] -> xml <> [] -> forallb is_ascii xml = true ->
  string_open_ st = x00 -> parsed_storage_ st = [] ->
  max_recursion_depth_ st = max ->
  forallb ascii_isspace ws = true -> ascii_isspace c = false ->
  leads max
    (mkConfig (stack_ st) xml (ow_ st) (recursion_depth_ st)
       (tag_name_stack_ st) (element_type_stack_ st))
    (mkConfig [] (ws ++ c :: rest) ow d tags kinds) ->
  fst (ParseChunks [xml] st)
  = ReportFailure (B "Parsing terminated before end of input.")
      PARSING_TERMINATED_BEFORE_END_OF_INPUT
      (set_p_ (c :: rest) (set_xml_ xml st))
  /\ ow_ (snd (ParseChunks [xml] st)) = ow.
Proof.
  intros Hl Hne Ha Hso Hps Hm Hws Hcs Hleads.
  destruct (ready_start max xml st Hso Hps Hm) as [Hr Hc].
  destruct (Hleads _ Hr Hc) as (st' & Hruns & Hr' & Hc').
  pose proof (runs_frame _ _ Hruns) as (_ & _ & _ & _ & Hxml & _).
  unfold config in Hc'. injection Hc' as Hs' Hp' Ho' Hd' Ht' Hk'.
  cbn [ParseChunks]. rewrite (Parse_ascii xml st Hl Hne Ha).
  unfold ParseChunk. destruct xml as [|c0 xml]; [congruence|].
  rewrite (runs_RunParser _ _ Hruns).
  unfold RunParser. cbn [RunParser_fuel]. rewrite Hs'. cbn [ok negb].
  rewrite (SkipWhitespace_spaces ws c rest st' Hws Hcs Hp').
  replace (p_ (set_seen_non_whitespace_ true (set_p_ (c :: rest) st')))
    with (c :: rest) by (destruct st'; reflexivity).
  replace (stack_ (set_seen_non_whitespace_ true (set_p_ (c :: rest) st')))
    with (@nil ParseType) by (destruct st'; cbn in *; congruence).
  unfold fail. cbn [ok fst snd ReportFailure].
  split; [|destruct st'; exact Ho'].
  unfold ReportFailure.
  replace (xml_ (set_seen_non_whitespace_ true (set_p_ (c :: rest) st')))
    with (c0 :: xml)
    by (destruct st', st; cbn in Hxml |- *; congruence).
  replace (p_ (set_seen_non_whitespace_ true (set_p_ (c :: rest) st')))
    with (c :: rest) by (destruct st'; reflexivity).
  destruct st; reflexivity.
Qed.

Lemma save_key_keeps st :
  stack_ (save_key st) = stack_ st /\ p_ (save_key st) = p_ st
  /\ ow_ (save_key st) = ow_ st /\ string_open_ (save_key st) = string_open_ st
  /\ leftover_ (save_key st) = leftover_ st.
Proof.
  unfold save_key. destruct (key_ st), (key_storage_ st);
    destruct st; repeat split.
Qed.

(** The loop runs to the end of the text, white space apart, with an
    element open: Parse succeeds and FinishParse fails. *)
Lemma ParseChunks_unclosed max xml st ws K ow d tags kinds :
  leftover_ st = [] -> xml <> [] -> forallb is_ascii xml = true ->
  string_open_ st = x00 -> parsed_storage_ st = [] ->
  max_recursion_depth_ st = max ->
  forallb ascii_isspace ws = true ->
  leads max
    (mkConfig (stack_ st) xml (ow_ st) (recursion_depth_ st)
       (tag_name_stack_ st) (element_type_stack_ st))
    (mkConfig (TEXT :: K) ws ow d tags kinds) ->
  fst (Parse xml st) = OkStatus
  /\ fst (ParseChunks [xml] st)
     = failure_at "Unexpected end of string. Expected an open tag."
         EXPECTED_OPEN_TAG [] []
  /\ ow_ (snd (ParseChunks [xml] st)) = ow.
Proof.
  intros Hl Hne Ha Hso Hps Hm Hws Hleads.
  destruct (ready_start max xml st Hso Hps Hm) as [Hr Hc].
  destruct (Hleads _ Hr Hc) as (st' & Hruns & (Hf' & Hso' & _) & Hc').
  unfold config in Hc'. injection Hc' as Hs' Hp' Ho' Hd' Ht' Hk'.
  assert (HP : exists st2,
             Parse xml st = (OkStatus, st2)
             /\ stack_ st2 = TEXT :: K /\ leftover_ st2 = []
             /\ string_open_ st2 = x00 /\ ow_ st2 = ow).
  { rewrite (Parse_ascii xml st Hl Hne Ha).
    unfold ParseChunk. destruct xml as [|c0 xml]; [congruence|].
    rewrite (runs_RunParser _ _ Hruns).
    assert (HR : RunParser st'
              = (OkStatus, save_key (push TEXT (set_stack_ K (set_p_ [] st'))))).
    { unfold RunParser. cbn [RunParser_fuel]. rewrite Hs'.
      unfold RunParser_round, next_token. rewrite Hso'.
      change (Byte.eqb x00 x00) with true. cbv iota.
      unfold GetNextTokenType, SkipWhitespace_t.
      rewrite (SkipWhitespace_t_loop_all TEXT ws _ st' ltac:(discriminate)
                 Hws Hp') by (rewrite Hp'; lia).
      unfold mark_non_whitespace.
      replace (p_ (set_p_ [] st')) with (@nil byte) by (destruct st'; reflexivity).
      cbv iota.
      replace (p_ (set_p_ [] st')) with (@nil byte) by (destruct st'; reflexivity).
      cbn [dispatch ParseText_t unknown fst snd]. unfold unknown, ReportUnknown.
      replace (finishing_ (set_stack_ K (set_p_ [] st'))) with false
        by (destruct st'; cbn in *; congruence).
      cbn [negb ok IsCancelled andb]. reflexivity. }
    rewrite HR. cbn [ok negb].
    set (st3 := push TEXT (set_stack_ K (set_p_ [] st'))).
    destruct (save_key_keeps st3) as (Hk1 & Hk2 & Hk3 & Hk4 & Hk5).
    rewrite (SkipWhitespace_all [] (save_key st3) eq_refl)
      by (rewrite Hk2; destruct st'; reflexivity).
    replace (p_ (set_p_ [] (save_key st3))) with (@nil byte)
      by (destruct (save_key st3); reflexivity).
    eexists. split; [reflexivity|].
    destruct (save_key st3) eqn:E; cbn in Hk1, Hk2, Hk3, Hk4, Hk5 |- *.
    subst st3. destruct st'; cbn in *; subst. repeat split. }
  destruct HP as (st2 & HP & Hs2 & Hl2 & Hso2 & Ho2).
  rewrite HP. split; [reflexivity|].
  cbn [ParseChunks]. rewrite HP. cbn [ok]. rewrite <- Ho2.
  apply (FinishParse_at_end TEXT K st2); auto.
Qed.

Lemma repeat_app_plus {A} (x : A) n m : repeat x (n + m) = repeat x n ++ repeat x m.
Proof. induction n as [|n IH]; cbn; [reflexivity|]. rewrite IH. reflexivity. Qed.

Lemma leads_partial_nest max ts us vs rest :
  ts <> [] -> rev ts = us ++ vs ->
  forallb plain_tag ts = true ->
  Z.of_nat (length ts) <= max ->
  leads max
    (mkConfig [BEGIN_ELEMENT] (partial_nest ts us ++ rest) [] 0 [] [])
    (mkConfig (repeat TEXT (length vs)) rest
       (start_events ts [] ++ repeat EndObject (length us))
       (Z.of_nat (length vs)) (object_tags vs) (repeat OBJECT (length vs))).
Proof.
  intros Hne Hrev Hp Hle. destruct ts as [|t ts]; [congruence|].
  assert (Hus : forallb plain_tag us = true).
  { pose proof Hp as H. rewrite <- forallb_rev, Hrev, forallb_app in H.
    apply andb_true_iff in H. apply H. }
  assert (Hlen : length (t :: ts) = (length us + length vs)%nat).
  { rewrite <- length_rev, Hrev, length_app. reflexivity. }
  cbn [forallb] in Hp. apply andb_true_iff in Hp as [Ht Hts].
  cbn [length] in Hle, Hlen.
  unfold partial_nest. cbn [map concat]. rewrite <- !app_assoc.
  eapply leads_trans; [apply leads_first_opener; [exact Ht|lia]|].
  eapply leads_trans; [apply leads_openers; [exact Hts|intros _; lia]|].
  replace (repeat TEXT (length ts) ++ [TEXT])
    with (repeat TEXT (length us) ++ repeat TEXT (length vs))
    by (rewrite <- repeat_app_plus, <- Hlen; cbn [repeat];
        symmetry; rewrite <- (app_nil_r (repeat TEXT (length ts))) at 2;
        apply (repeat_shift TEXT (length ts) [])).
  replace (object_tags (rev ts) ++ [(t, false)])
    with (object_tags us ++ object_tags vs)
    by (unfold object_tags; rewrite <- map_app, <- Hrev; cbn [rev];
        rewrite map_app; reflexivity).
  replace (repeat OBJECT (length ts) ++ [OBJECT])
    with (repeat OBJECT (length us) ++ repeat OBJECT (length vs))
    by (rewrite <- repeat_app_plus, <- Hlen; cbn [repeat];
        symmetry; rewrite <- (app_nil_r (repeat OBJECT (length ts))) at 2;
        apply (repeat_shift OBJECT (length ts) [])).
  eapply leads_trans; [apply leads_closers; exact Hus|].
  cbn [app start_events].
  replace (0 + 1 + Z.of_nat (length ts) - Z.of_nat (length us))
    with (Z.of_nat (length vs)) by lia.
  apply leads_refl.
Qed.

Lemma partial_nest_ascii ts us :
  forallb plain_tag ts = true -> forallb plain_tag us = true ->
  forallb is_ascii (partial_nest ts us) = true.
Proof.
  intros H1 H2. unfold partial_nest. rewrite forallb_app.
  apply andb_true_iff. split; apply forallb_concat.
  - apply (forallb_map_true _ opener plain_tag); [apply opener_ascii|exact H1].
  - apply (forallb_map_true _ closer plain_tag); [apply closer_ascii|exact H2].
Qed.

Lemma partial_nest_nonempty ts us rest : ts <> [] -> partial_nest ts us ++ rest <> [].
Proof. destruct ts; [congruence|]. intros _. discriminate. Qed.

Lemma nest_partial ts : nest ts = partial_nest ts (rev ts).
Proof. reflexivity. Qed.


(** X4.  An element left open is reported by FinishParse.  When the text
    ends, white space apart, after the openers of nested elements and the
    closers of only some of them, Parse returns OK, the sink has received
    the events read so far, and FinishParse fails with Unexpected end of
    string. Expected an open tag. *)
Theorem unclosed_element_fails_at_FinishParse ts us vs ws :
  rev ts = us ++ vs -> vs <> [] ->
  forallb plain_tag ts = true ->
  Z.of_nat (length ts) <= 100 ->
  forallb ascii_isspace ws = true ->
  fst (Parse (partial_nest ts us ++ ws) New) = OkStatus
  /\ fst (ParseChunks [partial_nest ts us ++ ws] New)
     = failure_at "Unexpected end of string. Expected an open tag."
         EXPECTED_OPEN_TAG [] []
  /\ ow_ (snd (ParseChunks [partial_nest ts us ++ ws] New))
     = start_events ts [] ++ repeat EndObject (length us).
Proof.
  intros Hrev Hvs Hp Hle Hws.
  assert (Hne : ts <> []).
  { intros ->. cbn in Hrev. destruct us; [|discriminate].
    cbn in Hrev. congruence. }
  assert (Hus : forallb plain_tag us = true).
  { pose proof Hp as H. rewrite <- forallb_rev, Hrev, forallb_app in H.
    apply andb_true_iff in H. apply H. }
  pose proof (leads_partial_nest 100 ts us vs ws Hne Hrev Hp Hle) as HL.
  destruct vs as [|v vs]; [congruence|]. cbn [length repeat] in HL.
  apply (ParseChunks_unclosed 100 (partial_nest ts us ++ ws) New ws
           (repeat TEXT (length vs)) _ (Z.of_nat (S (length vs)))
           (object_tags (v :: vs)) (OBJECT :: repeat OBJECT (length vs)));
    auto.
  - apply partial_nest_nonempty, Hne.
  - rewrite forallb_app, (partial_nest_ascii ts us Hp Hus).
    apply space_ascii, Hws.
Qed.

Lemma unclosed_element_fails_at_FinishParse_witness :
  fst (ParseChunks [B "<a><b></b>"] New)
  = failure_at "Unexpected end of string. Expected an open tag."
      EXPECTED_OPEN_TAG [] []
  /\ ow_ (snd (ParseChunks [B "<a><b></b>"] New))
     = [StartObject (B "a"); StartObject (B "b"); EndObject].
Proof.
  assert (Hrev : rev [B "a"; B "b"] = [B "b"] ++ [B "a"]) by reflexivity.
  assert (Hvs : [B "a"] <> []) by discriminate.
  assert (Hp : forallb plain_tag [B "a"; B "b"] = true)
    by (vm_compute; reflexivity).
  assert (Hle : Z.of_nat (length [B "a"; B "b"]) <= 100) by (cbn; lia).
  assert (Hws : forallb ascii_isspace [] = true) by reflexivity.
  exact (proj2 (unclosed_element_fails_at_FinishParse [B "a"; B "b"] [B "b"]
                  [B "a"] [] Hrev Hvs Hp Hle Hws)).
Defined.

Lemma bytes_eqb_neq a b : a <> b -> bytes_eqb a b = false.
Proof. intros H. unfold bytes_eqb. destruct (list_eq_dec _ a b); congruence. Qed.

Lemma fails_end_name_mismatch max u t x rest K ow d flag tags kinds :
  is_name u = true -> IsAlphanumericOrHyphen x = false ->
  starts_with u (B "_list_") = false ->
  t <> u ->
  fails max
    (mkConfig (END_TAG :: K) (u ++ x :: rest) ow d ((t, flag) :: tags) kinds)
    "Tag name not match." TAG_NAME_NOT_MATCH (x :: rest) ow.
Proof.
  intros Hn Hx Hl Hneq st (Hf & Hso & Hps & Hm) Hcfg. unfold config in Hcfg.
  injection Hcfg as Hs Hp Ho Hd Ht Hk.
  unfold RunParser. cbn [RunParser_fuel]. rewrite Hs.
  unfold RunParser_round.
  rewrite (next_token_name END_TAG u x rest st ltac:(discriminate) Hso Hn Hp).
  cbn [dispatch]. unfold ParseEndTag.
  replace (p_ (set_stack_ K (set_seen_non_whitespace_ true st)))
    with (u ++ x :: rest) by (destruct st; cbn in *; congruence).
  rewrite (ConsumeTagName_name u x rest Hn Hx).
  set (st1 := set_tag_name_ u (set_p_ (x :: rest)
                (set_stack_ K (set_seen_non_whitespace_ true st)))).
  replace (finishing_ st1) with false by (destruct st; cbn in *; congruence).
  replace (p_ st1) with (x :: rest) by (destruct st; reflexivity).
  replace (tag_name_ st1) with u by (destruct st; reflexivity).
  replace (tag_name_stack_ st1) with ((t, flag) :: tags)
    by (destruct st; cbn in *; congruence).
  cbn [negb andb length Nat.eqb]. rewrite Hl, (bytes_eqb_neq t u Hneq).
  unfold fail. cbn [ok ReportFailure IsCancelled fst snd].
  rewrite andb_false_r. cbn [fst snd].
  split; [|subst st1; destruct st; exact Ho].
  unfold ReportFailure. subst st1. destruct st; reflexivity.
Qed.

(** X5.  A closing tag must name the innermost open element.  When, after
    the openers of nested elements and the closers of some of them, a closing
    tag names another element than the innermost one still open, Parse fails
    with Tag name not match, the cursor behind the name; the sink has
    received the events read before that tag and no event for it. *)
Theorem closing_tag_must_match_the_open_element ts us v vs u rest :
  rev ts = us ++ v :: vs ->
  forallb plain_tag ts = true ->
  Z.of_nat (length ts) <= 100 ->
  plain_tag u = true -> u <> v ->
  forallb is_ascii rest = true ->
  fst (ParseChunks [partial_nest ts us ++ closer u ++ rest] New)
  = failure_at "Tag name not match." TAG_NAME_NOT_MATCH
      (partial_nest ts us ++ closer u ++ rest) (B ">" ++ rest)
  /\ ow_ (snd (ParseChunks [partial_nest ts us ++ closer u ++ rest] New))
     = start_events ts [] ++ repeat EndObject (length us).
Proof.
  intros Hrev Hp Hle Hu Hneq Hrest.
  assert (Hne : ts <> []).
  { intros ->. cbn in Hrev. destruct us; discriminate. }
  assert (Hus : forallb plain_tag us = true).
  { pose proof Hp as H. rewrite <- forallb_rev, Hrev, forallb_app in H.
    apply andb_true_iff in H. apply H. }
  destruct (plain_tag_inv u Hu) as (Hn & Hl & Ha).
  apply (ParseChunks_fails 100 _ New); try reflexivity.
  - apply partial_nest_nonempty, Hne.
  - rewrite !forallb_app, (partial_nest_ascii ts us Hp Hus),
      (closer_ascii u Hu). exact Hrest.
  - eapply leads_fails;
      [apply (leads_partial_nest 100 ts us (v :: vs) _ Hne Hrev Hp Hle)|].
    cbn [length repeat object_tags map].
    unfold closer. rewrite <- !app_assoc. cbn [B app list_byte_of_string].
    eapply leads_fails; [apply (leads_open_tag 100 []); reflexivity|].
    eapply leads_fails; [apply leads_end_slash|].
    apply fails_end_name_mismatch; auto.
Qed.

Lemma closing_tag_must_match_the_open_element_witness :
  fst (ParseChunks [B "<a><b></a></b>"] New)
  = failure_at "Tag name not match." TAG_NAME_NOT_MATCH
      (B "<a><b></a></b>") (B "></b>")
  /\ ow_ (snd (ParseChunks [B "<a><b></a></b>"] New))
     = [StartObject (B "a"); StartObject (B "b")].
Proof.
  assert (Hrev : rev [B "a"; B "b"] = [] ++ B "b" :: [B "a"]) by reflexivity.
  assert (Hp : forallb plain_tag [B "a"; B "b"] = true)
    by (vm_compute; reflexivity).
  assert (Hle : Z.of_nat (length [B "a"; B "b"]) <= 100) by (cbn; lia).
  assert (Hu : plain_tag (B "a") = true) by (vm_compute; reflexivity).
  assert (Hneq : B "a" <> B "b") by discriminate.
  assert (Hrest : forallb is_ascii (B "</b>") = true) by reflexivity.
  exact (closing_tag_must_match_the_open_element [B "a"; B "b"] [] (B "b")
           [B "a"] (B "a") (B "</b>") Hrev Hp Hle Hu Hneq Hrest).
Defined.

Lemma next_token_COMMENT type st :
  fst (next_token type st) = COMMENT ->
  exists r, p_ (snd (next_token type st)) = "!"%byte :: r.
Proof.
  unfold next_token. destruct (Byte.eqb (string_open_ st) x00);
    [|discriminate].
  unfold GetNextTokenType.
  destruct (p_ (SkipWhitespace_t type st)) as [|c r] eqn:E; [discriminate|].
  cbn [fst snd]. intros H. exists r. rewrite E. f_equal.
  destruct (Byte.eqb c x22 || Byte.eqb c "'"%byte); [discriminate|].
  destruct (Byte.eqb c "<"%byte); [discriminate|].
  destruct (Byte.eqb c ">"%byte); [discriminate|].
  destruct (Byte.eqb c "/"%byte); [discriminate|].
  destruct (Byte.eqb c "?"%byte); [discriminate|].
  destruct (Byte.eqb c "!"%byte) eqn:Ec;
    [apply Byte.byte_dec_bl in Ec; exact Ec|].
  destruct (Byte.eqb c " "%byte); [discriminate|].
  destruct (Byte.eqb c "="%byte); [discriminate|].
  destruct (MatchKey (c :: r)); discriminate.
Qed.

Lemma ParseComments_at_bang st r :
  p_ st = "!"%byte :: r ->
  ParseComments st
  = match r with
    | [] => cancel_or_fail "Illegal comment." ILLEGAL_COMMENT st
    | _ :: _ => fail "Dash expected in comment." EXPECTED_DASH_IN_COMMENT st
    end.
Proof.
  intros Hp. unfold ParseComments. rewrite Hp.
  destruct r as [|c r]; reflexivity.
Qed.

Lemma next_token_bang type ws r st :
  type <> BEGIN_ELEMENT_MID -> string_open_ st = x00 ->
  forallb ascii_isspace ws = true -> p_ st = ws ++ "!"%byte :: r ->
  next_token type st
  = (COMMENT, set_seen_non_whitespace_ true (set_p_ ("!"%byte :: r) st)).
Proof.
  intros Ht Hso Hws Hp.
  rewrite (next_token_char type ws "!"%byte r st Ht Hso Hws eq_refl Hp).
  reflexivity.
Qed.

Lemma fails_comment max c rest K ow d tags kinds :
  fails max
    (mkConfig (START_TAG :: K) ("!"%byte :: c :: rest) ow d tags kinds)
    "Dash expected in comment." EXPECTED_DASH_IN_COMMENT
    ("!"%byte :: c :: rest) ow.
Proof.
  intros st (Hf & Hso & Hps & Hm) Hcfg. unfold config in Hcfg.
  injection Hcfg as Hs Hp Ho Hd Ht Hk.
  unfold RunParser. cbn [RunParser_fuel]. rewrite Hs.
  unfold RunParser_round.
  rewrite (next_token_bang START_TAG [] (c :: rest) st ltac:(discriminate)
             Hso eq_refl Hp).
  cbn [dispatch ParseStartTag].
  rewrite (ParseComments_at_bang _ (c :: rest)) by (destruct st; reflexivity).
  unfold fail. cbn [ok ReportFailure IsCancelled fst snd].
  rewrite andb_false_r. cbn [fst snd].
  split; [|destruct st; exact Ho].
  unfold ReportFailure. destruct st; reflexivity.
Qed.

Lemma ascii_one c : is_ascii c = true -> kUTF8LenTbl c = 1%nat.
Proof.
  unfold is_ascii, kUTF8LenTbl. intros H. apply Z.leb_le in H.
  replace (u8 c <? 192) with true by (symmetry; apply Z.ltb_lt; lia).
  reflexivity.
Qed.

Lemma ParseDeclaration_loop_body body : forall n st rest,
  declaration_body body = true ->
  p_ st = body ++ "?"%byte :: ">"%byte :: rest -> (length body < n)%nat ->
  ParseDeclaration_loop n st = (OkStatus, set_p_ rest st).
Proof.
  induction body as [|c body IH]; intros n st rest Hb Hp Hn.
  - destruct n as [|n]; [cbn in Hn; lia|].
    cbn [app] in Hp.
    cbn [ParseDeclaration_loop]. rewrite Hp.
    change (Byte.eqb "?"%byte "?"%byte) with true. cbv iota.
    cbn [length Nat.ltb Nat.leb nth]. 
    change (Byte.eqb ">"%byte ">"%byte) with true. cbn [negb].
    unfold remove_prefix. rewrite Hp. reflexivity.
  - destruct n as [|n]; [cbn in Hn; lia|]. cbn [declaration_body forallb] in Hb.
    apply andb_true_iff in Hb as [Hc Hb]. apply andb_true_iff in Hc as [Hc1 Hc2].
    apply negb_true_iff in Hc2.
    cbn [app] in Hp. cbn [ParseDeclaration_loop]. rewrite Hp, Hc2.
    rewrite (Advance_one st c _ Hp (ascii_one c Hc1)).
    rewrite (IH n (set_p_ (body ++ "?"%byte :: ">"%byte :: rest) st) rest Hb);
      [rewrite set_p_set_p; reflexivity|destruct st; reflexivity|
       cbn [length] in Hn; lia].
Qed.

Lemma next_token_question type ws r st :
  type <> BEGIN_ELEMENT_MID -> string_open_ st = x00 ->
  forallb ascii_isspace ws = true -> p_ st = ws ++ "?"%byte :: r ->
  next_token type st
  = (DECLARATION, set_seen_non_whitespace_ true (set_p_ ("?"%byte :: r) st)).
Proof.
  intros Ht Hso Hws Hp.
  rewrite (next_token_char type ws "?"%byte r st Ht Hso Hws eq_refl Hp).
  reflexivity.
Qed.

Lemma leads_declaration max body rest K ow d tags kinds :
  declaration_body body = true ->
  leads max
    (mkConfig (START_TAG :: K) ("?"%byte :: body ++ "?"%byte :: ">"%byte :: rest) ow d tags
       kinds)
    (mkConfig K rest ow d tags kinds).
Proof.
  intros Hb. start_leads st Hf Hso Hps Hm Hs Hp Ho Hd Ht Hk.
  assert (Hround : RunParser_round START_TAG K st
            = inl (set_p_ rest
                     (set_stack_ K (set_seen_non_whitespace_ true st)))).
  { unfold RunParser_round.
    rewrite (next_token_question START_TAG [] _ st ltac:(discriminate)
               Hso eq_refl Hp).
    cbn [dispatch ParseStartTag]. unfold ParseDeclaration.
    set (st1 := set_stack_ K (set_seen_non_whitespace_ true
                  (set_p_ ("?"%byte :: body ++ "?"%byte :: ">"%byte :: rest) st))).
    assert (Hp1 : p_ st1 = "?"%byte :: body ++ "?"%byte :: ">"%byte :: rest)
      by (destruct st; reflexivity).
    rewrite Hp1. cbn [length Nat.ltb Nat.leb nth].
    change (Byte.eqb "?"%byte "?"%byte) with true. cbn [negb].
    unfold remove_prefix. rewrite Hp1. cbn [skipn].
    rewrite (ParseDeclaration_loop_body body _ _ rest Hb)
      by (try (destruct st; reflexivity);
          replace (p_ (set_p_ (body ++ "?"%byte :: ">"%byte :: rest) st1))
            with (body ++ "?"%byte :: ">"%byte :: rest) by (destruct st; reflexivity);
          rewrite length_app; cbn [length]; lia).
    cbn [ok]. destruct st; reflexivity. }
  one_round Hs Hround. finish_round st.
Qed.

Lemma declaration_ascii body :
  declaration_body body = true -> forallb is_ascii (declaration body) = true.
Proof.
  intros Hb. unfold declaration. rewrite !forallb_app.
  replace (forallb is_ascii body) with true; [reflexivity|].
  symmetry. apply forallb_forall. intros x Hx.
  pose proof (proj1 (forallb_forall _ _) Hb x Hx) as H.
  apply andb_true_iff in H. apply H.
Qed.

(** X7.  A declaration takes the place of an element.  At the start of a
    document a declaration empties the parser stack: followed by white space
    only it is a whole document that succeeds with no event, and followed by
    a root element it makes Parse fail with Parsing terminated before end of
    input at the first byte that is no white space.  Inside an element a
    declaration is skipped without an event. *)
Theorem declaration_takes_the_place_of_an_element body ws :
  declaration_body body = true ->
  forallb ascii_isspace ws = true ->
  (fst (ParseChunks [declaration body ++ ws] New) = OkStatus
   /\ ow_ (snd (ParseChunks [declaration body ++ ws] New)) = [])
  /\ (forall c rest,
         ascii_isspace c = false -> forallb is_ascii (c :: rest) = true ->
         fst (ParseChunks [declaration body ++ ws ++ c :: rest] New)
         = failure_at "Parsing terminated before end of input."
             PARSING_TERMINATED_BEFORE_END_OF_INPUT
             (declaration body ++ ws ++ c :: rest) (c :: rest)
         /\ ow_ (snd (ParseChunks
                        [declaration body ++ ws ++ c :: rest] New)) = [])
  /\ (forall t,
         plain_tag t = true ->
         fst (ParseChunks [opener t ++ declaration body ++ closer t] New)
         = OkStatus
         /\ ow_ (snd (ParseChunks
                        [opener t ++ declaration body ++ closer t] New))
            = [start_object_event t []; EndObject]).
Proof.
  intros Hb Hws. pose proof (declaration_ascii body Hb) as Ha.
  assert (HL : forall rest,
             leads 100
               (mkConfig [BEGIN_ELEMENT] (declaration body ++ rest) [] 0 [] [])
               (mkConfig [] rest [] 0 [] [])).
  { intros rest. unfold declaration. rewrite <- !app_assoc.
    cbn [B app list_byte_of_string].
    eapply leads_trans; [apply (leads_first_open_tag 100 []); reflexivity|].
    apply (leads_declaration 100 body rest); exact Hb. }
  split; [|split].
  - assert (Hne : declaration body ++ ws <> []) by discriminate.
    assert (Hx : forallb is_ascii (declaration body ++ ws) = true)
      by (rewrite forallb_app, Ha; apply space_ascii, Hws).
    destruct (ParseChunks_leads_ws 100 (declaration body ++ ws) New ws [] 0 []
                eq_refl Hne Hx eq_refl eq_refl eq_refl Hws (HL ws))
      as (H1 & H2 & _).
    split; assumption.
  - intros c rest Hc Hcr.
    assert (Hne : declaration body ++ ws ++ c :: rest <> []) by discriminate.
    assert (Hx : forallb is_ascii (declaration body ++ ws ++ c :: rest) = true)
      by (rewrite !forallb_app, Ha, (space_ascii ws Hws); exact Hcr).
    exact (ParseChunks_terminated 100 _ New ws c rest [] 0 [] []
             eq_refl Hne Hx eq_refl eq_refl eq_refl Hws Hc (HL _)).
  - intros t Ht.
    assert (Hne : opener t ++ declaration body ++ closer t <> [])
      by (unfold opener; discriminate).
    assert (Hx : forallb is_ascii (opener t ++ declaration body ++ closer t)
                 = true)
      by (rewrite !forallb_app, Ha, (opener_ascii t Ht), (closer_ascii t Ht);
          reflexivity).
    assert (HL2 : leads 100
              (mkConfig [BEGIN_ELEMENT]
                 (opener t ++ declaration body ++ closer t) [] 0 [] [])
              (mkConfig [] [] [start_object_event t []; EndObject] 0 [] [])).
    { eapply leads_trans; [apply leads_first_opener; [exact Ht|lia]|].
      unfold declaration. rewrite <- !app_assoc.
      cbn [B app list_byte_of_string].
      eapply leads_trans; [apply (leads_open_tag 100 []); reflexivity|].
      eapply leads_trans;
        [apply (leads_declaration 100 body (closer t)); exact Hb|].
      rewrite <- (app_nil_r (closer t)).
      eapply leads_trans; [apply leads_closer; exact Ht|].
      apply leads_refl. }
    destruct (ParseChunks_leads 100 _ New _ 0 []
                eq_refl Hne Hx eq_refl eq_refl eq_refl HL2) as (H1 & H2 & _).
    split; assumption.
Qed.

Lemma declaration_takes_the_place_of_an_element_witness :
  fst (ParseChunks [B "<?xml version='1.0'?>"] New) = OkStatus
  /\ fst (ParseChunks [B "<?xml version='1.0'?>" ++ B " " ++ B "<root></root>"]
            New)
     = failure_at "Parsing terminated before end of input."
         PARSING_TERMINATED_BEFORE_END_OF_INPUT
         (B "<?xml version='1.0'?>" ++ B " " ++ B "<root></root>")
         (B "<root></root>").
Proof.
  assert (Hb : declaration_body (B "xml version='1.0'") = true)
    by (vm_compute; reflexivity).
  assert (Hnil : forallb ascii_isspace [] = true) by reflexivity.
  assert (Hws : forallb ascii_isspace (B " ") = true) by reflexivity.
  assert (Hc : ascii_isspace "<"%byte = false) by reflexivity.
  assert (Ha : forallb is_ascii (B "<root></root>") = true) by reflexivity.
  split.
  - pose proof (proj1 (proj1 (declaration_takes_the_place_of_an_element
                                (B "xml version='1.0'") [] Hb Hnil))) as H.
    rewrite app_nil_r in H. exact H.
  - exact (proj1 (proj1 (proj2 (declaration_takes_the_place_of_an_element
                                  (B "xml version='1.0'") (B " ") Hb Hws))
                    "<"%byte (B "root></root>") Hc Ha)).
Defined.

(** X8.  The parser loop always makes progress.  A round of RunParser that
    does not return has consumed at least one byte of the chunk, Advance
    never moves the cursor beyond the end of the chunk, and so the loop
    returns after at most as many continuing rounds as the chunk has bytes:
    whatever the state, every number of rounds above the length of the rest
    of the chunk gives the result of RunParser. *)
Theorem parser_loop_makes_progress :
  (forall type rest st st',
      RunParser_round type rest st = inl st' ->
      (length (p_ st') < length (p_ st))%nat)
  /\ (forall st,
         p_ st <> [] ->
         exists k, (1 <= k <= 4)%nat /\ (k <= length (p_ st))%nat
                   /\ p_ (Advance st) = skipn k (p_ st))
  /\ (forall n st,
         (length (p_ st) < n)%nat ->
         RunParser_fuel n st = RunParser st
         /\ fst (RunParser_fuel n st) <> CancelledError).
Proof.
  split; [exact RunParser_round_consumes|]. split.
  - intros st Hne. unfold Advance, remove_prefix.
    destruct (p_ st) as [|c r] eqn:Hp; [congruence|].
    exists (Nat.min (length (c :: r)) (UTF8FirstLetterNumBytes (c :: r))).
    cbn [UTF8FirstLetterNumBytes length].
    assert (H : (1 <= kUTF8LenTbl c <= 4)%nat).
    { unfold kUTF8LenTbl. destruct (u8 c <? 192); [lia|].
      destruct (u8 c <? 224); [lia|]. destruct (u8 c <? 240); lia. }
    repeat split; lia.
  - intros n st Hn. rewrite (RunParser_fuel_defined n st Hn).
    split; [reflexivity|]. apply RunParser_good.
Qed.

(** X10.  The context of an error message.  When the cursor stands in the
    chunk, behind the bytes [consumed], the status ReportFailure builds has
    the message, a line with the last 20 bytes at most of what was consumed
    followed by the next 20 bytes at most, and a line with a caret in the
    column of the cursor. *)
Theorem ReportFailure_shows_the_cursor message code st consumed :
  xml_ st = consumed ++ p_ st ->
  ReportFailure message code st
  = InvalidArgumentError (Some code)
      (message ++ [x0a]
       ++ skipn (length consumed - 20) consumed ++ firstn 20 (p_ st)
       ++ [x0a]
       ++ repeat " "%byte (length (skipn (length consumed - 20) consumed))
       ++ B "^")
  /\ (length (skipn (length consumed - 20) consumed) <= 20)%nat.
Proof.
  intros Hx. unfold ReportFailure, kContextLength. rewrite Hx.
  rewrite length_app.
  replace (length consumed + length (p_ st) - length (p_ st))%nat
    with (length consumed) by lia.
  set (b := (length consumed - 20)%nat).
  assert (Hb : (b <= length consumed)%nat) by lia.
  rewrite (skipn_app_le b consumed (p_ st) Hb).
  assert (Hlen : length (skipn b consumed) = (length consumed - b)%nat)
    by apply length_skipn.
  rewrite Hlen. split; [|lia].
  assert (Hseg : firstn
            (Nat.min (length consumed + 20)
               (length consumed + length (p_ st)) - b)
            (skipn b consumed ++ p_ st)
          = skipn b consumed ++ firstn 20 (p_ st)).
  { replace (Nat.min (length consumed + 20)
               (length consumed + length (p_ st)) - b)%nat
      with (length (skipn b consumed) + Nat.min 20 (length (p_ st)))%nat by lia.
    rewrite firstn_app_2. f_equal.
    destruct (Nat.le_gt_cases 20 (length (p_ st))) as [H|H].
    - rewrite Nat.min_l by lia. reflexivity.
    - rewrite Nat.min_r by lia. rewrite !firstn_all2 by lia. reflexivity. }
  rewrite Hseg, <- app_assoc. reflexivity.
Qed.

Lemma ReportFailure_shows_the_cursor_witness :
  ReportFailure (B "Invalid key.") INVALID_KEY
    (set_p_ (B "=1>") (set_xml_ (B "<a =1>") New))
  = InvalidArgumentError (Some INVALID_KEY)
      (B "Invalid key." ++ [x0a] ++ B "<a =1>" ++ [x0a] ++ B "   ^").
Proof.
  assert (H : xml_ (set_p_ (B "=1>") (set_xml_ (B "<a =1>") New))
              = B "<a " ++ p_ (set_p_ (B "=1>") (set_xml_ (B "<a =1>") New)))
    by reflexivity.
  rewrite (proj1 (ReportFailure_shows_the_cursor (B "Invalid key.")
                    INVALID_KEY _ (B "<a ") H)).
  reflexivity.
Defined.

Lemma name_tail_len_firstn r :
  forallb IsAlphanumericOrHyphen (firstn (name_tail_len r) r) = true.
Proof.
  induction r as [|c r IH]; [reflexivity|]. cbn [name_tail_len].
  destruct (IsAlphanumericOrHyphen c) eqn:E; [|reflexivity].
  cbn [firstn forallb]. rewrite E, IH. reflexivity.
Qed.

Lemma name_tail_len_stop r :
  match skipn (name_tail_len r) r with
  | [] => True
  | x :: _ => IsAlphanumericOrHyphen x = false
  end.
Proof.
  induction r as [|c r IH]; [exact I|]. cbn [name_tail_len].
  destruct (IsAlphanumericOrHyphen c) eqn:E; [exact IH|exact E].
Qed.

Lemma name_tail_len_all r :
  forallb IsAlphanumericOrHyphen r = true -> name_tail_len r = length r.
Proof.
  induction r as [|c r IH]; [reflexivity|]. cbn [forallb name_tail_len length].
  intros H. apply andb_true_iff in H as [Hc Hr]. rewrite Hc, IH by exact Hr.
  reflexivity.
Qed.

(** X11.  ConsumeTagName and ConsumeKey take the longest name.  Either
    returns (name, rest) exactly when the input is name followed by rest,
    name is a letter or underscore followed by letters, digits, underscores
    and hyphens, and rest is empty or begins with a byte that cannot
    continue a name; both fail exactly when the input is empty or begins
    with a byte that cannot start a name. *)
Theorem ConsumeTagName_takes_the_longest_name input :
  (forall name rest,
      ConsumeTagName input = Some (name, rest)
      <-> (is_name name = true /\ input = name ++ rest
           /\ match rest with
              | [] => True
              | x :: _ => IsAlphanumericOrHyphen x = false
              end))
  /\ (ConsumeTagName input = None <-> MatchKey input = false)
  /\ ConsumeKey input = ConsumeTagName input.
Proof.
  split; [|split; [|reflexivity]].
  - intros name rest. split.
    + destruct input as [|c r]; [discriminate|]. cbn [ConsumeTagName].
      destruct (IsLetter c) eqn:Ec; [|discriminate].
      intros [= <- <-]. cbn [firstn skipn is_name]. rewrite Ec.
      rewrite name_tail_len_firstn. split; [reflexivity|].
      split; [cbn [app]; rewrite firstn_skipn; reflexivity|apply name_tail_len_stop].
    + intros (Hn & -> & Hrest). destruct rest as [|x rest].
      * rewrite app_nil_r. destruct name as [|c r]; [discriminate|].
        cbn [is_name] in Hn. apply andb_true_iff in Hn as [Hc Hr].
        cbn [ConsumeTagName]. rewrite Hc, (name_tail_len_all r Hr).
        change (S (length r)) with (length (c :: r)).
        rewrite firstn_all, skipn_all. reflexivity.
      * apply ConsumeTagName_name; assumption.
  - destruct input as [|c r]; [split; reflexivity|]. cbn [ConsumeTagName MatchKey].
    destruct (IsLetter c); split; congruence.
Qed.

Lemma text_tail_len_plain body : forall rest,
  forallb (fun c => negb (Byte.eqb c "<"%byte) && negb (Byte.eqb c "&"%byte))
    body = true ->
  text_tail_len (body ++ rest)
  = option_map (fun n => (length body + n)%nat) (text_tail_len rest).
Proof.
  induction body as [|c body IH]; intros rest Hb.
  - cbn. destruct (text_tail_len rest); reflexivity.
  - cbn [forallb] in Hb. apply andb_true_iff in Hb as [Hc Hb].
    apply andb_true_iff in Hc as [Hc1 Hc2]. apply negb_true_iff in Hc1, Hc2.
    cbn [app text_tail_len length]. rewrite Hc1, Hc2, (IH rest Hb).
    destruct (text_tail_len rest); reflexivity.
Qed.

Lemma text_head_inv c :
  text_head c = true -> ascii_isspace c = false /\ c <> "<"%byte.
Proof.
  unfold text_head. intros H. apply andb_true_iff in H as [H1 H2].
  apply negb_true_iff in H1, H2. split; [exact H1|].
  intros ->. discriminate H2.
Qed.

Lemma ConsumeText_plain c body rest :
  text_tail body = true ->
  ConsumeText (c :: body ++ "<"%byte :: rest)
  = Some (c :: body, "<"%byte :: rest).
Proof.
  intros Hb. cbn [ConsumeText].
  rewrite (text_tail_len_plain body _ Hb). cbn [text_tail_len option_map].
  change (Byte.eqb "<"%byte "<"%byte) with true. cbv iota. cbn [option_map].
  rewrite Nat.add_0_r.
  change (c :: body ++ "<"%byte :: rest) with ((c :: body) ++ "<"%byte :: rest).
  change (S (length body)) with (length (c :: body)).
  rewrite <- (Nat.add_0_r (length (c :: body))) at 1.
  rewrite firstn_app_2, skipn_app, skipn_all, Nat.sub_diag.
  cbn [firstn skipn app]. rewrite app_nil_r. reflexivity.
Qed.

Lemma ConsumeText_ampersand c body tail :
  text_tail body = true ->
  IsPredefinedEntities ("&"%byte :: tail) = false ->
  ConsumeText (c :: body ++ "&"%byte :: tail) = None.
Proof.
  intros Hb He. cbn [ConsumeText].
  rewrite (text_tail_len_plain body _ Hb). cbn [text_tail_len].
  change (Byte.eqb "&"%byte "<"%byte) with false.
  change (Byte.eqb "&"%byte "&"%byte) with true. cbv iota.
  rewrite He. reflexivity.
Qed.

Lemma ParseText_t_other t st :
  t <> OPEN_TAG -> t <> UNKNOWN -> ParseText_t t st = ParseText st.
Proof. intros H1 H2. destruct t; try reflexivity; congruence. Qed.

Lemma leads_text max ws c body rest K ow d tags kinds :
  forallb ascii_isspace ws = true ->
  text_head c = true -> text_tail body = true ->
  leads max
    (mkConfig (TEXT :: K) (ws ++ c :: body ++ "<"%byte :: rest) ow d tags kinds)
    (mkConfig (END_ELEMENT :: K) ("<"%byte :: rest)
       (ow ++ [RenderString [] (c :: body)]) d tags kinds).
Proof.
  intros Hws Hch Hb. destruct (text_head_inv c Hch) as [Hc1 Hc2].
  start_leads st Hf Hso Hps Hm Hs Hp Ho Hd Ht Hk.
  destruct (next_token_other TEXT ws c _ st ltac:(discriminate) Hso Hws Hc1
              Hc2 Hp) as (t & Hnt & Ht1 & Ht2).
  assert (Hround : RunParser_round TEXT K st
            = inl (push END_ELEMENT
                     (emit (RenderString [] (c :: body))
                        (set_text_ (c :: body)
                           (set_p_ ("<"%byte :: rest)
                              (set_stack_ K
                                 (set_seen_non_whitespace_ true st))))))).
  { unfold RunParser_round. rewrite Hnt. cbn [dispatch].
    rewrite (ParseText_t_other t _ Ht1 Ht2). unfold ParseText.
    replace (p_ (set_stack_ K (set_seen_non_whitespace_ true
                  (set_p_ (c :: body ++ "<"%byte :: rest) st))))
      with (c :: body ++ "<"%byte :: rest) by (destruct st; reflexivity).
    rewrite (ConsumeText_plain c body rest Hb).
    destruct st; cbn in Hf; subst. reflexivity. }
  one_round Hs Hround. finish_round st.
Qed.

Lemma fails_text_ampersand max ws c body tail K ow d tags kinds :
  forallb ascii_isspace ws = true ->
  text_head c = true -> text_tail body = true ->
  IsPredefinedEntities ("&"%byte :: tail) = false ->
  fails max
    (mkConfig (TEXT :: K) (ws ++ c :: body ++ "&"%byte :: tail) ow d tags kinds)
    "Invalid text." INVALID_TEXT (c :: body ++ "&"%byte :: tail) ow.
Proof.
  intros Hws Hc Hb He. destruct (text_head_inv c Hc) as [Hc1 Hc2].
  intros st (Hf & Hso & Hps & Hm) Hcfg. unfold config in Hcfg.
  injection Hcfg as Hs Hp Ho Hd Ht Hk.
  destruct (next_token_other TEXT ws c _ st ltac:(discriminate) Hso Hws Hc1
              Hc2 Hp) as (t & Hnt & Ht1 & Ht2).
  unfold RunParser. cbn [RunParser_fuel]. rewrite Hs.
  unfold RunParser_round. rewrite Hnt. cbn [dispatch].
  rewrite (ParseText_t_other t _ Ht1 Ht2). unfold ParseText.
  replace (p_ (set_stack_ K (set_seen_non_whitespace_ true
                (set_p_ (c :: body ++ "&"%byte :: tail) st))))
    with (c :: body ++ "&"%byte :: tail) by (destruct st; reflexivity).
  rewrite (ConsumeText_ampersand c body tail Hb He).
  unfold fail. cbn [ok ReportFailure IsCancelled fst snd].
  rewrite andb_false_r. cbn [fst snd].
  split; [|destruct st; exact Ho].
  unfold ReportFailure. destruct st; reflexivity.
Qed.

Section WriterNewLine.
Import XmlObjectWriter.

Lemma forallb_eqb_repeat c s :
  forallb (Byte.eqb c) s = true -> s = repeat c (length s).
Proof.
  induction s as [|x s IH]; [reflexivity|]. cbn [forallb length repeat].
  intros H. apply andb_true_iff in H as [Hx Hs].
  apply Byte.byte_dec_bl in Hx. subst x. f_equal. apply IH, Hs.
Qed.

Lemma concat_repeat_repeat (c : byte) n lvl :
  concat (repeat (repeat c n) lvl) = repeat c (n * lvl).
Proof.
  induction lvl as [|lvl IH]; [rewrite Nat.mul_0_r; reflexivity|].
  cbn [repeat concat]. rewrite IH, <- repeat_app. f_equal. lia.
Qed.

(** X13.  The two branches of NewLine write the same bytes.  The
    constructor sets indent_count_ above 0 only when the indent string
    repeats one character, and then the buffer NewLine fills with memset
    holds what its loop over the indent string would write. *)
Theorem NewLine_direct_buffer_is_the_loop indent_string lvl :
  (0 < indent_count_ (New indent_string))%nat ->
  NewLine_direct (New indent_string) lvl = NewLine_loop (New indent_string) lvl
  /\ indent_count_ (New indent_string) = length indent_string
  /\ indent_string
     = repeat (indent_char_ (New indent_string)) (length indent_string).
Proof.
  unfold NewLine_direct, NewLine_loop, New. cbn [indent_count_ indent_char_ indent_string_].
  destruct indent_string as [|c rest]; [cbn; lia|].
  destruct (forallb (Byte.eqb c) rest) eqn:E; [|cbn; lia].
  intros _.
  assert (Hs : c :: rest = repeat c (length (c :: rest))).
  { cbn [length repeat]. f_equal. apply forallb_eqb_repeat, E. }
  split; [|split; [reflexivity|exact Hs]].
  f_equal. rewrite Hs at 2. rewrite concat_repeat_repeat. reflexivity.
Qed.

Lemma NewLine_direct_buffer_is_the_loop_witness :
  NewLine_direct (New (B "  ")) 3 = NewLine_loop (New (B "  ")) 3.
Proof.
  assert (H : (0 < indent_count_ (New (B "  ")))%nat) by (cbn; lia).
  exact (proj1 (NewLine_direct_buffer_is_the_loop (B "  ") 3 H)).
Defined.
End WriterNewLine.

Section WriterCalls.
Import XmlObjectWriter.
Variable Escape : bytes -> bytes.

Lemma NewLine_chain pop w :
  element_ w <> [] ->
  exists w', NewLine pop w = Some w' /\ element_ w' = element_ w
             /\ tag_needs_closed_ w' = tag_needs_closed_ w.
Proof.
  intros H. unfold NewLine. destruct (element_ w) eqn:E; [congruence|].
  destruct (indent_string_ w); eexists; (split; [reflexivity|]);
    destruct w; cbn in *; subst; split; reflexivity.
Qed.

Lemma WriteCloseTag_chain w :
  element_ w <> [] ->
  exists w', WriteCloseTag w = Some w' /\ element_ w' = element_ w.
Proof.
  intros H. unfold WriteCloseTag.
  set (w1 := if tag_needs_closed_ w then _ else w).
  assert (H1 : element_ w1 = element_ w)
    by (subst w1; destruct (tag_needs_closed_ w); destruct w; reflexivity).
  destruct (element_ w1) as [|e es] eqn:E; [congruence|].
  assert (Hne : element_ w1 <> []) by (rewrite E; discriminate).
  destruct (negb (is_root (e :: es))); [|eexists; split; [reflexivity|congruence]].
  destruct (start_element_ w1).
  - destruct (NewLine_chain false w1 Hne) as (w2 & -> & H2 & _). cbn [bind].
    eexists. split; [reflexivity|]. destruct w2; cbn in *; congruence.
  - destruct (has_child_ e && negb (anonymous_ e)).
    + destruct (NewLine_chain true w1 Hne) as (w2 & -> & H2 & _).
      eexists. split; [reflexivity|]. congruence.
    + eexists. split; [reflexivity|]. congruence.
Qed.

Lemma WriteSuffix_chain w :
  exists w', WriteSuffix w = Some w'
             /\ length (element_ w') = length (element_ w).
Proof.
  unfold WriteSuffix. destruct (element_ w) as [|e es] eqn:E;
    [eexists; split; [reflexivity|rewrite E; reflexivity]|].
  destruct (is_xml_list_ e && list_child_needs_end_tag_ e);
    [|eexists; split; [reflexivity|rewrite E; reflexivity]].
  destruct (WriteCloseTag_chain w ltac:(congruence)) as (w1 & -> & H1).
  cbn [bind]. rewrite E in H1.
  replace (element_ (WriteRawString (B "</") w1)) with (e :: es)
    by (destruct w1; cbn in *; congruence).
  destruct (anonymous_ e); cbn [bind update_element];
    match goal with
    | |- context [update_element ?f ?x] =>
      replace (update_element f x)
        with (Some (set_element_ (f e :: es) x))
        by (unfold update_element; destruct w1; cbn in *; subst; reflexivity)
    end; cbn [bind];
    unfold update_element; destruct w1; cbn in *; subst;
    eexists; (split; [reflexivity|reflexivity]).
Qed.

Lemma WritePrefix_chain name render w :
  element_ w <> [] ->
  exists w', WritePrefix Escape name render w = Some w'
             /\ length (element_ w') = length (element_ w).
Proof.
  intros H. unfold WritePrefix.
  set (w1 := if tag_needs_closed_ w && negb render then _ else w).
  assert (H1 : element_ w1 = element_ w)
    by (subst w1; destruct (_ && _); destruct w; reflexivity).
  assert (Hne : element_ w1 <> []) by congruence.
  assert (Hw2 : exists w2,
             (if negb render
              then match element_ w1 with
                   | [] => None
                   | e :: _ =>
                     if negb (is_root (element_ w1))
                     then if start_element_ w1
                          then bind (NewLine false w1)
                                 (fun w' => Some (set_start_element_ false w'))
                          else if has_child_ e then NewLine true w1 else Some w1
                     else Some w1
                   end
              else Some w1) = Some w2 /\ element_ w2 = element_ w1).
  { destruct (negb render); [|eexists; split; reflexivity].
    destruct (element_ w1) as [|e es] eqn:E; [congruence|].
    assert (Hne1 : element_ w1 <> []) by (rewrite E; discriminate).
    destruct (negb (is_root (e :: es))); [|eexists; split; [reflexivity|exact E]].
    destruct (start_element_ w1).
    - destruct (NewLine_chain false w1 Hne1) as (w2 & -> & H2 & _). cbn [bind].
      eexists. split; [reflexivity|]. destruct w2; cbn in *; congruence.
    - destruct (has_child_ e).
      + destruct (NewLine_chain true w1 Hne1) as (w2 & -> & H2 & _).
        eexists. split; [reflexivity|]. congruence.
      + eexists. split; [reflexivity|exact E]. }
  destruct Hw2 as (w2 & -> & H2). cbn [bind].
  destruct (element_ w2) as [|e es] eqn:E2; [congruence|].
  assert (Hne2 : element_ w2 <> []) by (rewrite E2; discriminate).
  assert (Hw3 : exists w3,
             (if render && is_xml_list_ e
              then bind (NewLine false w2)
                     (fun w' =>
                        bind (update_element
                                (fun e' =>
                                   set_list_child_needs_end_tag_ true
                                     (set_has_child_ true (set_anonymous_ true e')))
                                (WriteRawString (B "anonymous")
                                   (WriteChar "<"%byte w')))
                          (fun w'' => Some (set_tag_needs_closed_ true w'')))
              else Some w2) = Some w3
             /\ length (element_ w3) = length (element_ w2)).
  { destruct (render && is_xml_list_ e);
      [|eexists; split; [reflexivity|reflexivity]].
    destruct (NewLine_chain false w2 Hne2) as (w' & -> & H' & _). cbn [bind].
    unfold update_element. rewrite E2 in H'.
    destruct w'; cbn in *; subst. eexists. split; [reflexivity|].
    rewrite E2. reflexivity. }
  destruct Hw3 as (w3 & -> & H3). cbn [bind].
  assert (H4 : length (element_ w3) = length (element_ w)) by congruence.
  destruct render; [destruct name|destruct (tag_needs_closed_ w3)];
    eexists; (split; [reflexivity|]); destruct w3; cbn in *; congruence.
Qed.
Lemma push_element_chain e w :
  length (element_ (push_element e w)) = S (length (element_ w)).
Proof. unfold push_element. destruct (element_ w) eqn:E; destruct w; cbn in *; subst; reflexivity. Qed.

(** X14.  The writer can be used exactly while an element is open.  With
    a current element, StartObject and StartList are defined and add one
    element to the chain, RenderString is defined and leaves the chain as it
    is, EndObject is defined and removes one element, even the root element
    the constructor made, while EndList reads the element below the one it
    removes and is defined only when there is one.  Once the chain is empty
    every call dereferences the null element pointer. *)
Theorem writer_calls_need_an_open_element w :
  (element_ w = [] -> forall e, feed Escape e w = None)
  /\ (element_ w <> [] ->
      (forall name,
          exists w', StartObject Escape name w = Some w'
                     /\ length (element_ w') = S (length (element_ w)))
      /\ (forall name,
             exists w', StartList Escape name w = Some w'
                        /\ length (element_ w') = S (length (element_ w)))
      /\ (forall name value,
             exists w', RenderString Escape name value w = Some w'
                        /\ length (element_ w') = length (element_ w))
      /\ (exists w', EndObject w = Some w'
                     /\ S (length (element_ w')) = length (element_ w))
      /\ (EndList w <> None <-> (2 <= length (element_ w))%nat)).
Proof.
  split.
  - intros E e. destruct w as [el st ind ic icn ws tnc se]. cbn in E. subst el.
    destruct e as [name| |name| |name value]; try destruct name;
      destruct tnc; reflexivity.
  - intros Hne. split; [|split; [|split; [|split]]].
    + intros name. unfold StartObject.
      set (w1 := match element_ w with [] => w | e :: parents => _ end).
      assert (H1 : length (element_ w1) = length (element_ w)).
      { subst w1. destruct (element_ w) eqn:E; [congruence|].
        destruct w; cbn in *; subst; reflexivity. }
      set (w2 := set_start_element_ true w1).
      assert (H2 : element_ w2 = element_ w1) by (destruct w1; reflexivity).
      assert (Hne2 : element_ w2 <> []).
      { rewrite H2. intros E0. rewrite E0 in H1. destruct (element_ w);
          [congruence|discriminate]. }
      assert (Ht : exists tag,
                 match name with
                 | [] => match element_ w2 with
                         | [] => None
                         | e :: _ =>
                           if is_root (element_ w2) then Some (B "root")
                           else if is_xml_list_ e then Some (name_ e)
                           else Some name
                         end
                 | _ :: _ => Some name
                 end = Some tag).
      { destruct name; [|eexists; reflexivity].
        destruct (element_ w2) as [|e es]; [congruence|].
        destruct (is_root (e :: es)); [eexists; reflexivity|].
        destruct (is_xml_list_ e); eexists; reflexivity. }
      destruct Ht as (tag & ->). cbn [bind].
      destruct (WritePrefix_chain tag false w2 Hne2) as (w3 & -> & H3).
      cbn [bind]. eexists. split; [reflexivity|].
      unfold PushObject. rewrite push_element_chain.
      replace (element_ (set_tag_needs_closed_ true
                 (WriteRawString tag (WriteChar "<"%byte w3))))
        with (element_ w3) by (destruct w3; reflexivity).
      congruence.
    + intros name. unfold StartList.
      assert (Hne1 : element_ (set_start_element_ true w) <> [])
        by (destruct w; exact Hne).
      destruct (WritePrefix_chain name false _ Hne1) as (w2 & -> & H2).
      cbn [bind]. eexists. split; [reflexivity|].
      unfold PushArray. rewrite push_element_chain.
      replace (element_ (WriteChar ">"%byte
                 (WriteRawString name (WriteRawString (B "<_list_") w2))))
        with (element_ w2) by (destruct w2; reflexivity).
      rewrite H2. destruct w; reflexivity.
    + intros name value. unfold RenderString.
      destruct (WritePrefix_chain name true w Hne) as (w1 & -> & H1).
      cbn [bind].
      set (w1' := quote_if_named name
                    (WriteRawString (Escape value) (quote_if_named name w1))).
      assert (H1' : element_ w1' = element_ w1)
        by (subst w1'; destruct name; destruct w1; reflexivity).
      assert (Hs : exists w2, SetHasTextOrAttribute name w1' = Some w2
                              /\ length (element_ w2) = length (element_ w1')).
      { unfold SetHasTextOrAttribute, update_element.
        destruct (element_ w1') as [|e es] eqn:E.
        - rewrite <- H1' in H1. destruct (element_ w);
            [congruence|discriminate].
        - destruct name; eexists; (split; [reflexivity|]);
            destruct w1'; reflexivity. }
      destruct Hs as (w2 & -> & H2). cbn [bind].
      destruct (WriteSuffix_chain w2) as (w3 & -> & H3).
      eexists. split; [reflexivity|]. congruence.
    + unfold EndObject.
      set (w1 := set_start_element_ false w).
      assert (H1 : element_ w1 = element_ w) by (destruct w; reflexivity).
      destruct (element_ w1) as [|e es] eqn:E; [congruence|].
      assert (Hne1 : element_ w1 <> []) by (rewrite E; discriminate).
      destruct (WriteCloseTag_chain w1 Hne1) as (w2 & -> & H2). cbn [bind].
      set (w3 := match name_ e with [] => w2 | _ :: _ => _ end).
      assert (H3 : element_ w3 = e :: es).
      { subst w3. rewrite <- E, <- H2.
        destruct (name_ e); destruct w2; reflexivity. }
      unfold Pop. rewrite H3. cbn [bind].
      destruct (WriteSuffix_chain (set_element_ es w3)) as (w5 & -> & H5).
      cbn [bind].
      assert (H5' : length (element_ w5) = length es)
        by (rewrite H5; destruct w3; reflexivity).
      destruct (is_root (element_ w5)) eqn:Er.
      * assert (Hne5 : element_ w5 <> [])
          by (intros E0; rewrite E0 in Er; discriminate).
        destruct (NewLine_chain false w5 Hne5) as (w6 & -> & H6 & _).
        eexists. split; [reflexivity|]. rewrite H6, H5', <- H1. reflexivity.
      * eexists. split; [reflexivity|]. rewrite H5', <- H1. reflexivity.
    + unfold EndList.
      set (w1 := set_start_element_ false w).
      assert (H1 : element_ w1 = element_ w) by (destruct w; reflexivity).
      assert (Hne1 : element_ w1 <> []) by congruence.
      destruct (WriteCloseTag_chain w1 Hne1) as (w2 & -> & H2). cbn [bind].
      destruct (element_ w2) as [|e es] eqn:E; [congruence|].
      set (w3 := WriteRawString (B ">") _).
      assert (H3 : element_ w3 = e :: es)
        by (subst w3; rewrite <- E; destruct w2; reflexivity).
      unfold Pop. rewrite H3. cbn [bind].
      destruct (WriteSuffix_chain (set_element_ es w3)) as (w5 & -> & H5).
      cbn [bind].
      assert (H5' : length (element_ w5) = length es)
        by (rewrite H5; destruct w3; reflexivity).
      assert (Hlen : length (element_ w) = S (length es))
        by (rewrite <- H1, <- H2; reflexivity).
      rewrite Hlen.
      destruct (element_ w5) as [|e5 es5] eqn:E5.
      * split; [congruence|]. cbn [length] in H5'. lia.
      * split; [cbn [length] in H5'; lia|]. intros _.
        destruct (is_root (e5 :: es5)); [|discriminate].
        destruct (NewLine_chain false w5 ltac:(rewrite E5; discriminate))
          as (w6 & -> & _). discriminate.
Qed.

End WriterCalls.

Lemma writer_calls_need_an_open_element_witness :
  (exists w', XmlObjectWriter.EndObject (XmlObjectWriter.New []) = Some w'
              /\ XmlObjectWriter.element_ w' = [])
  /\ XmlObjectWriter.EndList (XmlObjectWriter.New []) = None.
Proof.
  assert (Hne : XmlObjectWriter.element_ (XmlObjectWriter.New []) <> [])
    by discriminate.
  destruct (proj2 (writer_calls_need_an_open_element (fun v => v)
                     (XmlObjectWriter.New [])) Hne)
    as (_ & _ & _ & (w' & Hw & Hlen) & Hl).
  split.
  - exists w'. split; [exact Hw|].
    destruct (XmlObjectWriter.element_ w'); [reflexivity|discriminate Hlen].
  - destruct (XmlObjectWriter.EndList (XmlObjectWriter.New [])) eqn:E;
      [|reflexivity].
    assert (H : (2 <= length (XmlObjectWriter.element_ (XmlObjectWriter.New [])))%nat)
      by (apply Hl; discriminate).
    cbn in H. lia.
Defined.

Lemma utf8_char_len_lead c r k :
  utf8_char_len (c :: r) = S k -> kUTF8LenTbl c = S k.
Proof.
  unfold kUTF8LenTbl. cbn [utf8_char_len].
  destruct (u8 c <=? 127) eqn:E1.
  - intros [= <-]. apply Z.leb_le in E1.
    replace (u8 c <? 192) with true by (symmetry; apply Z.ltb_lt; lia).
    reflexivity.
  - apply Z.leb_gt in E1. destruct r as [|c1 r1]; [discriminate|].
    unfold in_range at 1.
    destruct ((194 <=? u8 c) && (u8 c <=? 223)) eqn:E2.
    + apply andb_true_iff in E2 as [Ha Hb]. apply Z.leb_le in Ha, Hb.
      destruct (in_range 128 191 c1); [|discriminate]. intros [= <-].
      replace (u8 c <? 192) with false by (symmetry; apply Z.ltb_ge; lia).
      replace (u8 c <? 224) with true by (symmetry; apply Z.ltb_lt; lia).
      reflexivity.
    + destruct r1 as [|c2 r2]; [discriminate|].
      match goal with
      | |- context [if ?b then (if in_range 128 191 c2 then _ else _) else _] =>
        destruct b eqn:E3
      end.
      * destruct (in_range 128 191 c2); [|discriminate]. intros [= <-].
        unfold in_range in E3.
        assert (224 <= u8 c <= 239) by
          (repeat match goal with
                  | H : (_ || _) = true |- _ => apply orb_true_iff in H as [H|H]
                  | H : (_ && _) = true |- _ => apply andb_true_iff in H as [H ?]
                  | H : (_ <=? _) = true |- _ => apply Z.leb_le in H
                  end; lia).
        replace (u8 c <? 192) with false by (symmetry; apply Z.ltb_ge; lia).
        replace (u8 c <? 224) with false by (symmetry; apply Z.ltb_ge; lia).
        replace (u8 c <? 240) with true by (symmetry; apply Z.ltb_lt; lia).
        reflexivity.
      * destruct r2 as [|c3 r3]; [discriminate|].
        match goal with
        | |- (if ?b then _ else _) = _ -> _ => destruct b eqn:E4
        end; [|discriminate].
        intros [= <-]. unfold in_range in E4.
        assert (240 <= u8 c) by
          (repeat match goal with
                  | H : (_ || _) = true |- _ => apply orb_true_iff in H as [H|H]
                  | H : (_ && _) = true |- _ => apply andb_true_iff in H as [H ?]
                  | H : (_ <=? _) = true |- _ => apply Z.leb_le in H
                  end; lia).
        replace (u8 c <? 192) with false by (symmetry; apply Z.ltb_ge; lia).
        replace (u8 c <? 224) with false by (symmetry; apply Z.ltb_ge; lia).
        replace (u8 c <? 240) with false by (symmetry; apply Z.ltb_ge; lia).
        reflexivity.
Qed.

Lemma Advance_char st p k :
  p_ st = p -> utf8_char_len p = S k -> Advance st = set_p_ (skipn (S k) p) st.
Proof.
  intros Hp Hk. pose proof (utf8_char_len_le p) as Hle. rewrite Hk in Hle.
  destruct p as [|c r]; [discriminate|].
  unfold Advance, remove_prefix, UTF8FirstLetterNumBytes. rewrite Hp.
  rewrite (utf8_char_len_lead c r k Hk), Nat.min_r by lia. reflexivity.
Qed.

Lemma forallb_skipn {A} (f : A -> bool) n l :
  forallb f l = true -> forallb f (skipn n l) = true.
Proof.
  intros H. apply forallb_forall. intros x Hx.
  apply (proj1 (forallb_forall _ _) H).
  rewrite <- (firstn_skipn n l). apply in_or_app. right. exact Hx.
Qed.

Lemma ParseStringHelper_loop_step n run st p k :
  p_ st = p -> utf8_char_len p = S k ->
  Byte.eqb (hd x00 p) "\"%byte = false ->
  Byte.eqb (hd x00 p) (string_open_ st) = false ->
  ParseStringHelper_loop (S n) run st
  = ParseStringHelper_loop n (run ++ firstn (S k) p)
      (set_p_ (skipn (S k) p) st).
Proof.
  intros Hp Hk Hc2 Hc1.
  pose proof (utf8_char_len_le p) as Hle. rewrite Hk in Hle.
  cbn [ParseStringHelper_loop]. rewrite (Advance_char st p k Hp Hk).
  rewrite Hp. destruct p as [|c r]; [discriminate|]. cbn [hd] in Hc1, Hc2.
  rewrite Hc2, Hc1.
  replace (p_ (set_p_ (skipn (S k) (c :: r)) st)) with (skipn (S k) (c :: r))
    by (destruct st; reflexivity).
  rewrite length_skipn.
  replace (length (c :: r) - (length (c :: r) - S k))%nat with (S k) by lia.
  reflexivity.
Qed.

Lemma ParseStringHelper_loop_plain q v :
  utf8_wf v ->
  forallb (fun c => negb (Byte.eqb c q) && negb (Byte.eqb c "\"%byte)) v = true ->
  Byte.eqb q "\"%byte = false -> kUTF8LenTbl q = 1%nat ->
  forall n run st rest,
  p_ st = v ++ q :: rest -> string_open_ st = q -> parsed_storage_ st = [] ->
  (length v < n)%nat ->
  ParseStringHelper_loop n run st
  = (OkStatus,
     set_p_ rest (set_string_open_ x00 (set_parsed_ (run ++ v) st))).
Proof.
  intros Hwf. induction Hwf as [|p k Hk Hwf IH];
    intros Hv Hq Hq1 n run st rest Hp Hso Hps Hn.
  - destruct n as [|n]; [cbn in Hn; lia|]. cbn [app] in Hp.
    cbn [ParseStringHelper_loop]. rewrite Hp, Hq, Hso.
    replace (Byte.eqb q q) with true
      by (symmetry; apply Byte.byte_dec_lb; reflexivity).
    rewrite Hps, app_nil_r.
    rewrite (Advance_one _ q rest)
      by (try exact Hq1; destruct st; cbn in *; congruence).
    destruct st; reflexivity.
  - destruct n as [|n]; [cbn in Hn; lia|].
    pose proof (utf8_char_len_le p) as Hle. rewrite Hk in Hle.
    assert (Hhd : Byte.eqb (hd x00 (p ++ q :: rest)) q = false
                  /\ Byte.eqb (hd x00 (p ++ q :: rest)) "\"%byte = false).
    { destruct p as [|c r]; [discriminate|]. cbn [forallb] in Hv.
      apply andb_true_iff in Hv as [Hc _].
      apply andb_true_iff in Hc as [Hc1 Hc2]. apply negb_true_iff in Hc1, Hc2.
      split; assumption. }
    destruct Hhd as [Hc1 Hc2].
    rewrite (ParseStringHelper_loop_step n run st (p ++ q :: rest) k Hp
               (utf8_char_len_app p _ k Hk) Hc2)
      by (rewrite Hso; exact Hc1).
    rewrite (skipn_app_le (S k) p (q :: rest) Hle).
    replace (firstn (S k) (p ++ q :: rest)) with (firstn (S k) p)
      by (rewrite firstn_app; replace (S k - length p)%nat with 0%nat by lia;
          cbn [firstn]; rewrite app_nil_r; reflexivity).
    rewrite (IH (forallb_skipn _ _ _ Hv) Hq Hq1 n _ _ rest);
      [ | destruct st; reflexivity | destruct st; exact Hso
        | destruct st; exact Hps
        | rewrite length_skipn; lia ].
    rewrite <- app_assoc, firstn_skipn. destruct st; reflexivity.
Qed.

Lemma next_token_mid_space c r st :
  string_open_ st = x00 -> ascii_isspace c = false ->
  p_ st = " "%byte :: c :: r ->
  next_token BEGIN_ELEMENT_MID st
  = (ATTR_SEPARATOR, set_seen_non_whitespace_ true st).
Proof.
  intros Hso Hc Hp. unfold next_token, GetNextTokenType. rewrite Hso.
  change (Byte.eqb x00 x00) with true. cbv iota.
  assert (Hs : SkipWhitespace_t BEGIN_ELEMENT_MID st
               = set_seen_non_whitespace_ true st).
  { unfold SkipWhitespace_t. rewrite Hp. cbn [length SkipWhitespace_t_loop].
    rewrite Hp. change (ascii_isspace " "%byte) with true. cbv iota.
    cbn [ParseType_eqb length Nat.eqb Nat.leb nth andb]. rewrite Hc.
    cbn [negb]. unfold mark_non_whitespace.
    replace (p_ (set_seen_non_whitespace_ true st)) with (" "%byte :: c :: r)
      by (destruct st; cbn in *; congruence).
    reflexivity. }
  rewrite Hs.
  replace (p_ (set_seen_non_whitespace_ true st)) with (" "%byte :: c :: r)
    by (destruct st; cbn in *; congruence).
  reflexivity.
Qed.

Lemma next_token_equal type r st :
  type <> BEGIN_ELEMENT_MID -> string_open_ st = x00 ->
  p_ st = "="%byte :: r ->
  next_token type st
  = (ATTR_VALUE_SEPARATOR, set_seen_non_whitespace_ true st).
Proof.
  intros Ht Hso Hp.
  rewrite (next_token_char type [] "="%byte r st Ht Hso eq_refl eq_refl Hp).
  rewrite <- Hp, set_p_same. reflexivity.
Qed.

Lemma next_token_quote type r st :
  type <> BEGIN_ELEMENT_MID -> string_open_ st = x00 ->
  p_ st = x22 :: r ->
  next_token type st = (BEGIN_STRING, set_seen_non_whitespace_ true st).
Proof.
  intros Ht Hso Hp.
  rewrite (next_token_char type [] x22 r st Ht Hso eq_refl eq_refl Hp).
  rewrite <- Hp, set_p_same. reflexivity.
Qed.

Lemma plain_value_inv q v :
  plain_value q v = true ->
  utf8_wf v
  /\ forallb (fun c => negb (Byte.eqb c q) && negb (Byte.eqb c "\"%byte)) v = true.
Proof.
  unfold plain_value. intros H. apply andb_true_iff in H as [H1 H2].
  split; [apply valid_wf; exact H1|exact H2].
Qed.

Lemma leads_attribute max kv rest K ow d tags kinds :
  attribute_ok kv = true ->
  leads max
    (mkConfig (BEGIN_ELEMENT_MID :: K) (attribute kv ++ rest) ow d tags kinds)
    (mkConfig (BEGIN_ELEMENT_MID :: K) rest (ow ++ [attribute_event kv]) d tags
       kinds).
Proof.
  destruct kv as [k v]. unfold attribute_ok, attribute, attribute_event.
  cbn [fst snd]. intros Hok. apply andb_true_iff in Hok as [Hk Hv].
  destruct (plain_value_inv x22 v Hv) as [Hwf Hbytes].
  destruct (is_name_letter k Hk) as (c0 & kr & Hkeq & Hc0).
  destruct (letter_token c0 Hc0) as (Hsp & _).
  rewrite <- !app_assoc. cbn [B app list_byte_of_string].
  intros st (Hf & Hso & Hps & Hm) Hcfg. unfold config in Hcfg.
  injection Hcfg as Hs Hp Ho Hd Ht Hkd.
  set (tail := "="%byte :: x22 :: v ++ x22 :: rest) in *.
  (* the separator *)
  set (st1 := push ATTR_KEY (set_p_ (k ++ tail)
                (set_stack_ K (set_seen_non_whitespace_ true st)))).
  assert (Hr1 : RunParser_round BEGIN_ELEMENT_MID K st = inl st1).
  { unfold RunParser_round.
    rewrite (next_token_mid_space c0 (kr ++ tail) st Hso Hsp)
      by (rewrite Hp, Hkeq; reflexivity).
    cbn [dispatch ParseBeginElementMid].
    rewrite (Advance_one _ " "%byte (k ++ tail))
      by (try reflexivity; destruct st; cbn in *; congruence).
    cbn [ok]. subst st1. destruct st; reflexivity. }
  (* the key *)
  set (st2 := push ATTR_MID (set_key_storage_ [] (set_key_ k (set_p_ tail
                (set_stack_ K (set_seen_non_whitespace_ true st1)))))).
  assert (Hr2 : RunParser_round ATTR_KEY K st1 = inl st2).
  { unfold RunParser_round.
    rewrite (next_token_name ATTR_KEY k "="%byte (x22 :: v ++ x22 :: rest) st1
               ltac:(discriminate))
      by (try exact Hk; subst st1 tail; destruct st; cbn in *;
          first [reflexivity|congruence]).
    cbn [dispatch ParseAttrKey]. unfold ParseKey.
    replace (p_ (set_stack_ K (set_seen_non_whitespace_ true st1)))
      with (k ++ tail) by (subst st1; destruct st; reflexivity).
    subst tail. rewrite (ConsumeKey_name k "="%byte _ Hk eq_refl).
    subst st2 st1. destruct st; cbn in Hf; subst. reflexivity. }
  (* the equal sign *)
  set (st3 := push ATTR_VALUE (set_p_ (x22 :: v ++ x22 :: rest)
                (set_stack_ K (set_seen_non_whitespace_ true st2)))).
  assert (Hr3 : RunParser_round ATTR_MID K st2 = inl st3).
  { unfold RunParser_round.
    rewrite (next_token_equal ATTR_MID (x22 :: v ++ x22 :: rest) st2
               ltac:(discriminate))
      by (subst st2 st1 tail; destruct st; cbn in *;
          first [reflexivity|congruence]).
    cbn [dispatch ParseAttrMid].
    rewrite (Advance_one _ "="%byte (x22 :: v ++ x22 :: rest))
      by (try reflexivity; subst st2 st1 tail; destruct st; reflexivity).
    cbn [ok]. subst st3. destruct st2; reflexivity. }
  (* the value *)
  set (st4 := push BEGIN_ELEMENT_MID
                (set_parsed_storage_ []
                   (set_key_storage_ []
                      (set_parsed_ []
                         (set_key_ []
                            (emit (RenderString k v)
                               (set_p_ rest
                                  (set_string_open_ x00
                                     (set_parsed_ v
                                        (set_stack_ K
                                           (set_seen_non_whitespace_ true
                                              st3))))))))))).
  assert (Hr4 : RunParser_round ATTR_VALUE K st3 = inl st4).
  { unfold RunParser_round.
    rewrite (next_token_quote ATTR_VALUE (v ++ x22 :: rest) st3
               ltac:(discriminate))
      by (subst st3 st2 st1 tail; destruct st; cbn in *;
          first [reflexivity|congruence]).
    cbn [dispatch ParseAttrValue]. unfold ParseStringHelper.
    set (s := set_stack_ K (set_seen_non_whitespace_ true st3)).
    assert (Hs1 : string_open_ s = x00)
      by (subst s st3 st2 st1 tail; destruct st; cbn in *; congruence).
    assert (Hs2 : p_ s = x22 :: v ++ x22 :: rest)
      by (subst s st3 st2 st1 tail; destruct st; reflexivity).
    rewrite Hs1. change (Byte.eqb x00 x00) with true. cbv iota. rewrite Hs2.
    rewrite (Advance_one _ x22 (v ++ x22 :: rest))
      by (try reflexivity; destruct s; cbn in *; congruence).
    set (s1 := set_p_ (v ++ x22 :: rest) (set_string_open_ x22 s)).
    rewrite (ParseStringHelper_loop_plain x22 v Hwf Hbytes eq_refl eq_refl
               _ [] s1 rest)
      by (try (subst s1 s st3 st2 st1; destruct st; cbn in *; congruence);
          replace (p_ s1) with (v ++ x22 :: rest)
            by (subst s1; destruct s; reflexivity);
          rewrite length_app; cbn [length]; lia).
    cbn [ok app].
    subst st4 s1 s st3 st2 st1. destruct st; cbn in *; subst. reflexivity. }
  exists st4. split.
  - eapply runs_step; [exact Hs|exact Hr1|].
    eapply runs_step; [subst st1; destruct st; reflexivity|exact Hr2|].
    eapply runs_step; [subst st2 st1; destruct st; reflexivity|exact Hr3|].
    eapply runs_step; [subst st3 st2 st1; destruct st; reflexivity|exact Hr4|].
    apply runs_refl.
  - subst st4 st3 st2 st1. destruct st; cbn in *; subst.
    split; [repeat split|reflexivity].
Qed.

Lemma list_tag_is_name name :
  list_name name = true -> is_name (list_tag name) = true.
Proof.
  intros H. unfold list_name in H.
  change (list_tag name) with ("_"%byte :: (B "list_" ++ name)).
  cbn [is_name]. rewrite forallb_app, H. reflexivity.
Qed.

Lemma list_tag_starts name : starts_with (list_tag name) (B "_list_") = true.
Proof. destruct name; reflexivity. Qed.

Lemma leads_start_list max name x rest K ow d tags kinds :
  list_name name = true -> IsAlphanumericOrHyphen x = false ->
  leads max
    (mkConfig (START_TAG :: K) (list_tag name ++ x :: rest) ow d tags kinds)
    (mkConfig (BEGIN_ELEMENT_MID :: K) (x :: rest) (ow ++ [StartList name]) d
       ((name, true) :: tags) (LIST :: kinds)).
Proof.
  intros Hname Hx. pose proof (list_tag_is_name name Hname) as Hn.
  start_leads st Hf Hso Hps Hm Hs Hp Ho Hd Ht Hk.
  assert (Hround : RunParser_round START_TAG K st
    = inl (push BEGIN_ELEMENT_MID
             (set_tag_name_ []
                (set_tag_name_stack_ ((name, true) :: tags)
                   (set_element_type_stack_ (LIST :: kinds)
                      (emit (StartList name)
                         (set_tag_name_ (list_tag name)
                            (set_p_ (x :: rest)
                               (set_stack_ K
                                  (set_seen_non_whitespace_ true st)))))))))).
  { unfold RunParser_round.
    rewrite (next_token_name START_TAG (list_tag name) x rest st
               ltac:(discriminate) Hso Hn Hp).
    cbn [dispatch ParseStartTag]. unfold ParseStartTagName.
    rewrite (ParseTagName_name (list_tag name) x rest)
      by (try assumption; destruct st; cbn in *; congruence).
    cbn [ok].
    replace (tag_name_ (set_tag_name_ (list_tag name) _)) with (list_tag name)
      by (destruct st; reflexivity).
    rewrite list_tag_starts.
    change (skipn 6 (list_tag name)) with name.
    destruct st; cbn in *; subst. reflexivity. }
  one_round Hs Hround. finish_round st.
Qed.

Lemma leads_end_list max name x rest K ow d flag tags kind kinds :
  list_name name = true -> IsAlphanumericOrHyphen x = false ->
  leads max
    (mkConfig (END_TAG :: K) (list_tag name ++ x :: rest) ow d
       ((name, flag) :: tags) (kind :: kinds))
    (mkConfig (END_ELEMENT_CLOSE :: K) (x :: rest) (ow ++ [EndList]) d tags
       kinds).
Proof.
  intros Hname Hx. pose proof (list_tag_is_name name Hname) as Hn.
  start_leads st Hf Hso Hps Hm Hs Hp Ho Hd Ht Hk.
  assert (Hround : RunParser_round END_TAG K st
    = inl (push END_ELEMENT_CLOSE
             (set_tag_name_stack_ tags
                (set_element_type_stack_ kinds
                   (emit EndList
                      (set_tag_name_ (list_tag name)
                         (set_p_ (x :: rest)
                            (set_stack_ K
                               (set_seen_non_whitespace_ true st))))))))).
  { unfold RunParser_round.
    rewrite (next_token_name END_TAG (list_tag name) x rest st
               ltac:(discriminate) Hso Hn Hp).
    cbn [dispatch]. unfold ParseEndTag.
    set (s := set_stack_ K (set_seen_non_whitespace_ true st)).
    replace (p_ s) with (list_tag name ++ x :: rest)
      by (destruct st; cbn in *; congruence).
    rewrite (ConsumeTagName_name (list_tag name) x rest Hn Hx).
    set (st1 := set_tag_name_ (list_tag name) (set_p_ (x :: rest) s)).
    replace (finishing_ st1) with false by (destruct st; cbn in *; congruence).
    replace (p_ st1) with (x :: rest) by (destruct st; reflexivity).
    replace (tag_name_ st1) with (list_tag name) by (destruct st; reflexivity).
    replace (tag_name_stack_ st1) with ((name, flag) :: tags)
      by (destruct st; cbn in *; congruence).
    cbn [negb andb length Nat.eqb]. rewrite list_tag_starts.
    change (skipn 6 (list_tag name)) with name.
    rewrite bytes_eqb_refl. unfold pop_element_type.
    replace (element_type_stack_ (emit EndList st1)) with (kind :: kinds)
      by (destruct st; cbn in *; congruence).
    cbn [ok]. reflexivity. }
  one_round Hs Hround. finish_round st.
Qed.

Lemma leads_start_anonymous max x rest K ow d tags kinds :
  IsAlphanumericOrHyphen x = false -> d + 1 <= max ->
  leads max
    (mkConfig (START_TAG :: K) (B "anonymous" ++ x :: rest) ow d tags kinds)
    (mkConfig (BEGIN_ELEMENT_MID :: K) (x :: rest) ow (d + 1)
       ((B "anonymous", false) :: tags) (OBJECT :: kinds)).
Proof.
  intros Hx Hle.
  assert (Hn : is_name (B "anonymous") = true) by reflexivity.
  start_leads st Hf Hso Hps Hm Hs Hp Ho Hd Ht Hk.
  assert (Hround : RunParser_round START_TAG K st
    = inl (push BEGIN_ELEMENT_MID
             (set_tag_name_ []
                (set_tag_name_stack_ ((B "anonymous", false) :: tags)
                   (set_recursion_depth_ (d + 1)
                      (set_element_type_stack_ (OBJECT :: kinds)
                         (set_tag_name_ (B "anonymous")
                            (set_p_ (x :: rest)
                               (set_stack_ K
                                  (set_seen_non_whitespace_ true st)))))))))).
  { unfold RunParser_round.
    rewrite (next_token_name START_TAG (B "anonymous") x rest st
               ltac:(discriminate) Hso Hn Hp).
    cbn [dispatch ParseStartTag]. unfold ParseStartTagName.
    rewrite (ParseTagName_name (B "anonymous") x rest)
      by (try assumption; destruct st; cbn in *; congruence).
    cbn [ok].
    replace (tag_name_ (set_tag_name_ (B "anonymous") _)) with (B "anonymous")
      by (destruct st; reflexivity).
    change (starts_with (B "anonymous") (B "_list_")) with false.
    change (bytes_eqb (B "anonymous") (B "anonymous")) with true.
    cbn [negb]. rewrite IncrementRecursionDepth_eq.
    replace (max_recursion_depth_ _ <? recursion_depth_ _ + 1) with false
      by (symmetry; apply Z.ltb_ge; destruct st; cbn in *; subst; lia).
    cbn [ok negb]. destruct st; cbn in *; subst. reflexivity. }
  one_round Hs Hround. finish_round st.
Qed.

Lemma leads_end_anonymous max x rest K ow d flag tags kind kinds :
  IsAlphanumericOrHyphen x = false ->
  leads max
    (mkConfig (END_TAG :: K) (B "anonymous" ++ x :: rest) ow d
       ((B "anonymous", flag) :: tags) (kind :: kinds))
    (mkConfig (END_ELEMENT_CLOSE :: K) (x :: rest) ow (d - 1) tags kinds).
Proof.
  intros Hx.
  assert (Hn : is_name (B "anonymous") = true) by reflexivity.
  start_leads st Hf Hso Hps Hm Hs Hp Ho Hd Ht Hk.
  assert (Hround : RunParser_round END_TAG K st
    = inl (push END_ELEMENT_CLOSE
             (set_tag_name_stack_ tags
                (set_recursion_depth_ (d - 1)
                   (set_element_type_stack_ kinds
                      (set_tag_name_ (B "anonymous")
                         (set_p_ (x :: rest)
                            (set_stack_ K
                               (set_seen_non_whitespace_ true st))))))))).
  { unfold RunParser_round.
    rewrite (next_token_name END_TAG (B "anonymous") x rest st
               ltac:(discriminate) Hso Hn Hp).
    cbn [dispatch]. unfold ParseEndTag.
    set (s := set_stack_ K (set_seen_non_whitespace_ true st)).
    replace (p_ s) with (B "anonymous" ++ x :: rest)
      by (destruct st; cbn in *; congruence).
    rewrite (ConsumeTagName_name (B "anonymous") x rest Hn Hx).
    set (st1 := set_tag_name_ (B "anonymous") (set_p_ (x :: rest) s)).
    replace (finishing_ st1) with false by (destruct st; cbn in *; congruence).
    replace (p_ st1) with (x :: rest) by (destruct st; reflexivity).
    replace (tag_name_ st1) with (B "anonymous") by (destruct st; reflexivity).
    replace (tag_name_stack_ st1) with ((B "anonymous", flag) :: tags)
      by (destruct st; cbn in *; congruence).
    cbn [negb andb length Nat.eqb].
    change (starts_with (B "anonymous") (B "_list_")) with false. cbv iota.
    rewrite !bytes_eqb_refl.
    cbn [negb]. unfold pop_element_type.
    replace (element_type_stack_ st1) with (kind :: kinds)
      by (destruct st; cbn in *; congruence).
    cbn [option_map ok].
    replace (recursion_depth_ (set_element_type_stack_ kinds st1)) with d
      by (destruct st; cbn in *; congruence).
    reflexivity. }
  one_round Hs Hround. finish_round st.
Qed.

(** A Parse call on a whole text of well-formed characters, nothing being
    left over from a call before: the parser loop runs on the text. *)
Lemma Parse_wf xml st :
  leftover_ st = [] -> xml <> [] -> utf8_wf xml ->
  Parse xml st
  = let (status, st2) := ParseChunk xml st in
    (status, set_leftover_ (leftover_ st2 ++ []) st2).
Proof.
  intros Hl Hne Ha. unfold Parse. rewrite Hl.
  pose proof (UTF8Spn_app xml [] Ha) as E.
  rewrite app_nil_r, UTF8Spn_nil, Nat.add_0_r in E. rewrite E.
  rewrite firstn_all, skipn_all.
  destruct xml as [|c xml]; [congruence|]. reflexivity.
Qed.

Lemma ParseChunks_wf_leads_ws max xml st ws ow d kinds :
  leftover_ st = [] -> xml <> [] -> utf8_wf xml ->
  string_open_ st = x00 -> parsed_storage_ st = [] ->
  max_recursion_depth_ st = max ->
  forallb ascii_isspace ws = true ->
  leads max
    (mkConfig (stack_ st) xml (ow_ st) (recursion_depth_ st)
       (tag_name_stack_ st) (element_type_stack_ st))
    (mkConfig [] ws ow d [] kinds) ->
  fst (ParseChunks [xml] st) = OkStatus
  /\ ow_ (snd (ParseChunks [xml] st)) = ow
  /\ recursion_depth_ (snd (ParseChunks [xml] st)) = d.
Proof.
  intros Hl Hne Ha Hso Hps Hm Hws Hleads.
  destruct (ready_start max xml st Hso Hps Hm) as [Hr Hc].
  destruct (Hleads _ Hr Hc) as (st' & Hruns & Hr' & Hc').
  unfold config in Hc'. injection Hc' as Hs' Hp' Ho' Hd' Ht' Hk'.
  cbn [ParseChunks]. rewrite (Parse_wf xml st Hl Hne Ha).
  unfold ParseChunk. destruct xml as [|c xml]; [congruence|].
  rewrite (runs_RunParser _ _ Hruns).
  unfold RunParser. cbn [RunParser_fuel]. rewrite Hs'. cbn [ok negb].
  rewrite (SkipWhitespace_all ws st' Hws Hp').
  replace (p_ (set_p_ [] st')) with (@nil byte) by (destruct st'; reflexivity).
  cbn [ok].
  destruct st'; cbn in Hs', Hp', Ho', Hd', Ht', Hk'; subst.
  unfold FinishParse. cbn. repeat split.
Qed.

Lemma wf_concat ls : Forall utf8_wf ls -> utf8_wf (concat ls).
Proof.
  induction 1 as [|l ls Hl _ IH]; cbn [concat]; [constructor|].
  apply utf8_wf_app; assumption.
Qed.

Lemma wf_attribute kv : attribute_ok kv = true -> utf8_wf (attribute kv).
Proof.
  destruct kv as [k v]. unfold attribute_ok, attribute. cbn [fst snd].
  intros H. apply andb_true_iff in H as [Hk Hv].
  destruct (plain_value_inv x22 v Hv) as [Hwf _].
  repeat apply utf8_wf_app; try (apply ascii_wf; reflexivity); try assumption.
  apply ascii_wf, is_name_ascii, Hk.
Qed.
Lemma leads_end_element max rest K ow d tags kinds :
  leads max
    (mkConfig (END_ELEMENT :: K) ("<"%byte :: "/"%byte :: rest) ow d tags kinds)
    (mkConfig (END_TAG :: K) rest ow d tags kinds).
Proof.
  eapply leads_trans.
  - instantiate (1 := mkConfig (END_ELEMENT_MID :: K) ("/"%byte :: rest) ow d
                        tags kinds).
    start_leads st Hf Hso Hps Hm Hs Hp Ho Hd Ht Hk.
    assert (Hround : RunParser_round END_ELEMENT K st
              = inl (push END_ELEMENT_MID (set_p_ ("/"%byte :: rest)
                  (set_stack_ K (set_seen_non_whitespace_ true st))))).
    { unfold RunParser_round.
      rewrite (next_token_open END_ELEMENT [] ("/"%byte :: rest) st
                 ltac:(discriminate) Hso eq_refl Hp).
      cbn [dispatch ParseEndElement_t]. unfold ParseEndElement.
      rewrite (Advance_one _ "<"%byte ("/"%byte :: rest))
        by (destruct st; reflexivity).
      cbn [ok]. destruct st; reflexivity. }
    one_round Hs Hround. finish_round st.
  - start_leads st Hf Hso Hps Hm Hs Hp Ho Hd Ht Hk.
    assert (Hround : RunParser_round END_ELEMENT_MID K st
              = inl (push END_TAG (set_p_ rest
                  (set_stack_ K (set_seen_non_whitespace_ true st))))).
    { unfold RunParser_round.
      rewrite (next_token_slash END_ELEMENT_MID [] rest st
                 ltac:(discriminate) Hso eq_refl Hp).
      cbn [dispatch ParseEndElementMid_t].
      rewrite (Advance_one _ "/"%byte rest) by (destruct st; reflexivity).
      cbn [ok]. destruct st; reflexivity. }
    one_round Hs Hround. finish_round st.
Qed.

Lemma next_token_mid_slash r st :
  string_open_ st = x00 -> p_ st = "/"%byte :: r ->
  next_token BEGIN_ELEMENT_MID st
  = (END_TAG_SLASH, set_seen_non_whitespace_ true st).
Proof.
  intros Hso Hp. unfold next_token, GetNextTokenType. rewrite Hso.
  change (Byte.eqb x00 x00) with true. cbv iota.
  rewrite (SkipWhitespace_t_none BEGIN_ELEMENT_MID "/"%byte r st eq_refl Hp).
  replace (p_ (set_seen_non_whitespace_ true st)) with ("/"%byte :: r)
    by (destruct st; cbn in *; congruence).
  reflexivity.
Qed.

Lemma fails_mid_slash max rest K ow d tags kinds :
  fails max
    (mkConfig (BEGIN_ELEMENT_MID :: K) ("/"%byte :: rest) ow d tags kinds)
    "Expected a space or a close tag." EXPECTED_SPACE_OR_CLOSE_TAG
    ("/"%byte :: rest) ow.
Proof.
  intros st (Hf & Hso & Hps & Hm) Hcfg. unfold config in Hcfg.
  injection Hcfg as Hs Hp Ho Hd Ht Hk.
  unfold RunParser. cbn [RunParser_fuel]. rewrite Hs.
  unfold RunParser_round. rewrite (next_token_mid_slash rest st Hso Hp).
  cbn [dispatch ParseBeginElementMid]. unfold fail.
  cbn [ok ReportFailure IsCancelled andb]. rewrite andb_false_r. cbn [fst snd].
  split; [|destruct st; exact Ho].
  unfold ReportFailure. destruct st; cbn in *; subst; reflexivity.
Qed.

(** A slash after a space in an opener: the opener is closed as without
    it. *)
Lemma leads_space_slash_close max rest K ow d tags kinds :
  leads max
    (mkConfig (BEGIN_ELEMENT_MID :: K)
       (" "%byte :: "/"%byte :: ">"%byte :: rest) ow d tags kinds)
    (mkConfig (TEXT :: K) rest ow d tags kinds).
Proof.
  eapply leads_trans;
    [|eapply leads_trans;
      [|instantiate (1 := mkConfig (BEGIN_ELEMENT_CLOSE :: K) (">"%byte :: rest)
                            ow d tags kinds)]].
  - instantiate (1 := mkConfig (ATTR_KEY :: K) ("/"%byte :: ">"%byte :: rest)
                        ow d tags kinds).
    start_leads st Hf Hso Hps Hm Hs Hp Ho Hd Ht Hk.
    assert (Hround : RunParser_round BEGIN_ELEMENT_MID K st
              = inl (push ATTR_KEY (set_p_ ("/"%byte :: ">"%byte :: rest)
                  (set_stack_ K (set_seen_non_whitespace_ true st))))).
    { unfold RunParser_round.
      rewrite (next_token_mid_space "/"%byte (">"%byte :: rest) st Hso eq_refl Hp).
      cbn [dispatch ParseBeginElementMid].
      rewrite (Advance_one _ " "%byte ("/"%byte :: ">"%byte :: rest))
        by (try reflexivity; destruct st; cbn in *; congruence).
      cbn [ok]. destruct st; reflexivity. }
    one_round Hs Hround. finish_round st.
  - start_leads st Hf Hso Hps Hm Hs Hp Ho Hd Ht Hk.
    assert (Hround : RunParser_round ATTR_KEY K st
              = inl (push BEGIN_ELEMENT_CLOSE (set_p_ (">"%byte :: rest)
                  (set_stack_ K (set_seen_non_whitespace_ true st))))).
    { unfold RunParser_round.
      rewrite (next_token_slash ATTR_KEY [] (">"%byte :: rest) st
                 ltac:(discriminate) Hso eq_refl Hp).
      cbn [dispatch ParseAttrKey].
      rewrite (Advance_one _ "/"%byte (">"%byte :: rest))
        by (destruct st; reflexivity).
      cbn [ok]. destruct st; reflexivity. }
    one_round Hs Hround. finish_round st.
  - start_leads st Hf Hso Hps Hm Hs Hp Ho Hd Ht Hk.
    assert (Hround : RunParser_round BEGIN_ELEMENT_CLOSE K st
              = inl (push TEXT (set_p_ rest
                  (set_stack_ K (set_seen_non_whitespace_ true st))))).
    { unfold RunParser_round.
      rewrite (next_token_close BEGIN_ELEMENT_CLOSE [] rest st
                 ltac:(discriminate) Hso eq_refl Hp).
      cbn [dispatch ParseBeginElementClose].
      rewrite (Advance_one _ ">"%byte rest) by (destruct st; reflexivity).
      cbn [ok]. destruct st; reflexivity. }
    one_round Hs Hround. finish_round st.
Qed.

Lemma leads_tag_name max t x rest :
  plain_tag t = true -> IsAlphanumericOrHyphen x = false ->
  0 + 1 <= max ->
  leads max (mkConfig [BEGIN_ELEMENT] ("<"%byte :: t ++ x :: rest) [] 0 [] [])
    (mkConfig [BEGIN_ELEMENT_MID] (x :: rest) [start_object_event t []] 1
       [(t, false)] [OBJECT]).
Proof.
  intros Ht Hx Hmax. destruct (plain_tag_inv t Ht) as (Hn & Hl & Ha).
  eapply leads_trans; [apply (leads_first_open_tag max []); reflexivity|].
  apply (leads_start_name max t x rest [] [] 0 [] []); assumption.
Qed.

(** X16.  There is no self-closing tag.  A slash before the close of an
    opener is accepted after a space and changes nothing: the element is
    open and needs its closing tag, without which FinishParse fails.
    Without the space the slash makes Parse fail with Expected a space or a
    close tag, the cursor at the slash. *)
Theorem slash_in_an_opener_does_not_close_the_element t rest :
  plain_tag t = true -> forallb is_ascii rest = true ->
  (fst (ParseChunks [B "<" ++ t ++ B " />" ++ closer t] New) = OkStatus
   /\ ow_ (snd (ParseChunks [B "<" ++ t ++ B " />" ++ closer t] New))
      = [start_object_event t []; EndObject])
  /\ (fst (Parse (B "<" ++ t ++ B " />") New) = OkStatus
      /\ fst (ParseChunks [B "<" ++ t ++ B " />"] New)
         = failure_at "Unexpected end of string. Expected an open tag."
             EXPECTED_OPEN_TAG [] []
      /\ ow_ (snd (ParseChunks [B "<" ++ t ++ B " />"] New))
         = [start_object_event t []])
  /\ (fst (ParseChunks [B "<" ++ t ++ B "/>" ++ rest] New)
      = failure_at "Expected a space or a close tag."
          EXPECTED_SPACE_OR_CLOSE_TAG (B "<" ++ t ++ B "/>" ++ rest)
          (B "/>" ++ rest)
      /\ ow_ (snd (ParseChunks [B "<" ++ t ++ B "/>" ++ rest] New))
         = [start_object_event t []]).
Proof.
  intros Ht Hrest. destruct (plain_tag_inv t Ht) as (Hn & Hl & Ha).
  pose proof (is_name_ascii t Hn) as Hta.
  assert (Hopen : forall x r, IsAlphanumericOrHyphen x = false ->
            leads 100
              (mkConfig [BEGIN_ELEMENT] ("<"%byte :: t ++ x :: r) [] 0 [] [])
              (mkConfig [BEGIN_ELEMENT_MID] (x :: r) [start_object_event t []] 1
                 [(t, false)] [OBJECT]))
    by (intros x r Hx; apply leads_tag_name; [exact Ht|exact Hx|lia]).
  split; [|split].
  - destruct (ParseChunks_leads 100 (B "<" ++ t ++ B " />" ++ closer t) New
                [start_object_event t []; EndObject] 0 []) as (H1 & H2 & _);
      try reflexivity; [discriminate| | |split; assumption].
    + rewrite !forallb_app, Hta, (closer_ascii t Ht). reflexivity.
    + cbn [B app list_byte_of_string stack_ ow_ recursion_depth_ tag_name_stack_
             element_type_stack_ New].
      eapply leads_trans; [apply Hopen; reflexivity|].
      eapply leads_trans; [apply leads_space_slash_close|].
      pose proof (leads_closer 100 t [] [] [start_object_event t []] 1 false
                    [] [] Ht) as Hclose.
      rewrite app_nil_r in Hclose. exact Hclose.
  - apply (ParseChunks_unclosed 100 (B "<" ++ t ++ B " />") New [] []
             [start_object_event t []] 1 [(t, false)] [OBJECT]);
      try reflexivity; [discriminate| |].
    + rewrite !forallb_app, Hta. reflexivity.
    + cbn [B app list_byte_of_string stack_ ow_ recursion_depth_ tag_name_stack_
             element_type_stack_ New].
      eapply leads_trans; [apply Hopen; reflexivity|].
      apply leads_space_slash_close.
  - apply (ParseChunks_fails 100 _ New); try reflexivity; [discriminate| |].
    + rewrite !forallb_app, Hta. cbn [B list_byte_of_string forallb andb].
      exact Hrest.
    + cbn [B app list_byte_of_string stack_ ow_ recursion_depth_ tag_name_stack_
             element_type_stack_ New].
      eapply leads_fails; [apply Hopen; reflexivity|].
      apply fails_mid_slash.
Qed.

Lemma slash_in_an_opener_does_not_close_the_element_witness :
  fst (ParseChunks [B "<a />"] New)
  = failure_at "Unexpected end of string. Expected an open tag."
      EXPECTED_OPEN_TAG [] []
  /\ fst (ParseChunks [B "<a/>"] New)
     = failure_at "Expected a space or a close tag."
         EXPECTED_SPACE_OR_CLOSE_TAG (B "<a/>") (B "/>").
Proof.
  assert (Ht : plain_tag (B "a") = true) by (vm_compute; reflexivity).
  assert (Hr : forallb is_ascii [] = true) by reflexivity.
  pose proof (slash_in_an_opener_does_not_close_the_element (B "a") [] Ht Hr)
    as H.
  split; [exact (proj1 (proj2 (proj1 (proj2 H))))|exact (proj1 (proj2 (proj2 H)))].
Defined.

Lemma ParseChunks_wf_fails max xml st message code p ow :
  leftover_ st = [] -> xml <> [] -> utf8_wf xml ->
  string_open_ st = x00 -> parsed_storage_ st = [] ->
  max_recursion_depth_ st = max ->
  fails max
    (mkConfig (stack_ st) xml (ow_ st) (recursion_depth_ st)
       (tag_name_stack_ st) (element_type_stack_ st)) message code p ow ->
  fst (ParseChunks [xml] st)
  = ReportFailure (B message) code (set_p_ p (set_xml_ xml st))
  /\ ow_ (snd (ParseChunks [xml] st)) = ow.
Proof.
  intros Hl Hne Ha Hso Hps Hm Hf.
  destruct (ready_start max xml st Hso Hps Hm) as [Hr Hc].
  destruct (Hf _ Hr Hc) as [H1 H2].
  cbn [ParseChunks]. rewrite (Parse_wf xml st Hl Hne Ha).
  unfold ParseChunk. destruct xml as [|c xml]; [congruence|].
  destruct (RunParser _) as [r0 st2]. cbn [fst snd] in H1, H2. subst r0.
  cbn [ok ReportFailure negb fst snd]. split; [|destruct st2; exact H2].
  unfold ReportFailure. destruct st; reflexivity.
Qed.

Lemma ParseChunks_wf_leads max xml st ow d kinds :
  leftover_ st = [] -> xml <> [] -> utf8_wf xml ->
  string_open_ st = x00 -> parsed_storage_ st = [] ->
  max_recursion_depth_ st = max ->
  leads max
    (mkConfig (stack_ st) xml (ow_ st) (recursion_depth_ st)
       (tag_name_stack_ st) (element_type_stack_ st))
    (mkConfig [] [] ow d [] kinds) ->
  fst (ParseChunks [xml] st) = OkStatus
  /\ ow_ (snd (ParseChunks [xml] st)) = ow
  /\ recursion_depth_ (snd (ParseChunks [xml] st)) = d.
Proof.
  intros Hl Hne Ha Hso Hps Hm Hleads.
  apply (ParseChunks_wf_leads_ws max xml st [] ow d kinds); try assumption.
  reflexivity.
Qed.

Lemma fails_name_after_text max u x rest K ow d tags kinds :
  is_name u = true ->
  fails max
    (mkConfig (END_ELEMENT :: K) ("<"%byte :: u ++ x :: rest) ow d tags kinds)
    "Expected an end tag slash." EXPECTED_END_TAG_SLASH (u ++ x :: rest) ow.
Proof.
  intros Hu. eapply leads_fails.
  - instantiate (1 := mkConfig (END_ELEMENT_MID :: K) (u ++ x :: rest) ow d
                        tags kinds).
    start_leads st Hf Hso Hps Hm Hs Hp Ho Hd Ht Hk.
    assert (Hround : RunParser_round END_ELEMENT K st
              = inl (push END_ELEMENT_MID (set_p_ (u ++ x :: rest)
                  (set_stack_ K (set_seen_non_whitespace_ true st))))).
    { unfold RunParser_round.
      rewrite (next_token_open END_ELEMENT [] (u ++ x :: rest) st
                 ltac:(discriminate) Hso eq_refl Hp).
      cbn [dispatch ParseEndElement_t]. unfold ParseEndElement.
      rewrite (Advance_one _ "<"%byte (u ++ x :: rest))
        by (destruct st; reflexivity).
      cbn [ok]. destruct st; reflexivity. }
    one_round Hs Hround. finish_round st.
  - intros st (Hf & Hso & Hps & Hm) Hcfg. unfold config in Hcfg.
    injection Hcfg as Hs Hp Ho Hd Ht Hk.
    unfold RunParser. cbn [RunParser_fuel]. rewrite Hs.
    unfold RunParser_round.
    rewrite (next_token_name END_ELEMENT_MID u x rest st ltac:(discriminate)
               Hso Hu Hp).
    cbn [dispatch ParseEndElementMid_t]. unfold fail.
    cbn [ok ReportFailure IsCancelled andb]. rewrite andb_false_r.
    cbn [fst snd].
    split; [|destruct st; exact Ho].
    unfold ReportFailure. destruct st; cbn in *; subst; reflexivity.
Qed.

Lemma wf_text c body :
  IsStructurallyValidUTF8 (c :: body) = true -> utf8_wf (c :: body).
Proof. apply valid_wf. Qed.

(** X17.  Text is the last content of an element.  A text after child
    elements is delivered to the sink as the text of the enclosing element;
    after a text only the closing tag is accepted: an opener there makes
    Parse fail with Expected an end tag slash, the cursor at the tag name,
    the text having been delivered. *)
Theorem text_may_follow_children_but_not_precede_them t u c body rest :
  plain_tag t = true -> plain_tag u = true ->
  text_head c = true -> text_tail body = true ->
  IsStructurallyValidUTF8 (c :: body) = true -> utf8_wf rest ->
  (fst (ParseChunks [opener t ++ opener u ++ closer u ++ c :: body ++ closer t]
          New) = OkStatus
   /\ ow_ (snd (ParseChunks
                  [opener t ++ opener u ++ closer u ++ c :: body ++ closer t]
                  New))
      = [start_object_event t []; start_object_event u [(t, false)];
         EndObject; RenderString [] (c :: body); EndObject])
  /\ (fst (ParseChunks [opener t ++ c :: body ++ opener u ++ rest] New)
      = failure_at "Expected an end tag slash." EXPECTED_END_TAG_SLASH
          (opener t ++ c :: body ++ opener u ++ rest) (u ++ B ">" ++ rest)
      /\ ow_ (snd (ParseChunks [opener t ++ c :: body ++ opener u ++ rest] New))
         = [start_object_event t []; RenderString [] (c :: body)]).
Proof.
  intros Ht Hu Hc Hbody Hvalid Hrest.
  destruct (plain_tag_inv t Ht) as (Hnt & Hlt & Hat).
  destruct (plain_tag_inv u Hu) as (Hnu & Hlu & Hau).
  pose proof (ascii_wf _ (opener_ascii t Ht)) as Wt.
  pose proof (ascii_wf _ (opener_ascii u Hu)) as Wu.
  pose proof (ascii_wf _ (closer_ascii t Ht)) as Wt'.
  pose proof (ascii_wf _ (closer_ascii u Hu)) as Wu'.
  pose proof (wf_text c body Hvalid) as Wtext.
  split.
  - destruct (ParseChunks_wf_leads 100
                (opener t ++ opener u ++ closer u ++ c :: body ++ closer t) New
                [start_object_event t []; start_object_event u [(t, false)];
                 EndObject; RenderString [] (c :: body); EndObject] 0 [])
      as (H1 & H2 & _); try reflexivity; [| | |split; assumption].
    + unfold opener. discriminate.
    + apply utf8_wf_app; [exact Wt|]. apply utf8_wf_app; [exact Wu|].
      apply utf8_wf_app; [exact Wu'|].
      change (c :: body ++ closer t) with ((c :: body) ++ closer t).
      apply utf8_wf_app; assumption.
    + cbn [stack_ ow_ recursion_depth_ tag_name_stack_ element_type_stack_ New].
      eapply leads_trans; [apply leads_first_opener; [exact Ht|lia]|].
      eapply leads_trans; [apply leads_opener; [exact Hu|lia]|].
      eapply leads_trans; [apply leads_closer; exact Hu|].
      unfold closer. cbn [B app list_byte_of_string].
      eapply leads_trans;
        [apply (leads_text 100 [] c body); [reflexivity|exact Hc|exact Hbody]|].
      eapply leads_trans; [apply leads_end_element|].
      eapply leads_trans;
        [apply (leads_end_name 100 t ">"%byte []); try assumption; reflexivity|].
      apply leads_end_close.
  - apply (ParseChunks_wf_fails 100 _ New); try reflexivity.
    + unfold opener. discriminate.
    + apply utf8_wf_app; [exact Wt|].
      change (c :: body ++ opener u ++ rest)
        with ((c :: body) ++ opener u ++ rest).
      apply utf8_wf_app; [exact Wtext|]. apply utf8_wf_app; assumption.
    + cbn [stack_ ow_ recursion_depth_ tag_name_stack_ element_type_stack_ New].
      eapply leads_fails; [apply leads_first_opener; [exact Ht|lia]|].
      unfold opener. rewrite <- !app_assoc. cbn [B app list_byte_of_string].
      eapply leads_fails;
        [apply (leads_text 100 [] c body); [reflexivity|exact Hc|exact Hbody]|].
      apply fails_name_after_text. exact Hnu.
Qed.

Lemma text_may_follow_children_but_not_precede_them_witness :
  fst (ParseChunks [B "<a><b></b>x</a>"] New) = OkStatus
  /\ fst (ParseChunks [B "<a>x<b></b></a>"] New)
     = failure_at "Expected an end tag slash." EXPECTED_END_TAG_SLASH
         (B "<a>x<b></b></a>") (B "b></b></a>").
Proof.
  assert (Ht : plain_tag (B "a") = true) by (vm_compute; reflexivity).
  assert (Hu : plain_tag (B "b") = true) by (vm_compute; reflexivity).
  assert (Hc : text_head "x"%byte = true) by reflexivity.
  assert (Hb : text_tail [] = true) by reflexivity.
  assert (Hv : IsStructurallyValidUTF8 (B "x") = true)
    by (vm_compute; reflexivity).
  assert (Hr : utf8_wf (B "</b></a>")) by (apply ascii_wf; reflexivity).
  pose proof (text_may_follow_children_but_not_precede_them (B "a") (B "b")
                "x"%byte [] (B "</b></a>") Ht Hu Hc Hb Hv Hr) as H.
  split; [exact (proj1 (proj1 H))|exact (proj1 (proj2 H))].
Defined.

Lemma ParseStringHelper_loop_run q v :
  utf8_wf v ->
  forallb (fun c => negb (Byte.eqb c q) && negb (Byte.eqb c "\"%byte)) v = true ->
  forall n run st rest,
  p_ st = v ++ rest -> string_open_ st = q -> (length v <= n)%nat ->
  exists m, (n - length v <= m)%nat
    /\ ParseStringHelper_loop n run st
       = ParseStringHelper_loop m (run ++ v) (set_p_ rest st).
Proof.
  intros Hwf. induction Hwf as [|p k Hk Hwf IH];
    intros Hv n run st rest Hp Hso Hn.
  - exists n. split; [lia|]. cbn [app] in Hp.
    rewrite app_nil_r, <- Hp, set_p_same. reflexivity.
  - destruct n as [|n].
    { pose proof (utf8_char_len_le p) as Hle. rewrite Hk in Hle. lia. }
    pose proof (utf8_char_len_le p) as Hle. rewrite Hk in Hle.
    assert (Hhd : Byte.eqb (hd x00 (p ++ rest)) q = false
                  /\ Byte.eqb (hd x00 (p ++ rest)) "\"%byte = false).
    { destruct p as [|c r]; [discriminate|]. cbn [forallb] in Hv.
      apply andb_true_iff in Hv as [Hc _].
      apply andb_true_iff in Hc as [Hc1 Hc2]. apply negb_true_iff in Hc1, Hc2.
      split; assumption. }
    destruct Hhd as [Hc1 Hc2].
    rewrite (ParseStringHelper_loop_step n run st (p ++ rest) k Hp
               (utf8_char_len_app p _ k Hk) Hc2)
      by (rewrite Hso; exact Hc1).
    rewrite (skipn_app_le (S k) p rest Hle).
    replace (firstn (S k) (p ++ rest)) with (firstn (S k) p)
      by (rewrite firstn_app; replace (S k - length p)%nat with 0%nat by lia;
          cbn [firstn]; rewrite app_nil_r; reflexivity).
    destruct (IH (forallb_skipn _ _ _ Hv) n (run ++ firstn (S k) p)
                (set_p_ (skipn (S k) p ++ rest) st) rest)
      as (m & Hm & E);
      [destruct st; reflexivity|destruct st; exact Hso
      |rewrite length_skipn; lia|].
    exists m. split; [rewrite length_skipn in Hm; lia|].
    rewrite E, <- app_assoc, firstn_skipn, set_p_set_p. reflexivity.
Qed.

Lemma quote_cases q :
  is_quote q = true ->
  Byte.eqb q "\"%byte = false /\ kUTF8LenTbl q = 1%nat
  /\ ascii_isspace q = false /\ is_ascii q = true.
Proof.
  unfold is_quote. intros H. apply orb_true_iff in H as [H|H];
    apply Byte.byte_dec_bl in H; subst q; repeat split.
Qed.

Lemma ParseStringHelper_loop_value q segs :
  is_quote q = true ->
  forallb (escape_ok q) segs = true ->
  forall v0 n run st rest,
  plain_value q v0 = true ->
  p_ st = escaped_value v0 segs ++ q :: rest -> string_open_ st = q ->
  (length (p_ st) <= n)%nat ->
  exists storage,
    ParseStringHelper_loop n run st
    = (OkStatus,
       set_p_ rest
         (set_string_open_ x00
            (set_parsed_ (parsed_storage_ st ++ run ++ decoded_value v0 segs)
               (set_parsed_storage_ storage st)))).
Proof.
  intros Hq. destruct (quote_cases q Hq) as (Hq1 & Hq2 & _).
  induction segs as [|[e v1] segs IH];
    intros Hsegs v0 n run st rest Hv0 Hp Hso Hn;
    destruct (plain_value_inv q v0 Hv0) as [Hwf Hbytes];
    unfold escaped_value, decoded_value in *; cbn [map concat fst snd] in *;
    rewrite <- app_assoc in Hp.
  - cbn [app] in Hp. rewrite app_nil_r.
    destruct (ParseStringHelper_loop_run q v0 Hwf Hbytes n run st (q :: rest)
                Hp Hso) as (m & Hm & E).
    { rewrite Hp, length_app in Hn. lia. }
    rewrite E. destruct m as [|m].
    { rewrite Hp, length_app in Hn. cbn [length] in Hn. lia. }
    cbn [ParseStringHelper_loop].
    replace (p_ (set_p_ (q :: rest) st)) with (q :: rest)
      by (destruct st; reflexivity).
    rewrite Hq1.
    replace (string_open_ (set_p_ (q :: rest) st)) with q
      by (destruct st; cbn in *; congruence).
    replace (Byte.eqb q q) with true
      by (symmetry; apply Byte.byte_dec_lb; reflexivity).
    replace (parsed_storage_ (set_p_ (q :: rest) st)) with (parsed_storage_ st)
      by (destruct st; reflexivity).
    destruct (parsed_storage_ st) as [|s0 ps] eqn:Eps.
    + exists []. rewrite (Advance_one _ q rest)
        by (try exact Hq2; destruct st; reflexivity).
      destruct st; cbn in *; subst. reflexivity.
    + exists ((s0 :: ps) ++ run ++ v0).
      rewrite (Advance_one _ q rest)
        by (try exact Hq2; destruct (run ++ v0); destruct st; reflexivity).
      unfold flush_run, append_parsed_storage.
      destruct (run ++ v0) as [|r0 rv] eqn:Erv.
      * rewrite app_nil_r. destruct st; cbn in *; subst. reflexivity.
      * destruct st; cbn in *; subst. reflexivity.
  - cbn [forallb] in Hsegs. apply andb_true_iff in Hsegs as [He Hsegs].
    unfold escape_ok in He. cbn [fst snd] in He.
    apply andb_true_iff in He as [He Hv1].
    apply andb_true_iff in He as [Hea Heu]. apply negb_true_iff in Heu.
    cbn [app] in Hp. rewrite <- app_assoc in Hp.
    destruct (ParseStringHelper_loop_run q v0 Hwf Hbytes n run st _ Hp Hso)
      as (m & Hm & E).
    { rewrite Hp, length_app in Hn.
      exact (Nat.le_trans _ _ _ (Nat.le_add_r _ _) Hn). }
    rewrite E.
    set (tail := v1 ++ concat (map (fun s => "\"%byte :: fst s :: snd s) segs)
                 ++ q :: rest) in *.
    assert (Hlen : (S (S (length tail)) <= m)%nat).
    { rewrite Hp, length_app in Hn. cbn [length] in Hn. lia. }
    destruct m as [|m]; [lia|].
    cbn [ParseStringHelper_loop].
    replace (p_ (set_p_ ("\"%byte :: e :: tail) st)) with ("\"%byte :: e :: tail)
      by (destruct st; reflexivity).
    change (Byte.eqb "\"%byte "\"%byte) with true. cbv iota.
    set (st1 := flush_run (run ++ v0) (set_p_ ("\"%byte :: e :: tail) st)).
    assert (Hp1 : p_ st1 = "\"%byte :: e :: tail)
      by (subst st1; unfold flush_run, append_parsed_storage;
          destruct (run ++ v0); destruct st; reflexivity).
    assert (Hs1 : parsed_storage_ st1 = parsed_storage_ st ++ run ++ v0)
      by (subst st1; unfold flush_run, append_parsed_storage;
          destruct (run ++ v0); [rewrite app_nil_r|]; destruct st; reflexivity).
    rewrite Hp1. cbn [length Nat.eqb nth]. rewrite Heu.
    set (st2 := remove_prefix 2
                  (append_parsed_storage [escaped_char e] st1)).
    assert (Hp2 : p_ st2 = tail).
    { subst st2. unfold remove_prefix, append_parsed_storage.
      replace (p_ (set_parsed_storage_ (parsed_storage_ st1 ++ [escaped_char e])
                     st1)) with ("\"%byte :: e :: tail)
        by (destruct st1; cbn in *; congruence).
      cbn [skipn]. destruct st1; reflexivity. }
    destruct (IH Hsegs v1 m [] st2 rest Hv1) as (storage & E2).
    { rewrite Hp2. subst tail. rewrite <- app_assoc. reflexivity. }
    { subst st2 st1. unfold remove_prefix, append_parsed_storage, flush_run.
      destruct (run ++ v0); destruct st; cbn in *; exact Hso. }
    { rewrite Hp2. lia. }
    rewrite E2. exists storage. f_equal.
    replace (parsed_storage_ st2) with (parsed_storage_ st1 ++ [escaped_char e])
      by (subst st2; unfold remove_prefix, append_parsed_storage;
          destruct st1; reflexivity).
    rewrite Hs1. cbn [app].
    replace ((parsed_storage_ st ++ run ++ v0) ++ [escaped_char e])
      with (parsed_storage_ st ++ run ++ v0 ++ [escaped_char e])
      by (rewrite <- !app_assoc; reflexivity).
    replace ((parsed_storage_ st ++ run ++ v0 ++ [escaped_char e])
             ++ v1 ++ concat (map (fun s => escaped_char (fst s) :: snd s) segs))
      with (parsed_storage_ st ++ run ++ v0 ++ escaped_char e :: v1
            ++ concat (map (fun s => escaped_char (fst s) :: snd s) segs))
      by (rewrite <- !app_assoc; reflexivity).
    rewrite <- ?app_assoc.
    subst st2 st1. unfold remove_prefix, append_parsed_storage, flush_run.
    destruct (run ++ v0); destruct st; reflexivity.
Qed.

Lemma next_token_any_quote type q r st :
  type <> BEGIN_ELEMENT_MID -> string_open_ st = x00 ->
  is_quote q = true -> p_ st = q :: r ->
  next_token type st = (BEGIN_STRING, set_seen_non_whitespace_ true st).
Proof.
  intros Ht Hso Hq Hp. destruct (quote_cases q Hq) as (_ & _ & Hsp & _).
  rewrite (next_token_char type [] q r st Ht Hso eq_refl Hsp Hp).
  rewrite <- Hp, set_p_same. f_equal.
  unfold is_quote in Hq. apply orb_true_iff in Hq as [H|H];
    apply Byte.byte_dec_bl in H; subst q; reflexivity.
Qed.

Lemma leads_attribute_escaped max k q v0 segs rest K ow d tags kinds :
  is_name k = true -> is_quote q = true ->
  plain_value q v0 = true -> forallb (escape_ok q) segs = true ->
  leads max
    (mkConfig (BEGIN_ELEMENT_MID :: K)
       (" "%byte :: k ++ "="%byte :: q :: escaped_value v0 segs ++ q :: rest)
       ow d tags kinds)
    (mkConfig (BEGIN_ELEMENT_MID :: K) rest
       (ow ++ [RenderString k (decoded_value v0 segs)]) d tags kinds).
Proof.
  intros Hk Hq Hv0 Hsegs.
  destruct (quote_cases q Hq) as (Hq1 & Hq2 & Hq3 & _).
  destruct (is_name_letter k Hk) as (c0 & kr & Hkeq & Hc0).
  destruct (letter_token c0 Hc0) as (Hsp & _).
  intros st (Hf & Hso & Hps & Hm) Hcfg. unfold config in Hcfg.
  injection Hcfg as Hs Hp Ho Hd Ht Hkd.
  set (raw := escaped_value v0 segs) in *.
  set (tail := "="%byte :: q :: raw ++ q :: rest) in *.
  (* the separator *)
  set (st1 := push ATTR_KEY (set_p_ (k ++ tail)
                (set_stack_ K (set_seen_non_whitespace_ true st)))).
  assert (Hr1 : RunParser_round BEGIN_ELEMENT_MID K st = inl st1).
  { unfold RunParser_round.
    rewrite (next_token_mid_space c0 (kr ++ tail) st Hso Hsp)
      by (rewrite Hp, Hkeq; reflexivity).
    cbn [dispatch ParseBeginElementMid].
    rewrite (Advance_one _ " "%byte (k ++ tail))
      by (try reflexivity; destruct st; cbn in *; congruence).
    cbn [ok]. subst st1. destruct st; reflexivity. }
  (* the key *)
  set (st2 := push ATTR_MID (set_key_storage_ [] (set_key_ k (set_p_ tail
                (set_stack_ K (set_seen_non_whitespace_ true st1)))))).
  assert (Hr2 : RunParser_round ATTR_KEY K st1 = inl st2).
  { unfold RunParser_round.
    rewrite (next_token_name ATTR_KEY k "="%byte (q :: raw ++ q :: rest) st1
               ltac:(discriminate))
      by (try exact Hk; subst st1 tail; destruct st; cbn in *;
          first [reflexivity|congruence]).
    cbn [dispatch ParseAttrKey]. unfold ParseKey.
    replace (p_ (set_stack_ K (set_seen_non_whitespace_ true st1)))
      with (k ++ tail) by (subst st1; destruct st; reflexivity).
    subst tail. rewrite (ConsumeKey_name k "="%byte _ Hk eq_refl).
    subst st2 st1. destruct st; cbn in Hf; subst. reflexivity. }
  (* the equal sign *)
  set (st3 := push ATTR_VALUE (set_p_ (q :: raw ++ q :: rest)
                (set_stack_ K (set_seen_non_whitespace_ true st2)))).
  assert (Hr3 : RunParser_round ATTR_MID K st2 = inl st3).
  { unfold RunParser_round.
    rewrite (next_token_equal ATTR_MID (q :: raw ++ q :: rest) st2
               ltac:(discriminate))
      by (subst st2 st1 tail; destruct st; cbn in *;
          first [reflexivity|congruence]).
    cbn [dispatch ParseAttrMid].
    rewrite (Advance_one _ "="%byte (q :: raw ++ q :: rest))
      by (try reflexivity; subst st2 st1 tail; destruct st; reflexivity).
    cbn [ok]. subst st3. destruct st2; reflexivity. }
  (* the value *)
  set (s := set_stack_ K (set_seen_non_whitespace_ true st3)).
  assert (Hs1 : string_open_ s = x00)
    by (subst s st3 st2 st1 tail; destruct st; cbn in *; congruence).
  assert (Hs2 : p_ s = q :: raw ++ q :: rest)
    by (subst s st3 st2 st1 tail; destruct st; reflexivity).
  assert (Hs3 : parsed_storage_ s = [])
    by (subst s st3 st2 st1 tail; destruct st; cbn in *; congruence).
  set (s1 := set_p_ (raw ++ q :: rest) (set_string_open_ q s)).
  destruct (ParseStringHelper_loop_value q segs Hq Hsegs v0
              (length (p_ s1)) [] s1 rest Hv0) as (storage & Eloop);
    [subst s1; destruct s; reflexivity|subst s1; destruct s; reflexivity
    |apply Nat.le_refl|].
  replace (parsed_storage_ s1) with (@nil byte) in Eloop
    by (subst s1; destruct s; cbn in *; congruence).
  cbn [app] in Eloop.
  set (st4 := push BEGIN_ELEMENT_MID
                (set_parsed_storage_ []
                   (set_key_storage_ []
                      (set_parsed_ []
                         (set_key_ []
                            (emit (RenderString k (decoded_value v0 segs))
                               (set_p_ rest
                                  (set_string_open_ x00
                                     (set_parsed_ (decoded_value v0 segs)
                                        (set_parsed_storage_ storage s1)))))))))).
  assert (Hr4 : RunParser_round ATTR_VALUE K st3 = inl st4).
  { unfold RunParser_round.
    rewrite (next_token_any_quote ATTR_VALUE q (raw ++ q :: rest) st3
               ltac:(discriminate))
      by (try exact Hq; subst st3 st2 st1 tail; destruct st; cbn in *;
          first [reflexivity|congruence]).
    cbn [dispatch ParseAttrValue]. unfold ParseStringHelper.
    fold s. rewrite Hs1. change (Byte.eqb x00 x00) with true. cbv iota.
    rewrite Hs2.
    rewrite (Advance_one _ q (raw ++ q :: rest))
      by (try exact Hq2; destruct s; cbn in *; congruence).
    replace (set_p_ (raw ++ q :: rest) (set_string_open_ q s)) with s1
      by reflexivity.
    rewrite Eloop. cbn [ok].
    subst st4 s1 s st3 st2 st1. destruct st; cbn in *; subst. reflexivity. }
  exists st4. split.
  - eapply runs_step; [exact Hs|exact Hr1|].
    eapply runs_step; [subst st1; destruct st; reflexivity|exact Hr2|].
    eapply runs_step; [subst st2 st1; destruct st; reflexivity|exact Hr3|].
    eapply runs_step; [subst st3 st2 st1; destruct st; reflexivity|exact Hr4|].
    apply runs_refl.
  - subst st4 s1 s st3 st2 st1. destruct st; cbn in *; subst.
    split; [repeat split|reflexivity].
Qed.

Lemma wf_escaped_value q v0 segs :
  plain_value q v0 = true -> forallb (escape_ok q) segs = true ->
  utf8_wf (escaped_value v0 segs).
Proof.
  intros Hv0 Hsegs. unfold escaped_value.
  apply utf8_wf_app; [apply (plain_value_inv q v0 Hv0)|].
  apply wf_concat. apply Forall_forall. intros x Hx.
  apply in_map_iff in Hx as ([e v] & <- & Hin). cbn [fst snd].
  pose proof (proj1 (forallb_forall _ _) Hsegs _ Hin) as H.
  unfold escape_ok in H. cbn [fst snd] in H.
  apply andb_true_iff in H as [H Hv]. apply andb_true_iff in H as [He _].
  change ("\"%byte :: e :: v) with (["\"%byte; e] ++ v).
  apply utf8_wf_app; [|apply (plain_value_inv q v Hv)].
  apply ascii_wf. cbn [forallb]. rewrite He. reflexivity.
Qed.

(** X18.  Backslash escapes in attribute values.  In a quoted attribute
    value, between single or double quotes, a backslash followed by b, f,
    n, r, t or v stands for the control character, and followed by any other
    byte than u for that byte itself, the quote and the backslash included;
    all other bytes stand for themselves.  The element is delivered with
    the decoded value. *)
Theorem backslash_escapes_in_attribute_values t k q v0 segs :
  plain_tag t = true -> is_name k = true -> is_quote q = true ->
  plain_value q v0 = true -> forallb (escape_ok q) segs = true ->
  fst (ParseChunks
         [B "<" ++ t ++ B " " ++ k ++ B "=" ++ q :: escaped_value v0 segs
          ++ q :: B ">" ++ closer t] New) = OkStatus
  /\ ow_ (snd (ParseChunks
                 [B "<" ++ t ++ B " " ++ k ++ B "=" ++ q
                  :: escaped_value v0 segs ++ q :: B ">" ++ closer t] New))
     = [start_object_event t []; RenderString k (decoded_value v0 segs);
        EndObject].
Proof.
  intros Ht Hk Hq Hv0 Hsegs.
  destruct (plain_tag_inv t Ht) as (Hn & Hl & Ha).
  destruct (quote_cases q Hq) as (_ & _ & _ & Hqa).
  destruct (ParseChunks_wf_leads 100
              (B "<" ++ t ++ B " " ++ k ++ B "=" ++ q :: escaped_value v0 segs
               ++ q :: B ">" ++ closer t) New
              [start_object_event t []; RenderString k (decoded_value v0 segs);
               EndObject] 0 []) as (H1 & H2 & _);
    try reflexivity; [discriminate| | |split; assumption].
  - apply utf8_wf_app; [apply ascii_wf; reflexivity|].
    apply utf8_wf_app; [apply ascii_wf, is_name_ascii, Hn|].
    apply utf8_wf_app; [apply ascii_wf; reflexivity|].
    apply utf8_wf_app; [apply ascii_wf, is_name_ascii, Hk|].
    apply utf8_wf_app; [apply ascii_wf; reflexivity|].
    change (q :: escaped_value v0 segs ++ q :: B ">" ++ closer t)
      with ([q] ++ escaped_value v0 segs ++ [q] ++ B ">" ++ closer t).
    apply utf8_wf_app; [apply ascii_wf; cbn [forallb]; rewrite Hqa; reflexivity|].
    apply utf8_wf_app; [apply (wf_escaped_value q); assumption|].
    apply utf8_wf_app; [apply ascii_wf; cbn [forallb]; rewrite Hqa; reflexivity|].
    apply utf8_wf_app; [apply ascii_wf; reflexivity|].
    apply ascii_wf, closer_ascii, Ht.
  - cbn [B app list_byte_of_string stack_ ow_ recursion_depth_ tag_name_stack_
           element_type_stack_ New].
    eapply leads_trans;
      [apply (leads_tag_name 100 t " "%byte); [exact Ht|reflexivity|lia]|].
    eapply leads_trans;
      [apply (leads_attribute_escaped 100 k q v0 segs); assumption|].
    eapply leads_trans; [apply leads_tag_close|].
    pose proof (leads_closer 100 t [] []
                  ([start_object_event t []]
                   ++ [RenderString k (decoded_value v0 segs)]) 1 false
                  [] [] Ht) as Hclose.
    rewrite app_nil_r in Hclose. exact Hclose.
Qed.

Lemma backslash_escapes_in_attribute_values_witness :
  fst (ParseChunks [B "<a path='C:\temp\\x'></a>"] New) = OkStatus
  /\ ow_ (snd (ParseChunks [B "<a path='C:\temp\\x'></a>"] New))
     = [StartObject (B "a");
        RenderString (B "path") (B "C:" ++ [x09] ++ B "emp\x");
        EndObject].
Proof.
  assert (Ht : plain_tag (B "a") = true) by (vm_compute; reflexivity).
  assert (Hk : is_name (B "path") = true) by (vm_compute; reflexivity).
  assert (Hq : is_quote "'"%byte = true) by reflexivity.
  assert (Hv : plain_value "'"%byte (B "C:") = true)
    by (vm_compute; reflexivity).
  assert (Hs : forallb (escape_ok "'"%byte)
                 [("t"%byte, B "emp"); ("\"%byte, B "x")] = true)
    by (vm_compute; reflexivity).
  exact (backslash_escapes_in_attribute_values (B "a") (B "path") "'"%byte
           (B "C:") [("t"%byte, B "emp"); ("\"%byte, B "x")] Ht Hk Hq Hv Hs).
Defined.

Section ByteSink.
Import ZeroCopyStreamByteSink.

Lemma to_int_small z : 0 <= z < 2147483648 -> to_int z = z.
Proof.
  intros H. unfold to_int. rewrite Z.mod_small by lia. lia.
Qed.

Lemma to_size_t_small z : 0 <= z < 2147483648 -> to_size_t z = z.
Proof. intros H. unfold to_size_t. apply Z.mod_small. lia. Qed.

Lemma Append_loop_Next s buffer size data :
  (Z.of_nat (length data) <=? to_size_t size) = false ->
  Append data (mkSink s buffer size)
  = let n := Z.to_nat (to_size_t size) in
    let last1 := if 0 <? size then memcpy (last_segment_ s) buffer (firstn n data)
                 else last_segment_ s in
    let data1 := if 0 <? size then skipn n data else data in
    match Next (mkStream (done_ s) last1 (segments_ s) (byte_count_ s)) with
    | None => mkSink (mkStream (done_ s) last1 [] (byte_count_ s)) buffer 0
    | Some (s', size') => Append data1 (mkSink s' 0 size')
    end.
Proof.
  intros H. unfold Append, Next. cbn [stream_ buffer_ buffer_size_ segments_
    done_ last_segment_ byte_count_].
  destruct (segments_ s) as [|seg rest]; cbn [Append_loop]; rewrite H;
    reflexivity.
Qed.

Lemma skipn_skipn' {A} a b (l : list A) : skipn a (skipn b l) = skipn (b + a) l.
Proof.
  revert l. induction b as [|b IH]; intros l; [reflexivity|].
  destruct l as [|x l]; [rewrite !skipn_nil; reflexivity|]. cbn. apply IH.
Qed.

Lemma Append_loop_tracks mem0 segments :
  forall done last count buffer size data inp,
  tracks mem0 inp (mkSink (mkStream done last segments count) buffer size) ->
  tracks mem0 (inp ++ data)
    (Append_loop segments done last count buffer size data).
Proof.
  induction segments as [|seg rest IH];
    intros done last count buffer size data inp ([Hs|Hs] & Hc & Hl & Hsegs);
    cbn [stream_ buffer_ buffer_size_ segments_ done_ last_segment_
         byte_count_] in *.
  - (* room left, no further segment *)
    destruct Hs as (H1 & H2 & H3 & H4 & H5).
    cbn [stream_ buffer_ buffer_size_ segments_ done_ last_segment_
         byte_count_ concat] in *.
    rewrite app_nil_r in H2. unfold small in Hl.
    assert (Hsz : 0 <= size < 2147483648) by lia.
    cbn [Append_loop]. rewrite (to_size_t_small size Hsz).
    assert (Hrest : length (skipn (length inp) mem0)
                    = (length last - buffer)%nat)
      by (rewrite <- H2, length_skipn; reflexivity).
    rewrite length_skipn in Hrest.
    destruct (Z.of_nat (length data) <=? size) eqn:E.
    + apply Z.leb_le in E. split; [left|].
      * unfold has_room. cbn [stream_ buffer_ buffer_size_ segments_ done_
          last_segment_ byte_count_ concat]. unfold memcpy.
        assert (Hf : firstn (buffer + length data)
                       (firstn buffer last ++ data
                        ++ skipn (buffer + length data) last)
                     = firstn buffer last ++ data).
        { rewrite app_assoc. rewrite firstn_app.
          rewrite length_app, length_firstn, Nat.min_l by lia.
          replace (buffer + length data - (buffer + length data))%nat
            with 0%nat by lia.
          cbn [firstn]. rewrite app_nil_r. apply firstn_all2.
          rewrite length_app, length_firstn, Nat.min_l by lia. lia. }
        assert (Hk : skipn (buffer + length data)
                       (firstn buffer last ++ data
                        ++ skipn (buffer + length data) last)
                     = skipn (buffer + length data) last).
        { rewrite app_assoc. rewrite skipn_app.
          rewrite length_app, length_firstn, Nat.min_l by lia.
          replace (buffer + length data - (buffer + length data))%nat
            with 0%nat by lia.
          cbn [skipn]. rewrite skipn_all2; [reflexivity|].
          rewrite length_app, length_firstn, Nat.min_l by lia. lia. }
        rewrite Hf, Hk, app_nil_r, app_assoc, H1.
        repeat split.
        -- rewrite length_app, <- (skipn_skipn' (length data) (length inp) mem0),
             <- H2.
           symmetry. apply skipn_skipn'.
        -- rewrite length_app. lia.
        -- rewrite !length_app, length_firstn, length_skipn. lia.
        -- rewrite to_int_small by lia.
           rewrite !length_app, length_firstn, length_skipn. lia.
      * cbn [stream_ done_ last_segment_ segments_ byte_count_].
        unfold memcpy, small.
        rewrite !length_app, length_firstn, length_skipn.
        repeat split; [lia|lia|exact Hsegs].
    + apply Z.leb_gt in E. split; [right|].
      * unfold is_full. cbn [stream_ buffer_ buffer_size_ segments_ done_
          last_segment_ byte_count_].
        assert (Hlast1 : (if 0 <? size
                          then memcpy last buffer
                                 (firstn (Z.to_nat size) data)
                          else last)
                         = firstn buffer last ++ firstn (Z.to_nat size) data).
        { destruct (0 <? size) eqn:E0.
          - unfold memcpy. rewrite skipn_all2, app_nil_r; [reflexivity|].
            rewrite length_firstn. lia.
          - apply Z.ltb_ge in E0.
            replace (Z.to_nat size) with 0%nat by lia. cbn [firstn].
            rewrite app_nil_r. symmetry. apply firstn_all2. lia. }
        rewrite Hlast1, app_assoc, H1.
        repeat split.
        -- rewrite firstn_app. f_equal.
           ++ symmetry. apply firstn_all2. exact H3.
           ++ f_equal. lia.
        -- rewrite length_app. lia.
        -- rewrite length_app, !length_firstn. lia.
      * cbn [stream_ done_ last_segment_ segments_ byte_count_].
        destruct (0 <? size) eqn:E0; [|repeat split; assumption].
        unfold memcpy, small.
        rewrite !length_app, !length_firstn, length_skipn.
        repeat split; [lia|lia|constructor].
  - (* full, no further segment *)
    destruct Hs as (H1 & H2 & H3 & H4 & H5).
    cbn [stream_ buffer_ buffer_size_ segments_ done_ last_segment_
         byte_count_] in *.
    subst size. cbn [Append_loop]. change (to_size_t 0) with 0.
    change (0 <? 0) with false. cbv iota.
    assert (Hin : firstn (length mem0) (inp ++ data) = firstn (length mem0) inp).
    { rewrite firstn_app. replace (length mem0 - length inp)%nat with 0%nat by lia.
      cbn [firstn]. apply app_nil_r. }
    destruct (Z.of_nat (length data) <=? 0) eqn:E.
    + apply Z.leb_le in E. destruct data as [|c data]; [|cbn in E; lia].
      split; [right|].
      * unfold is_full. cbn [stream_ buffer_ buffer_size_ segments_ done_
          last_segment_ byte_count_ length]. unfold memcpy. cbn [app length].
        rewrite Nat.add_0_r, firstn_skipn, Hin.
        repeat split; try assumption; rewrite ?length_app; lia.
      * cbn [stream_ done_ last_segment_ segments_ byte_count_].
        unfold memcpy. cbn [app length]. rewrite Nat.add_0_r, firstn_skipn.
        repeat split; assumption.
    + split; [right|].
      * unfold is_full. cbn [stream_ buffer_ buffer_size_ segments_ done_
          last_segment_ byte_count_]. rewrite Hin.
        repeat split; try assumption. rewrite length_app. lia.
      * cbn [stream_ done_ last_segment_ segments_ byte_count_].
        repeat split; assumption.
  - (* room left, a further segment *)
    destruct Hs as (H1 & H2 & H3 & H4 & H5).
    cbn [stream_ buffer_ buffer_size_ segments_ done_ last_segment_
         byte_count_ concat] in *.
    unfold small in Hl.
    pose proof (Forall_inv Hsegs) as Hseg.
    pose proof (Forall_inv_tail Hsegs) as Hrest'.
    assert (Hsz : 0 <= size < 2147483648) by lia.
    cbn [Append_loop]. rewrite (to_size_t_small size Hsz).
    destruct (Z.of_nat (length data) <=? size) eqn:E.
    + apply Z.leb_le in E. split; [left|].
      * unfold has_room. cbn [stream_ buffer_ buffer_size_ segments_ done_
          last_segment_ byte_count_ concat]. unfold memcpy.
        assert (Hf : firstn (buffer + length data)
                       (firstn buffer last ++ data
                        ++ skipn (buffer + length data) last)
                     = firstn buffer last ++ data).
        { rewrite app_assoc. rewrite firstn_app.
          rewrite length_app, length_firstn, Nat.min_l by lia.
          replace (buffer + length data - (buffer + length data))%nat
            with 0%nat by lia.
          cbn [firstn]. rewrite app_nil_r. apply firstn_all2.
          rewrite length_app, length_firstn, Nat.min_l by lia. lia. }
        assert (Hk : skipn (buffer + length data)
                       (firstn buffer last ++ data
                        ++ skipn (buffer + length data) last)
                     = skipn (buffer + length data) last).
        { rewrite app_assoc. rewrite skipn_app.
          rewrite length_app, length_firstn, Nat.min_l by lia.
          replace (buffer + length data - (buffer + length data))%nat
            with 0%nat by lia.
          cbn [skipn]. rewrite skipn_all2; [reflexivity|].
          rewrite length_app, length_firstn, Nat.min_l by lia. lia. }
        rewrite Hf, Hk, app_assoc, H1.
        assert (Hmem : (length inp + (length last - buffer)
                        + length (seg ++ concat rest) = length mem0)%nat).
        { pose proof (f_equal (@length byte) H2) as HL.
          rewrite length_app, !length_skipn in HL. lia. }
        repeat split.
        -- rewrite length_app, <- (skipn_skipn' (length data) (length inp) mem0),
             <- H2.
           rewrite skipn_app, length_skipn.
           replace (length data - (length last - buffer))%nat with 0%nat by lia.
           cbn [skipn]. rewrite skipn_skipn'. reflexivity.
        -- rewrite length_app. lia.
        -- rewrite !length_app, length_firstn, length_skipn. lia.
        -- rewrite to_int_small by lia.
           rewrite !length_app, length_firstn, length_skipn. lia.
      * cbn [stream_ done_ last_segment_ segments_ byte_count_].
        unfold memcpy, small.
        rewrite !length_app, length_firstn, length_skipn.
        repeat split; [lia|lia|exact Hsegs].
    + apply Z.leb_gt in E.
      assert (Hlast1 : (if 0 <? size
                        then memcpy last buffer (firstn (Z.to_nat size) data)
                        else last)
                       = firstn buffer last ++ firstn (Z.to_nat size) data).
      { destruct (0 <? size) eqn:E0.
        - unfold memcpy. rewrite skipn_all2, app_nil_r; [reflexivity|].
          rewrite length_firstn. lia.
        - apply Z.ltb_ge in E0.
          replace (Z.to_nat size) with 0%nat by lia. cbn [firstn].
          rewrite app_nil_r. symmetry. apply firstn_all2. lia. }
      assert (Hdata1 : (if 0 <? size then skipn (Z.to_nat size) data else data)
                       = skipn (Z.to_nat size) data).
      { destruct (0 <? size) eqn:E0; [reflexivity|]. apply Z.ltb_ge in E0.
        replace (Z.to_nat size) with 0%nat by lia. reflexivity. }
      rewrite Hlast1, Hdata1.
      replace (inp ++ data)
        with ((inp ++ firstn (Z.to_nat size) data) ++ skipn (Z.to_nat size) data)
        by (rewrite <- app_assoc, firstn_skipn; reflexivity).
      assert (Hmem : (length inp + (length last - buffer)
                      + length (seg ++ concat rest) = length mem0)%nat).
      { pose proof (f_equal (@length byte) H2) as HL.
        rewrite length_app, !length_skipn in HL. lia. }
      apply IH. split; [left|].
      * unfold has_room. cbn [stream_ buffer_ buffer_size_ segments_ done_
          last_segment_ byte_count_ firstn skipn].
        rewrite app_nil_r, app_assoc, H1.
        rewrite length_app, length_firstn, Nat.min_l by lia.
        repeat split.
        -- replace (length inp + Z.to_nat size)%nat
             with (length inp + (length last - buffer))%nat by lia.
           rewrite <- (skipn_skipn' (length last - buffer) (length inp) mem0),
             <- H2.
           rewrite skipn_app, skipn_all2 by (rewrite length_skipn; lia).
           rewrite length_skipn, Nat.sub_diag. reflexivity.
        -- rewrite length_app in Hmem. lia.
        -- lia.
        -- rewrite to_int_small by (unfold small in Hseg; lia). lia.
      * cbn [stream_ done_ last_segment_ segments_ byte_count_].
        rewrite !length_app, !length_firstn.
        repeat split; [lia|exact Hseg|exact Hrest'].
  - (* full: there is no further segment *)
    destruct Hs as (H1 & _). cbn in H1. discriminate.
Qed.
Lemma Append_tracks mem0 inp data s :
  tracks mem0 inp s -> tracks mem0 (inp ++ data) (Append data s).
Proof.
  destruct s as [[done last segs count] buffer size].
  apply Append_loop_tracks.
Qed.

Lemma Appends_track mem0 chunks : forall inp s,
  tracks mem0 inp s ->
  tracks mem0 (inp ++ concat chunks)
    (fold_left (fun s c => Append c s) chunks s).
Proof.
  induction chunks as [|c chunks IH]; intros inp s H.
  - cbn. rewrite app_nil_r. exact H.
  - cbn [fold_left concat]. rewrite app_assoc. apply IH, Append_tracks, H.
Qed.

Lemma New_tracks segments :
  Forall small segments ->
  tracks (concat segments) [] (New (SegmentedZeroCopyOutputStream segments)).
Proof.
  intros H. split; [left|].
  - unfold has_room. cbn. repeat split; lia.
  - cbn. repeat split; try exact H; unfold small; cbn; lia.
Qed.

Lemma Destroy_tracks mem0 inp s :
  tracks mem0 inp s ->
  exists st,
    Destroy s = Some st
    /\ memory st = firstn (length mem0) (inp ++ skipn (length inp) mem0)
    /\ ByteCount st = Z.of_nat (Nat.min (length inp) (length mem0)).
Proof.
  destruct s as [[done last segs count] buffer size].
  intros ([Hs|Hs] & Hc & Hl & Hsegs);
    cbn [stream_ buffer_ buffer_size_ segments_ done_ last_segment_
         byte_count_] in *.
  - destruct Hs as (H1 & H2 & H3 & H4 & H5).
    cbn [stream_ buffer_ buffer_size_ segments_ done_ last_segment_
         byte_count_] in *.
    unfold small in Hl.
    assert (Hlen : length inp = (length done + buffer)%nat)
      by (rewrite <- H1, length_app, length_firstn; lia).
    assert (Hmem : done ++ last ++ concat segs
                   = firstn (length mem0) (inp ++ skipn (length inp) mem0)).
    { rewrite firstn_all2 by (rewrite length_app, length_skipn; lia).
      rewrite <- H2, <- H1, <- !app_assoc. f_equal.
      rewrite app_assoc, firstn_skipn. reflexivity. }
    unfold Destroy. cbn [buffer_size_ stream_].
    destruct (0 <? size) eqn:E0.
    + apply Z.ltb_lt in E0. unfold BackUp. cbn [last_segment_ done_ segments_
        byte_count_].
      rewrite to_int_small, (to_size_t_small size), to_size_t_small by lia.
      replace (size <=? Z.of_nat (length last)) with true
        by (symmetry; apply Z.leb_le; lia).
      replace (Z.to_nat (Z.of_nat (length last) - size)) with buffer by lia.
      eexists. split; [reflexivity|]. split.
      * unfold memory. cbn [done_ last_segment_ segments_ concat].
        rewrite <- Hmem. f_equal. rewrite app_assoc, firstn_skipn. reflexivity.
      * unfold ByteCount. cbn [byte_count_]. lia.
    + apply Z.ltb_ge in E0. eexists. split; [reflexivity|]. split.
      * exact Hmem.
      * unfold ByteCount. cbn [byte_count_]. lia.
  - destruct Hs as (H1 & H2 & H3 & H4 & H5).
    cbn [stream_ buffer_ buffer_size_ segments_ done_ last_segment_
         byte_count_] in *.
    subst segs size. unfold Destroy. cbn [buffer_size_ stream_].
    change (0 <? 0) with false. eexists. split; [reflexivity|]. split.
    + unfold memory. cbn [done_ last_segment_ segments_ concat].
      rewrite app_nil_r, H3, firstn_app.
      replace (length mem0 - length inp)%nat with 0%nat by lia.
      cbn [firstn]. rewrite app_nil_r. reflexivity.
    + unfold ByteCount. cbn [byte_count_].
      pose proof (f_equal (@length byte) H3) as HL.
      rewrite length_app, length_firstn in HL. lia.
Qed.
End ByteSink.

(** X19.  The byte sink writes its input, cut at the capacity of the
    stream.  Whatever the buffers the output stream hands out (each
    shorter than 2^31 bytes) and however the input is split over the calls
    of Append, when the sink is destroyed the memory of the buffers holds
    the input in order from the start, up to the size of the memory, every
    byte behind it is as before, and the byte count of the stream is the
    length of the input or, when that is larger, the size of the memory. *)
Theorem byte_sink_writes_the_input_up_to_the_capacity
    (segments chunks : list bytes) :
  Forall (fun seg => Z.of_nat (length seg) < 2147483648) segments ->
  exists st,
    ZeroCopyStreamByteSink.Destroy
      (fold_left (fun s c => ZeroCopyStreamByteSink.Append c s) chunks
         (ZeroCopyStreamByteSink.New
            (ZeroCopyStreamByteSink.SegmentedZeroCopyOutputStream segments)))
    = Some st
    /\ ZeroCopyStreamByteSink.memory st
       = firstn (length (concat segments))
           (concat chunks ++ skipn (length (concat chunks)) (concat segments))
    /\ ZeroCopyStreamByteSink.ByteCount st
       = Z.of_nat (Nat.min (length (concat chunks)) (length (concat segments))).
Proof.
  intros H.
  exact (Destroy_tracks (concat segments) (concat chunks) _
           (Appends_track (concat segments) chunks [] _
              (New_tracks segments H))).
Qed.

Lemma byte_sink_writes_the_input_up_to_the_capacity_witness :
  exists st,
    ZeroCopyStreamByteSink.Destroy
      (fold_left (fun s c => ZeroCopyStreamByteSink.Append c s)
         [B "01"; B "23456"; B "789A"]
         (ZeroCopyStreamByteSink.New
            (ZeroCopyStreamByteSink.SegmentedZeroCopyOutputStream
               [B "..."; []; B "......."])))
    = Some st
    /\ ZeroCopyStreamByteSink.memory st
       = firstn (length (concat [B "..."; []; B "......."]))
           (concat [B "01"; B "23456"; B "789A"]
            ++ skipn (length (concat [B "01"; B "23456"; B "789A"]))
                 (concat [B "..."; []; B "......."]))
    /\ ZeroCopyStreamByteSink.ByteCount st
       = Z.of_nat (Nat.min (length (concat [B "01"; B "23456"; B "789A"]))
                     (length (concat [B "..."; []; B "......."]))).
Proof.
  apply (byte_sink_writes_the_input_up_to_the_capacity
           [B "..."; []; B "......."] [B "01"; B "23456"; B "789A"]).
  repeat constructor.
Defined.

Lemma Node_ind' (P : Node -> Prop) :
  (forall name attrs text children,
     Forall P children -> P (Elem name attrs text children)) ->
  (forall name items, Forall P items -> P (Lst name items)) ->
  (forall name value, P (Val name value)) ->
  forall n, P n.
Proof.
  intros H1 H2 H3. fix IH 1. intros [name attrs text children|name items|name value].
  - apply H1.
    induction children as [|c cs IHcs]; constructor; [apply IH|exact IHcs].
  - apply H2.
    induction items as [|c cs IHcs]; constructor; [apply IH|exact IHcs].
  - apply H3.
Qed.

Lemma leads_attributes max attrs : forall rest K ow d tags kinds,
  forallb attribute_ok attrs = true ->
  leads max
    (mkConfig (BEGIN_ELEMENT_MID :: K) (concat (map attribute attrs) ++ rest)
       ow d tags kinds)
    (mkConfig (BEGIN_ELEMENT_MID :: K) rest (ow ++ map attribute_event attrs)
       d tags kinds).
Proof.
  induction attrs as [|kv attrs IH]; intros rest K ow d tags kinds Hok.
  - cbn. rewrite app_nil_r. apply leads_refl.
  - cbn [forallb] in Hok. apply andb_true_iff in Hok as [Hkv Hok].
    cbn [map concat]. rewrite <- app_assoc.
    eapply leads_trans; [apply leads_attribute; exact Hkv|].
    replace (ow ++ attribute_event kv :: map attribute_event attrs)
      with ((ow ++ [attribute_event kv]) ++ map attribute_event attrs)
      by (rewrite <- app_assoc; reflexivity).
    apply IH. exact Hok.
Qed.

(** The byte after a tag name in an element: the space of the first
    attribute or the close of the opener. *)
Lemma after_tag attrs rest :
  exists x r, concat (map attribute attrs) ++ ">"%byte :: rest = x :: r
              /\ IsAlphanumericOrHyphen x = false.
Proof.
  destruct attrs as [|[k v] attrs].
  - exists ">"%byte, rest. split; reflexivity.
  - cbn [map concat]. unfold attribute at 1. cbn [B app list_byte_of_string].
    eexists _, _. split; reflexivity.
Qed.

Lemma tag_of_plain place name :
  name_ok place name = true -> plain_tag (tag_of place name) = true.
Proof.
  destruct name as [|c name]; destruct place; cbn [name_ok tag_of];
    intros H; try discriminate; try exact H; try reflexivity;
    apply andb_true_iff in H; apply H.
Qed.

Lemma start_event_of place name tags :
  name_ok place name = true -> flag_ok place tags = true ->
  start_object_event (tag_of place name) tags = StartObject name.
Proof.
  intros Hn Ht. unfold start_object_event. fold (top_flag tags).
  destruct name as [|c name]; destruct place; cbn [name_ok tag_of flag_ok] in *;
    try discriminate.
  - reflexivity.
  - rewrite Ht, orb_true_r. reflexivity.
  - apply andb_true_iff in Hn as [_ Hn]. apply negb_true_iff in Hn, Ht.
    rewrite Hn, Ht. reflexivity.
  - apply andb_true_iff in Hn as [_ Hn]. apply negb_true_iff in Hn, Ht.
    rewrite Hn, Ht. reflexivity.
Qed.

Lemma height_child c cs :
  (height c <= fold_right Nat.max O (map height (c :: cs)))%nat
  /\ (fold_right Nat.max O (map height cs)
      <= fold_right Nat.max O (map height (c :: cs)))%nat.
Proof. cbn [map fold_right]. lia. Qed.

Lemma node_body_Elem ind lvl place name attrs text children rest :
  node_body ind lvl place (Elem name attrs text children) ++ rest
  = tag_of place name ++ concat (map attribute attrs) ++ ">"%byte :: text
    ++ concat (map (fun c => NewLine_bytes ind (S lvl) ++ "<"%byte
                             :: node_body ind (S lvl) InObject c) children)
    ++ match children with [] => [] | _ :: _ => NewLine_bytes ind lvl end
    ++ "<"%byte :: "/"%byte :: tag_of place name ++ ">"%byte :: rest.
Proof.
  change (node_body ind lvl place (Elem name attrs text children))
    with (tag_of place name ++ concat (map attribute attrs) ++ B ">" ++ text
          ++ concat (map (fun c => NewLine_bytes ind (S lvl) ++ B "<"
                                   ++ node_body ind (S lvl) InObject c) children)
          ++ match children with [] => [] | _ :: _ => NewLine_bytes ind lvl end
          ++ B "</" ++ tag_of place name ++ B ">").
  rewrite <- !app_assoc. reflexivity.
Qed.

Lemma node_body_Lst ind lvl place name items rest :
  node_body ind lvl place (Lst name items) ++ rest
  = list_tag name ++ ">"%byte
    :: concat (map (fun c => NewLine_bytes ind (S lvl) ++ "<"%byte
                             :: node_body ind (S lvl) (InList name) c) items)
    ++ match items with [] => [] | _ :: _ => NewLine_bytes ind lvl end
    ++ "<"%byte :: "/"%byte :: list_tag name ++ ">"%byte :: rest.
Proof.
  change (node_body ind lvl place (Lst name items))
    with (list_tag name ++ B ">"
          ++ concat (map (fun c => NewLine_bytes ind (S lvl) ++ B "<"
                                   ++ node_body ind (S lvl) (InList name) c)
                       items)
          ++ match items with [] => [] | _ :: _ => NewLine_bytes ind lvl end
          ++ B "</" ++ list_tag name ++ B ">").
  rewrite <- !app_assoc. reflexivity.
Qed.

Lemma events_of_Elem name attrs text children :
  events_of (Elem name attrs text children)
  = StartObject name :: map attribute_event attrs
    ++ match text with [] => [] | _ :: _ => [RenderString [] text] end
    ++ concat (map events_of children) ++ [EndObject].
Proof. reflexivity. Qed.

Lemma events_of_Lst name items :
  events_of (Lst name items)
  = StartList name :: concat (map events_of items) ++ [EndList].
Proof. reflexivity. Qed.

Lemma legal_Elem place name attrs text children :
  legal place (Elem name attrs text children)
  = name_ok place name && forallb attribute_ok attrs
    && content_ok text children && forallb (legal InObject) children.
Proof. reflexivity. Qed.

Lemma legal_Lst place name items :
  legal place (Lst name items)
  = match place with AtRoot => false | _ => true end
    && list_name name && forallb (legal (InList name)) items.
Proof. reflexivity. Qed.

Lemma height_Elem name attrs text children :
  height (Elem name attrs text children)
  = S (fold_right Nat.max O (map height children)).
Proof. reflexivity. Qed.

Lemma height_Lst name items :
  height (Lst name items) = fold_right Nat.max O (map height items).
Proof. reflexivity. Qed.

Lemma NewLine_bytes_space ind lvl :
  forallb ascii_isspace ind = true ->
  forallb ascii_isspace (NewLine_bytes ind lvl) = true.
Proof.
  intros Hind. unfold NewLine_bytes. destruct ind as [|i ind']; [reflexivity|].
  cbn [forallb]. change (ascii_isspace x0a) with true. cbn [andb].
  apply forallb_concat. apply forallb_forall. intros x Hx.
  apply repeat_spec in Hx. subst x. exact Hind.
Qed.

(** The children of an object or the items of a list, each on its line. *)
Lemma leads_children ind max place lvl cs :
  forallb ascii_isspace ind = true ->
  Forall (parses_node ind max) cs ->
  forallb (legal place) cs = true ->
  forall rest K ow d tags kinds,
  d + Z.of_nat (fold_right Nat.max O (map height cs)) <= max ->
  flag_ok place tags = true ->
  leads max
    (mkConfig (TEXT :: K)
       (concat (map (fun c => NewLine_bytes ind lvl ++ "<"%byte
                              :: node_body ind lvl place c) cs) ++ rest)
       ow d tags kinds)
    (mkConfig (TEXT :: K) rest (ow ++ concat (map events_of cs)) d tags kinds).
Proof.
  intros Hind. induction cs as [|c cs IHcs];
    intros IH Hcs rest K ow d tags kinds Hd Hflag.
  - cbn. rewrite app_nil_r. apply leads_refl.
  - cbn [map concat]. rewrite <- !app_assoc. cbn [app].
    pose proof (Forall_inv IH) as Hc. pose proof (Forall_inv_tail IH) as IH'.
    cbn [forallb] in Hcs. apply andb_true_iff in Hcs as [Hc1 Hcs].
    pose proof (height_child c cs) as [Hh1 Hh2].
    eapply leads_trans;
      [apply leads_open_tag; apply NewLine_bytes_space, Hind|].
    eapply leads_trans; [apply (Hc place lvl); [exact Hc1|lia|exact Hflag]|].
    rewrite app_assoc. apply IHcs; try assumption. lia.
Qed.

Lemma closer_space ind lvl (cs : list Node) :
  forallb ascii_isspace ind = true ->
  forallb ascii_isspace
    match cs with [] => [] | _ :: _ => NewLine_bytes ind lvl end = true.
Proof.
  intros Hind. destruct cs; [reflexivity|apply NewLine_bytes_space, Hind].
Qed.

Lemma leads_node ind max :
  forallb ascii_isspace ind = true -> forall n, parses_node ind max n.
Proof.
  intros Hind n.
  induction n as [name attrs text children IH|name items IH|name value]
    using Node_ind';
    intros place lvl rest K ow d tags kinds Hlegal Hdepth Hflag.
  - (* an object *)
    rewrite legal_Elem in Hlegal.
    apply andb_true_iff in Hlegal as [Hlegal Hcs].
    apply andb_true_iff in Hlegal as [Hlegal Hcontent].
    apply andb_true_iff in Hlegal as [Hname Hattrs].
    pose proof (tag_of_plain place name Hname) as Hplain.
    destruct (plain_tag_inv _ Hplain) as (Hn & Hl & Ha).
    pose proof (start_event_of place name tags Hname Hflag) as Hev.
    rewrite height_Elem in Hdepth.
    rewrite node_body_Elem, events_of_Elem.
    replace (ow ++ StartObject name :: map attribute_event attrs
             ++ match text with [] => [] | _ :: _ => [RenderString [] text] end
             ++ concat (map events_of children) ++ [EndObject])
      with ((((ow ++ [StartObject name]) ++ map attribute_event attrs)
             ++ match text with [] => [] | _ :: _ => [RenderString [] text] end
             ++ concat (map events_of children)) ++ [EndObject])
      by (rewrite <- !app_assoc; reflexivity).
    destruct (after_tag attrs
      (text ++ concat (map (fun c => NewLine_bytes ind (S lvl) ++ "<"%byte
                                     :: node_body ind (S lvl) InObject c)
                         children)
       ++ match children with [] => [] | _ :: _ => NewLine_bytes ind lvl end
       ++ "<"%byte :: "/"%byte :: tag_of place name ++ ">"%byte :: rest))
      as (x & r0 & Ex & Hx).
    eapply leads_trans.
    { rewrite Ex. apply leads_start_name; try assumption. lia. }
    rewrite <- Ex, Hev. clear Ex Hx x r0.
    eapply leads_trans; [apply leads_attributes; exact Hattrs|].
    eapply leads_trans; [apply leads_tag_close|].
    assert (Hclose : forall ow',
      leads max
        (mkConfig (END_TAG :: K) (tag_of place name ++ ">"%byte :: rest) ow'
           (d + 1) ((tag_of place name, false) :: tags) (OBJECT :: kinds))
        (mkConfig K rest (ow' ++ [EndObject]) d tags kinds)).
    { intros ow'.
      eapply leads_trans;
        [apply (leads_end_name max (tag_of place name) ">"%byte rest);
         try assumption; reflexivity|].
      replace (d + 1 - 1) with d by lia. apply leads_end_close. }
    destruct text as [|c body].
    + cbn [app].
      eapply leads_trans;
        [apply (leads_children ind max InObject (S lvl) children Hind IH Hcs);
         [lia|reflexivity]|].
      eapply leads_trans; [apply leads_open_tag, closer_space, Hind|].
      eapply leads_trans; [apply leads_end_slash|].
      apply Hclose.
    + cbn [content_ok text_ok] in Hcontent.
      apply andb_true_iff in Hcontent as [Hcontent Hnil].
      apply andb_true_iff in Hcontent as [Hcontent _].
      apply andb_true_iff in Hcontent as [Hhead Htail].
      destruct children as [|? ?]; [|discriminate].
      cbn [map concat app].
      eapply leads_trans;
        [apply (leads_text max [] c body);
         [reflexivity|exact Hhead|exact Htail]|].
      eapply leads_trans; [apply leads_end_element|].
      apply Hclose.
  - (* a list *)
    rewrite legal_Lst in Hlegal.
    apply andb_true_iff in Hlegal as [Hlegal Hcs].
    apply andb_true_iff in Hlegal as [_ Hname].
    rewrite height_Lst in Hdepth.
    rewrite node_body_Lst, events_of_Lst.
    replace (ow ++ StartList name :: concat (map events_of items) ++ [EndList])
      with (((ow ++ [StartList name]) ++ concat (map events_of items))
            ++ [EndList])
      by (rewrite <- !app_assoc; reflexivity).
    eapply leads_trans;
      [apply (leads_start_list max name ">"%byte); [exact Hname|reflexivity]|].
    eapply leads_trans; [apply leads_tag_close|].
    eapply leads_trans;
      [apply (leads_children ind max (InList name) (S lvl) items Hind IH Hcs);
       [lia|reflexivity]|].
    eapply leads_trans; [apply leads_open_tag, closer_space, Hind|].
    eapply leads_trans; [apply leads_end_slash|].
    eapply leads_trans;
      [apply (leads_end_list max name ">"%byte rest); [exact Hname|reflexivity]|].
    apply leads_end_close.
  - (* a value *)
    cbn [legal] in Hlegal. apply andb_true_iff in Hlegal as [_ Hvalue].
    cbn [height] in Hdepth. cbn [node_body events_of].
    rewrite <- !app_assoc.
    assert (Hclose : forall ow',
      leads max
        (mkConfig (END_TAG :: K) (B "anonymous" ++ ">"%byte :: rest) ow'
           (d + 1) ((B "anonymous", false) :: tags) (OBJECT :: kinds))
        (mkConfig K rest ow' d tags kinds)).
    { intros ow'.
      eapply leads_trans;
        [apply (leads_end_anonymous max ">"%byte rest); reflexivity|].
      replace (d + 1 - 1) with d by lia. apply leads_end_close. }
    destruct name as [|c0 name].
    + (* a text *)
      destruct value as [|c body]; [discriminate|].
      cbn [text_ok] in Hvalue.
      apply andb_true_iff in Hvalue as [Hvalue _].
      apply andb_true_iff in Hvalue as [Hhead Htail].
      eapply leads_trans;
        [apply (leads_start_anonymous max ">"%byte); [reflexivity|lia]|].
      eapply leads_trans; [apply leads_tag_close|].
      eapply leads_trans;
        [apply (leads_text max [] c body);
         [reflexivity|exact Hhead|exact Htail]|].
      eapply leads_trans; [apply leads_end_element|].
      apply Hclose.
    + (* an attribute *)
      rewrite <- !app_assoc.
      apply (leads_trans max _
               (mkConfig (BEGIN_ELEMENT_MID :: K)
                  (attribute (c0 :: name, value) ++ B ">" ++ B "</anonymous>"
                   ++ rest) ow (d + 1) ((B "anonymous", false) :: tags)
                  (OBJECT :: kinds)));
        [apply (leads_start_anonymous max " "%byte); [reflexivity|lia]|].
      eapply leads_trans;
        [apply (leads_attribute max (c0 :: name, value)); exact Hvalue|].
      eapply leads_trans; [apply leads_tag_close|].
      eapply leads_trans; [apply (leads_open_tag max []); reflexivity|].
      eapply leads_trans; [apply leads_end_slash|].
      apply Hclose.
Qed.

Ltac writer_state :=
  cbv -[app concat repeat length];
  repeat (progress (rewrite <- ?app_assoc; cbn [app])).

Section WriterTree.
Import XmlObjectWriter.
Variable Escape : bytes -> bytes.
Variable ind : bytes.
Variable ic : byte.
Variable icn : nat.
Variable uw : bool.

Local Abbreviation W chain s b se := (mkWriter chain s ind ic icn uw b se).
Local Abbreviation gt b := (if b then [">"%byte] else []).

Lemma StartObject_writes name e parents s b se tag :
  tag = match name with
        | _ :: _ => name
        | [] =>
          match parents with
          | [] => B "root"
          | _ :: _ => if is_xml_list_ e then name_ e else []
          end
        end ->
  StartObject Escape name (W (e :: parents) s b se)
  = Some (W (new_Element true false tag :: with_child e :: parents)
            (s ++ gt b
             ++ match parents with
                | [] => []
                | _ :: _ => NewLine_bytes ind (length parents)
                end
             ++ "<"%byte :: tag)
            true match parents with [] => true | _ :: _ => false end).
Proof.
  intros ->. destruct e as [nm fi xo xl hc ht hat ln an].
  destruct name as [|c name]; destruct parents as [|p parents]; destruct b;
    destruct ind as [|i ind']; try destruct xl;
    writer_state; reflexivity.
Qed.

Lemma tag_of_written place name e (parents : list Element) :
  good_parent place e -> name_ok place name = true ->
  (place = AtRoot <-> parents = []) ->
  match name with
  | _ :: _ => name
  | [] =>
    match parents with
    | [] => B "root"
    | _ :: _ => if is_xml_list_ e then name_ e else []
    end
  end = tag_of place name.
Proof.
  intros (_ & _ & Hp) Hn Hroot. destruct name as [|c name]; [|reflexivity].
  destruct place; cbn [name_ok tag_of] in *; try discriminate.
  - rewrite (proj1 Hroot eq_refl). reflexivity.
  - destruct parents as [|p parents];
      [discriminate (proj2 Hroot eq_refl)|].
    destruct Hp as [-> ->]. reflexivity.
Qed.

Lemma StartList_writes name e p parents s b se :
  StartList Escape name (W (e :: p :: parents) s b se)
  = Some (W (new_Element false true name :: set_has_child_ true e
             :: p :: parents)
            (s ++ gt b ++ NewLine_bytes ind (length (p :: parents))
             ++ "<"%byte :: list_tag name ++ [">"%byte])
            false false).
Proof.
  destruct e as [nm fi xo xl hc ht hat ln an].
  destruct b; destruct ind as [|i ind']; writer_state; reflexivity.
Qed.

Lemma RenderString_attribute k v top chain s b se :
  is_xml_list_ top = false -> k <> [] -> Escape k = k -> Escape v = v ->
  RenderString Escape k v (W (top :: chain) s b se)
  = Some (W (set_has_attribute_ true top :: chain) (s ++ attribute (k, v))
            b se).
Proof.
  intros Hl Hk Ek Ev. destruct k as [|c k]; [congruence|].
  destruct top. cbn in Hl. subst.
  unfold RenderString, WritePrefix, attribute. rewrite Ek, Ev.
  destruct b; writer_state; reflexivity.
Qed.

Lemma RenderString_text t top chain s b se :
  is_xml_list_ top = false -> Escape t = t ->
  RenderString Escape [] t (W (top :: chain) s b se)
  = Some (W (set_has_text_ true top :: chain) (s ++ ">"%byte :: t) false se).
Proof.
  intros Hl Et. destruct top. cbn in Hl. subst.
  unfold RenderString, WritePrefix. rewrite Et.
  destruct b; writer_state; reflexivity.
Qed.

(** A value in a list: the anonymous element. *)
Lemma RenderString_value k v top chain s :
  good_parent (InList (name_ top)) top ->
  (k <> [] -> Escape k = k) -> Escape v = v ->
  exists top',
    RenderString Escape k v (W (top :: chain) s false false)
    = Some (W (top' :: chain)
              (s ++ NewLine_bytes ind (length chain)
               ++ "<"%byte :: node_body ind (length chain) (InList (name_ top))
                                (Val k v))
              false false)
    /\ parent_after top top'.
Proof.
  intros (Ha & Hn & Hl & _) Ek Ev.
  destruct top as [nm fi xo xl hc ht hat ln an]. cbn in Ha, Hn, Hl. subst.
  unfold RenderString, WritePrefix.
  destruct k as [|c k].
  - rewrite Ev. eexists. split.
    + destruct ind as [|i ind']; destruct chain as [|p chain];
        writer_state; reflexivity.
    + repeat split.
  - rewrite Ev, (Ek ltac:(discriminate)). eexists. split.
    + destruct ind as [|i ind']; destruct chain as [|p chain];
        writer_state; reflexivity.
    + repeat split.
Qed.
Lemma EndObject_writes top e parents s b se :
  name_ top <> [] -> anonymous_ top = false ->
  list_child_needs_end_tag_ e = false ->
  EndObject (W (top :: e :: parents) s b se)
  = Some (W (e :: parents)
            (s ++ gt b
             ++ (if has_child_ top then NewLine_bytes ind (length parents)
                 else [])
             ++ "<"%byte :: "/"%byte :: name_ top ++ ">"%byte
             :: match parents with
                | [] => NewLine_bytes ind 0
                | _ :: _ => []
                end)
            false false).
Proof.
  intros Hn Ha Hl.
  destruct top as [nm fi xo xl hc ht hat ln an].
  destruct e as [nm' fi' xo' xl' hc' ht' hat' ln' an']. cbn in Hn, Ha, Hl.
  subst. destruct nm as [|c nm]; [congruence|].
  destruct b, hc, parents as [|p parents], ind as [|i ind'], xl';
    writer_state; reflexivity.
Qed.

Lemma EndList_writes top e parents s b se :
  anonymous_ top = false -> list_child_needs_end_tag_ e = false ->
  EndList (W (top :: e :: parents) s b se)
  = Some (W (e :: parents)
            (s ++ gt b
             ++ (if has_child_ top then NewLine_bytes ind (length parents)
                 else [])
             ++ "<"%byte :: "/"%byte :: list_tag (name_ top) ++ ">"%byte
             :: match parents with
                | [] => NewLine_bytes ind 0
                | _ :: _ => []
                end)
            false false).
Proof.
  intros Ha Hl.
  destruct top as [nm fi xo xl hc ht hat ln an].
  destruct e as [nm' fi' xo' xl' hc' ht' hat' ln' an']. cbn in Ha, Hl.
  subst.
  destruct b, hc, parents as [|p parents], ind as [|i ind'], xl';
    writer_state; reflexivity.
Qed.

Lemma feed_all_cons ev es w :
  feed_all Escape (ev :: es) w = bind (feed Escape ev w) (feed_all Escape es).
Proof. reflexivity. Qed.

Lemma parent_after_trans e1 e2 e3 :
  parent_after e1 e2 -> parent_after e2 e3 -> parent_after e1 e3.
Proof.
  intros (A1 & A2 & A3 & A4 & A5) (B1 & B2 & B3 & B4 & B5).
  repeat split; congruence.
Qed.

Lemma good_parent_after place e e' :
  good_parent place e -> parent_after e e' -> good_parent place e'.
Proof.
  intros (G1 & G2 & G3) (A1 & A2 & A3 & A4 & A5).
  repeat split; try congruence.
  destruct place; try congruence; destruct G3; split; congruence.
Qed.

Lemma feed_attributes attrs : forall top chain s se more,
  is_xml_list_ top = false ->
  forallb attribute_ok attrs = true ->
  Forall (fun x => Escape x = x) (map fst attrs) ->
  Forall (fun x => Escape x = x) (map snd attrs) ->
  feed_all Escape (map attribute_event attrs ++ more) (W (top :: chain) s true se)
  = feed_all Escape more
      (W (match attrs with [] => top | _ :: _ => set_has_attribute_ true top end
          :: chain)
         (s ++ concat (map attribute attrs)) true se).
Proof.
  induction attrs as [|[k v] attrs IH]; intros top chain s se more Hl Hok Hk Hv.
  - cbn. rewrite app_nil_r. reflexivity.
  - cbn [forallb] in Hok. apply andb_true_iff in Hok as [Hkv Hok].
    unfold attribute_ok in Hkv. cbn [fst snd] in Hkv.
    apply andb_true_iff in Hkv as [Hname _].
    cbn [map fst snd] in Hk, Hv.
    inversion Hk as [|? ? Ek Hk']; subst. inversion Hv as [|? ? Ev Hv']; subst.
    cbn [map app concat]. rewrite feed_all_cons.
    unfold attribute_event at 1. cbn [fst snd feed].
    rewrite RenderString_attribute
      by (try assumption; intros ->; discriminate).
    cbn [bind].
    rewrite IH by (try assumption; destruct top; exact Hl).
    rewrite <- app_assoc.
    replace (match attrs with
             | [] => set_has_attribute_ true top
             | _ :: _ => set_has_attribute_ true (set_has_attribute_ true top)
             end) with (set_has_attribute_ true top)
      by (destruct attrs; destruct top; reflexivity).
    reflexivity.
Qed.

(** The children of an object or the items of a list, one at least. *)
Lemma feed_children place cs : forall c top p chain s b se more,
  Forall (writes_node Escape ind ic icn uw) (c :: cs) ->
  good_parent place top -> place <> AtRoot ->
  forallb (legal place) (c :: cs) = true ->
  match place with InList _ => b = false /\ se = false | _ => True end ->
  Forall (fun x => Escape x = x) (concat (map strings_of (c :: cs))) ->
  exists top',
    feed_all Escape (concat (map events_of (c :: cs)) ++ more)
      (W (top :: p :: chain) s b se)
    = feed_all Escape more
        (W (top' :: p :: chain)
           (s ++ gt b
            ++ concat (map (fun c => NewLine_bytes ind (length (p :: chain))
                                     ++ "<"%byte
                                     :: node_body ind (length (p :: chain))
                                          place c) (c :: cs)))
           false false)
    /\ parent_after top top'.
Proof.
  assert (Hroot : forall place, place <> AtRoot ->
            forall p chain, place = AtRoot <-> p :: chain = (@nil Element))
    by (intros pl Hpl p0 ch; split; [intros ->; congruence|discriminate]).
  induction cs as [|c' cs IHcs];
    intros c top p chain s b se more IH Hg Hplace Hcs Hb Hesc;
    pose proof (Forall_inv IH) as Hc; pose proof (Forall_inv_tail IH) as IH';
    cbn [forallb] in Hcs; apply andb_true_iff in Hcs as [Hc1 Hcs];
    cbn [map concat] in Hesc; apply Forall_app in Hesc as [He1 Hesc].
  - destruct (Hc place top (p :: chain) s b se more Hg Hc1
                (Hroot place Hplace p chain) Hb He1) as (t1 & E1 & A1).
    exists t1. split; [|exact A1].
    cbn [map concat]. rewrite !app_nil_r. rewrite E1. f_equal. f_equal.
    rewrite !app_nil_r. reflexivity.
  - destruct (Hc place top (p :: chain) s b se
                (concat (map events_of (c' :: cs)) ++ more) Hg Hc1
                (Hroot place Hplace p chain) Hb He1) as (t1 & E1 & A1).
    destruct (IHcs c' t1 p chain
                (s ++ gt b ++ NewLine_bytes ind (length (p :: chain))
                 ++ "<"%byte :: node_body ind (length (p :: chain)) place c
                 ++ []) false false more IH'
                (good_parent_after place top t1 Hg A1) Hplace Hcs
                ltac:(destruct place; auto) Hesc) as (t2 & E2 & A2).
    exists t2. split; [|exact (parent_after_trans _ _ _ A1 A2)].
    cbn [map concat]. rewrite <- app_assoc.
    cbn [map concat] in E1. rewrite E1.
    cbn [map concat] in E2. rewrite E2. f_equal. f_equal.
    rewrite !app_nil_r. cbn [length].
    repeat (progress (rewrite <- ?app_assoc; cbn [app])). reflexivity.
Qed.
Lemma plain_tag_nonempty t : plain_tag t = true -> t <> [].
Proof. intros H ->. discriminate H. Qed.

Lemma feed_node n : writes_node Escape ind ic icn uw n.
Proof.
  induction n as [name attrs text children IH|name items IH|name value]
    using Node_ind';
    intros place e parents s b se more Hg Hlegal Hroot Hb Hesc.
  - (* an object *)
    rewrite legal_Elem in Hlegal.
    apply andb_true_iff in Hlegal as [Hlegal Hcs].
    apply andb_true_iff in Hlegal as [Hlegal Hcontent].
    apply andb_true_iff in Hlegal as [Hname Hattrs].
    cbn [strings_of] in Hesc.
    apply Forall_app in Hesc as [Hfst Hesc].
    apply Forall_app in Hesc as [Hsnd Hesc].
    apply Forall_app in Hesc as [Htext Hrest].
    pose proof (plain_tag_nonempty _ (tag_of_plain place name Hname)) as Htag.
    destruct Hg as (Hg1 & Hg2 & Hg3).
    exists (with_child e). split; [|destruct e; repeat split].
    rewrite events_of_Elem. rewrite <- app_comm_cons, feed_all_cons. cbn [feed].
    rewrite (StartObject_writes name e parents s b se (tag_of place name))
      by (symmetry; apply tag_of_written; [repeat split| |]; assumption).
    cbn [bind]. rewrite <- !app_assoc.
    rewrite feed_attributes; try assumption; [|reflexivity].
    set (top := match attrs with
                | [] => new_Element true false (tag_of place name)
                | _ :: _ => set_has_attribute_ true
                              (new_Element true false (tag_of place name))
                end).
    assert (Htop : name_ top = tag_of place name /\ anonymous_ top = false
                   /\ is_xml_list_ top = false /\ has_child_ top = false
                   /\ list_child_needs_end_tag_ top = false)
      by (subst top; destruct attrs; repeat split).
    destruct Htop as (Hn1 & Hn2 & Hn3 & Hn4 & Hn5).
    assert (Hwl : list_child_needs_end_tag_ (with_child e) = false)
      by (destruct e; exact Hg2).
    rewrite node_body_Elem.
    destruct text as [|c body].
    + destruct children as [|c0 cs0].
      * (* an empty element *)
        cbn [map concat app]. rewrite feed_all_cons. cbn [feed].
        rewrite EndObject_writes
          by (try assumption; rewrite Hn1; exact Htag).
        cbn [bind]. rewrite Hn1, Hn4. f_equal. f_equal.
        repeat (progress (rewrite <- ?app_assoc; cbn [app])). reflexivity.
      * (* child elements *)
        cbn [app].
        match goal with
        | |- context [mkWriter (top :: _) ?S _ _ _ _ true ?SE] =>
          destruct (feed_children InObject cs0 c0 top (with_child e) parents
                      S true SE (ObjectWriter.EndObject :: more) IH)
            as (top' & E & (A1 & A2 & A3 & A4 & A5));
            [repeat split; assumption|discriminate|exact Hcs|exact I
            |exact Hrest|]
        end.
        rewrite E. cbn [app]. rewrite feed_all_cons. cbn [feed].
        rewrite EndObject_writes
          by (try assumption; try congruence; rewrite A1, Hn1; exact Htag).
        cbn [bind]. rewrite A1, Hn1, A5. f_equal. f_equal. cbn [length].
        repeat (progress (rewrite <- ?app_assoc; cbn [app])). reflexivity.
    + (* a text *)
      cbn [content_ok] in Hcontent.
      apply andb_true_iff in Hcontent as [_ Hnil].
      destruct children as [|? ?]; [|discriminate].
      cbn [map concat app]. rewrite feed_all_cons. cbn [feed].
      inversion Htext as [|? ? Et _]; subst.
      rewrite RenderString_text by assumption. cbn [bind].
      rewrite feed_all_cons. cbn [feed].
      rewrite EndObject_writes
        by (try assumption; destruct top; cbn in *; try assumption;
            rewrite Hn1; exact Htag).
      cbn [bind].
      replace (name_ (set_has_text_ true top)) with (tag_of place name)
        by (destruct top; cbn in *; congruence).
      replace (has_child_ (set_has_text_ true top)) with false
        by (destruct top; cbn in *; congruence).
      f_equal. f_equal.
      repeat (progress (rewrite <- ?app_assoc; cbn [app])). reflexivity.
  - (* a list *)
    rewrite legal_Lst in Hlegal.
    apply andb_true_iff in Hlegal as [Hlegal Hcs].
    apply andb_true_iff in Hlegal as [Hplace Hname].
    cbn [strings_of] in Hesc.
    destruct Hg as (Hg1 & Hg2 & Hg3).
    destruct parents as [|p parents].
    { rewrite (proj2 Hroot eq_refl) in Hplace. discriminate. }
    assert (Hp : place <> AtRoot) by (intros ->; discriminate).
    exists (set_has_child_ true e). split; [|destruct e; repeat split].
    rewrite events_of_Lst. rewrite <- app_comm_cons, feed_all_cons. cbn [feed].
    rewrite StartList_writes. cbn [bind].
    assert (Hwl : list_child_needs_end_tag_ (set_has_child_ true e) = false)
      by (destruct e; exact Hg2).
    rewrite node_body_Lst. rewrite <- !app_assoc. cbn [app].
    destruct items as [|c0 cs0].
    + cbn [map concat app]. rewrite feed_all_cons. cbn [feed].
      rewrite EndList_writes by (try assumption; reflexivity).
      cbn [bind has_child_ name_ new_Element]. f_equal. f_equal.
      repeat (progress (rewrite <- ?app_assoc; cbn [app])). reflexivity.
    + match goal with
      | |- context [mkWriter (new_Element false true name :: _) ?S _ _ _ _
                      false false] =>
        destruct (feed_children (InList name) cs0 c0
                    (new_Element false true name) (set_has_child_ true e)
                    (p :: parents) S false false
                    (ObjectWriter.EndList :: more) IH)
          as (top' & E & (A1 & A2 & A3 & A4 & A5));
          [repeat split|discriminate|exact Hcs|split; reflexivity|exact Hesc|]
      end.
      rewrite E. cbn [app]. rewrite feed_all_cons. cbn [feed].
      rewrite EndList_writes by (try assumption; rewrite A3; reflexivity).
      cbn [bind]. rewrite A1, A5. cbn [name_ new_Element]. f_equal. f_equal.
      cbn [length].
      repeat (progress (rewrite <- ?app_assoc; cbn [app])). reflexivity.
  - (* a value *)
    cbn [legal] in Hlegal. apply andb_true_iff in Hlegal as [Hplace Hvalue].
    destruct place as [| |l]; try discriminate. destruct Hb as [-> ->].
    destruct parents as [|p parents]; [discriminate (proj2 Hroot eq_refl)|].
    pose proof Hg as (Hg1 & Hg2 & Hg3 & Hg4).
    destruct (RenderString_value name value e (p :: parents) s) as (e' & E & A).
    { rewrite Hg4. exact Hg. }
    { intros Hne. destruct name as [|c0 name]; [congruence|].
      cbn [strings_of] in Hesc. exact (Forall_inv Hesc). }
    { destruct name as [|c0 name]; cbn [strings_of] in Hesc;
        [exact (Forall_inv Hesc)|exact (Forall_inv (Forall_inv_tail Hesc))]. }
    exists e'. split; [|exact A].
    cbn [events_of app]. rewrite feed_all_cons. cbn [feed]. rewrite E.
    cbn [bind]. f_equal. f_equal. cbn [node_body].
    repeat (progress (rewrite <- ?app_assoc; cbn [app])). reflexivity.
Qed.
End WriterTree.

Lemma wf_NewLine ind lvl :
  forallb ascii_isspace ind = true -> utf8_wf (NewLine_bytes ind lvl).
Proof.
  intros Hind. apply ascii_wf, space_ascii, NewLine_bytes_space, Hind.
Qed.

Lemma wf_text_ok text : text_ok text = true -> utf8_wf text.
Proof.
  destruct text as [|c body]; [discriminate|]. cbn [text_ok]. intros H.
  apply andb_true_iff in H as [_ H]. apply valid_wf. exact H.
Qed.

Lemma wf_list_tag name : list_name name = true -> utf8_wf (list_tag name).
Proof.
  intros H. apply ascii_wf, is_name_ascii, list_tag_is_name, H.
Qed.

Lemma wf_children ind lvl place cs :
  forallb ascii_isspace ind = true ->
  Forall (fun n => forall place lvl,
            legal place n = true -> utf8_wf (node_body ind lvl place n)) cs ->
  forallb (legal place) cs = true ->
  utf8_wf (concat (map (fun c => NewLine_bytes ind lvl ++ B "<"
                                 ++ node_body ind lvl place c) cs)).
Proof.
  intros Hind IH Hcs. apply wf_concat. apply Forall_forall. intros x Hx.
  apply in_map_iff in Hx as (c & <- & Hc).
  apply utf8_wf_app; [apply wf_NewLine, Hind|].
  apply utf8_wf_app; [apply ascii_wf; reflexivity|].
  rewrite Forall_forall in IH. apply (IH c Hc).
  exact (proj1 (forallb_forall _ _) Hcs c Hc).
Qed.

Lemma wf_node_body ind :
  forallb ascii_isspace ind = true ->
  forall n place lvl, legal place n = true ->
  utf8_wf (node_body ind lvl place n).
Proof.
  intros Hind n.
  induction n as [name attrs text children IH|name items IH|name value]
    using Node_ind'; intros place lvl Hlegal.
  - rewrite legal_Elem in Hlegal.
    apply andb_true_iff in Hlegal as [Hlegal Hcs].
    apply andb_true_iff in Hlegal as [Hlegal Hcontent].
    apply andb_true_iff in Hlegal as [Hname Hattrs].
    destruct (plain_tag_inv _ (tag_of_plain place name Hname)) as (Hn & _).
    assert (Htag : utf8_wf (tag_of place name))
      by (apply ascii_wf, is_name_ascii, Hn).
    change (node_body ind lvl place (Elem name attrs text children))
      with (tag_of place name ++ concat (map attribute attrs) ++ B ">" ++ text
            ++ concat (map (fun c => NewLine_bytes ind (S lvl) ++ B "<"
                                     ++ node_body ind (S lvl) InObject c)
                         children)
            ++ match children with [] => [] | _ :: _ => NewLine_bytes ind lvl end
            ++ B "</" ++ tag_of place name ++ B ">").
    apply utf8_wf_app; [exact Htag|].
    apply utf8_wf_app.
    { apply wf_concat. apply Forall_forall. intros x Hx.
      apply in_map_iff in Hx as (kv & <- & Hkv). apply wf_attribute.
      exact (proj1 (forallb_forall _ _) Hattrs kv Hkv). }
    apply utf8_wf_app; [apply ascii_wf; reflexivity|].
    apply utf8_wf_app.
    { destruct text as [|c body]; [constructor|].
      cbn [content_ok] in Hcontent.
      apply andb_true_iff in Hcontent as [Hcontent _].
      apply wf_text_ok, Hcontent. }
    apply utf8_wf_app; [apply wf_children; assumption|].
    apply utf8_wf_app;
      [destruct children; [constructor|apply wf_NewLine, Hind]|].
    apply utf8_wf_app; [apply ascii_wf; reflexivity|].
    apply utf8_wf_app; [exact Htag|apply ascii_wf; reflexivity].
  - rewrite legal_Lst in Hlegal.
    apply andb_true_iff in Hlegal as [Hlegal Hcs].
    apply andb_true_iff in Hlegal as [_ Hname].
    change (node_body ind lvl place (Lst name items))
      with (list_tag name ++ B ">"
            ++ concat (map (fun c => NewLine_bytes ind (S lvl) ++ B "<"
                                     ++ node_body ind (S lvl) (InList name) c)
                         items)
            ++ match items with [] => [] | _ :: _ => NewLine_bytes ind lvl end
            ++ B "</" ++ list_tag name ++ B ">").
    apply utf8_wf_app; [apply wf_list_tag, Hname|].
    apply utf8_wf_app; [apply ascii_wf; reflexivity|].
    apply utf8_wf_app; [apply wf_children; assumption|].
    apply utf8_wf_app;
      [destruct items; [constructor|apply wf_NewLine, Hind]|].
    apply utf8_wf_app; [apply ascii_wf; reflexivity|].
    apply utf8_wf_app; [apply wf_list_tag, Hname|apply ascii_wf; reflexivity].
  - cbn [legal] in Hlegal. apply andb_true_iff in Hlegal as [_ Hvalue].
    cbn [node_body].
    apply utf8_wf_app; [apply ascii_wf; reflexivity|].
    apply utf8_wf_app; [|apply ascii_wf; reflexivity].
    destruct name as [|c0 name].
    + apply utf8_wf_app; [apply ascii_wf; reflexivity|].
      apply wf_text_ok, Hvalue.
    + apply utf8_wf_app; [apply wf_attribute, Hvalue|].
      apply ascii_wf; reflexivity.
Qed.

Lemma New_writer ind :
  XmlObjectWriter.New ind
  = XmlObjectWriter.mkWriter [XmlObjectWriter.new_Element false false []] []
      ind (XmlObjectWriter.indent_char_ (XmlObjectWriter.New ind))
      (XmlObjectWriter.indent_count_ (XmlObjectWriter.New ind)) false false
      false.
Proof. reflexivity. Qed.

(** X15.  What the writer writes, the parser reads back.  Take the
    ObjectWriter calls of a root object with attributes and, as its content,
    either a text or children; a child is an object of the same kind or a
    list; the items of a list are unnamed objects, lists and values.  With
    any indent string of white space the writer makes of them a document on
    which Parse and FinishParse succeed and send the very same calls to the
    sink, provided the names are tag names other than root, anonymous and
    _list_..., the attribute values and texts are well-formed UTF-8 without
    the bytes the parser treats specially, the escaping leaves them as they
    are, and the elements, the anonymous elements of list values included,
    nest within max_recursion_depth. *)
Theorem written_elements_are_read_back
    (Escape : bytes -> bytes) (ind : bytes) (n : Node) (max : Z) :
  forallb ascii_isspace ind = true ->
  legal AtRoot n = true ->
  Z.of_nat (height n) <= max ->
  Forall (fun x => Escape x = x) (strings_of n) ->
  exists w,
    XmlObjectWriter.feed_all Escape (events_of n) (XmlObjectWriter.New ind)
    = Some w
    /\ XmlObjectWriter.stream_ w = document ind n
    /\ fst (ParseChunks [XmlObjectWriter.stream_ w]
              (set_max_recursion_depth max New)) = OkStatus
    /\ ow_ (snd (ParseChunks [XmlObjectWriter.stream_ w]
                   (set_max_recursion_depth max New))) = events_of n.
Proof.
  intros Hind Hlegal Hdepth Hesc.
  destruct (feed_node Escape ind
              (XmlObjectWriter.indent_char_ (XmlObjectWriter.New ind))
              (XmlObjectWriter.indent_count_ (XmlObjectWriter.New ind)) false
              n AtRoot (XmlObjectWriter.new_Element false false []) [] []
              false false []) as (e' & Hw & _);
    [repeat split|exact Hlegal|split; reflexivity|exact I|exact Hesc|].
  rewrite app_nil_r in Hw. rewrite <- New_writer in Hw.
  cbn [XmlObjectWriter.feed_all app length] in Hw.
  eexists. split; [exact Hw|]. cbn [XmlObjectWriter.stream_].
  split; [reflexivity|].
  change ("<"%byte :: node_body ind 0 AtRoot n ++ NewLine_bytes ind 0)
    with (document ind n).
  assert (Hwf : utf8_wf (document ind n)).
  { unfold document.
    apply utf8_wf_app; [apply ascii_wf; reflexivity|].
    apply utf8_wf_app;
      [apply (wf_node_body ind Hind n AtRoot), Hlegal|apply wf_NewLine, Hind]. }
  assert (Hne : document ind n <> []) by discriminate.
  assert (Hleads : leads max
            (mkConfig [BEGIN_ELEMENT] (document ind n) [] 0 [] [])
            (mkConfig [] (NewLine_bytes ind 0) (events_of n) 0 [] [])).
  { unfold document. cbn [B list_byte_of_string app].
    eapply leads_trans; [apply (leads_first_open_tag max []); reflexivity|].
    apply (leads_node ind max Hind n AtRoot 0%nat (NewLine_bytes ind 0) [] []
             0 [] [] Hlegal); [lia|reflexivity]. }
  destruct (ParseChunks_wf_leads_ws max (document ind n)
              (set_max_recursion_depth max New) (NewLine_bytes ind 0)
              (events_of n) 0 [] eq_refl Hne Hwf eq_refl eq_refl eq_refl
              (NewLine_bytes_space ind 0 Hind) Hleads) as (H1 & H2 & _).
  split; assumption.
Qed.

Lemma written_elements_are_read_back_witness :
  exists w,
    XmlObjectWriter.feed_all (fun v => v)
      (events_of
         (Elem [] [(B "k", B "v")] []
            [Elem (B "c") [(B "a", B "1")] (B "text") [];
             Lst (B "l")
               [Elem [] [] [] [Elem (B "d") [] [] []];
                Val [] (B "p1"); Val (B "n") (B "p2"); Lst [] []];
             Elem (B "e") [] [] []]))
      (XmlObjectWriter.New (B " "))
    = Some w
    /\ XmlObjectWriter.stream_ w
       = document (B " ")
           (Elem [] [(B "k", B "v")] []
              [Elem (B "c") [(B "a", B "1")] (B "text") [];
               Lst (B "l")
                 [Elem [] [] [] [Elem (B "d") [] [] []];
                  Val [] (B "p1"); Val (B "n") (B "p2"); Lst [] []];
               Elem (B "e") [] [] []])
    /\ fst (ParseChunks [XmlObjectWriter.stream_ w]
              (set_max_recursion_depth 100 New)) = OkStatus
    /\ ow_ (snd (ParseChunks [XmlObjectWriter.stream_ w]
                   (set_max_recursion_depth 100 New)))
       = events_of
           (Elem [] [(B "k", B "v")] []
              [Elem (B "c") [(B "a", B "1")] (B "text") [];
               Lst (B "l")
                 [Elem [] [] [] [Elem (B "d") [] [] []];
                  Val [] (B "p1"); Val (B "n") (B "p2"); Lst [] []];
               Elem (B "e") [] [] []]).
Proof.
  apply (written_elements_are_read_back (fun v => v) (B " ")
           (Elem [] [(B "k", B "v")] []
              [Elem (B "c") [(B "a", B "1")] (B "text") [];
               Lst (B "l")
                 [Elem [] [] [] [Elem (B "d") [] [] []];
                  Val [] (B "p1"); Val (B "n") (B "p2"); Lst [] []];
               Elem (B "e") [] [] []]) 100).
  - reflexivity.
  - vm_compute. reflexivity.
  - vm_compute. discriminate.
  - repeat constructor.
Defined.

Section AfterChild.
Import XmlObjectWriter.
Variable Escape : bytes -> bytes.
Variable ind : bytes.

Lemma feed_child_then c name value :
  c <> [] -> Escape value = value -> (name <> [] -> Escape name = name) ->
  exists w,
    feed_all Escape
      [ObjectWriter.StartObject []; ObjectWriter.StartObject c;
       ObjectWriter.EndObject; ObjectWriter.RenderString name value;
       ObjectWriter.EndObject] (New ind) = Some w
    /\ stream_ w
       = child_then ind c
           match name with
           | [] => ">"%byte :: value
           | _ :: _ => attribute (name, value)
           end.
Proof.
  intros Hc Ev Ek. rewrite New_writer.
  rewrite feed_all_cons. cbn [feed].
  rewrite (StartObject_writes Escape ind _ _ _ [] _ [] [] false false (B "root"))
    by reflexivity.
  cbn [bind]. rewrite feed_all_cons. cbn [feed].
  rewrite (StartObject_writes Escape ind _ _ _ c _ _ _ _ _ c)
    by (destruct c; [congruence|reflexivity]).
  cbn [bind]. rewrite feed_all_cons. cbn [feed].
  rewrite EndObject_writes by (try reflexivity; exact Hc).
  cbn [bind]. rewrite feed_all_cons. cbn [feed].
  destruct name as [|k0 k].
  - rewrite RenderString_text by (try reflexivity; exact Ev).
    cbn [bind]. rewrite feed_all_cons. cbn [feed].
    rewrite EndObject_writes by (try reflexivity; discriminate).
    cbn [bind feed_all]. eexists. split; [reflexivity|].
    cbn [stream_ name_ has_child_ with_child set_has_child_ set_has_text_
         set_has_attribute_ new_Element length app].
    unfold child_then, opener, closer.
    repeat (progress (rewrite <- ?app_assoc; cbn [app B list_byte_of_string])).
    reflexivity.
  - rewrite RenderString_attribute
      by (first [reflexivity|exact Ev|discriminate|apply Ek; discriminate]).
    cbn [bind]. rewrite feed_all_cons. cbn [feed].
    rewrite EndObject_writes by (try reflexivity; discriminate).
    cbn [bind feed_all]. eexists. split; [reflexivity|].
    cbn [stream_ name_ has_child_ with_child set_has_child_ set_has_text_
         set_has_attribute_ new_Element length app].
    unfold child_then, opener, closer.
    repeat (progress (rewrite <- ?app_assoc; cbn [app B list_byte_of_string])).
    reflexivity.
Qed.
End AfterChild.

Lemma parse_child_then ind c ws h body :
  forallb ascii_isspace ind = true ->
  plain_tag c = true -> bytes_eqb c (B "root") = false ->
  forallb ascii_isspace ws = true ->
  text_head h = true -> text_tail body = true -> utf8_wf (h :: body) ->
  fst (ParseChunks [child_then ind c (ws ++ h :: body)] New) = OkStatus
  /\ ow_ (snd (ParseChunks [child_then ind c (ws ++ h :: body)] New))
     = [StartObject []; StartObject c; EndObject;
        RenderString [] (h :: body ++ NewLine_bytes ind 0); EndObject].
Proof.
  intros Hind Hc Hroot Hws Hh Hbody Hwf.
  destruct (plain_tag_inv c Hc) as (Hn & Hl & Ha).
  pose proof (NewLine_bytes_space ind 0 Hind) as Hs0.
  pose proof (NewLine_bytes_space ind 1 Hind) as Hs1.
  destruct (ParseChunks_wf_leads_ws 100 (child_then ind c (ws ++ h :: body))
              New (NewLine_bytes ind 0)
              [StartObject []; StartObject c; EndObject;
               RenderString [] (h :: body ++ NewLine_bytes ind 0); EndObject]
              0 []) as (H1 & H2 & _);
    try reflexivity; try assumption; [discriminate| | |split; assumption].
  - unfold child_then.
    apply utf8_wf_app; [apply ascii_wf; reflexivity|].
    apply utf8_wf_app; [apply wf_NewLine, Hind|].
    apply utf8_wf_app; [apply ascii_wf, opener_ascii, Hc|].
    apply utf8_wf_app; [apply ascii_wf, closer_ascii, Hc|].
    apply utf8_wf_app;
      [apply utf8_wf_app; [apply ascii_wf, space_ascii, Hws|exact Hwf]|].
    apply utf8_wf_app; [apply wf_NewLine, Hind|].
    apply utf8_wf_app; [apply ascii_wf; reflexivity|apply wf_NewLine, Hind].
  - cbn [stack_ ow_ recursion_depth_ tag_name_stack_ element_type_stack_ New].
    unfold child_then.
    change (B "<root>") with (opener (B "root")).
    eapply leads_trans;
      [apply (leads_first_opener 100 (B "root")); [reflexivity|lia]|].
    unfold opener at 1. rewrite <- !app_assoc.
    cbn [B list_byte_of_string]. cbn [app].
    eapply leads_trans; [apply leads_open_tag; exact Hs1|].
    eapply leads_trans;
      [apply (leads_start_name 100 c ">"%byte); try assumption;
       [reflexivity|lia]|].
    eapply leads_trans; [apply leads_tag_close|].
    eapply leads_trans; [apply leads_closer; exact Hc|].
    replace (start_object_event c [(B "root", false)]) with (StartObject c)
      by (unfold start_object_event; cbn [snd]; rewrite Hroot; reflexivity).
    replace (h :: body ++ NewLine_bytes ind 0 ++ B "</root>"
             ++ NewLine_bytes ind 0)
      with (h :: (body ++ NewLine_bytes ind 0) ++ "<"%byte :: "/"%byte
            :: B "root" ++ ">"%byte :: NewLine_bytes ind 0)
      by (rewrite <- app_assoc; reflexivity).
    eapply leads_trans.
    { apply (leads_text 100 ws h (body ++ NewLine_bytes ind 0));
        [exact Hws|exact Hh|].
      unfold text_tail in *. rewrite forallb_app, Hbody. cbn [andb].
      apply forallb_forall. intros x Hx.
      pose proof (proj1 (forallb_forall _ _) Hs0 x Hx) as Hsp.
      destruct x; vm_compute in Hsp; try discriminate Hsp; reflexivity. }
    eapply leads_trans; [apply leads_end_element|].
    eapply leads_trans;
      [apply (leads_end_name 100 (B "root") ">"%byte); reflexivity|].
    apply leads_end_close.
Qed.
Lemma name_char_text c :
  IsAlphanumericOrHyphen c = true ->
  negb (Byte.eqb c "<"%byte) && negb (Byte.eqb c "&"%byte) = true.
Proof. intros H; destruct c; vm_compute in H; try discriminate H; reflexivity. Qed.

Lemma name_text k :
  is_name k = true ->
  exists k0 k', k = k0 :: k' /\ text_head k0 = true /\ text_tail k' = true.
Proof.
  intros Hk. destruct (is_name_letter k Hk) as (k0 & k' & -> & Hk0).
  exists k0, k'. split; [reflexivity|]. split.
  - destruct (letter_token k0 Hk0) as (Hsp & _ & Hlt & _).
    unfold text_head. rewrite Hsp, Hlt. reflexivity.
  - cbn [is_name] in Hk. apply andb_true_iff in Hk as [_ Hk].
    unfold text_tail. apply forallb_forall. intros x Hx.
    apply name_char_text. exact (proj1 (forallb_forall _ _) Hk x Hx).
Qed.

(** X20.  Attributes and text must be written before the children.  A
    RenderString call that follows a child object is written behind the
    closing tag of the child, a named one as name="value" and an unnamed
    one with the '>' that would close the opener; the parser accepts the
    document and delivers what was written there, up to the closing tag
    of the parent, as the text of the parent. *)
Theorem content_after_a_child_is_read_back_as_text
    (Escape : bytes -> bytes) (ind c name value : bytes) :
  forallb ascii_isspace ind = true ->
  plain_tag c = true -> bytes_eqb c (B "root") = false ->
  match name with [] => true | _ :: _ => is_name name end = true ->
  text_tail value = true -> IsStructurallyValidUTF8 value = true ->
  Escape value = value -> (name <> [] -> Escape name = name) ->
  exists w,
    XmlObjectWriter.feed_all Escape
      [StartObject []; StartObject c; EndObject; RenderString name value;
       EndObject] (XmlObjectWriter.New ind) = Some w
    /\ XmlObjectWriter.stream_ w
       = child_then ind c
           match name with
           | [] => ">"%byte :: value
           | _ :: _ => attribute (name, value)
           end
    /\ fst (ParseChunks [XmlObjectWriter.stream_ w] New) = OkStatus
    /\ ow_ (snd (ParseChunks [XmlObjectWriter.stream_ w] New))
       = [StartObject []; StartObject c; EndObject;
          RenderString []
            (match name with
             | [] => ">"%byte :: value
             | _ :: _ => name ++ B "=" ++ [x22] ++ value ++ [x22]
             end ++ NewLine_bytes ind 0);
          EndObject].
Proof.
  intros Hind Hc Hroot Hname Hvalue Hvalid Ev Ek.
  destruct (feed_child_then Escape ind c name value) as (w & Hw & Hs);
    [exact (plain_tag_nonempty c Hc)|exact Ev|exact Ek|].
  exists w. split; [exact Hw|]. split; [exact Hs|]. rewrite Hs.
  pose proof (proj1 (valid_wf value) Hvalid) as Wv.
  destruct name as [|k0 k].
  - apply (parse_child_then ind c [] ">"%byte value); try assumption;
      try reflexivity.
    change (">"%byte :: value) with ([">"%byte] ++ value).
    apply utf8_wf_app; [apply ascii_wf; reflexivity|exact Wv].
  - destruct (name_text (k0 :: k) Hname) as (h & k' & E & Hh & Hk').
    injection E as <- <-.
    pose proof (parse_child_then ind c [" "%byte] k0
                  (k ++ B "=" ++ [x22] ++ value ++ [x22]) Hind Hc Hroot
                  eq_refl Hh) as H.
    unfold attribute. cbn [fst snd].
    replace ((k0 :: k) ++ B "=" ++ [x22] ++ value ++ [x22])
      with (k0 :: k ++ B "=" ++ [x22] ++ value ++ [x22]) by reflexivity.
    replace (B " " ++ (k0 :: k) ++ B "=" ++ [x22] ++ value ++ [x22])
      with ([" "%byte] ++ k0 :: k ++ B "=" ++ [x22] ++ value ++ [x22])
      by reflexivity.
    apply H.
    + unfold text_tail in *. rewrite !forallb_app, Hk', Hvalue. reflexivity.
    + change (k0 :: k ++ B "=" ++ [x22] ++ value ++ [x22])
        with ((k0 :: k) ++ B "=" ++ [x22] ++ value ++ [x22]).
      apply utf8_wf_app; [apply ascii_wf, is_name_ascii, Hname|].
      apply utf8_wf_app; [apply ascii_wf; reflexivity|].
      apply utf8_wf_app; [apply ascii_wf; reflexivity|].
      apply utf8_wf_app; [exact Wv|apply ascii_wf; reflexivity].
Qed.

Lemma content_after_a_child_is_read_back_as_text_witness :
  exists w,
    XmlObjectWriter.feed_all (fun v => v)
      [StartObject []; StartObject (B "c"); EndObject;
       RenderString (B "k") (B "v"); EndObject] (XmlObjectWriter.New [])
    = Some w
    /\ XmlObjectWriter.stream_ w
       = child_then [] (B "c") (attribute (B "k", B "v"))
    /\ fst (ParseChunks [XmlObjectWriter.stream_ w] New) = OkStatus
    /\ ow_ (snd (ParseChunks [XmlObjectWriter.stream_ w] New))
       = [StartObject []; StartObject (B "c"); EndObject;
          RenderString []
            ((B "k" ++ B "=" ++ [x22] ++ B "v" ++ [x22]) ++ NewLine_bytes [] 0);
          EndObject].
Proof.
  apply (content_after_a_child_is_read_back_as_text (fun v => v) [] (B "c")
           (B "k") (B "v")); reflexivity.
Defined.

Lemma ParseChunks_wf_returns max xml st r ow :
  leftover_ st = [] -> xml <> [] -> utf8_wf xml ->
  string_open_ st = x00 -> parsed_storage_ st = [] ->
  max_recursion_depth_ st = max ->
  returns max
    (mkConfig (stack_ st) xml (ow_ st) (recursion_depth_ st)
       (tag_name_stack_ st) (element_type_stack_ st)) r ow ->
  ok r = false ->
  fst (ParseChunks [xml] st) = r /\ ow_ (snd (ParseChunks [xml] st)) = ow.
Proof.
  intros Hl Hne Ha Hso Hps Hm Hret Hok.
  destruct (ready_start max xml st Hso Hps Hm) as [Hr Hc].
  destruct (Hret _ Hr Hc) as [H1 H2].
  cbn [ParseChunks]. rewrite (Parse_wf xml st Hl Hne Ha).
  unfold ParseChunk. destruct xml as [|c xml]; [congruence|].
  destruct (RunParser _) as [r0 st2]. cbn [fst snd] in H1, H2. subst r0.
  rewrite Hok. cbn [negb]. rewrite Hok. cbn [fst snd].
  split; [reflexivity|]. destruct st2; exact H2.
Qed.

Lemma returns_slash_at_start max rest ow d tags kinds :
  returns max (mkConfig [START_TAG] ("/"%byte :: rest) ow d tags kinds)
    Undefined ow.
Proof.
  intros st (Hf & Hso & Hps & Hm) Hcfg. unfold config in Hcfg.
  injection Hcfg as Hs Hp Ho Hd Ht Hk.
  unfold RunParser. cbn [RunParser_fuel]. rewrite Hs.
  unfold RunParser_round.
  rewrite (next_token_slash START_TAG [] rest st ltac:(discriminate)
             Hso eq_refl Hp).
  cbn [dispatch ParseStartTag]. unfold ParseEndElementMid.
  rewrite (Advance_one _ "/"%byte rest) by (destruct st; reflexivity).
  replace (stack_ (set_p_ rest _)) with (@nil ParseType)
    by (destruct st; reflexivity).
  cbn [ok IsCancelled andb]. rewrite andb_false_r. cbn [fst snd].
  split; [reflexivity|destruct st; exact Ho].
Qed.

(** X21.  A closing tag with no element open leaves the contract of the
    code.  When the first tag of a document is a closing tag, the slash is
    handled by ParseEndElementMid(), which reads the top of the parser
    stack; the stack is empty then, and stack_.top() on an empty stack is
    undefined.  The sink has received nothing. *)
Theorem closing_tag_at_the_start_reads_an_empty_stack ws rest :
  forallb ascii_isspace ws = true -> utf8_wf rest ->
  fst (ParseChunks [ws ++ B "</" ++ rest] New) = Undefined
  /\ ow_ (snd (ParseChunks [ws ++ B "</" ++ rest] New)) = [].
Proof.
  intros Hws Hrest.
  apply (ParseChunks_wf_returns 100 _ New); try reflexivity.
  - destruct ws; discriminate.
  - apply utf8_wf_app; [apply ascii_wf, space_ascii, Hws|].
    apply utf8_wf_app; [apply ascii_wf; reflexivity|exact Hrest].
  - cbn [stack_ ow_ recursion_depth_ tag_name_stack_ element_type_stack_ New
         B list_byte_of_string app].
    eapply leads_returns; [apply leads_first_open_tag; exact Hws|].
    apply returns_slash_at_start.
Qed.

Lemma closing_tag_at_the_start_reads_an_empty_stack_witness :
  fst (ParseChunks [B "</a>"] New) = Undefined.
Proof.
  assert (Hws : forallb ascii_isspace [] = true) by reflexivity.
  assert (Hr : utf8_wf (B "a>")) by (apply ascii_wf; reflexivity).
  exact (proj1 (closing_tag_at_the_start_reads_an_empty_stack [] (B "a>")
                  Hws Hr)).
Defined.

Lemma hex_digit_to_int_value c :
  isxdigit c = true ->
  hex_digit_to_int c = hex_digit_value c /\ 0 <= hex_digit_value c < 16.
Proof.
  intros H. destruct c; try discriminate H; vm_compute; repeat split;
    congruence.
Qed.

Lemma hex_code_value ds : forall code,
  forallb isxdigit ds = true ->
  hex_code ds code
  = Some (fold_left (fun acc d => acc * 16 + hex_digit_value d) ds code).
Proof.
  induction ds as [|d ds IH]; intros code H; [reflexivity|].
  cbn [forallb] in H. apply andb_true_iff in H as [Hd H].
  cbn [hex_code fold_left]. rewrite Hd, (IH _ H).
  rewrite (proj1 (hex_digit_to_int_value d Hd)), Z.shiftl_mul_pow2 by lia.
  reflexivity.
Qed.

Lemma is_hex4_inv ds :
  is_hex4 ds = true ->
  exists d1 d2 d3 d4, ds = [d1; d2; d3; d4] /\ forallb isxdigit ds = true
    /\ 0 <= hex_value ds < 65536.
Proof.
  unfold is_hex4. intros H. apply andb_true_iff in H as [Hl Hx].
  apply Nat.eqb_eq in Hl.
  destruct ds as [|d1 [|d2 [|d3 [|d4 [|]]]]]; try discriminate Hl.
  exists d1, d2, d3, d4. split; [reflexivity|]. split; [exact Hx|].
  cbn [forallb] in Hx.
  apply andb_true_iff in Hx as [H1 Hx]. apply andb_true_iff in Hx as [H2 Hx].
  apply andb_true_iff in Hx as [H3 Hx]. apply andb_true_iff in Hx as [H4 _].
  pose proof (proj2 (hex_digit_to_int_value d1 H1)).
  pose proof (proj2 (hex_digit_to_int_value d2 H2)).
  pose proof (proj2 (hex_digit_to_int_value d3 H3)).
  pose proof (proj2 (hex_digit_to_int_value d4 H4)).
  unfold hex_value. cbn [fold_left]. lia.
Qed.
Lemma lor_shiftl_add a b k :
  0 <= k -> 0 <= b < 2 ^ k -> Z.lor (Z.shiftl a k) b = a * 2 ^ k + b.
Proof.
  intros Hk Hb.
  assert (H0 : Z.land (Z.shiftl a k) b = 0).
  { apply Z.bits_inj'. intros n Hn. rewrite Z.land_spec, Z.bits_0.
    destruct (Z.ltb_spec n k) as [Hlt|Hge].
    - rewrite (Z.shiftl_spec_low a k n Hlt). reflexivity.
    - rewrite <- (Z.mod_small b (2 ^ k)) by lia.
      rewrite (Z.mod_pow2_bits_high b k n) by lia. apply andb_false_r. }
  rewrite <- (Z.lxor_lor _ _ H0), <- (Z.add_nocarry_lxor _ _ H0).
  rewrite Z.shiftl_mul_pow2 by lia. reflexivity.
Qed.

Lemma field_of_code cp s w :
  0 <= s -> 0 <= w ->
  Z.shiftr (Z.land cp (Z.shiftl (Z.ones w) s)) s = (cp / 2 ^ s) mod 2 ^ w.
Proof.
  intros Hs Hw. rewrite Z.shiftr_land, (Z.shiftr_shiftl_l _ s s Hs).
  rewrite Z.sub_diag, Z.shiftl_0_r, (Z.land_ones _ w Hw).
  rewrite (Z.shiftr_div_pow2 _ s Hs). reflexivity.
Qed.

(** The bytes of [EncodeAsUTF8Char] in arithmetic. *)
Lemma EncodeAsUTF8Char_bytes cp :
  0 <= cp ->
  EncodeAsUTF8Char cp
  = if cp <=? 127 then [byte_of_Z cp]
    else if cp <=? 2047 then
      [byte_of_Z (192 + (cp / 64) mod 32); byte_of_Z (128 + cp mod 64)]
    else if cp <=? 65535 then
      [byte_of_Z (224 + (cp / 4096) mod 16);
       byte_of_Z (128 + (cp / 64) mod 64); byte_of_Z (128 + cp mod 64)]
    else
      [byte_of_Z (240 + (cp / 262144) mod 8);
       byte_of_Z (128 + (cp / 4096) mod 64);
       byte_of_Z (128 + (cp / 64) mod 64); byte_of_Z (128 + cp mod 64)].
Proof.
  intros Hcp. unfold EncodeAsUTF8Char.
  change 1984 with (Z.shiftl (Z.ones 5) 6).
  change 61440 with (Z.shiftl (Z.ones 4) 12).
  change 4032 with (Z.shiftl (Z.ones 6) 6).
  change 1835008 with (Z.shiftl (Z.ones 3) 18).
  change 258048 with (Z.shiftl (Z.ones 6) 12).
  rewrite !field_of_code by lia.
  change 63 with (Z.ones 6). rewrite (Z.land_ones cp 6) by lia.
  change (Z.lor 192) with (Z.lor (Z.shiftl 3 6)).
  change (Z.lor 128) with (Z.lor (Z.shiftl 2 6)).
  change (Z.lor 224) with (Z.lor (Z.shiftl 14 4)).
  change (Z.lor 240) with (Z.lor (Z.shiftl 30 3)).
  change (2 ^ 6) with 64. change (2 ^ 12) with 4096.
  change (2 ^ 18) with 262144. change (2 ^ 5) with 32.
  change (2 ^ 4) with 16. change (2 ^ 3) with 8.
  pose proof (Z.mod_pos_bound cp 64 ltac:(lia)).
  pose proof (Z.mod_pos_bound (cp / 64) 32 ltac:(lia)).
  pose proof (Z.mod_pos_bound (cp / 64) 64 ltac:(lia)).
  pose proof (Z.mod_pos_bound (cp / 4096) 16 ltac:(lia)).
  pose proof (Z.mod_pos_bound (cp / 4096) 64 ltac:(lia)).
  pose proof (Z.mod_pos_bound (cp / 262144) 8 ltac:(lia)).
  rewrite (lor_shiftl_add 3 ((cp / 64) mod 32) 6) by lia.
  rewrite !(lor_shiftl_add 2 _ 6) by lia.
  rewrite (lor_shiftl_add 14 _ 4) by lia.
  rewrite (lor_shiftl_add 30 _ 3) by lia.
  reflexivity.
Qed.

Lemma utf8_char_len_bytes (l : list Z) :
  Forall (fun z => 0 <= z < 256) l ->
  match l with
  | [a] => a <= 127
  | [a; b] => 194 <= a <= 223 /\ 128 <= b <= 191
  | [a; b; c] =>
    224 <= a <= 239 /\ 128 <= b <= 191 /\ 128 <= c <= 191
    /\ (a = 224 -> 160 <= b) /\ (a = 237 -> b <= 159)
  | [a; b; c; d] =>
    240 <= a <= 244 /\ 128 <= b <= 191 /\ 128 <= c <= 191 /\ 128 <= d <= 191
    /\ (a = 240 -> 144 <= b) /\ (a = 244 -> b <= 143)
  | _ => False
  end ->
  utf8_wf (map byte_of_Z l).
Proof.
  intros Hb H.
  assert (Hlen : utf8_char_len (map byte_of_Z l) = length l).
  { destruct l as [|a [|b [|c [|d [|]]]]]; try contradiction;
      repeat match goal with
             | Hf : Forall _ (_ :: _) |- _ =>
               let Hx := fresh "Hx" in
               pose proof (Forall_inv Hf) as Hx; cbv beta in Hx;
               apply Forall_inv_tail in Hf
             end;
      cbn [map utf8_char_len length]; unfold in_range;
      rewrite ?u8_byte_of_Z by lia;
      repeat match goal with
             | |- context [?x <=? ?y] =>
               destruct (Z.leb_spec x y); try lia
             end; reflexivity. }
  destruct l as [|a l]; [contradiction|].
  apply (wf_char _ (length l)); [exact Hlen|].
  cbn [map]. change (S (length l)) with (length (a :: l)).
  rewrite <- (length_map byte_of_Z (a :: l)). cbn [map].
  rewrite skipn_all. apply wf_nil.
Qed.

(** A code point that passes [IsValidCodePoint] is encoded as one
    well-formed character. *)
Lemma EncodeAsUTF8Char_wf cp :
  0 <= cp -> IsValidCodePoint cp = true -> utf8_wf (EncodeAsUTF8Char cp).
Proof.
  intros Hcp Hv. rewrite (EncodeAsUTF8Char_bytes cp Hcp).
  unfold IsValidCodePoint in Hv.
  assert (Hr : cp < 55296 \/ 57344 <= cp <= 1114111).
  { apply orb_true_iff in Hv as [Hv|Hv]; [left; lia|right].
    apply andb_true_iff in Hv. lia. }
  clear Hv.
  destruct (Z.leb_spec cp 127); [|destruct (Z.leb_spec cp 2047);
    [|destruct (Z.leb_spec cp 65535)]].
  - apply (utf8_char_len_bytes [cp]); [repeat constructor; lia|lia].
  - apply (utf8_char_len_bytes [192 + (cp / 64) mod 32; 128 + cp mod 64]).
    + repeat constructor; Z.div_mod_to_equations; lia.
    + Z.div_mod_to_equations; lia.
  - apply (utf8_char_len_bytes
             [224 + (cp / 4096) mod 16; 128 + (cp / 64) mod 64;
              128 + cp mod 64]).
    + repeat constructor; Z.div_mod_to_equations; lia.
    + Z.div_mod_to_equations; lia.
  - apply (utf8_char_len_bytes
             [240 + (cp / 262144) mod 8; 128 + (cp / 4096) mod 64;
              128 + (cp / 64) mod 64; 128 + cp mod 64]).
    + repeat constructor; Z.div_mod_to_equations; lia.
    + Z.div_mod_to_equations; lia.
Qed.
Lemma flush_run_storage run st :
  flush_run run st = set_parsed_storage_ (parsed_storage_ st ++ run) st.
Proof.
  unfold flush_run, append_parsed_storage. destruct run; [|reflexivity].
  rewrite app_nil_r. destruct st; reflexivity.
Qed.

Lemma ParseUnicodeEscape_code ds tail st :
  is_hex4 ds = true -> IsValidCodePoint (hex_value ds) = true ->
  p_ st = B "\u" ++ ds ++ tail ->
  ParseUnicodeEscape st
  = (OkStatus,
     set_p_ tail
       (set_parsed_storage_
          (parsed_storage_ st ++ EncodeAsUTF8Char (hex_value ds)) st)).
Proof.
  intros Hds Hv Hp.
  destruct (is_hex4_inv ds Hds) as (d1 & d2 & d3 & d4 & -> & Hx & Hb).
  change (B "\u") with ["\"%byte; "u"%byte] in Hp. cbn [app] in Hp.
  unfold ParseUnicodeEscape. rewrite Hp.
  cbn [length Nat.ltb Nat.leb kUnicodeEscapedLength skipn firstn].
  rewrite (hex_code_value _ 0 Hx). fold (hex_value [d1; d2; d3; d4]).
  unfold IsValidCodePoint in Hv.
  replace ((kMinHighSurrogate <=? hex_value [d1; d2; d3; d4])
           && (hex_value [d1; d2; d3; d4] <=? kMaxHighSurrogate)) with false
    by (unfold kMinHighSurrogate, kMaxHighSurrogate;
        apply orb_true_iff in Hv as [Hv|Hv];
        [|apply andb_true_iff in Hv]; symmetry; apply andb_false_iff; lia).
  unfold ParseUnicodeEscape_finish.
  replace (IsValidCodePoint (hex_value [d1; d2; d3; d4])) with true
    by (symmetry; exact Hv).
  rewrite andb_false_r. unfold remove_prefix, append_parsed_storage.
  rewrite Hp. destruct st; reflexivity.
Qed.

Lemma pair_code_point high low :
  kMinHighSurrogate <= high <= kMaxHighSurrogate ->
  kMinLowSurrogate <= low <= kMaxLowSurrogate ->
  Z.lor (Z.shiftl (Z.land high 1023) 10) (Z.land low 1023)
  + kMinSupplementaryCodePoint
  = kMinSupplementaryCodePoint + (high - kMinHighSurrogate) * 1024
    + (low - kMinLowSurrogate).
Proof.
  unfold kMinHighSurrogate, kMaxHighSurrogate, kMinLowSurrogate,
    kMaxLowSurrogate, kMinSupplementaryCodePoint.
  intros Hh Hl. change 1023 with (Z.ones 10).
  rewrite !Z.land_ones by lia. change (2 ^ 10) with 1024.
  rewrite (lor_shiftl_add (high mod 1024) (low mod 1024) 10)
    by (try lia; change (2 ^ 10) with 1024; apply Z.mod_pos_bound; lia).
  change (2 ^ 10) with 1024. Z.div_mod_to_equations. lia.
Qed.

Lemma ParseUnicodeEscape_pair high low tail st :
  esc_ok (EPair high low) = true ->
  p_ st = B "\u" ++ high ++ B "\u" ++ low ++ tail ->
  ParseUnicodeEscape st
  = (OkStatus,
     set_p_ tail
       (set_parsed_storage_
          (parsed_storage_ st ++ EncodeAsUTF8Char (code_point (EPair high low)))
          st)).
Proof.
  intros Hok Hp. cbn [esc_ok] in Hok.
  apply andb_true_iff in Hok as [Hok L2]. apply andb_true_iff in Hok as [Hok L1].
  apply andb_true_iff in Hok as [Hok H2]. apply andb_true_iff in Hok as [Hok H1].
  apply andb_true_iff in Hok as [Hh Hl].
  destruct (is_hex4_inv high Hh) as (d1 & d2 & d3 & d4 & -> & Hxh & Hbh).
  destruct (is_hex4_inv low Hl) as (e1 & e2 & e3 & e4 & -> & Hxl & Hbl).
  change (B "\u") with ["\"%byte; "u"%byte] in Hp. cbn [app] in Hp.
  unfold ParseUnicodeEscape. rewrite Hp.
  cbn [length Nat.ltb Nat.leb kUnicodeEscapedLength skipn firstn Nat.mul
         Nat.add nth].
  rewrite (hex_code_value _ 0 Hxh). fold (hex_value [d1; d2; d3; d4]).
  rewrite H1, H2. cbn [andb].
  change (Byte.eqb "\"%byte "\"%byte) with true.
  change (Byte.eqb "u"%byte "u"%byte) with true. cbn [andb].
  rewrite (hex_code_value _ 0 Hxl). fold (hex_value [e1; e2; e3; e4]).
  rewrite L1, L2. cbn [andb].
  apply Z.leb_le in H1, H2, L1, L2.
  rewrite (pair_code_point _ _ (conj H1 H2) (conj L1 L2)).
  unfold ParseUnicodeEscape_finish. cbn [code_point].
  replace (IsValidCodePoint _) with true.
  2:{ symmetry. unfold IsValidCodePoint. apply orb_true_iff. right.
      unfold kMinHighSurrogate, kMaxHighSurrogate, kMinLowSurrogate,
        kMaxLowSurrogate, kMinSupplementaryCodePoint in *.
      apply andb_true_iff. lia. }
  rewrite andb_false_r. unfold remove_prefix, append_parsed_storage.
  replace (p_ (set_p_ _ st)) with (skipn 6 (p_ st)) by (destruct st; reflexivity).
  rewrite Hp. destruct st; reflexivity.
Qed.

(** A round of the loop of ParseStringHelper at an escape. *)
Lemma ParseStringHelper_loop_escape e :
  esc_ok e = true ->
  forall m run st tail,
  p_ st = esc_source e ++ tail ->
  ParseStringHelper_loop (S m) run st
  = ParseStringHelper_loop m []
      (set_p_ tail
         (set_parsed_storage_ (parsed_storage_ st ++ run ++ esc_decoded e) st)).
Proof.
  intros Hok m run st tail Hp.
  assert (Hp1 : p_ (flush_run run st) = esc_source e ++ tail)
    by (rewrite flush_run_storage; destruct st; exact Hp).
  assert (Hs1 : parsed_storage_ (flush_run run st) = parsed_storage_ st ++ run)
    by (rewrite flush_run_storage; destruct st; reflexivity).
  assert (Hst : forall dec,
            set_p_ tail
              (set_parsed_storage_ (parsed_storage_ (flush_run run st) ++ dec)
                 (flush_run run st))
            = set_p_ tail
                (set_parsed_storage_ (parsed_storage_ st ++ run ++ dec) st)).
  { intros dec. rewrite Hs1, <- app_assoc, flush_run_storage.
    destruct st; reflexivity. }
  cbn [ParseStringHelper_loop]. rewrite Hp.
  destruct e as [c|ds|high low].
  - cbn [esc_ok] in Hok. apply andb_true_iff in Hok as [_ Hu].
    apply negb_true_iff in Hu.
    cbn [esc_source app]. change (Byte.eqb "\"%byte "\"%byte) with true.
    cbv iota. rewrite Hp1. cbn [esc_source app length Nat.eqb nth].
    rewrite Hu. f_equal. cbn [esc_decoded]. rewrite <- Hst.
    unfold remove_prefix, append_parsed_storage.
    replace (p_ (set_parsed_storage_ _ (flush_run run st)))
      with ("\"%byte :: c :: tail)
      by (destruct (flush_run run st); cbn in *; congruence).
    cbn [skipn]. destruct (flush_run run st); reflexivity.
  - cbn [esc_ok] in Hok. apply andb_true_iff in Hok as [Hds Hv].
    destruct (is_hex4_inv ds Hds) as (d1 & d2 & d3 & d4 & Eds & _).
    cbn [esc_source] in Hp1 |- *.
    change (B "\u") with ["\"%byte; "u"%byte] in Hp1 |- *.
    cbn [app] in Hp1 |- *.
    change (Byte.eqb "\"%byte "\"%byte) with true. cbv iota.
    rewrite Hp1. cbn [length Nat.eqb nth].
    change (Byte.eqb "u"%byte "u"%byte) with true. cbv iota.
    rewrite (ParseUnicodeEscape_code ds tail (flush_run run st) Hds Hv Hp1).
    cbn [ok negb]. rewrite Hst. reflexivity.
  - pose proof Hok as Hok'. cbn [esc_ok] in Hok.
    apply andb_true_iff in Hok as [Hok _]. apply andb_true_iff in Hok as [Hok _].
    apply andb_true_iff in Hok as [Hok _]. apply andb_true_iff in Hok as [Hok _].
    apply andb_true_iff in Hok as [Hh Hl].
    destruct (is_hex4_inv high Hh) as (d1 & d2 & d3 & d4 & Eh & _).
    cbn [esc_source] in Hp1 |- *.
    change (B "\u") with ["\"%byte; "u"%byte] in Hp1 |- *.
    cbn [app] in Hp1 |- *.
    change (Byte.eqb "\"%byte "\"%byte) with true. cbv iota.
    rewrite Hp1. cbn [length Nat.eqb nth].
    change (Byte.eqb "u"%byte "u"%byte) with true. cbv iota.
    rewrite (ParseUnicodeEscape_pair high low tail (flush_run run st) Hok')
      by (rewrite Hp1, <- !app_assoc; reflexivity).
    cbn [ok negb]. rewrite Hst. reflexivity.
Qed.
Lemma esc_source_length e : (2 <= length (esc_source e))%nat.
Proof.
  destruct e; cbn [esc_source]; [cbn; lia| |];
    change (B "\u") with ["\"%byte; "u"%byte]; cbn [app length]; lia.
Qed.

Lemma ParseStringHelper_loop_quoted q segs :
  is_quote q = true ->
  forallb (seg_ok q) segs = true ->
  forall v0 n run st rest,
  plain_value q v0 = true ->
  p_ st = quoted_source v0 segs ++ q :: rest -> string_open_ st = q ->
  (length (p_ st) <= n)%nat ->
  exists storage,
    ParseStringHelper_loop n run st
    = (OkStatus,
       set_p_ rest
         (set_string_open_ x00
            (set_parsed_ (parsed_storage_ st ++ run ++ quoted_meaning v0 segs)
               (set_parsed_storage_ storage st)))).
Proof.
  intros Hq. induction segs as [|[e v1] segs IH];
    intros Hsegs v0 n run st rest Hv0 Hp Hso Hn.
  - unfold quoted_source, quoted_meaning in *. cbn [map concat] in *.
    exact (ParseStringHelper_loop_value q [] Hq eq_refl v0 n run st rest Hv0
             Hp Hso Hn).
  - destruct (plain_value_inv q v0 Hv0) as [Hwf Hbytes].
    cbn [forallb] in Hsegs. apply andb_true_iff in Hsegs as [He Hsegs].
    unfold seg_ok in He. cbn [fst snd] in He.
    apply andb_true_iff in He as [He Hv1].
    unfold quoted_source in Hp. cbn [map concat fst snd] in Hp.
    rewrite <- !app_assoc in Hp.
    fold (quoted_source v1 segs) in Hp.
    set (tail := quoted_source v1 segs ++ q :: rest) in *.
    assert (Hp' : p_ st = v0 ++ esc_source e ++ tail).
    { rewrite Hp. subst tail. unfold quoted_source.
      rewrite <- !app_assoc. reflexivity. }
    clear Hp.
    destruct (ParseStringHelper_loop_run q v0 Hwf Hbytes n run st _ Hp' Hso)
      as (m & Hm & E).
    { rewrite Hp', length_app in Hn.
      exact (Nat.le_trans _ _ _ (Nat.le_add_r _ _) Hn). }
    rewrite E.
    pose proof (esc_source_length e) as Hlen.
    assert (Hm2 : (S (S (length tail)) <= m)%nat)
      by (rewrite Hp', !length_app in Hn; lia).
    destruct m as [|m]; [lia|].
    rewrite (ParseStringHelper_loop_escape e He m (run ++ v0)
               (set_p_ (esc_source e ++ tail) st) tail)
      by (destruct st; reflexivity).
    set (st2 := set_p_ tail _).
    destruct (IH Hsegs v1 m [] st2 rest Hv1) as (storage & E2).
    { subst st2. destruct st; reflexivity. }
    { subst st2. destruct st; exact Hso. }
    { subst st2. replace (p_ (set_p_ tail _)) with tail
        by (destruct st; reflexivity). lia. }
    rewrite E2. exists storage. f_equal.
    unfold quoted_meaning. cbn [map concat fst snd app].
    subst st2. destruct st; cbn [parsed_storage_ set_p_ set_parsed_storage_
      set_string_open_ set_parsed_]. rewrite <- !app_assoc. reflexivity.
Qed.

Lemma leads_attribute_quoted max k q v0 segs rest K ow d tags kinds :
  is_name k = true -> is_quote q = true ->
  plain_value q v0 = true -> forallb (seg_ok q) segs = true ->
  leads max
    (mkConfig (BEGIN_ELEMENT_MID :: K)
       (" "%byte :: k ++ "="%byte :: q :: quoted_source v0 segs ++ q :: rest)
       ow d tags kinds)
    (mkConfig (BEGIN_ELEMENT_MID :: K) rest
       (ow ++ [RenderString k (quoted_meaning v0 segs)]) d tags kinds).
Proof.
  intros Hk Hq Hv0 Hsegs.
  destruct (quote_cases q Hq) as (Hq1 & Hq2 & Hq3 & _).
  destruct (is_name_letter k Hk) as (c0 & kr & Hkeq & Hc0).
  destruct (letter_token c0 Hc0) as (Hsp & _).
  intros st (Hf & Hso & Hps & Hm) Hcfg. unfold config in Hcfg.
  injection Hcfg as Hs Hp Ho Hd Ht Hkd.
  set (raw := quoted_source v0 segs) in *.
  set (tail := "="%byte :: q :: raw ++ q :: rest) in *.
  (* the separator *)
  set (st1 := push ATTR_KEY (set_p_ (k ++ tail)
                (set_stack_ K (set_seen_non_whitespace_ true st)))).
  assert (Hr1 : RunParser_round BEGIN_ELEMENT_MID K st = inl st1).
  { unfold RunParser_round.
    rewrite (next_token_mid_space c0 (kr ++ tail) st Hso Hsp)
      by (rewrite Hp, Hkeq; reflexivity).
    cbn [dispatch ParseBeginElementMid].
    rewrite (Advance_one _ " "%byte (k ++ tail))
      by (try reflexivity; destruct st; cbn in *; congruence).
    cbn [ok]. subst st1. destruct st; reflexivity. }
  (* the key *)
  set (st2 := push ATTR_MID (set_key_storage_ [] (set_key_ k (set_p_ tail
                (set_stack_ K (set_seen_non_whitespace_ true st1)))))).
  assert (Hr2 : RunParser_round ATTR_KEY K st1 = inl st2).
  { unfold RunParser_round.
    rewrite (next_token_name ATTR_KEY k "="%byte (q :: raw ++ q :: rest) st1
               ltac:(discriminate))
      by (try exact Hk; subst st1 tail; destruct st; cbn in *;
          first [reflexivity|congruence]).
    cbn [dispatch ParseAttrKey]. unfold ParseKey.
    replace (p_ (set_stack_ K (set_seen_non_whitespace_ true st1)))
      with (k ++ tail) by (subst st1; destruct st; reflexivity).
    subst tail. rewrite (ConsumeKey_name k "="%byte _ Hk eq_refl).
    subst st2 st1. destruct st; cbn in Hf; subst. reflexivity. }
  (* the equal sign *)
  set (st3 := push ATTR_VALUE (set_p_ (q :: raw ++ q :: rest)
                (set_stack_ K (set_seen_non_whitespace_ true st2)))).
  assert (Hr3 : RunParser_round ATTR_MID K st2 = inl st3).
  { unfold RunParser_round.
    rewrite (next_token_equal ATTR_MID (q :: raw ++ q :: rest) st2
               ltac:(discriminate))
      by (subst st2 st1 tail; destruct st; cbn in *;
          first [reflexivity|congruence]).
    cbn [dispatch ParseAttrMid].
    rewrite (Advance_one _ "="%byte (q :: raw ++ q :: rest))
      by (try reflexivity; subst st2 st1 tail; destruct st; reflexivity).
    cbn [ok]. subst st3. destruct st2; reflexivity. }
  (* the value *)
  set (s := set_stack_ K (set_seen_non_whitespace_ true st3)).
  assert (Hs1 : string_open_ s = x00)
    by (subst s st3 st2 st1 tail; destruct st; cbn in *; congruence).
  assert (Hs2 : p_ s = q :: raw ++ q :: rest)
    by (subst s st3 st2 st1 tail; destruct st; reflexivity).
  assert (Hs3 : parsed_storage_ s = [])
    by (subst s st3 st2 st1 tail; destruct st; cbn in *; congruence).
  set (s1 := set_p_ (raw ++ q :: rest) (set_string_open_ q s)).
  destruct (ParseStringHelper_loop_quoted q segs Hq Hsegs v0
              (length (p_ s1)) [] s1 rest Hv0) as (storage & Eloop);
    [subst s1; destruct s; reflexivity|subst s1; destruct s; reflexivity
    |apply Nat.le_refl|].
  replace (parsed_storage_ s1) with (@nil byte) in Eloop
    by (subst s1; destruct s; cbn in *; congruence).
  cbn [app] in Eloop.
  set (st4 := push BEGIN_ELEMENT_MID
                (set_parsed_storage_ []
                   (set_key_storage_ []
                      (set_parsed_ []
                         (set_key_ []
                            (emit (RenderString k (quoted_meaning v0 segs))
                               (set_p_ rest
                                  (set_string_open_ x00
                                     (set_parsed_ (quoted_meaning v0 segs)
                                        (set_parsed_storage_ storage s1)))))))))).
  assert (Hr4 : RunParser_round ATTR_VALUE K st3 = inl st4).
  { unfold RunParser_round.
    rewrite (next_token_any_quote ATTR_VALUE q (raw ++ q :: rest) st3
               ltac:(discriminate))
      by (try exact Hq; subst st3 st2 st1 tail; destruct st; cbn in *;
          first [reflexivity|congruence]).
    cbn [dispatch ParseAttrValue]. unfold ParseStringHelper.
    fold s. rewrite Hs1. change (Byte.eqb x00 x00) with true. cbv iota.
    rewrite Hs2.
    rewrite (Advance_one _ q (raw ++ q :: rest))
      by (try exact Hq2; destruct s; cbn in *; congruence).
    replace (set_p_ (raw ++ q :: rest) (set_string_open_ q s)) with s1
      by reflexivity.
    rewrite Eloop. cbn [ok].
    subst st4 s1 s st3 st2 st1. destruct st; cbn in *; subst. reflexivity. }
  exists st4. split.
  - eapply runs_step; [exact Hs|exact Hr1|].
    eapply runs_step; [subst st1; destruct st; reflexivity|exact Hr2|].
    eapply runs_step; [subst st2 st1; destruct st; reflexivity|exact Hr3|].
    eapply runs_step; [subst st3 st2 st1; destruct st; reflexivity|exact Hr4|].
    apply runs_refl.
  - subst st4 s1 s st3 st2 st1. destruct st; cbn in *; subst.
    split; [repeat split|reflexivity].
Qed.

Lemma esc_ok_cases e :
  esc_ok e = true ->
  forallb is_ascii (esc_source e) = true /\ utf8_wf (esc_decoded e).
Proof.
  intros Hok. destruct e as [c|ds|high low]; cbn [esc_ok] in Hok.
  - apply andb_true_iff in Hok as [Hc _]. split.
    + cbn [esc_source forallb]. rewrite Hc. reflexivity.
    + apply ascii_wf. cbn [esc_decoded forallb]. rewrite andb_true_r.
      unfold escaped_char.
      repeat match goal with
             | |- context [if ?b then _ else _] => destruct b; [reflexivity|]
             end.
      exact Hc.
  - apply andb_true_iff in Hok as [Hds Hv].
    destruct (is_hex4_inv ds Hds) as (d1 & d2 & d3 & d4 & Eds & Hx & Hb).
    split.
    + cbn [esc_source]. rewrite forallb_app. apply andb_true_iff.
      split; [reflexivity|]. apply forallb_forall. intros x Hin.
      pose proof (proj1 (forallb_forall _ _) Hx x Hin) as Hxd.
      destruct x; try discriminate Hxd; reflexivity.
    + cbn [esc_decoded code_point]. apply EncodeAsUTF8Char_wf; [lia|exact Hv].
  - apply andb_true_iff in Hok as [Hok L2]. apply andb_true_iff in Hok as [Hok L1].
    apply andb_true_iff in Hok as [Hok H2]. apply andb_true_iff in Hok as [Hok H1].
    apply andb_true_iff in Hok as [Hh Hl].
    destruct (is_hex4_inv high Hh) as (d1 & d2 & d3 & d4 & Eh & Hxh & Hbh).
    destruct (is_hex4_inv low Hl) as (e1 & e2 & e3 & e4 & El & Hxl & Hbl).
    assert (Hasc : forall l, forallb isxdigit l = true ->
                             forallb is_ascii l = true).
    { intros l Hxl'. apply forallb_forall. intros x Hin.
      pose proof (proj1 (forallb_forall _ _) Hxl' x Hin) as Hxd.
      destruct x; try discriminate Hxd; reflexivity. }
    apply Z.leb_le in H1, H2, L1, L2.
    unfold kMinHighSurrogate, kMaxHighSurrogate, kMinLowSurrogate,
      kMaxLowSurrogate in *.
    split.
    + cbn [esc_source]. rewrite !forallb_app, (Hasc _ Hxh), (Hasc _ Hxl).
      reflexivity.
    + cbn [esc_decoded code_point].
      unfold kMinHighSurrogate, kMinLowSurrogate, kMinSupplementaryCodePoint.
      apply EncodeAsUTF8Char_wf; [lia|].
      unfold IsValidCodePoint. apply orb_true_iff. right.
      apply andb_true_iff. lia.
Qed.

Lemma wf_quoted q v0 segs :
  plain_value q v0 = true -> forallb (seg_ok q) segs = true ->
  utf8_wf (quoted_source v0 segs) /\ utf8_wf (quoted_meaning v0 segs).
Proof.
  intros Hv0 Hsegs. unfold quoted_source, quoted_meaning.
  split; (apply utf8_wf_app; [apply (plain_value_inv q v0 Hv0)|]);
    apply wf_concat; apply Forall_forall; intros x Hx;
    apply in_map_iff in Hx as ([e v] & <- & Hin); cbn [fst snd];
    pose proof (proj1 (forallb_forall _ _) Hsegs _ Hin) as H;
    unfold seg_ok in H; cbn [fst snd] in H;
    apply andb_true_iff in H as [He Hv];
    destruct (esc_ok_cases e He) as [Ha Hd];
    (apply utf8_wf_app; [|apply (plain_value_inv q v Hv)]).
  - apply ascii_wf, Ha.
  - exact Hd.
Qed.

(** X22.  Unicode escapes in attribute values.  In a quoted attribute
    value a backslash followed by u and four hexadecimal digits stands for
    the UTF-8 encoding of the code point the digits denote, provided it is
    no surrogate; a high surrogate followed by a low surrogate, both
    written this way, stands for the one code point above U+FFFF that the
    pair denotes in UTF-16.  These escapes can be mixed with the
    single-byte escapes and with plain text, and the value that is
    delivered is well-formed UTF-8. *)
Theorem unicode_escapes_in_attribute_values t k q v0 segs :
  plain_tag t = true -> is_name k = true -> is_quote q = true ->
  plain_value q v0 = true -> forallb (seg_ok q) segs = true ->
  fst (ParseChunks
         [B "<" ++ t ++ B " " ++ k ++ B "=" ++ q :: quoted_source v0 segs
          ++ q :: B ">" ++ closer t] New) = OkStatus
  /\ ow_ (snd (ParseChunks
                 [B "<" ++ t ++ B " " ++ k ++ B "=" ++ q
                  :: quoted_source v0 segs ++ q :: B ">" ++ closer t] New))
     = [start_object_event t []; RenderString k (quoted_meaning v0 segs);
        EndObject]
  /\ IsStructurallyValidUTF8 (quoted_meaning v0 segs) = true.
Proof.
  intros Ht Hk Hq Hv0 Hsegs.
  destruct (plain_tag_inv t Ht) as (Hn & Hl & Ha).
  destruct (quote_cases q Hq) as (_ & _ & _ & Hqa).
  destruct (wf_quoted q v0 segs Hv0 Hsegs) as [Hsrc Hmean].
  destruct (ParseChunks_wf_leads 100
              (B "<" ++ t ++ B " " ++ k ++ B "=" ++ q :: quoted_source v0 segs
               ++ q :: B ">" ++ closer t) New
              [start_object_event t []; RenderString k (quoted_meaning v0 segs);
               EndObject] 0 []) as (H1 & H2 & _);
    try reflexivity;
    [discriminate| | |split; [exact H1|split; [exact H2|]]].
  - apply utf8_wf_app; [apply ascii_wf; reflexivity|].
    apply utf8_wf_app; [apply ascii_wf, is_name_ascii, Hn|].
    apply utf8_wf_app; [apply ascii_wf; reflexivity|].
    apply utf8_wf_app; [apply ascii_wf, is_name_ascii, Hk|].
    apply utf8_wf_app; [apply ascii_wf; reflexivity|].
    change (q :: quoted_source v0 segs ++ q :: B ">" ++ closer t)
      with ([q] ++ quoted_source v0 segs ++ [q] ++ B ">" ++ closer t).
    apply utf8_wf_app; [apply ascii_wf; cbn [forallb]; rewrite Hqa; reflexivity|].
    apply utf8_wf_app; [exact Hsrc|].
    apply utf8_wf_app; [apply ascii_wf; cbn [forallb]; rewrite Hqa; reflexivity|].
    apply utf8_wf_app; [apply ascii_wf; reflexivity|].
    apply ascii_wf, closer_ascii, Ht.
  - cbn [B app list_byte_of_string stack_ ow_ recursion_depth_ tag_name_stack_
           element_type_stack_ New].
    eapply leads_trans;
      [apply (leads_tag_name 100 t " "%byte); [exact Ht|reflexivity|lia]|].
    eapply leads_trans;
      [apply (leads_attribute_quoted 100 k q v0 segs); assumption|].
    eapply leads_trans; [apply leads_tag_close|].
    pose proof (leads_closer 100 t [] []
                  ([start_object_event t []]
                   ++ [RenderString k (quoted_meaning v0 segs)]) 1 false
                  [] [] Ht) as Hclose.
    rewrite app_nil_r in Hclose. exact Hclose.
  - apply valid_wf. exact Hmean.
Qed.

Lemma unicode_escapes_in_attribute_values_witness :
  fst (ParseChunks [B "<a v='caf\u00e9\t\uD83D\ude00!'></a>"] New) = OkStatus
  /\ ow_ (snd (ParseChunks [B "<a v='caf\u00e9\t\uD83D\ude00!'></a>"] New))
     = [StartObject (B "a");
        RenderString (B "v")
          (B "caf" ++ [xc3; xa9; x09; xf0; x9f; x98; x80] ++ B "!");
        EndObject].
Proof.
  assert (Ht : plain_tag (B "a") = true) by (vm_compute; reflexivity).
  assert (Hk : is_name (B "v") = true) by (vm_compute; reflexivity).
  assert (Hq : is_quote "'"%byte = true) by reflexivity.
  assert (Hv : plain_value "'"%byte (B "caf") = true)
    by (vm_compute; reflexivity).
  assert (Hs : forallb (seg_ok "'"%byte)
                 [(EUnicode (B "00e9"), []); (EChar "t"%byte, []);
                  (EPair (B "D83D") (B "de00"), B "!")] = true)
    by (vm_compute; reflexivity).
  pose proof (unicode_escapes_in_attribute_values (B "a") (B "v") "'"%byte
                (B "caf")
                [(EUnicode (B "00e9"), []); (EChar "t"%byte, []);
                 (EPair (B "D83D") (B "de00"), B "!")] Ht Hk Hq Hv Hs)
    as (H1 & H2 & _).
  split; [exact H1|exact H2].
Defined.

Lemma leads_fails_uncoerced max C1 C2 message code p ow :
  leads max C1 C2 -> fails_uncoerced max C2 message code p ow ->
  fails_uncoerced max C1 message code p ow.
Proof.
  intros H12 H2 st Hr Hco Hc.
  destruct (H12 st Hr Hc) as (st2 & Hruns & Hr2 & Hc2).
  rewrite (runs_RunParser _ _ Hruns).
  pose proof (runs_frame _ _ Hruns) as F.
  destruct (H2 st2 Hr2) as [H3 H4];
    [rewrite (proj1 (proj2 F)); exact Hco|exact Hc2|].
  split; [|exact H4].
  rewrite H3. apply ReportFailure_frame. apply F.
Qed.

Lemma ParseChunks_wf_fails_uncoerced max xml st message code p ow :
  leftover_ st = [] -> xml <> [] -> utf8_wf xml ->
  string_open_ st = x00 -> parsed_storage_ st = [] ->
  max_recursion_depth_ st = max -> coerce_to_utf8_ st = false ->
  fails_uncoerced max
    (mkConfig (stack_ st) xml (ow_ st) (recursion_depth_ st)
       (tag_name_stack_ st) (element_type_stack_ st)) message code p ow ->
  fst (ParseChunks [xml] st)
  = ReportFailure (B message) code (set_p_ p (set_xml_ xml st))
  /\ ow_ (snd (ParseChunks [xml] st)) = ow.
Proof.
  intros Hl Hne Ha Hso Hps Hm Hco Hf.
  destruct (ready_start max xml st Hso Hps Hm) as [Hr Hc].
  destruct (Hf _ Hr) as [H1 H2]; [destruct st; exact Hco|exact Hc|].
  cbn [ParseChunks]. rewrite (Parse_wf xml st Hl Hne Ha).
  unfold ParseChunk. destruct xml as [|c xml]; [congruence|].
  destruct (RunParser _) as [r0 st2]. cbn [fst snd] in H1, H2. subst r0.
  cbn [ok ReportFailure negb fst snd]. split; [|destruct st2; exact H2].
  unfold ReportFailure. destruct st; reflexivity.
Qed.

(** The three rounds from the space before an attribute to its value. *)
Lemma leads_attribute_key max k rest K ow d tags kinds :
  is_name k = true ->
  leads max
    (mkConfig (BEGIN_ELEMENT_MID :: K) (" "%byte :: k ++ "="%byte :: rest)
       ow d tags kinds)
    (mkConfig (ATTR_VALUE :: K) rest ow d tags kinds).
Proof.
  intros Hk.
  destruct (is_name_letter k Hk) as (c0 & kr & Hkeq & Hc0).
  destruct (letter_token c0 Hc0) as (Hsp & _).
  intros st (Hf & Hso & Hps & Hm) Hcfg. unfold config in Hcfg.
  injection Hcfg as Hs Hp Ho Hd Ht Hkd.
  set (tail := "="%byte :: rest) in *.
  set (st1 := push ATTR_KEY (set_p_ (k ++ tail)
                (set_stack_ K (set_seen_non_whitespace_ true st)))).
  assert (Hr1 : RunParser_round BEGIN_ELEMENT_MID K st = inl st1).
  { unfold RunParser_round.
    rewrite (next_token_mid_space c0 (kr ++ tail) st Hso Hsp)
      by (rewrite Hp, Hkeq; reflexivity).
    cbn [dispatch ParseBeginElementMid].
    rewrite (Advance_one _ " "%byte (k ++ tail))
      by (try reflexivity; destruct st; cbn in *; congruence).
    cbn [ok]. subst st1. destruct st; reflexivity. }
  set (st2 := push ATTR_MID (set_key_storage_ [] (set_key_ k (set_p_ tail
                (set_stack_ K (set_seen_non_whitespace_ true st1)))))).
  assert (Hr2 : RunParser_round ATTR_KEY K st1 = inl st2).
  { unfold RunParser_round.
    rewrite (next_token_name ATTR_KEY k "="%byte rest st1 ltac:(discriminate))
      by (try exact Hk; subst st1 tail; destruct st; cbn in *;
          first [reflexivity|congruence]).
    cbn [dispatch ParseAttrKey]. unfold ParseKey.
    replace (p_ (set_stack_ K (set_seen_non_whitespace_ true st1)))
      with (k ++ tail) by (subst st1; destruct st; reflexivity).
    subst tail. rewrite (ConsumeKey_name k "="%byte _ Hk eq_refl).
    subst st2 st1. destruct st; cbn in Hf; subst. reflexivity. }
  set (st3 := push ATTR_VALUE (set_p_ rest
                (set_stack_ K (set_seen_non_whitespace_ true st2)))).
  assert (Hr3 : RunParser_round ATTR_MID K st2 = inl st3).
  { unfold RunParser_round.
    rewrite (next_token_equal ATTR_MID rest st2 ltac:(discriminate))
      by (subst st2 st1 tail; destruct st; cbn in *;
          first [reflexivity|congruence]).
    cbn [dispatch ParseAttrMid].
    rewrite (Advance_one _ "="%byte rest)
      by (try reflexivity; subst st2 st1 tail; destruct st; reflexivity).
    cbn [ok]. subst st3. destruct st2; reflexivity. }
  exists st3. split.
  - eapply runs_step; [exact Hs|exact Hr1|].
    eapply runs_step; [subst st1; destruct st; reflexivity|exact Hr2|].
    eapply runs_step; [subst st2 st1; destruct st; reflexivity|exact Hr3|].
    apply runs_refl.
  - subst st3 st2 st1. destruct st; cbn in *; subst.
    split; [repeat split|reflexivity].
Qed.

(** The loop of ParseStringHelper over the start of a quoted value. *)
Lemma ParseStringHelper_loop_prefix q segs :
  is_quote q = true ->
  forallb (seg_ok q) segs = true ->
  forall v0 n run st tail,
  plain_value q v0 = true ->
  p_ st = quoted_source v0 segs ++ tail -> string_open_ st = q ->
  (length (p_ st) <= n)%nat ->
  exists m run' storage,
    (length tail <= m)%nat
    /\ ParseStringHelper_loop n run st
       = ParseStringHelper_loop m run'
           (set_p_ tail (set_parsed_storage_ storage st)).
Proof.
  intros Hq. induction segs as [|[e v1] segs IH];
    intros Hsegs v0 n run st tail Hv0 Hp Hso Hn;
    destruct (plain_value_inv q v0 Hv0) as [Hwf Hbytes].
  - unfold quoted_source in Hp. cbn [map concat] in Hp.
    rewrite app_nil_r in Hp.
    destruct (ParseStringHelper_loop_run q v0 Hwf Hbytes n run st tail Hp Hso)
      as (m & Hm & E).
    { rewrite Hp, length_app in Hn. lia. }
    exists m, (run ++ v0), (parsed_storage_ st). split.
    + rewrite Hp, length_app in Hn. lia.
    + rewrite E. destruct st; reflexivity.
  - cbn [forallb] in Hsegs. apply andb_true_iff in Hsegs as [He Hsegs].
    unfold seg_ok in He. cbn [fst snd] in He.
    apply andb_true_iff in He as [He Hv1].
    unfold quoted_source in Hp. cbn [map concat fst snd] in Hp.
    rewrite <- !app_assoc in Hp.
    set (tail' := v1 ++ concat (map (fun s => esc_source (fst s) ++ snd s) segs)
                  ++ tail) in *.
    destruct (ParseStringHelper_loop_run q v0 Hwf Hbytes n run st _ Hp Hso)
      as (m & Hm & E).
    { rewrite Hp, length_app in Hn.
      exact (Nat.le_trans _ _ _ (Nat.le_add_r _ _) Hn). }
    rewrite E.
    pose proof (esc_source_length e) as Hlen.
    assert (Hm2 : (S (S (length tail')) <= m)%nat)
      by (rewrite Hp, !length_app in Hn; lia).
    destruct m as [|m]; [lia|].
    rewrite (ParseStringHelper_loop_escape e He m (run ++ v0)
               (set_p_ (esc_source e ++ tail') st) tail')
      by (destruct st; reflexivity).
    set (st2 := set_p_ tail' _).
    destruct (IH Hsegs v1 m [] st2 tail Hv1) as (m' & run' & storage & Hm' & E2).
    { replace (p_ st2) with tail' by (subst st2; destruct st; reflexivity).
      subst tail'. unfold quoted_source. rewrite <- app_assoc. reflexivity. }
    { subst st2. destruct st; exact Hso. }
    { subst st2. replace (p_ (set_p_ tail' _)) with tail'
        by (destruct st; reflexivity). lia. }
    exists m', run', storage. split; [exact Hm'|].
    rewrite E2. subst st2. destruct st; reflexivity.
Qed.

Lemma hex_code_none ds : forall code,
  forallb isxdigit ds = false -> hex_code ds code = None.
Proof.
  induction ds as [|d ds IH]; intros code H; [discriminate|].
  cbn [forallb] in H. cbn [hex_code].
  destruct (isxdigit d); [apply IH; exact H|reflexivity].
Qed.

Lemma ParseUnicodeEscape_lone ds rest message code st :
  is_hex4 ds = true -> (6 <= length rest)%nat ->
  lone_surrogate_error ds rest = Some (message, code) ->
  coerce_to_utf8_ st = false ->
  p_ st = B "\u" ++ ds ++ rest ->
  ParseUnicodeEscape st = fail message code st.
Proof.
  intros Hds Hlen Herr Hco Hp.
  destruct (is_hex4_inv ds Hds) as (d1 & d2 & d3 & d4 & -> & Hx & Hb).
  change (B "\u") with ["\"%byte; "u"%byte] in Hp. cbn [app] in Hp.
  destruct rest as [|c1 [|c2 [|e1 [|e2 [|e3 [|e4 rest]]]]]];
    try (cbn [length] in Hlen; lia).
  unfold ParseUnicodeEscape. rewrite Hp.
  cbn [length Nat.ltb Nat.leb kUnicodeEscapedLength skipn firstn Nat.mul
         Nat.add nth].
  rewrite (hex_code_value _ 0 Hx). fold (hex_value [d1; d2; d3; d4]).
  unfold lone_surrogate_error in Herr. cbn [firstn] in Herr.
  unfold ParseUnicodeEscape_finish, IsValidCodePoint.
  unfold kMinHighSurrogate, kMaxHighSurrogate, kMinLowSurrogate,
    kMaxLowSurrogate in *.
  set (h := hex_value [d1; d2; d3; d4]) in *.
  rewrite Hco. cbn [negb andb].
  destruct (Z.ltb_spec h 55296); [discriminate|].
  destruct (Z.ltb_spec 57343 h); [discriminate|].
  destruct (Z.ltb_spec 56319 h) as [Hlow|Hhigh].
  - injection Herr as <- <-.
    replace ((55296 <=? h) && (h <=? 56319)) with false
      by (symmetry; apply andb_false_iff; lia).
    replace ((57344 <=? h) && (h <=? 1114111)) with false
      by (symmetry; apply andb_false_iff; lia).
    reflexivity.
  - replace ((55296 <=? h) && (h <=? 56319)) with true
      by (symmetry; apply andb_true_iff; lia).
    destruct (Byte.eqb c1 "\"%byte && Byte.eqb c2 "u"%byte);
      [|injection Herr as <- <-; reflexivity].
    destruct (forallb isxdigit [e1; e2; e3; e4]) eqn:Hxl.
    + rewrite (hex_code_value _ 0 Hxl). fold (hex_value [e1; e2; e3; e4]).
      destruct ((56320 <=? hex_value [e1; e2; e3; e4])
                && (hex_value [e1; e2; e3; e4] <=? 57343)); [discriminate|].
      injection Herr as <- <-. reflexivity.
    + rewrite (hex_code_none _ 0 Hxl). injection Herr as <- <-. reflexivity.
Qed.

Lemma fails_lone_surrogate max q v0 segs ds rest message code K ow d tags kinds :
  is_quote q = true -> plain_value q v0 = true ->
  forallb (seg_ok q) segs = true ->
  is_hex4 ds = true -> (6 <= length rest)%nat ->
  lone_surrogate_error ds rest = Some (message, code) ->
  fails_uncoerced max
    (mkConfig (ATTR_VALUE :: K)
       (q :: quoted_source v0 segs ++ B "\u" ++ ds ++ rest) ow d tags kinds)
    message code (B "\u" ++ ds ++ rest) ow.
Proof.
  intros Hq Hv0 Hsegs Hds Hlen Herr.
  destruct (quote_cases q Hq) as (Hq1 & Hq2 & Hq3 & _).
  intros st (Hf & Hso & Hps & Hm) Hco Hcfg. unfold config in Hcfg.
  injection Hcfg as Hs Hp Ho Hd Ht Hkd.
  set (bad := B "\u" ++ ds ++ rest) in *.
  set (raw := quoted_source v0 segs) in *.
  unfold RunParser. cbn [RunParser_fuel]. rewrite Hs.
  unfold RunParser_round.
  rewrite (next_token_any_quote ATTR_VALUE q (raw ++ bad) st
             ltac:(discriminate) Hso Hq Hp).
  cbn [dispatch ParseAttrValue]. unfold ParseStringHelper.
  set (s := set_stack_ K (set_seen_non_whitespace_ true st)).
  assert (Hs1 : string_open_ s = x00) by (subst s; destruct st; exact Hso).
  assert (Hs2 : p_ s = q :: raw ++ bad) by (subst s; destruct st; exact Hp).
  rewrite Hs1. change (Byte.eqb x00 x00) with true. cbv iota. rewrite Hs2.
  rewrite (Advance_one _ q (raw ++ bad))
    by (try exact Hq2; destruct s; cbn in *; congruence).
  set (s1 := set_p_ (raw ++ bad) (set_string_open_ q s)).
  destruct (ParseStringHelper_loop_prefix q segs Hq Hsegs v0
              (length (p_ s1)) [] s1 bad Hv0)
    as (m & run' & storage & Hm' & E);
    [subst s1; destruct s; reflexivity|subst s1; destruct s; reflexivity
    |apply Nat.le_refl|].
  rewrite E.
  assert (Hbad : (2 <= length bad)%nat)
    by (subst bad; change (B "\u") with ["\"%byte; "u"%byte];
        cbn [app length]; lia).
  destruct m as [|m]; [lia|].
  set (s2 := set_p_ bad (set_parsed_storage_ storage s1)).
  assert (Hp2 : p_ (flush_run run' s2) = bad)
    by (rewrite flush_run_storage; subst s2; destruct s1; reflexivity).
  assert (Hc2 : coerce_to_utf8_ (flush_run run' s2) = false)
    by (rewrite flush_run_storage; subst s2 s1 s; destruct st; exact Hco).
  assert (Eloop : ParseStringHelper_loop (S m) run' s2
                  = fail message code (flush_run run' s2)).
  { cbn [ParseStringHelper_loop].
    replace (p_ s2) with bad by (subst s2; destruct s1; reflexivity).
    rewrite Hp2. unfold bad.
    change (B "\u") with ["\"%byte; "u"%byte]. cbn [app length Nat.eqb nth].
    change (Byte.eqb "\"%byte "\"%byte) with true.
    change (Byte.eqb "u"%byte "u"%byte) with true. cbv iota.
    rewrite (ParseUnicodeEscape_lone ds rest message code (flush_run run' s2)
               Hds Hlen Herr Hc2 Hp2).
    reflexivity. }
  rewrite Eloop.
  unfold fail. cbn [ok ReportFailure negb IsCancelled andb].
  rewrite andb_false_r. cbn [fst snd].
  rewrite flush_run_storage. subst s2 s1 s.
  split; [|destruct st; exact Ho].
  unfold ReportFailure. destruct st; reflexivity.
Qed.

(** X23.  Surrogates must come in pairs.  In a quoted attribute value the
    escape of a surrogate that is not half of a pair makes Parse fail with
    the cursor at the backslash of the escape, the sink having received
    only the start of the element: a low surrogate on its own is an
    "Invalid unicode code point."; a high surrogate needs a second escape
    behind it ("Missing low surrogate."), made of hexadecimal digits
    ("Invalid escape sequence.") that denote a low surrogate ("Invalid low
    surrogate.").  At least six bytes follow the escape in the chunk. *)
Theorem surrogate_escapes_must_come_in_pairs
    t k q v0 segs ds rest message code :
  plain_tag t = true -> is_name k = true -> is_quote q = true ->
  plain_value q v0 = true -> forallb (seg_ok q) segs = true ->
  is_hex4 ds = true -> utf8_wf rest -> (6 <= length rest)%nat ->
  lone_surrogate_error ds rest = Some (message, code) ->
  fst (ParseChunks
         [B "<" ++ t ++ B " " ++ k ++ B "=" ++ q :: quoted_source v0 segs
          ++ B "\u" ++ ds ++ rest] New)
  = failure_at message code
      (B "<" ++ t ++ B " " ++ k ++ B "=" ++ q :: quoted_source v0 segs
       ++ B "\u" ++ ds ++ rest)
      (B "\u" ++ ds ++ rest)
  /\ ow_ (snd (ParseChunks
                 [B "<" ++ t ++ B " " ++ k ++ B "=" ++ q
                  :: quoted_source v0 segs ++ B "\u" ++ ds ++ rest] New))
     = [start_object_event t []].
Proof.
  intros Ht Hk Hq Hv0 Hsegs Hds Hrest Hlen Herr.
  destruct (plain_tag_inv t Ht) as (Hn & Hl & Ha).
  destruct (quote_cases q Hq) as (_ & _ & _ & Hqa).
  destruct (wf_quoted q v0 segs Hv0 Hsegs) as [Hsrc _].
  destruct (is_hex4_inv ds Hds) as (d1 & d2 & d3 & d4 & Eds & Hx & _).
  unfold failure_at.
  apply (ParseChunks_wf_fails_uncoerced 100); try reflexivity.
  - discriminate.
  - apply utf8_wf_app; [apply ascii_wf; reflexivity|].
    apply utf8_wf_app; [apply ascii_wf, is_name_ascii, Hn|].
    apply utf8_wf_app; [apply ascii_wf; reflexivity|].
    apply utf8_wf_app; [apply ascii_wf, is_name_ascii, Hk|].
    apply utf8_wf_app; [apply ascii_wf; reflexivity|].
    change (q :: quoted_source v0 segs ++ B "\u" ++ ds ++ rest)
      with ([q] ++ quoted_source v0 segs ++ B "\u" ++ ds ++ rest).
    apply utf8_wf_app; [apply ascii_wf; cbn [forallb]; rewrite Hqa; reflexivity|].
    apply utf8_wf_app; [exact Hsrc|].
    apply utf8_wf_app; [apply ascii_wf; reflexivity|].
    apply utf8_wf_app; [|exact Hrest].
    apply ascii_wf. apply forallb_forall. intros x Hin.
    pose proof (proj1 (forallb_forall _ _) Hx x Hin) as Hxd.
    destruct x; try discriminate Hxd; reflexivity.
  - cbn [B app list_byte_of_string stack_ ow_ recursion_depth_ tag_name_stack_
           element_type_stack_ New].
    eapply leads_fails_uncoerced;
      [apply (leads_tag_name 100 t " "%byte); [exact Ht|reflexivity|lia]|].
    eapply leads_fails_uncoerced;
      [apply (leads_attribute_key 100 k); exact Hk|].
    apply (fails_lone_surrogate 100 q v0 segs ds rest message code);
      assumption.
Qed.

Lemma surrogate_escapes_must_come_in_pairs_witness :
  fst (ParseChunks [B "<a v='x\ud83d smile'></a>"] New)
  = failure_at "Missing low surrogate." MISSING_LOW_SURROGATE
      (B "<a v='x\ud83d smile'></a>") (B "\ud83d smile'></a>")
  /\ ow_ (snd (ParseChunks [B "<a v='x\ud83d smile'></a>"] New))
     = [StartObject (B "a")].
Proof.
  assert (Ht : plain_tag (B "a") = true) by (vm_compute; reflexivity).
  assert (Hk : is_name (B "v") = true) by (vm_compute; reflexivity).
  assert (Hq : is_quote "'"%byte = true) by reflexivity.
  assert (Hv : plain_value "'"%byte (B "x") = true)
    by (vm_compute; reflexivity).
  assert (Hs : forallb (seg_ok "'"%byte) [] = true) by reflexivity.
  assert (Hds : is_hex4 (B "d83d") = true) by (vm_compute; reflexivity).
  assert (Hr : utf8_wf (B " smile'></a>")) by (apply ascii_wf; reflexivity).
  assert (Hl : (6 <= length (B " smile'></a>"))%nat) by (cbn; lia).
  assert (He : lone_surrogate_error (B "d83d") (B " smile'></a>")
               = Some ("Missing low surrogate."%string, MISSING_LOW_SURROGATE))
    by (vm_compute; reflexivity).
  exact (surrogate_escapes_must_come_in_pairs (B "a") (B "v") "'"%byte
           (B "x") [] (B "d83d") (B " smile'></a>") _ _
           Ht Hk Hq Hv Hs Hds Hr Hl He).
Defined.

Lemma same_stacks_refl st : same_stacks st st.
Proof. repeat split. Qed.

Lemma same_stacks_trans a b c :
  same_stacks a b -> same_stacks b c -> same_stacks a c.
Proof.
  unfold same_stacks. intros (H1 & H2 & H3 & H4) (K1 & K2 & K3 & K4).
  repeat split; congruence.
Qed.

Lemma keeps_step st st2 r : same_stacks st st2 -> keeps st2 r -> keeps st r.
Proof.
  intros H1 [H2 H3]. split; [eapply same_stacks_trans; eassumption|exact H3].
Qed.

Ltac stacks_solve := unfold same_stacks; cbn -[skipn firstn nth]; repeat split.

Ltac keeps_close :=
  unfold keeps, fail, unknown, cancel_or_fail, ReportUnknown, ReportFailure in *;
  repeat break_match; cbn -[skipn firstn nth] in *;
  (split; [stacks_solve|discriminate]).

Ltac keeps_solve := repeat break_match; keeps_close.

Lemma same_stacks_Advance st : same_stacks st (Advance st).
Proof. stacks_solve. Qed.

Lemma keeps_ParseKey st : keeps st (ParseKey st).
Proof. unfold ParseKey. keeps_solve. Qed.

Lemma keeps_ParseTagName st : keeps st (ParseTagName st).
Proof. unfold ParseTagName. keeps_solve. Qed.

Lemma keeps_ParseUnicodeEscape st : keeps st (ParseUnicodeEscape st).
Proof. unfold ParseUnicodeEscape, ParseUnicodeEscape_finish. keeps_solve. Qed.

Lemma same_stacks_flush_run run st : same_stacks st (flush_run run st).
Proof. destruct run; stacks_solve. Qed.

Lemma keeps_ParseStringHelper_loop fuel : forall run st,
  keeps st (ParseStringHelper_loop fuel run st).
Proof.
  induction fuel as [|fuel IH]; intros run st.
  - eapply keeps_step; [apply (same_stacks_flush_run run)|].
    simpl. destruct (p_ st); keeps_solve.
  - cbn [ParseStringHelper_loop].
    destruct (p_ st) as [|c r] eqn:Hp.
    + eapply keeps_step; [apply (same_stacks_flush_run run)|]. keeps_solve.
    + destruct (Byte.eqb c "\"%byte).
      * eapply keeps_step; [apply (same_stacks_flush_run run)|].
        destruct (Nat.eqb _ 1); [keeps_solve|].
        destruct (Byte.eqb _ "u"%byte).
        -- pose proof (keeps_ParseUnicodeEscape (flush_run run st)) as H.
           destruct (ParseUnicodeEscape (flush_run run st)) as [r1 st2].
           destruct (negb (ok r1)); [exact H|].
           eapply keeps_step; [apply H|apply IH].
        -- eapply keeps_step; [|apply IH]. stacks_solve.
      * destruct (Byte.eqb c (string_open_ st)).
        -- destruct run; keeps_solve.
        -- eapply keeps_step; [|apply IH]. stacks_solve.
Qed.

Lemma keeps_ParseComments_loop fuel : forall st,
  keeps st (ParseComments_loop fuel st).
Proof.
  induction fuel as [|fuel IH]; intros st.
  - simpl. destruct (p_ st); keeps_solve.
  - cbn [ParseComments_loop]. destruct (p_ st) as [|c r] eqn:Hp; [keeps_solve|].
    destruct (Byte.eqb c "-"%byte); [keeps_solve|].
    eapply keeps_step; [|apply IH]. stacks_solve.
Qed.

Lemma keeps_ParseComments st : keeps st (ParseComments st).
Proof.
  unfold ParseComments.
  destruct (Nat.ltb _ 2); [keeps_solve|].
  destruct (_ || _); [keeps_solve|].
  eapply keeps_step; [|apply keeps_ParseComments_loop]. stacks_solve.
Qed.

Lemma keeps_ParseDeclaration_loop fuel : forall st,
  keeps st (ParseDeclaration_loop fuel st).
Proof.
  induction fuel as [|fuel IH]; intros st.
  - simpl. destruct (p_ st); keeps_solve.
  - cbn [ParseDeclaration_loop].
    destruct (p_ st) as [|c r] eqn:Hp; [keeps_solve|].
    destruct (Byte.eqb c "?"%byte); [keeps_solve|].
    eapply keeps_step; [|apply IH]. stacks_solve.
Qed.

Lemma keeps_ParseDeclaration st : keeps st (ParseDeclaration st).
Proof.
  unfold ParseDeclaration.
  destruct (Nat.ltb _ 1); [keeps_solve|].
  destruct (negb _); [keeps_solve|].
  eapply keeps_step; [|apply keeps_ParseDeclaration_loop]. stacks_solve.
Qed.
Lemma all_TEXT_open_elements stack :
  forallb is_TEXT stack = true ->
  open_elements stack = Some (length stack) /\ before_first_tag stack = false.
Proof.
  destruct stack as [|top below]; [split; reflexivity|].
  cbn [forallb]. intros H. apply andb_true_iff in H as [Ht Hb].
  destruct top; try discriminate Ht. cbn [open_elements]. rewrite Hb.
  split; reflexivity.
Qed.

Lemma keeps_settles st r :
  keeps st r -> (ok (fst r) = true -> balanced (snd r)) -> settles st r.
Proof.
  intros [Hs Hu] Hb. split; [exact Hb|]. split; [intros _; exact Hs|].
  intros H. contradiction.
Qed.

Lemma settles_failure message c st st' :
  settles st (ReportFailure message c st', st).
Proof.
  unfold settles, ReportFailure. cbn [fst snd ok IsCancelled].
  split; [|split]; intros; discriminate.
Qed.

Lemma settles_fail m c st : settles st (fail m c st).
Proof. apply settles_failure. Qed.

Lemma settles_cancel st st' :
  same_stacks st st' -> settles st (CancelledError, st').
Proof.
  intros H. unfold settles. cbn [fst snd ok IsCancelled].
  split; [intros; discriminate|]. split; [intros _; exact H|].
  intros; discriminate.
Qed.

Lemma settles_unknown m c st : settles st (unknown m c st).
Proof.
  unfold unknown, ReportUnknown.
  destruct (negb (finishing_ st));
    [apply settles_cancel, same_stacks_refl|].
  destruct (p_ st); apply settles_failure.
Qed.

Lemma settles_cancel_or_fail m c st : settles st (cancel_or_fail m c st).
Proof.
  unfold cancel_or_fail.
  destruct (negb (finishing_ st));
    [apply settles_cancel, same_stacks_refl|apply settles_fail].
Qed.

Lemma settles_ok st st' : balanced st' -> settles st (OkStatus, st').
Proof.
  intros H. unfold settles. cbn [fst snd ok IsCancelled].
  split; [intros _; exact H|]. split; intros; discriminate.
Qed.

Ltac popped_start :=
  let Ho := fresh "Ho" in let Hk := fresh "Hk" in
  let Hf := fresh "Hf" in let Hs := fresh "Hs" in
  let Hall := fresh "Hall" in
  intros (Ho & Hk & Hf & Hs);
  cbn [open_elements before_first_tag] in Ho, Hf;
  destruct (forallb is_TEXT (stack_ _)) eqn:Hall; [|discriminate Ho].

Ltac bal :=
  unfold balanced;
  cbn -[skipn firstn nth forallb length open_elements before_first_tag];
  cbn [open_elements before_first_tag forallb is_TEXT ParseType_eqb andb];
  repeat match goal with
         | H : forallb is_TEXT _ = true |- _ => rewrite H
         end;
  repeat split; auto; try congruence; try (intros; discriminate).

Lemma settles_ParseBeginElement t st :
  popped BEGIN_ELEMENT t st -> settles st (ParseBeginElement t st).
Proof.
  popped_start. unfold ParseBeginElement.
  destruct t; try apply settles_fail; try apply settles_unknown.
  apply settles_ok. destruct (stack_ st) eqn:Hst; [|discriminate].
  bal. rewrite Hst. bal.
Qed.

Lemma settles_ParseBeginElementMid t st :
  popped BEGIN_ELEMENT_MID t st -> settles st (ParseBeginElementMid t st).
Proof.
  popped_start. unfold ParseBeginElementMid.
  destruct t; try apply settles_fail; try apply settles_unknown;
    apply settles_ok; bal.
Qed.

Lemma settles_ParseBeginElementClose t st :
  popped BEGIN_ELEMENT_CLOSE t st -> settles st (ParseBeginElementClose t st).
Proof.
  popped_start. unfold ParseBeginElementClose.
  destruct t; try apply settles_fail; try apply settles_unknown;
    apply settles_ok; bal.
Qed.

Lemma settles_ParseAttrMid t st :
  popped ATTR_MID t st -> settles st (ParseAttrMid t st).
Proof.
  popped_start. unfold ParseAttrMid.
  destruct t; try apply settles_fail; try apply settles_unknown;
    apply settles_ok; bal.
Qed.

Lemma settles_ParseEndElement_t t st :
  popped END_ELEMENT t st -> settles st (ParseEndElement_t t st).
Proof.
  popped_start. unfold ParseEndElement_t, ParseEndElement.
  destruct t; try apply settles_fail; try apply settles_unknown;
    apply settles_ok; bal.
Qed.

Lemma settles_ParseEndElementMid_t t st :
  popped END_ELEMENT_MID t st -> settles st (ParseEndElementMid_t t st).
Proof.
  popped_start. unfold ParseEndElementMid_t.
  destruct t; try apply settles_fail; try apply settles_unknown;
    apply settles_ok; bal.
Qed.

Lemma settles_ParseEndElementClose t st :
  popped END_ELEMENT_CLOSE t st -> settles st (ParseEndElementClose t st).
Proof.
  popped_start. unfold ParseEndElementClose.
  destruct t; try apply settles_fail; try apply settles_unknown.
  apply settles_ok.
  destruct (all_TEXT_open_elements _ Hall) as [H1 H2].
  unfold balanced.
  cbn -[skipn firstn nth forallb length open_elements before_first_tag].
  rewrite H1, H2. repeat split; auto; try congruence; intros; discriminate.
Qed.
Lemma settles_ParseText_t t st :
  popped TEXT t st -> settles st (ParseText_t t st).
Proof.
  popped_start.
  assert (Htext : settles st (ParseText st)).
  { unfold ParseText. destruct (ConsumeText (p_ st)) as [[text rest]|];
      [|apply settles_fail].
    destruct (_ && _); [apply settles_cancel; stacks_solve|].
    apply settles_ok. bal. }
  unfold ParseText_t.
  destruct t; try exact Htext; try apply settles_unknown.
  apply settles_ok. bal.
Qed.

Lemma settles_ParseAttrKey t st :
  popped ATTR_KEY t st -> settles st (ParseAttrKey t st).
Proof.
  popped_start. unfold ParseAttrKey.
  destruct t; try apply settles_fail; try apply settles_unknown.
  - apply settles_ok. bal.
  - pose proof (keeps_ParseKey st) as [(K1 & K2 & K3 & K4) Ku].
    destruct (ParseKey st) as [r st1]. cbn [fst snd] in *.
    destruct (ok r) eqn:Hok.
    + destruct r; try discriminate Hok. apply settles_ok.
      unfold balanced. cbn -[length open_elements before_first_tag].
      rewrite K1, K2, K3. cbn [open_elements before_first_tag]. rewrite Hall.
      repeat split; auto; intros; discriminate.
    + unfold settles. cbn [fst snd]. split; [congruence|].
      split; [intros _; repeat split; assumption|contradiction].
Qed.

Lemma keeps_ParseStringHelper st :
  (string_open_ st = x00 -> p_ st <> []) -> keeps st (ParseStringHelper st).
Proof.
  intros Hs. unfold ParseStringHelper.
  destruct (Byte.eqb (string_open_ st) x00) eqn:Hso;
    [|apply keeps_ParseStringHelper_loop].
  apply Byte.byte_dec_bl in Hso. specialize (Hs Hso).
  destruct (p_ st) eqn:Hp; [congruence|].
  eapply keeps_step; [|apply keeps_ParseStringHelper_loop]. stacks_solve.
Qed.

Lemma settles_ParseAttrValue t st :
  popped ATTR_VALUE t st -> settles st (ParseAttrValue t st).
Proof.
  popped_start. unfold ParseAttrValue.
  destruct t; try apply settles_fail; try apply settles_unknown.
  pose proof (keeps_ParseStringHelper st (Hs eq_refl))
    as [(K1 & K2 & K3 & K4) Ku].
  destruct (ParseStringHelper st) as [r st1]. cbn [fst snd] in *.
  destruct (ok r) eqn:Hok.
  - destruct r; try discriminate Hok. apply settles_ok.
    unfold balanced. cbn -[length open_elements before_first_tag].
    rewrite K1, K2, K3. cbn [open_elements before_first_tag]. rewrite Hall.
    repeat split; auto; intros; discriminate.
  - unfold settles. cbn [fst snd]. split; [congruence|].
    split; [intros _; repeat split; assumption|contradiction].
Qed.

Lemma settles_ParseEndTag t st :
  popped END_TAG t st -> settles st (ParseEndTag t st).
Proof.
  popped_start. unfold ParseEndTag.
  destruct t; try apply settles_fail; try apply settles_unknown.
  destruct (ConsumeTagName (p_ st)) as [[name rest]|]; [|apply settles_fail].
  destruct (_ && _); [apply settles_cancel; stacks_solve|].
  cbn -[starts_with skipn bytes_eqb length].
  destruct (tag_name_stack_ st) as [|[start flag] tags] eqn:Htags;
    [cbn [length] in Ho; discriminate Ho|].
  destruct (element_type_stack_ st) as [|kind kinds] eqn:Hkinds;
    [cbn [length] in Hk; discriminate Hk|].
  cbn [length] in Ho, Hk.
  destruct (bytes_eqb start _); [|apply settles_failure].
  unfold pop_element_type, option_map.
  destruct (starts_with name _) eqn:Hl; [|destruct (negb _) eqn:Hn];
    cbn -[skipn length open_elements before_first_tag];
    rewrite ?Hkinds;
    cbn -[skipn length open_elements before_first_tag];
    apply settles_ok; unfold balanced;
    cbn -[skipn length open_elements before_first_tag];
    cbn [open_elements before_first_tag]; rewrite Hall;
    (split; [congruence|split; [congruence|intros; discriminate]]).
Qed.
Lemma keeps_settles_popped st r :
  forallb is_TEXT (stack_ st) = true ->
  Some (length (stack_ st)) = Some (length (tag_name_stack_ st)) ->
  length (element_type_stack_ st) = length (tag_name_stack_ st) ->
  keeps st r -> settles st r.
Proof.
  intros Hall Ho Hk [(K1 & K2 & K3 & K4) Ku].
  split; [|split; [intros _; repeat split; assumption|contradiction]].
  intros _. unfold balanced. rewrite K1, K2, K3.
  destruct (all_TEXT_open_elements _ Hall) as [H1 H2]. rewrite H1, H2.
  repeat split; auto. intros; discriminate.
Qed.

Lemma settles_ParseStartTagName st :
  popped START_TAG BEGIN_KEY st -> settles st (ParseStartTagName st).
Proof.
  popped_start. unfold ParseStartTagName.
  pose proof (keeps_ParseTagName st) as [(K1 & K2 & K3 & K4) Ku].
  destruct (ParseTagName st) as [r st1]. cbn [fst snd] in *.
  destruct (ok r) eqn:Hok.
  2:{ unfold settles. cbn [fst snd]. split; [congruence|].
      split; [intros _; repeat split; assumption|contradiction]. }
  destruct r; try discriminate Hok.
  destruct (starts_with _ _).
  - apply settles_ok. unfold balanced.
    cbn -[skipn length open_elements before_first_tag].
    rewrite K1, K2, K3. cbn [open_elements before_first_tag length].
    rewrite Hall.
    split; [congruence|split; [congruence|intros; discriminate]].
  - unfold IncrementRecursionDepth.
    cbn -[skipn length open_elements before_first_tag Z.ltb].
    destruct (_ <? _).
    + cbn [ok negb]. unfold settles. cbn [fst snd ok IsCancelled].
      split; [|split]; intros; discriminate.
    + cbn [ok negb]. apply settles_ok. unfold balanced.
      destruct (negb _); [destruct (_ || _)|];
        cbn -[skipn length open_elements before_first_tag];
        rewrite K1, K2, K3; cbn [open_elements before_first_tag length];
        rewrite Hall;
        (split; [congruence|split; [congruence|intros; discriminate]]).
Qed.

Lemma settles_ParseEndElementMid st :
  popped START_TAG END_TAG_SLASH st -> settles st (ParseEndElementMid st).
Proof.
  popped_start. unfold ParseEndElementMid.
  replace (stack_ (Advance st)) with (stack_ st) by reflexivity.
  destruct (stack_ st) as [|top rest] eqn:Hst.
  - unfold settles. cbn [fst snd ok IsCancelled].
    split; [intros; discriminate|]. split; [intros; discriminate|].
    intros _. split; [exact (Hf eq_refl)|].
    change (tag_name_stack_ (Advance st)) with (tag_name_stack_ st).
    cbn [length] in Ho. injection Ho as Ho.
    destruct (tag_name_stack_ st); [reflexivity|discriminate Ho].
  - cbn [forallb] in Hall. apply andb_true_iff in Hall as [Ht Hall].
    replace (ParseType_eqb top TEXT) with true by (symmetry; exact Ht).
    apply settles_ok. unfold balanced.
    cbn -[skipn length open_elements before_first_tag].
    cbn [open_elements before_first_tag]. rewrite Hall.
    split; [exact Ho|split; [exact Hk|intros; discriminate]].
Qed.

Lemma settles_ParseStartTag t st :
  popped START_TAG t st -> settles st (ParseStartTag t st).
Proof.
  intros Hp. unfold ParseStartTag.
  destruct t; try apply settles_fail; try apply settles_unknown.
  - apply settles_ParseEndElementMid, Hp.
  - revert Hp. popped_start.
    apply keeps_settles_popped; try assumption. apply keeps_ParseDeclaration.
  - revert Hp. popped_start.
    apply keeps_settles_popped; try assumption. apply keeps_ParseComments.
  - apply settles_ParseStartTagName, Hp.
Qed.

Lemma popped_token type t t' st :
  popped type t st -> t' <> BEGIN_STRING -> popped type t' st.
Proof.
  intros (Ho & Hk & Hf & Hs) Ht. repeat split; try assumption.
  intros H. contradiction.
Qed.

Lemma settles_dispatch type t st :
  popped type t st -> settles st (dispatch type t st).
Proof.
  intros Hp. destruct type; cbn [dispatch].
  - apply settles_ParseBeginElement, Hp.
  - apply settles_ParseStartTag, Hp.
  - apply settles_ParseBeginElementMid, Hp.
  - apply settles_ParseAttrKey, Hp.
  - apply settles_ParseAttrMid, Hp.
  - apply settles_ParseAttrValue, Hp.
  - apply settles_ParseBeginElementClose, Hp.
  - apply settles_ParseText_t, Hp.
  - apply settles_ParseEndElement_t, Hp.
  - apply settles_ParseEndElementMid_t, Hp.
  - apply settles_ParseEndTag, Hp.
  - apply settles_ParseEndElementClose, Hp.
  - destruct Hp as (Ho & _). cbn [open_elements] in Ho.
    destruct (forallb _ _); discriminate Ho.
Qed.
Lemma balanced_same st st' : same_stacks st st' -> balanced st -> balanced st'.
Proof.
  intros (H1 & H2 & H3 & H4) (B1 & B2 & B3). unfold balanced.
  rewrite H1, H2, H3, H4. repeat split; assumption.
Qed.

Lemma same_stacks_SkipWhitespace_t_loop type fuel : forall st,
  same_stacks st (SkipWhitespace_t_loop type fuel st)
  /\ string_open_ (SkipWhitespace_t_loop type fuel st) = string_open_ st.
Proof.
  induction fuel as [|fuel IH]; intros st; [split; [stacks_solve|reflexivity]|].
  cbn [SkipWhitespace_t_loop].
  destruct (p_ st) as [|c r]; [split; [stacks_solve|reflexivity]|].
  destruct (ascii_isspace c); [|split; [stacks_solve|reflexivity]].
  destruct (IH (Advance st)) as [I1 I2].
  assert (Hadv : same_stacks st (SkipWhitespace_t_loop type fuel (Advance st))
                 /\ string_open_ (SkipWhitespace_t_loop type fuel (Advance st))
                    = string_open_ st).
  { split; [eapply same_stacks_trans; [apply same_stacks_Advance|exact I1]|].
    rewrite I2. reflexivity. }
  destruct (ParseType_eqb type BEGIN_ELEMENT_MID); [|exact Hadv].
  destruct (Nat.eqb _ 1); [split; [stacks_solve|reflexivity]|].
  destruct (_ && _); [split; [stacks_solve|reflexivity]|exact Hadv].
Qed.

Lemma same_stacks_mark st :
  same_stacks st (mark_non_whitespace st)
  /\ string_open_ (mark_non_whitespace st) = string_open_ st
  /\ p_ (mark_non_whitespace st) = p_ st.
Proof.
  unfold mark_non_whitespace. destruct (p_ st) as [|c r] eqn:Hp.
  - repeat split. exact Hp.
  - destruct (negb _); repeat split; exact Hp.
Qed.

Lemma same_stacks_SkipWhitespace_loop fuel : forall st,
  same_stacks st (SkipWhitespace_loop fuel st).
Proof.
  induction fuel as [|fuel IH]; intros st; [stacks_solve|].
  cbn [SkipWhitespace_loop].
  destruct (p_ st) as [|c r]; [stacks_solve|].
  destruct (ascii_isspace c); [|stacks_solve].
  eapply same_stacks_trans; [apply same_stacks_Advance|apply IH].
Qed.

Lemma same_stacks_SkipWhitespace st : same_stacks st (SkipWhitespace st).
Proof.
  unfold SkipWhitespace.
  eapply same_stacks_trans; [apply same_stacks_SkipWhitespace_loop|].
  apply same_stacks_mark.
Qed.

Lemma next_token_stacks type st :
  same_stacks st (snd (next_token type st))
  /\ (fst (next_token type st) = BEGIN_STRING ->
      string_open_ (snd (next_token type st)) = x00 ->
      p_ (snd (next_token type st)) <> []).
Proof.
  unfold next_token.
  destruct (Byte.eqb (string_open_ st) x00) eqn:Hso.
  - unfold GetNextTokenType, SkipWhitespace_t.
    destruct (same_stacks_SkipWhitespace_t_loop type (length (p_ st)) st)
      as [S1 _].
    destruct (same_stacks_mark (SkipWhitespace_t_loop type (length (p_ st)) st))
      as (S2 & _ & _).
    pose proof (same_stacks_trans _ _ _ S1 S2) as S3.
    destruct (p_ (mark_non_whitespace _)) as [|c r] eqn:Hp; cbn [fst snd].
    + split; [exact S3|discriminate].
    + split; [exact S3|]. intros _ _. rewrite Hp. discriminate.
  - cbn [fst snd]. split; [apply same_stacks_refl|].
    intros _ H. rewrite H in Hso. discriminate Hso.
Qed.

Lemma same_stacks_save_key st : same_stacks st (save_key st).
Proof.
  unfold save_key. destruct (key_ st); [apply same_stacks_refl|].
  destruct (key_storage_ st); stacks_solve.
Qed.

Lemma RunParser_round_balanced type rest st :
  balanced st -> stack_ st = type :: rest ->
  match RunParser_round type rest st with
  | inl st' => balanced st'
  | inr r => safe_result r
  end.
Proof.
  intros (B1 & B2 & B3) Hst. unfold RunParser_round.
  destruct (next_token_stacks type st) as [(N1 & N2 & N3 & N4) Nq].
  destruct (next_token type st) as [t st1]. cbn [fst snd] in *.
  assert (Hp : popped type t (set_stack_ rest st1)).
  { unfold popped.
    replace (stack_ (set_stack_ rest st1)) with rest by reflexivity.
    replace (tag_name_stack_ (set_stack_ rest st1)) with (tag_name_stack_ st1)
      by reflexivity.
    replace (element_type_stack_ (set_stack_ rest st1))
      with (element_type_stack_ st1) by reflexivity.
    replace (ow_ (set_stack_ rest st1)) with (ow_ st1) by reflexivity.
    rewrite N2, N3, N4, <- Hst.
    split; [exact B1|]. split; [exact B2|]. split; [exact B3|].
    intros Ht Hso. apply (Nq Ht Hso). }
  pose proof (settles_dispatch type t _ Hp) as (D1 & D2 & D3).
  destruct (dispatch type t (set_stack_ rest st1)) as [r st3].
  cbn [fst snd] in *.
  destruct (ok r) eqn:Hok; [exact (D1 eq_refl)|].
  destruct (negb (finishing_ st3) && IsCancelled r) eqn:Hc.
  - apply andb_true_iff in Hc as [_ Hc].
    destruct (D2 Hc) as (E1 & E2 & E3 & E4).
    split; [|intros; discriminate]. intros _. cbn [snd].
    apply (balanced_same (push type st3)); [apply same_stacks_save_key|].
    unfold balanced.
    replace (stack_ (push type st3)) with (type :: stack_ st3) by reflexivity.
    replace (tag_name_stack_ (push type st3)) with (tag_name_stack_ st3)
      by reflexivity.
    replace (element_type_stack_ (push type st3))
      with (element_type_stack_ st3) by reflexivity.
    replace (ow_ (push type st3)) with (ow_ st3) by reflexivity.
    rewrite E1, E2, E3, E4.
    replace (stack_ (set_stack_ rest st1)) with rest by reflexivity.
    replace (tag_name_stack_ (set_stack_ rest st1)) with (tag_name_stack_ st1)
      by reflexivity.
    replace (element_type_stack_ (set_stack_ rest st1))
      with (element_type_stack_ st1) by reflexivity.
    replace (ow_ (set_stack_ rest st1)) with (ow_ st1) by reflexivity.
    rewrite N2, N3, N4, <- Hst. repeat split; assumption.
  - split; cbn [fst snd]; [congruence|exact D3].
Qed.

Lemma RunParser_fuel_balanced n : forall st,
  (length (p_ st) < n)%nat -> balanced st -> safe_result (RunParser_fuel n st).
Proof.
  induction n as [|n IH]; intros st Hn Hb; [lia|].
  cbn [RunParser_fuel]. destruct (stack_ st) as [|type rest] eqn:Hst.
  - split; cbn [fst snd]; [intros _; exact Hb|discriminate].
  - pose proof (RunParser_round_balanced type rest st Hb Hst) as Hr.
    pose proof (RunParser_round_consumes type rest st) as Hc.
    destruct (RunParser_round type rest st) as [st'|r]; [|exact Hr].
    apply IH; [|exact Hr]. specialize (Hc st' eq_refl). lia.
Qed.

Lemma RunParser_balanced st : balanced st -> safe_result (RunParser st).
Proof. intros Hb. apply RunParser_fuel_balanced; [lia|exact Hb]. Qed.
Lemma safe_result_ok st : balanced st -> safe_result (OkStatus, st).
Proof. intros H. split; cbn [fst snd]; [intros _; exact H|discriminate]. Qed.

Lemma safe_result_failure message code st st' :
  safe_result (ReportFailure message code st, st').
Proof. unfold ReportFailure. split; cbn [fst snd ok]; discriminate. Qed.

Lemma safe_result_same r st st' :
  same_stacks st st' -> safe_result (r, st) -> safe_result (r, st').
Proof.
  intros Hs [H1 H2]. cbn [fst snd] in *. split; cbn [fst snd].
  - intros Hok. apply (balanced_same st); [exact Hs|exact (H1 Hok)].
  - intros Hu. destruct (H2 Hu) as [E1 E2].
    destruct Hs as (_ & S2 & _ & S4). split; congruence.
Qed.

Lemma ParseChunk_balanced chunk st :
  balanced st -> safe_result (ParseChunk chunk st).
Proof.
  intros Hb. unfold ParseChunk.
  destruct chunk as [|c chunk]; [apply safe_result_ok, Hb|].
  set (st1 := set_finishing_ false _).
  assert (Hb1 : balanced st1)
    by (apply (balanced_same st); [stacks_solve|exact Hb]).
  pose proof (RunParser_balanced st1 Hb1) as Hr.
  destruct (RunParser st1) as [r st2].
  destruct (ok r) eqn:Hok; cbn [negb]; [|exact Hr].
  destruct Hr as [Hr _]. cbn [fst snd] in Hr. specialize (Hr Hok).
  pose proof (balanced_same _ _ (same_stacks_SkipWhitespace st2) Hr) as Hb3.
  destruct (p_ (SkipWhitespace st2)).
  - apply safe_result_ok.
    apply (balanced_same (SkipWhitespace st2)); [stacks_solve|exact Hb3].
  - destruct (stack_ (SkipWhitespace st2)); [apply safe_result_failure|].
    apply safe_result_ok.
    apply (balanced_same (SkipWhitespace st2)); [stacks_solve|exact Hb3].
Qed.

Lemma Parse_balanced xml st : balanced st -> safe_result (Parse xml st).
Proof.
  intros Hb. unfold Parse.
  set (start := match leftover_ st with [] => (xml, st) | _ :: _ => _ end).
  assert (Hs : balanced (snd start)).
  { subst start. destruct (leftover_ st); [exact Hb|].
    apply (balanced_same st); [stacks_solve|exact Hb]. }
  destruct start as [chunk st1]. cbn [snd] in Hs.
  destruct (Nat.ltb 0 _).
  - pose proof (ParseChunk_balanced
                  (firstn (UTF8SpnStructurallyValid chunk) chunk) st1 Hs) as Hr.
    destruct (ParseChunk _ st1) as [status st2].
    apply (safe_result_same status st2); [stacks_solve|exact Hr].
  - apply safe_result_ok.
    apply (balanced_same st1); [stacks_solve|exact Hs].
Qed.

Lemma FinishParse_run_balanced st :
  balanced st -> safe_result (FinishParse_run st).
Proof.
  intros Hb. unfold FinishParse_run.
  assert (Hb1 : balanced (set_finishing_ true st))
    by (apply (balanced_same st); [stacks_solve|exact Hb]).
  pose proof (RunParser_balanced _ Hb1) as Hr.
  destruct (RunParser (set_finishing_ true st)) as [r st2].
  destruct (ok r) eqn:Hok; [|exact Hr].
  destruct Hr as [Hr _]. cbn [fst snd] in Hr. specialize (Hr Hok).
  pose proof (balanced_same _ _ (same_stacks_SkipWhitespace st2) Hr) as Hb3.
  destruct (p_ (SkipWhitespace st2)); [|apply safe_result_failure].
  split; cbn [fst snd]; [intros _; exact Hb3|].
  intros Hu. rewrite Hu in Hok. discriminate Hok.
Qed.

Lemma FinishParse_balanced st : balanced st -> safe_result (FinishParse st).
Proof.
  intros Hb. unfold FinishParse.
  assert (Hrun : safe_result
            (if coerce_to_utf8_ st
                && negb (IsStructurallyValidUTF8 (leftover_ st))
             then
               FinishParse_run
                 (set_p_
                    (ReplaceInvalidCodePoints (leftover_ st)
                       (utf8_replacement_character_ st) [])
                    (set_xml_
                       (ReplaceInvalidCodePoints (leftover_ st)
                          (utf8_replacement_character_ st) []) st))
             else
               if negb (IsStructurallyValidUTF8 (leftover_ st))
               then
                 fail "Encountered non UTF-8 code points." NON_UTF_8
                   (set_p_ (leftover_ st) (set_xml_ (leftover_ st) st))
               else
                 FinishParse_run
                   (set_p_ (leftover_ st) (set_xml_ (leftover_ st) st)))).
  { destruct (_ && _).
    - apply FinishParse_run_balanced.
      apply (balanced_same st); [stacks_solve|exact Hb].
    - destruct (negb _); [apply safe_result_failure|].
      apply FinishParse_run_balanced.
      apply (balanced_same st); [stacks_solve|exact Hb]. }
  destruct (stack_ st); [|exact Hrun].
  destruct (leftover_ st); [|exact Hrun].
  destruct (tag_name_stack_ st); [|exact Hrun].
  apply safe_result_ok, Hb.
Qed.

Lemma ParseAll_balanced chunks : forall st,
  balanced st -> safe_result (ParseAll chunks st).
Proof.
  induction chunks as [|c rest IH]; intros st Hb.
  - apply safe_result_ok, Hb.
  - cbn [ParseAll]. pose proof (Parse_balanced c st Hb) as Hr.
    destruct (Parse c st) as [r st1].
    destruct (ok r) eqn:Hok; [|exact Hr].
    apply IH. exact (proj1 Hr Hok).
Qed.

Lemma ParseChunks_balanced chunks : forall st,
  balanced st -> safe_result (ParseChunks chunks st).
Proof.
  induction chunks as [|c rest IH]; intros st Hb.
  - apply FinishParse_balanced, Hb.
  - cbn [ParseChunks]. pose proof (Parse_balanced c st Hb) as Hr.
    destruct (Parse c st) as [r st1].
    destruct (ok r) eqn:Hok; [|exact Hr].
    apply IH. exact (proj1 Hr Hok).
Qed.

Lemma balanced_New : balanced New.
Proof. repeat split. Qed.
Lemma RunParser_round_finishing type rest st r st' :
  finishing_ st = true ->
  RunParser_round type rest st = inr (r, st') -> ok r = false.
Proof.
  intros Hf. unfold RunParser_round.
  pose proof (frame_next_token type st) as Hn.
  destruct (next_token type st) as [t st1]. simpl in Hn.
  pose proof (good_dispatch type t (set_stack_ rest st1)) as [Hd _].
  destruct (dispatch type t (set_stack_ rest st1)) as [r3 st3]. simpl in Hd.
  assert (H3 : finishing_ st3 = true).
  { destruct Hn as [Hn _]. destruct Hd as [Hd _].
    rewrite Hd. cbn [finishing_ set_stack_]. rewrite Hn. exact Hf. }
  destruct (ok r3) eqn:Hok; [discriminate|].
  rewrite H3. cbn [negb andb]. intros [= <- <-]. exact Hok.
Qed.

Lemma RunParser_fuel_finishing n : forall st,
  finishing_ st = true -> ok (fst (RunParser_fuel n st)) = true ->
  stack_ (snd (RunParser_fuel n st)) = [].
Proof.
  induction n as [|n IH]; intros st Hf; cbn [RunParser_fuel].
  - destruct (stack_ st) eqn:Hst; cbn [fst snd ok]; [intros _; exact Hst|].
    discriminate.
  - destruct (stack_ st) as [|type rest] eqn:Hst;
      [cbn [fst snd]; intros _; exact Hst|].
    destruct (RunParser_round type rest st) as [st'|[r st']] eqn:E.
    + apply IH. destruct (RunParser_round_inl _ _ _ _ E) as [H _]. congruence.
    + cbn [fst snd]. intros Hok.
      rewrite (RunParser_round_finishing _ _ _ _ _ Hf E) in Hok.
      discriminate Hok.
Qed.

Lemma balanced_empty st :
  balanced st -> stack_ st = [] ->
  tag_name_stack_ st = [] /\ element_type_stack_ st = [].
Proof.
  intros (B1 & B2 & _) Hst. rewrite Hst in B1. cbn [open_elements] in B1.
  injection B1 as B1.
  destruct (tag_name_stack_ st); [|discriminate B1].
  destruct (element_type_stack_ st); [|discriminate B2].
  split; reflexivity.
Qed.

Lemma FinishParse_run_empty st :
  ok (fst (FinishParse_run st)) = true ->
  stack_ (snd (FinishParse_run st)) = [].
Proof.
  unfold FinishParse_run.
  pose proof (RunParser_fuel_finishing
                (S (length (p_ (set_finishing_ true st))))
                (set_finishing_ true st) eq_refl) as Hr.
  fold (RunParser (set_finishing_ true st)) in Hr.
  destruct (RunParser (set_finishing_ true st)) as [r st2].
  cbn [fst snd] in Hr.
  destruct (ok r) eqn:Hok; [|cbn [fst]; congruence].
  destruct (same_stacks_SkipWhitespace st2) as (S1 & _).
  destruct (p_ (SkipWhitespace st2)).
  - cbn [fst snd]. intros _. rewrite S1. exact (Hr eq_refl).
  - unfold fail, ReportFailure. cbn [fst snd ok]. discriminate.
Qed.

Lemma FinishParse_empty st :
  ok (fst (FinishParse st)) = true -> stack_ (snd (FinishParse st)) = [].
Proof.
  unfold FinishParse.
  assert (Hrun : ok (fst
            (if coerce_to_utf8_ st
                && negb (IsStructurallyValidUTF8 (leftover_ st))
             then
               FinishParse_run
                 (set_p_
                    (ReplaceInvalidCodePoints (leftover_ st)
                       (utf8_replacement_character_ st) [])
                    (set_xml_
                       (ReplaceInvalidCodePoints (leftover_ st)
                          (utf8_replacement_character_ st) []) st))
             else
               if negb (IsStructurallyValidUTF8 (leftover_ st))
               then
                 fail "Encountered non UTF-8 code points." NON_UTF_8
                   (set_p_ (leftover_ st) (set_xml_ (leftover_ st) st))
               else
                 FinishParse_run
                   (set_p_ (leftover_ st) (set_xml_ (leftover_ st) st)))) = true
          -> stack_ (snd
            (if coerce_to_utf8_ st
                && negb (IsStructurallyValidUTF8 (leftover_ st))
             then
               FinishParse_run
                 (set_p_
                    (ReplaceInvalidCodePoints (leftover_ st)
                       (utf8_replacement_character_ st) [])
                    (set_xml_
                       (ReplaceInvalidCodePoints (leftover_ st)
                          (utf8_replacement_character_ st) []) st))
             else
               if negb (IsStructurallyValidUTF8 (leftover_ st))
               then
                 fail "Encountered non UTF-8 code points." NON_UTF_8
                   (set_p_ (leftover_ st) (set_xml_ (leftover_ st) st))
               else
                 FinishParse_run
                   (set_p_ (leftover_ st) (set_xml_ (leftover_ st) st)))) = []).
  { destruct (_ && _); [apply FinishParse_run_empty|].
    destruct (negb _); [|apply FinishParse_run_empty].
    unfold fail, ReportFailure. cbn [fst snd ok]. discriminate. }
  destruct (stack_ st) eqn:Hst; [|exact Hrun].
  destruct (leftover_ st); [|exact Hrun].
  destruct (tag_name_stack_ st); [|exact Hrun].
  intros _. exact Hst.
Qed.

(** X24.  The stacks of the parser stay balanced.  After every sequence of
    Parse calls that all return OK, the stack of tag names and the stack of
    element kinds have the same length, and the parser stack stands for as
    many open elements: under its top entry it holds one TEXT for each
    element whose opener is complete.  When FinishParse then returns OK,
    the three stacks are empty: every element that was opened has been
    closed. *)
Theorem parser_stacks_stay_balanced chunks :
  ok (fst (ParseAll chunks New)) = true ->
  (open_elements (stack_ (snd (ParseAll chunks New)))
   = Some (length (tag_name_stack_ (snd (ParseAll chunks New))))
   /\ length (element_type_stack_ (snd (ParseAll chunks New)))
      = length (tag_name_stack_ (snd (ParseAll chunks New))))
  /\ (ok (fst (ParseChunks chunks New)) = true ->
      stack_ (snd (ParseChunks chunks New)) = []
      /\ tag_name_stack_ (snd (ParseChunks chunks New)) = []
      /\ element_type_stack_ (snd (ParseChunks chunks New)) = []).
Proof.
  intros Hall.
  pose proof (proj1 (ParseAll_balanced chunks New balanced_New) Hall) as Hb.
  split; [split; apply Hb|].
  rewrite ParseChunks_ParseAll, Hall. intros Hok.
  pose proof (FinishParse_empty _ Hok) as Hst.
  pose proof (proj1 (FinishParse_balanced _ Hb) Hok) as Hb2.
  split; [exact Hst|]. exact (balanced_empty _ Hb2 Hst).
Qed.

Lemma parser_stacks_stay_balanced_witness :
  (open_elements
     (stack_ (snd (ParseAll [B "<a><b k='v"; B "'>te"; B "xt</b></a>"] New)))
   = Some (length (tag_name_stack_
                     (snd (ParseAll [B "<a><b k='v"; B "'>te"; B "xt</b></a>"]
                             New))))
   /\ length (element_type_stack_
                (snd (ParseAll [B "<a><b k='v"; B "'>te"; B "xt</b></a>"] New)))
      = length (tag_name_stack_
                  (snd (ParseAll [B "<a><b k='v"; B "'>te"; B "xt</b></a>"]
                          New))))
  /\ stack_ (snd (ParseChunks [B "<a><b k='v"; B "'>te"; B "xt</b></a>"] New))
     = [].
Proof.
  assert (H1 : ok (fst (ParseAll [B "<a><b k='v"; B "'>te"; B "xt</b></a>"]
                          New)) = true) by (vm_compute; reflexivity).
  assert (H2 : ok (fst (ParseChunks [B "<a><b k='v"; B "'>te"; B "xt</b></a>"]
                          New)) = true) by (vm_compute; reflexivity).
  destruct (parser_stacks_stay_balanced
              [B "<a><b k='v"; B "'>te"; B "xt</b></a>"] H1) as [Ha Hb].
  split; [exact Ha|exact (proj1 (Hb H2))].
Defined.

(** X25.  A closing tag before the first element is the only way out of
    the contract.  In a sequence of Parse calls followed by FinishParse the
    parser reads the top of an empty stack, pops an empty stack or reads
    the byte at an empty cursor only when the sink has received nothing and
    no element is open: once the first tag name has been read, every
    stack_.top(), tag_name_stack_.top(), element_type_stack_.pop() and
    *p_.data() of the parse functions finds what it reads. *)
Theorem undefined_behaviour_only_before_the_first_tag chunks :
  fst (ParseChunks chunks New) = Undefined ->
  ow_ (snd (ParseChunks chunks New)) = []
  /\ tag_name_stack_ (snd (ParseChunks chunks New)) = [].
Proof. exact (proj2 (ParseChunks_balanced chunks New balanced_New)). Qed.

Lemma undefined_behaviour_only_before_the_first_tag_witness :
  ow_ (snd (ParseChunks [B " <"; B "/a>"] New)) = []
  /\ tag_name_stack_ (snd (ParseChunks [B " <"; B "/a>"] New)) = [].
Proof.
  assert (H : fst (ParseChunks [B " <"; B "/a>"] New) = Undefined)
    by (vm_compute; reflexivity).
  exact (undefined_behaviour_only_before_the_first_tag [B " <"; B "/a>"] H).
Defined.

(** X26.  The text of an element is read from its first byte that is not
    white space.  White space between the opener and the text is skipped
    and is not part of what the sink receives, while everything from the
    first other byte up to the closing tag is, white space included; an
    element that holds white space only has no text at all. *)
Theorem text_is_read_from_its_first_non_space_byte t ws c body :
  plain_tag t = true -> forallb ascii_isspace ws = true ->
  text_head c = true -> text_tail body = true ->
  IsStructurallyValidUTF8 (c :: body) = true ->
  (fst (ParseChunks [opener t ++ ws ++ c :: body ++ closer t] New) = OkStatus
   /\ ow_ (snd (ParseChunks [opener t ++ ws ++ c :: body ++ closer t] New))
      = [start_object_event t []; RenderString [] (c :: body); EndObject])
  /\ (fst (ParseChunks [opener t ++ ws ++ closer t] New) = OkStatus
      /\ ow_ (snd (ParseChunks [opener t ++ ws ++ closer t] New))
         = [start_object_event t []; EndObject]).
Proof.
  intros Ht Hws Hc Hbody Hvalid.
  destruct (plain_tag_inv t Ht) as (Hnt & Hlt & Hat).
  pose proof (ascii_wf _ (opener_ascii t Ht)) as Wt.
  pose proof (ascii_wf _ (closer_ascii t Ht)) as Wt'.
  pose proof (ascii_wf _ (space_ascii ws Hws)) as Wws.
  pose proof (wf_text c body Hvalid) as Wtext.
  split.
  - destruct (ParseChunks_wf_leads 100
                (opener t ++ ws ++ c :: body ++ closer t) New
                [start_object_event t []; RenderString [] (c :: body);
                 EndObject] 0 [])
      as (H1 & H2 & _); try reflexivity; [| | |split; assumption].
    + unfold opener. discriminate.
    + apply utf8_wf_app; [exact Wt|]. apply utf8_wf_app; [exact Wws|].
      change (c :: body ++ closer t) with ((c :: body) ++ closer t).
      apply utf8_wf_app; assumption.
    + cbn [stack_ ow_ recursion_depth_ tag_name_stack_ element_type_stack_ New].
      eapply leads_trans; [apply leads_first_opener; [exact Ht|lia]|].
      unfold closer. cbn [B app list_byte_of_string].
      eapply leads_trans;
        [apply (leads_text 100 ws c body); [exact Hws|exact Hc|exact Hbody]|].
      eapply leads_trans; [apply leads_end_element|].
      eapply leads_trans;
        [apply (leads_end_name 100 t ">"%byte []); try assumption; reflexivity|].
      apply leads_end_close.
  - destruct (ParseChunks_wf_leads 100 (opener t ++ ws ++ closer t) New
                [start_object_event t []; EndObject] 0 [])
      as (H1 & H2 & _); try reflexivity; [| | |split; assumption].
    + unfold opener. discriminate.
    + apply utf8_wf_app; [exact Wt|]. apply utf8_wf_app; assumption.
    + cbn [stack_ ow_ recursion_depth_ tag_name_stack_ element_type_stack_ New].
      eapply leads_trans; [apply leads_first_opener; [exact Ht|lia]|].
      unfold closer. cbn [B app list_byte_of_string].
      eapply leads_trans; [apply (leads_open_tag 100 ws); exact Hws|].
      eapply leads_trans; [apply leads_end_slash|].
      eapply leads_trans;
        [apply (leads_end_name 100 t ">"%byte []); try assumption; reflexivity|].
      apply leads_end_close.
Qed.

Lemma text_is_read_from_its_first_non_space_byte_witness :
  ow_ (snd (ParseChunks [B "<a>  two words </a>"] New))
  = [StartObject (B "a"); RenderString [] (B "two words "); EndObject]
  /\ ow_ (snd (ParseChunks [B "<a>  </a>"] New))
     = [StartObject (B "a"); EndObject].
Proof.
  assert (Ht : plain_tag (B "a") = true) by (vm_compute; reflexivity).
  assert (Hw : forallb ascii_isspace (B "  ") = true) by reflexivity.
  assert (Hc : text_head "t"%byte = true) by reflexivity.
  assert (Hb : text_tail (B "wo words ") = true) by reflexivity.
  assert (Hv : IsStructurallyValidUTF8 (B "two words ") = true)
    by (vm_compute; reflexivity).
  pose proof (text_is_read_from_its_first_non_space_byte (B "a") (B "  ")
                "t"%byte (B "wo words ") Ht Hw Hc Hb Hv) as H.
  split; [exact (proj2 (proj1 H))|exact (proj2 (proj2 H))].
Defined.

(** ** A trailing space in an opening tag *)

Lemma Parse_chunk_text xml st : fst (Parse_chunk xml st) = leftover_ st ++ xml.
Proof. unfold Parse_chunk. destruct (leftover_ st); reflexivity. Qed.

(** Parse is ParseChunk on the valid prefix of the text of Parse_chunk, the
    rest of the text appended to leftover_. *)
Lemma Parse_Parse_chunk xml st :
  Parse xml st
  = let (chunk, st1) := Parse_chunk xml st in
    let n := UTF8SpnStructurallyValid chunk in
    if Nat.ltb 0 n then
      let (status, st2) := ParseChunk (firstn n chunk) st1 in
      (status, set_leftover_ (leftover_ st2 ++ skipn n chunk) st2)
    else (OkStatus, set_leftover_ chunk st1).
Proof. reflexivity. Qed.

(** In BEGIN_ELEMENT_MID the skipper stops at a space that ends the chunk. *)
Lemma SkipWhitespace_t_loop_mid ws : forall fuel st,
  forallb ascii_isspace ws = true -> p_ st = ws ++ B " " ->
  (length ws < fuel)%nat ->
  SkipWhitespace_t_loop BEGIN_ELEMENT_MID fuel st
  = set_seen_non_whitespace_ true (set_p_ (B " ") st).
Proof.
  induction ws as [|w ws IH]; intros fuel st Hws Hp Hf.
  - destruct fuel as [|fuel]; [inversion Hf|].
    cbn [SkipWhitespace_t_loop]. rewrite Hp. cbn.
    destruct st; cbn in *; subst; reflexivity.
  - destruct fuel as [|fuel]; [inversion Hf|].
    cbn [forallb] in Hws. apply andb_true_iff in Hws as [Hw Hws].
    cbn [SkipWhitespace_t_loop]. rewrite Hp. cbn [app]. rewrite Hw.
    cbn [ParseType_eqb].
    assert (Hn : exists c r, ws ++ B " " = c :: r /\ ascii_isspace c = true).
    { destruct ws as [|c r]; [exists " "%byte, []; split; reflexivity|].
      exists c, (r ++ B " "). split; [reflexivity|].
      cbn [forallb] in Hws. apply andb_true_iff in Hws. tauto. }
    destruct Hn as (c & r & E & Hc). rewrite E.
    cbn [length Nat.eqb Nat.leb nth andb]. rewrite Hc. cbn [negb].
    rewrite (Advance_one st w (c :: r));
      [|rewrite Hp; cbn [app]; rewrite E; reflexivity|apply space_one; exact Hw].
    rewrite IH; [apply f_equal; apply set_p_set_p|exact Hws| |cbn [length] in Hf; lia].
    rewrite <- E. destruct st; reflexivity.
Qed.

(** The loop in BEGIN_ELEMENT_MID with white space ending in a space as the
    rest of the chunk: the space is read as the attribute separator and the
    loop suspends in ATTR_KEY. *)
Lemma RunParser_trailing_space st rest ws :
  forallb ascii_isspace ws = true ->
  stack_ st = BEGIN_ELEMENT_MID :: rest ->
  string_open_ st = x00 -> finishing_ st = false ->
  p_ st = ws ++ B " " ->
  SkipWhitespace_t BEGIN_ELEMENT_MID st
  = set_seen_non_whitespace_ true (set_p_ (B " ") st)
  /\ fst (GetNextTokenType BEGIN_ELEMENT_MID st) = ATTR_SEPARATOR
  /\ exists st2,
       RunParser st = (OkStatus, st2) /\ p_ st2 = []
       /\ stack_ st2 = ATTR_KEY :: rest /\ ow_ st2 = ow_ st.
Proof.
  intros Hws Hs Hso Hf Hp.
  assert (Hsk : SkipWhitespace_t BEGIN_ELEMENT_MID st
                = set_seen_non_whitespace_ true (set_p_ (B " ") st)).
  { unfold SkipWhitespace_t.
    rewrite (SkipWhitespace_t_loop_mid ws _ st Hws Hp)
      by (rewrite Hp, length_app; change (length (B " ")) with 1%nat; lia).
    destruct st; reflexivity. }
  assert (Hn : next_token BEGIN_ELEMENT_MID st
               = (ATTR_SEPARATOR,
                  set_seen_non_whitespace_ true (set_p_ (B " ") st))).
  { unfold next_token, GetNextTokenType. rewrite Hso, Hsk.
    destruct st; reflexivity. }
  split; [exact Hsk|]. split.
  { unfold GetNextTokenType. rewrite Hsk. destruct st; reflexivity. }
  unfold RunParser. rewrite Hp, length_app.
  replace (length (B " ")) with 1%nat by reflexivity.
  replace (S (length ws + 1)) with (S (S (length ws))) by lia.
  cbn [RunParser_fuel]. rewrite Hs.
  unfold RunParser_round at 1. rewrite Hn.
  destruct st; cbn in Hs, Hso, Hf, Hp |- *; subst.
  match goal with
  | |- context [mkParser _ _ _ _ _ ?k ?ks] => destruct k, ks
  end; vm_compute; eexists; repeat split; reflexivity.
Qed.

(** C9, amended.  Whenever, in a Parse call, the rounds of the parser loop
    lead to state BEGIN_ELEMENT_MID (no string open) with white space that
    ends in a space as the rest of the chunk - a single trailing space as
    the last byte of the chunk, for one - the whitespace skipper consumes
    the white space before that space and not the space; the tokenizer
    classifies it as ATTR_SEPARATOR, ParseBeginElementMid consumes it and
    pushes ATTR_KEY, and the parser suspends there: Parse returns OK with
    ATTR_KEY on top of the stack, the chunk used up and no further event.
    The chunk is the longest structurally valid UTF-8 prefix of the
    previous leftover followed by the input; leftover_ then holds the bytes
    behind that prefix and nothing of the chunk, so it is empty when the
    leftover followed by the input is valid UTF-8. *)
Theorem trailing_space_in_open_tag_is_the_separator :
  forall st xml st1 rest ws,
    forallb ascii_isspace ws = true ->
    runs (Parse_entry xml st) st1 ->
    stack_ st1 = BEGIN_ELEMENT_MID :: rest ->
    string_open_ st1 = x00 ->
    p_ st1 = ws ++ B " " ->
    p_ (SkipWhitespace_t BEGIN_ELEMENT_MID st1) = B " "
    /\ fst (GetNextTokenType BEGIN_ELEMENT_MID st1) = ATTR_SEPARATOR
    /\ fst (Parse xml st) = OkStatus
    /\ leftover_ (snd (Parse xml st))
       = skipn (UTF8SpnStructurallyValid (leftover_ st ++ xml))
           (leftover_ st ++ xml)
    /\ (IsStructurallyValidUTF8 (leftover_ st ++ xml) = true ->
        leftover_ (snd (Parse xml st)) = [])
    /\ p_ (snd (Parse xml st)) = []
    /\ stack_ (snd (Parse xml st)) = ATTR_KEY :: rest
    /\ ow_ (snd (Parse xml st)) = ow_ st1.
Proof.
  intros st xml st1 rest ws Hws Hruns Hs Hso Hp.
  pose proof (runs_frame _ _ Hruns) as F.
  pose proof (runs_RunParser _ _ Hruns) as HR.
  rewrite Parse_Parse_chunk. unfold Parse_entry in *.
  pose proof (Parse_chunk_text xml st) as Ht.
  destruct (Parse_chunk xml st) as [chunk st0]. cbn [fst] in Ht. subst chunk.
  set (chunk := leftover_ st ++ xml) in *.
  set (n := UTF8SpnStructurallyValid chunk) in *. cbv zeta in *.
  assert (Hf : finishing_ st1 = false).
  { destruct F as (F & _). rewrite F. destruct st0; reflexivity. }
  destruct (RunParser_trailing_space st1 rest ws Hws Hs Hso Hf Hp)
    as (Hsk & Htok & st2 & HR2 & Hp2 & Hs2 & Ho2).
  assert (Hne : firstn n chunk <> []).
  { destruct F as (_ & _ & _ & _ & _ & _ & _ & k & Hk).
    replace (p_ (set_finishing_ false
                   (set_p_ (firstn n chunk) (set_xml_ (firstn n chunk) st0))))
      with (firstn n chunk) in Hk by (destruct st0; reflexivity).
    intros E. rewrite E, skipn_nil, Hp in Hk. destruct ws; discriminate. }
  assert (Hn : Nat.ltb 0 n = true).
  { apply Nat.ltb_lt. destruct n; [cbn in Hne; congruence|lia]. }
  rewrite Hn. unfold ParseChunk.
  destruct (firstn n chunk) as [|b l] eqn:E; [congruence|].
  rewrite HR, HR2. cbn [ok negb].
  rewrite (SkipWhitespace_all [] st2 eq_refl Hp2).
  replace (p_ (set_p_ [] st2)) with (@nil byte) by (destruct st2; reflexivity).
  cbn [fst snd].
  split; [rewrite Hsk; destruct st1; reflexivity|].
  split; [exact Htok|]. split; [reflexivity|].
  split; [destruct st2; reflexivity|].
  split.
  { intros Hv. unfold IsStructurallyValidUTF8 in Hv.
    apply Nat.eqb_eq in Hv. fold n in Hv.
    replace (leftover_ _) with (skipn n chunk)
      by (destruct st2; reflexivity).
    rewrite Hv. apply skipn_all. }
  destruct st2; cbn in *; subst. repeat split.
Qed.

Lemma trailing_space_in_open_tag_is_the_separator_witness :
  (fst (Parse (B "<root ") New) = OkStatus
   /\ leftover_ (snd (Parse (B "<root ") New)) = []
   /\ stack_ (snd (Parse (B "<root ") New)) = [ATTR_KEY]
   /\ ow_ (snd (Parse (B "<root ") New)) = [StartObject []])
  /\ (let st := snd (Parse (B "<root a='1'") New) in
      fst (Parse (B " ") st) = OkStatus
      /\ leftover_ (snd (Parse (B " ") st)) = []
      /\ stack_ (snd (Parse (B " ") st)) = [ATTR_KEY]).
Proof.
  split.
  - assert (H : exists st1,
               runs (Parse_entry (B "<root ") New) st1
               /\ stack_ st1 = [BEGIN_ELEMENT_MID] /\ string_open_ st1 = x00
               /\ p_ st1 = [] ++ B " " /\ ow_ st1 = [StartObject []]).
    { eexists. split.
      - eapply runs_step; [reflexivity|vm_compute; reflexivity|].
        eapply runs_step; [reflexivity|vm_compute; reflexivity|].
        apply runs_refl.
      - repeat split. }
    destruct H as (st1 & Hr & Hs & Hso & Hp & Ho).
    destruct (trailing_space_in_open_tag_is_the_separator New (B "<root ") st1
                [] [] eq_refl Hr Hs Hso Hp)
      as (_ & _ & H1 & _ & H2 & _ & H3 & H4).
    rewrite Ho in H4.
    split; [exact H1|]. split; [exact (H2 eq_refl)|].
    split; [exact H3|exact H4].
  - intros st.
    destruct (trailing_space_in_open_tag_is_the_separator st (B " ")
                (Parse_entry (B " ") st) [] [] eq_refl (runs_refl _)
                eq_refl eq_refl eq_refl)
      as (_ & _ & H1 & _ & H2 & _ & H3 & _).
    split; [exact H1|]. split; [exact (H2 eq_refl)|exact H3].
Defined.

(** ** Input that is not valid UTF-8 to its end

    Parse hands the parser the longest structurally valid prefix [pre] of
    its input and keeps the rest [junk], which is empty or begins with a
    byte that begins no well-formed character. *)

Lemma wf_UTF8Spn pre : utf8_wf pre -> UTF8SpnStructurallyValid pre = length pre.
Proof.
  intros H. pose proof (UTF8Spn_app pre [] H) as E.
  rewrite app_nil_r, UTF8Spn_nil, Nat.add_0_r in E. exact E.
Qed.

Lemma junk_UTF8Spn pre junk :
  utf8_wf pre -> UTF8SpnStructurallyValid junk = 0%nat ->
  UTF8SpnStructurallyValid (pre ++ junk) = length pre.
Proof. intros H J. rewrite (UTF8Spn_app pre junk H), J. lia. Qed.

Lemma junk_invalid junk :
  junk <> [] -> UTF8SpnStructurallyValid junk = 0%nat ->
  IsStructurallyValidUTF8 junk = false.
Proof.
  intros Hne J. unfold IsStructurallyValidUTF8. rewrite J.
  destruct junk; [congruence|reflexivity].
Qed.

(** Parse on a text with such a rest is Parse on the valid prefix, the rest
    appended to leftover_. *)
Lemma Parse_junk pre junk st :
  leftover_ st = [] -> utf8_wf pre ->
  UTF8SpnStructurallyValid junk = 0%nat ->
  Parse (pre ++ junk) st
  = let (status, st2) := Parse pre st in
    (status, set_leftover_ (leftover_ st2 ++ junk) st2).
Proof.
  intros Hl Hwf J. unfold Parse. rewrite Hl.
  rewrite (junk_UTF8Spn pre junk Hwf J), (wf_UTF8Spn pre Hwf).
  rewrite firstn_app, Nat.sub_diag, firstn_all, firstn_O, app_nil_r.
  rewrite skipn_app, Nat.sub_diag, skipn_all. cbn [skipn app].
  destruct pre as [|c pre].
  - cbn. destruct st; reflexivity.
  - cbn [length Nat.ltb Nat.leb].
    destruct (ParseChunk (c :: pre) st) as [r st2].
    destruct st2; cbn. rewrite app_nil_r. reflexivity.
Qed.

(** A failure of Parse on the valid prefix is the result of the
    sequence. *)
Lemma ParseChunks_junk_failure pre junk st :
  leftover_ st = [] -> utf8_wf pre ->
  UTF8SpnStructurallyValid junk = 0%nat ->
  ok (fst (Parse pre st)) = false ->
  fst (ParseChunks [pre ++ junk] st) = fst (Parse pre st)
  /\ ow_ (snd (ParseChunks [pre ++ junk] st)) = ow_ (snd (Parse pre st)).
Proof.
  intros Hl Hwf J Hok. cbn [ParseChunks].
  rewrite (Parse_junk pre junk st Hl Hwf J).
  destruct (Parse pre st) as [r st2]. cbn [fst snd] in *. rewrite Hok.
  split; [reflexivity|destruct st2; reflexivity].
Qed.

(** When Parse returns OK on the valid prefix and bytes that are not valid
    UTF-8 follow, Parse returns OK and FinishParse fails. *)
Lemma ParseChunks_junk_non_utf8 pre junk st :
  leftover_ st = [] -> coerce_to_utf8_ st = false -> utf8_wf pre ->
  junk <> [] -> UTF8SpnStructurallyValid junk = 0%nat ->
  ok (fst (Parse pre st)) = true ->
  fst (Parse (pre ++ junk) st) = fst (Parse pre st)
  /\ (exists context,
         fst (ParseChunks [pre ++ junk] st)
         = InvalidArgumentError (Some NON_UTF_8)
             (B "Encountered non UTF-8 code points." ++ context))
  /\ ow_ (snd (ParseChunks [pre ++ junk] st)) = ow_ (snd (Parse pre st)).
Proof.
  intros Hl Hc Hwf Hne J Hok.
  pose proof (Parse_leftover pre st Hok) as [k Hk].
  pose proof (Parse_good pre st) as (_ & Hc1 & _).
  rewrite Hl in Hk. cbn [app] in Hk.
  rewrite (wf_UTF8Spn pre Hwf), firstn_all, skipn_all, app_nil_r in Hk.
  cbn [ParseChunks]. rewrite (Parse_junk pre junk st Hl Hwf J).
  destruct (Parse pre st) as [r st2]. cbn [fst snd] in *.
  split; [reflexivity|]. rewrite Hok.
  set (st3 := set_leftover_ (leftover_ st2 ++ junk) st2).
  assert (Hc3 : coerce_to_utf8_ st3 = false)
    by (subst st3; destruct st2; cbn in *; congruence).
  assert (Hv3 : IsStructurallyValidUTF8 (leftover_ st3) = false).
  { subst st3. replace (leftover_ (set_leftover_ _ st2))
      with (leftover_ st2 ++ junk) by (destruct st2; reflexivity).
    rewrite Hk. apply invalid_after_suffix; [exact Hwf|].
    apply junk_invalid; assumption. }
  split; [apply FinishParse_invalid; assumption|].
  unfold FinishParse. rewrite Hc3, Hv3. cbn [andb negb].
  destruct (leftover_ st3) eqn:El; [discriminate Hv3|].
  replace (ow_ st2) with (ow_ st3) by (subst st3; destruct st2; reflexivity).
  destruct (stack_ st3); destruct st3; reflexivity.
Qed.

(** The loop fails on the valid prefix: so does Parse, and the sequence. *)
Lemma Parse_wf_fails max xml st message code p ow :
  leftover_ st = [] -> xml <> [] -> utf8_wf xml ->
  string_open_ st = x00 -> parsed_storage_ st = [] ->
  max_recursion_depth_ st = max ->
  fails max
    (mkConfig (stack_ st) xml (ow_ st) (recursion_depth_ st)
       (tag_name_stack_ st) (element_type_stack_ st)) message code p ow ->
  fst (Parse xml st)
  = ReportFailure (B message) code (set_p_ p (set_xml_ xml st))
  /\ ow_ (snd (Parse xml st)) = ow.
Proof.
  intros Hl Hne Ha Hso Hps Hm Hf.
  destruct (ready_start max xml st Hso Hps Hm) as [Hr Hc].
  destruct (Hf _ Hr Hc) as [H1 H2].
  rewrite (Parse_wf xml st Hl Hne Ha).
  unfold ParseChunk. destruct xml as [|c xml]; [congruence|].
  destruct (RunParser _) as [r0 st2]. cbn [fst snd] in H1, H2. subst r0.
  cbn [ok ReportFailure negb fst snd]. split; [|destruct st2; exact H2].
  unfold ReportFailure. destruct st; reflexivity.
Qed.

Lemma ParseChunks_junk_fails max pre junk st message code p ow :
  leftover_ st = [] -> pre <> [] -> utf8_wf pre ->
  UTF8SpnStructurallyValid junk = 0%nat ->
  string_open_ st = x00 -> parsed_storage_ st = [] ->
  max_recursion_depth_ st = max ->
  fails max
    (mkConfig (stack_ st) pre (ow_ st) (recursion_depth_ st)
       (tag_name_stack_ st) (element_type_stack_ st)) message code p ow ->
  fst (ParseChunks [pre ++ junk] st)
  = ReportFailure (B message) code (set_p_ p (set_xml_ pre st))
  /\ ow_ (snd (ParseChunks [pre ++ junk] st)) = ow.
Proof.
  intros Hl Hne Ha J Hso Hps Hm Hf.
  destruct (Parse_wf_fails max pre st message code p ow Hl Hne Ha Hso Hps Hm
              Hf) as [H1 H2].
  destruct (ParseChunks_junk_failure pre junk st Hl Ha J) as [H3 H4].
  { rewrite H1. reflexivity. }
  rewrite H3, H4. split; assumption.
Qed.

(** The loop runs to an empty stack with text left: Parse fails. *)
Lemma ParseChunks_junk_terminated max pre junk st ws c rest ow d tags kinds :
  leftover_ st = [] -> pre <> [] -> utf8_wf pre ->
  UTF8SpnStructurallyValid junk = 0%nat ->
  string_open_ st = x00 -> parsed_storage_ st = [] ->
  max_recursion_depth_ st = max ->
  forallb ascii_isspace ws = true -> ascii_isspace c = false ->
  leads max
    (mkConfig (stack_ st) pre (ow_ st) (recursion_depth_ st)
       (tag_name_stack_ st) (element_type_stack_ st))
    (mkConfig [] (ws ++ c :: rest) ow d tags kinds) ->
  fst (ParseChunks [pre ++ junk] st)
  = ReportFailure (B "Parsing terminated before end of input.")
      PARSING_TERMINATED_BEFORE_END_OF_INPUT
      (set_p_ (c :: rest) (set_xml_ pre st))
  /\ ow_ (snd (ParseChunks [pre ++ junk] st)) = ow.
Proof.
  intros Hl Hne Ha J Hso Hps Hm Hws Hcs Hleads.
  assert (HP : fst (Parse pre st)
               = ReportFailure (B "Parsing terminated before end of input.")
                   PARSING_TERMINATED_BEFORE_END_OF_INPUT
                   (set_p_ (c :: rest) (set_xml_ pre st))
               /\ ow_ (snd (Parse pre st)) = ow).
  { destruct (ready_start max pre st Hso Hps Hm) as [Hr Hc].
    destruct (Hleads _ Hr Hc) as (st' & Hruns & Hr' & Hc').
    pose proof (runs_frame _ _ Hruns) as (_ & _ & _ & _ & Hxml & _).
    unfold config in Hc'. injection Hc' as Hs' Hp' Ho' Hd' Ht' Hk'.
    rewrite (Parse_wf pre st Hl Hne Ha).
    unfold ParseChunk. destruct pre as [|c0 pre]; [congruence|].
    rewrite (runs_RunParser _ _ Hruns).
    unfold RunParser. cbn [RunParser_fuel]. rewrite Hs'. cbn [ok negb].
    rewrite (SkipWhitespace_spaces ws c rest st' Hws Hcs Hp').
    replace (p_ (set_seen_non_whitespace_ true (set_p_ (c :: rest) st')))
      with (c :: rest) by (destruct st'; reflexivity).
    replace (stack_ (set_seen_non_whitespace_ true (set_p_ (c :: rest) st')))
      with (@nil ParseType) by (destruct st'; cbn in *; congruence).
    unfold fail. cbn [ok fst snd ReportFailure].
    split; [|destruct st'; exact Ho'].
    unfold ReportFailure.
    replace (xml_ (set_seen_non_whitespace_ true (set_p_ (c :: rest) st')))
      with (c0 :: pre)
      by (destruct st', st; cbn in Hxml |- *; congruence).
    replace (p_ (set_seen_non_whitespace_ true (set_p_ (c :: rest) st')))
      with (c :: rest) by (destruct st'; reflexivity).
    destruct st; reflexivity. }
  destruct HP as [H1 H2].
  destruct (ParseChunks_junk_failure pre junk st Hl Ha J) as [H3 H4].
  { rewrite H1. reflexivity. }
  rewrite H3, H4. split; assumption.
Qed.

(** The loop runs to an empty stack with white space left: Parse returns
    OK. *)
Lemma Parse_wf_leads_ws max xml st ws ow d tags kinds :
  leftover_ st = [] -> xml <> [] -> utf8_wf xml ->
  string_open_ st = x00 -> parsed_storage_ st = [] ->
  max_recursion_depth_ st = max ->
  forallb ascii_isspace ws = true ->
  leads max
    (mkConfig (stack_ st) xml (ow_ st) (recursion_depth_ st)
       (tag_name_stack_ st) (element_type_stack_ st))
    (mkConfig [] ws ow d tags kinds) ->
  fst (Parse xml st) = OkStatus /\ ow_ (snd (Parse xml st)) = ow.
Proof.
  intros Hl Hne Ha Hso Hps Hm Hws Hleads.
  destruct (ready_start max xml st Hso Hps Hm) as [Hr Hc].
  destruct (Hleads _ Hr Hc) as (st' & Hruns & Hr' & Hc').
  unfold config in Hc'. injection Hc' as Hs' Hp' Ho' Hd' Ht' Hk'.
  rewrite (Parse_wf xml st Hl Hne Ha).
  unfold ParseChunk. destruct xml as [|c xml]; [congruence|].
  rewrite (runs_RunParser _ _ Hruns).
  unfold RunParser. cbn [RunParser_fuel]. rewrite Hs'. cbn [ok negb].
  rewrite (SkipWhitespace_all ws st' Hws Hp').
  replace (p_ (set_p_ [] st')) with (@nil byte) by (destruct st'; reflexivity).
  cbn [fst snd]. split; [reflexivity|].
  destruct st'; cbn in Ho' |- *; exact Ho'.
Qed.

(** The loop runs to a state in which it suspends: Parse returns OK. *)
Lemma Parse_wf_suspends max xml st C ow :
  leftover_ st = [] -> xml <> [] -> utf8_wf xml ->
  string_open_ st = x00 -> parsed_storage_ st = [] ->
  max_recursion_depth_ st = max ->
  leads max
    (mkConfig (stack_ st) xml (ow_ st) (recursion_depth_ st)
       (tag_name_stack_ st) (element_type_stack_ st)) C ->
  (forall st1, ready max st1 -> config st1 = C ->
     exists st2, RunParser st1 = (OkStatus, st2)
                 /\ stack_ st2 <> [] /\ ow_ st2 = ow) ->
  fst (Parse xml st) = OkStatus /\ ow_ (snd (Parse xml st)) = ow.
Proof.
  intros Hl Hne Ha Hso Hps Hm Hleads Hsusp.
  destruct (ready_start max xml st Hso Hps Hm) as [Hr Hc].
  destruct (Hleads _ Hr Hc) as (st' & Hruns & Hr' & Hc').
  destruct (Hsusp st' Hr' Hc') as (st2 & HR & Hs2 & Ho2).
  rewrite (Parse_wf xml st Hl Hne Ha).
  unfold ParseChunk. destruct xml as [|c xml]; [congruence|].
  rewrite (runs_RunParser _ _ Hruns), HR. cbn [ok negb].
  destruct (same_stacks_SkipWhitespace st2) as (E1 & _ & _ & E2).
  destruct (p_ (SkipWhitespace st2)).
  - cbn [fst snd]. split; [reflexivity|].
    destruct (SkipWhitespace st2); cbn in E2 |- *; congruence.
  - destruct (stack_ (SkipWhitespace st2)) eqn:E; [congruence|].
    cbn [fst snd]. split; [reflexivity|].
    destruct (SkipWhitespace st2); cbn in E2 |- *; congruence.
Qed.

(** White space only: Parse suspends before the first element. *)
Lemma Parse_white_space ws :
  forallb ascii_isspace ws = true ->
  exists st',
    Parse ws New = (OkStatus, st')
    /\ stack_ st' = [BEGIN_ELEMENT] /\ leftover_ st' = []
    /\ string_open_ st' = x00 /\ ow_ st' = [].
Proof.
  intros Hws. pose proof (space_ascii ws Hws) as Hascii.
  destruct ws as [|w ws']; [eexists; repeat split|].
  rewrite (Parse_ascii (w :: ws') New eq_refl ltac:(discriminate) Hascii).
  unfold ParseChunk.
  set (st1 := set_finishing_ false
                (set_p_ (w :: ws') (set_xml_ (w :: ws') New))).
  assert (HR : RunParser st1 = (OkStatus, set_p_ [] st1)).
  { unfold RunParser. cbn [RunParser_fuel].
    change (stack_ st1) with [BEGIN_ELEMENT].
    unfold RunParser_round, next_token.
    change (Byte.eqb (string_open_ st1) x00) with true. cbv iota.
    unfold GetNextTokenType, SkipWhitespace_t.
    change (p_ st1) with (w :: ws').
    rewrite (SkipWhitespace_t_loop_all BEGIN_ELEMENT (w :: ws') _ st1
               ltac:(discriminate) Hws eq_refl (Nat.le_refl _)).
    reflexivity. }
  rewrite HR. cbn [ok negb].
  rewrite (SkipWhitespace_all [] (set_p_ [] st1) eq_refl eq_refl).
  eexists. repeat split.
Qed.

(** X2.  A document must begin with an element.  Parse hands the parser
    the longest structurally valid UTF-8 prefix of the text, what follows
    it being empty or beginning with a byte that begins no well-formed
    character.  When the first byte of the text that is no white space is
    not the open angle bracket and begins a well-formed character, Parse
    fails with Expected an open tag, the cursor at that byte and the
    context taken from the valid prefix, and the sink receives nothing.
    When white space is followed by a byte that begins no well-formed
    character, Parse returns OK and FinishParse fails with Encountered non
    UTF-8 code points.  When the text is empty or white space only, Parse
    returns OK and FinishParse fails with Unexpected end of string.
    Expected an open tag. *)
Theorem document_must_begin_with_an_open_tag ws :
  forallb ascii_isspace ws = true ->
  (forall c v junk,
      ascii_isspace c = false -> c <> "<"%byte ->
      utf8_wf (c :: v) -> UTF8SpnStructurallyValid junk = 0%nat ->
      fst (ParseChunks [ws ++ c :: v ++ junk] New)
      = failure_at "Expected an open tag." EXPECTED_OPEN_TAG
          (ws ++ c :: v) (c :: v)
      /\ ow_ (snd (ParseChunks [ws ++ c :: v ++ junk] New)) = [])
  /\ (forall junk,
         junk <> [] -> UTF8SpnStructurallyValid junk = 0%nat ->
         fst (Parse (ws ++ junk) New) = OkStatus
         /\ (exists context,
                fst (ParseChunks [ws ++ junk] New)
                = InvalidArgumentError (Some NON_UTF_8)
                    (B "Encountered non UTF-8 code points." ++ context))
         /\ ow_ (snd (ParseChunks [ws ++ junk] New)) = [])
  /\ fst (Parse ws New) = OkStatus
  /\ fst (ParseChunks [ws] New)
     = failure_at "Unexpected end of string. Expected an open tag."
         EXPECTED_OPEN_TAG [] []
  /\ ow_ (snd (ParseChunks [ws] New)) = [].
Proof.
  intros Hws.
  pose proof (ascii_wf ws (space_ascii ws Hws)) as Hwf.
  destruct (Parse_white_space ws Hws) as (st' & HP & Hs & Hl & Hso & Ho).
  split; [|split].
  - intros c v junk Hc Hlt Hv J.
    replace (ws ++ c :: v ++ junk) with ((ws ++ c :: v) ++ junk)
      by (rewrite <- app_assoc; reflexivity).
    apply (ParseChunks_junk_fails 100 (ws ++ c :: v) junk New);
      try reflexivity;
      [destruct ws; discriminate|apply utf8_wf_app; assumption|exact J|].
    apply fails_no_open_tag; assumption.
  - intros junk Hne J.
    destruct (ParseChunks_junk_non_utf8 ws junk New eq_refl eq_refl Hwf Hne J)
      as (H1 & H2 & H3); [rewrite HP; reflexivity|].
    rewrite HP in H1, H3. cbn [fst snd] in H1, H3.
    split; [exact H1|]. split; [exact H2|]. rewrite H3. exact Ho.
  - rewrite HP. split; [reflexivity|].
    cbn [ParseChunks]. rewrite HP. cbn [ok].
    rewrite <- Ho.
    apply (FinishParse_at_end BEGIN_ELEMENT [] st'); auto.
Qed.

Lemma document_must_begin_with_an_open_tag_witness :
  fst (ParseChunks [B "  hello"] New)
  = failure_at "Expected an open tag." EXPECTED_OPEN_TAG
      (B "  hello") (B "hello")
  /\ fst (ParseChunks [B "  h" ++ [xe9]] New)
     = failure_at "Expected an open tag." EXPECTED_OPEN_TAG
         (B "  h") (B "h")
  /\ fst (Parse (B "  " ++ [xff]) New) = OkStatus.
Proof.
  assert (Hws : forallb ascii_isspace (B "  ") = true) by reflexivity.
  assert (Hc : ascii_isspace "h"%byte = false) by reflexivity.
  assert (Hlt : "h"%byte <> "<"%byte) by discriminate.
  assert (Ha : utf8_wf (B "hello")) by (apply ascii_wf; reflexivity).
  assert (Hh : utf8_wf (B "h")) by (apply ascii_wf; reflexivity).
  assert (J0 : UTF8SpnStructurallyValid [] = 0%nat) by reflexivity.
  assert (J1 : UTF8SpnStructurallyValid [xe9] = 0%nat) by reflexivity.
  assert (J2 : UTF8SpnStructurallyValid [xff] = 0%nat) by reflexivity.
  assert (Hne : [xff] <> []) by discriminate.
  pose proof (document_must_begin_with_an_open_tag (B "  ") Hws)
    as (H1 & H2 & _).
  split; [|split].
  - pose proof (proj1 (H1 "h"%byte (B "ello") [] Hc Hlt Ha J0)) as H.
    rewrite app_nil_r in H. exact H.
  - exact (proj1 (H1 "h"%byte [] [xe9] Hc Hlt Hh J1)).
  - exact (proj1 (H2 [xff] Hne J2)).
Defined.

(** X3.  The root element ends the document.  After the closing tag of the
    outermost of properly nested elements only white space may follow: with
    white space the document parses with the same events.  With anything
    else the document is rejected after the sink has received all the
    events of the elements: when the first byte that is no white space
    begins a well-formed UTF-8 character, Parse fails with Parsing
    terminated before end of input, the cursor at that byte and the
    context taken from the longest structurally valid prefix of the text;
    when it begins none, Parse returns OK and FinishParse fails with
    Encountered non UTF-8 code points. *)
Theorem root_element_ends_the_document ts ws :
  ts <> [] -> forallb plain_tag ts = true ->
  Z.of_nat (length ts) <= 100 ->
  forallb ascii_isspace ws = true ->
  (fst (ParseChunks [nest ts ++ ws] New) = OkStatus
   /\ ow_ (snd (ParseChunks [nest ts ++ ws] New))
      = start_events ts [] ++ repeat EndObject (length ts))
  /\ (forall c v junk,
         ascii_isspace c = false -> utf8_wf (c :: v) ->
         UTF8SpnStructurallyValid junk = 0%nat ->
         fst (ParseChunks [nest ts ++ ws ++ c :: v ++ junk] New)
         = failure_at "Parsing terminated before end of input."
             PARSING_TERMINATED_BEFORE_END_OF_INPUT
             (nest ts ++ ws ++ c :: v) (c :: v)
         /\ ow_ (snd (ParseChunks [nest ts ++ ws ++ c :: v ++ junk] New))
            = start_events ts [] ++ repeat EndObject (length ts))
  /\ (forall junk,
         junk <> [] -> UTF8SpnStructurallyValid junk = 0%nat ->
         fst (Parse (nest ts ++ ws ++ junk) New) = OkStatus
         /\ (exists context,
                fst (ParseChunks [nest ts ++ ws ++ junk] New)
                = InvalidArgumentError (Some NON_UTF_8)
                    (B "Encountered non UTF-8 code points." ++ context))
         /\ ow_ (snd (ParseChunks [nest ts ++ ws ++ junk] New))
            = start_events ts [] ++ repeat EndObject (length ts)).
Proof.
  intros Hne Hp Hle Hws.
  assert (Hpr : forallb plain_tag (rev ts) = true)
    by (rewrite forallb_rev; exact Hp).
  pose proof (partial_nest_ascii ts (rev ts) Hp Hpr) as Ha.
  assert (Hnw : utf8_wf (nest ts ++ ws)).
  { apply ascii_wf. rewrite forallb_app, nest_partial, Ha.
    apply space_ascii, Hws. }
  assert (HL : leads 100
                 (mkConfig [BEGIN_ELEMENT] (nest ts ++ ws) [] 0 [] [])
                 (mkConfig [] ws
                    (start_events ts [] ++ repeat EndObject (length ts))
                    0 [] [])).
  { pose proof (leads_partial_nest 100 ts (rev ts) [] ws Hne
                  (eq_sym (app_nil_r _)) Hp Hle) as HL.
    rewrite length_rev in HL. cbn [length repeat object_tags map] in HL.
    exact HL. }
  split; [|split].
  - destruct (ParseChunks_leads_ws 100 (nest ts ++ ws) New ws
                (start_events ts [] ++ repeat EndObject (length ts)) 0 [])
      as (H1 & H2 & _); auto.
    + apply partial_nest_nonempty, Hne.
    + rewrite forallb_app, nest_partial, Ha. apply space_ascii, Hws.
  - intros c v junk Hc Hv J.
    pose proof (leads_partial_nest 100 ts (rev ts) [] (ws ++ c :: v) Hne
                  (eq_sym (app_nil_r _)) Hp Hle) as HL2.
    rewrite length_rev in HL2. cbn [length repeat object_tags map] in HL2.
    replace (nest ts ++ ws ++ c :: v ++ junk)
      with ((nest ts ++ ws ++ c :: v) ++ junk)
      by (rewrite <- !app_assoc; reflexivity).
    apply (ParseChunks_junk_terminated 100 (nest ts ++ ws ++ c :: v) junk New
             ws c v _ 0 [] []); auto.
    + apply partial_nest_nonempty, Hne.
    + rewrite app_assoc. apply utf8_wf_app; assumption.
  - intros junk Hj J.
    destruct (Parse_wf_leads_ws 100 (nest ts ++ ws) New ws
                (start_events ts [] ++ repeat EndObject (length ts)) 0 [] [])
      as (P1 & P2); auto.
    { apply partial_nest_nonempty, Hne. }
    replace (nest ts ++ ws ++ junk) with ((nest ts ++ ws) ++ junk)
      by (rewrite <- app_assoc; reflexivity).
    destruct (ParseChunks_junk_non_utf8 (nest ts ++ ws) junk New eq_refl
                eq_refl Hnw Hj J) as (H1 & H2 & H3);
      [rewrite P1; reflexivity|].
    rewrite H1, H3. split; [exact P1|]. split; [exact H2|exact P2].
Qed.

Lemma root_element_ends_the_document_witness :
  fst (ParseChunks [B "<a></a> <b></b>"] New)
  = failure_at "Parsing terminated before end of input."
      PARSING_TERMINATED_BEFORE_END_OF_INPUT
      (B "<a></a> <b></b>") (B "<b></b>")
  /\ fst (Parse (B "<a></a> " ++ [xff]) New) = OkStatus.
Proof.
  assert (Hne : [B "a"] <> []) by discriminate.
  assert (Hp : forallb plain_tag [B "a"] = true) by (vm_compute; reflexivity).
  assert (Hle : Z.of_nat (length [B "a"]) <= 100) by (cbn; lia).
  assert (Hws : forallb ascii_isspace (B " ") = true) by reflexivity.
  assert (Hc : ascii_isspace "<"%byte = false) by reflexivity.
  assert (Ha : utf8_wf (B "<b></b>")) by (apply ascii_wf; reflexivity).
  assert (J0 : UTF8SpnStructurallyValid [] = 0%nat) by reflexivity.
  assert (J1 : UTF8SpnStructurallyValid [xff] = 0%nat) by reflexivity.
  assert (Hj : [xff] <> []) by discriminate.
  pose proof (root_element_ends_the_document [B "a"] (B " ") Hne Hp Hle Hws)
    as (_ & H1 & H2).
  split.
  - pose proof (proj1 (H1 "<"%byte (B "b></b>") [] Hc Ha J0)) as H.
    rewrite app_nil_r in H. exact H.
  - exact (proj1 (H2 [xff] Hj J1)).
Defined.

(** The round that meets an exclamation mark as the last byte of the
    chunk suspends. *)
Lemma comment_suspends max K ow d tags kinds st :
  ready max st ->
  config st = mkConfig (START_TAG :: K) (B "!") ow d tags kinds ->
  exists st2,
    RunParser st = (OkStatus, st2) /\ stack_ st2 <> [] /\ ow_ st2 = ow.
Proof.
  intros (Hf & Hso & Hps & Hm) Hcfg. unfold config in Hcfg.
  injection Hcfg as Hs Hp Ho Hd Ht Hk.
  unfold RunParser. rewrite Hp. cbn [length B list_byte_of_string RunParser_fuel].
  rewrite Hs. unfold RunParser_round.
  rewrite (next_token_bang START_TAG [] [] st ltac:(discriminate)
             Hso eq_refl Hp).
  cbn [dispatch ParseStartTag].
  rewrite (ParseComments_at_bang _ []) by (destruct st; reflexivity).
  unfold cancel_or_fail.
  replace (finishing_ (set_stack_ K (set_seen_non_whitespace_ true
             (set_p_ ["!"%byte] st)))) with false
    by (destruct st; cbn in *; congruence).
  cbn [negb ok IsCancelled andb fst snd].
  replace (finishing_ (set_stack_ K (set_seen_non_whitespace_ true
             (set_p_ ["!"%byte] st)))) with false
    by (destruct st; cbn in *; congruence).
  cbn [negb andb]. eexists. split; [reflexivity|].
  match goal with
  | |- context [save_key ?s] =>
    destruct (save_key_keeps s) as (E1 & _ & E2 & _)
  end.
  rewrite E1, E2. split; [discriminate|destruct st; exact Ho].
Qed.

(** X6.  No comment is ever accepted.  GetNextTokenType reports a comment
    at an exclamation mark without consuming it and ParseComments expects a
    dash as the first byte, so the round that starts a comment never
    succeeds.  A document with the start of a comment, at its beginning or
    inside nested elements, is rejected, a well-formed comment too: when
    the byte after the exclamation mark begins a well-formed UTF-8
    character, Parse fails with Dash expected in comment, the cursor at the
    exclamation mark and the context taken from the longest structurally
    valid prefix of the text; when it begins none, Parse returns OK and
    FinishParse fails with Encountered non UTF-8 code points. *)
Theorem comments_are_never_accepted :
  (forall type st K,
      fst (next_token type st) = COMMENT ->
      ok (fst (dispatch START_TAG COMMENT
                 (set_stack_ K (snd (next_token type st))))) = false)
  /\ (forall ts c v junk,
         forallb plain_tag ts = true -> Z.of_nat (length ts) <= 100 ->
         utf8_wf (c :: v) -> UTF8SpnStructurallyValid junk = 0%nat ->
         fst (ParseChunks
                [partial_nest ts [] ++ B "<!" ++ c :: v ++ junk] New)
         = failure_at "Dash expected in comment." EXPECTED_DASH_IN_COMMENT
             (partial_nest ts [] ++ B "<!" ++ c :: v)
             (B "!" ++ c :: v)
         /\ ow_ (snd (ParseChunks
                        [partial_nest ts [] ++ B "<!" ++ c :: v ++ junk] New))
            = start_events ts [])
  /\ (forall ts junk,
         forallb plain_tag ts = true -> Z.of_nat (length ts) <= 100 ->
         junk <> [] -> UTF8SpnStructurallyValid junk = 0%nat ->
         fst (Parse (partial_nest ts [] ++ B "<!" ++ junk) New) = OkStatus
         /\ (exists context,
                fst (ParseChunks [partial_nest ts [] ++ B "<!" ++ junk] New)
                = InvalidArgumentError (Some NON_UTF_8)
                    (B "Encountered non UTF-8 code points." ++ context))
         /\ ow_ (snd (ParseChunks
                        [partial_nest ts [] ++ B "<!" ++ junk] New))
            = start_events ts []).
Proof.
  assert (Hnil : forallb plain_tag [] = true) by reflexivity.
  assert (Hlead : forall ts rest,
             forallb plain_tag ts = true -> Z.of_nat (length ts) <= 100 ->
             exists K d tags kinds,
               leads 100
                 (mkConfig [BEGIN_ELEMENT]
                    (partial_nest ts [] ++ B "<!" ++ rest) [] 0 [] [])
                 (mkConfig (START_TAG :: K) ("!"%byte :: rest)
                    (start_events ts []) d tags kinds)).
  { intros ts rest Hp Hle. destruct ts as [|t ts].
    - exists [], 0, [], [].
      cbn [partial_nest map concat app B list_byte_of_string start_events].
      apply (leads_first_open_tag 100 []); reflexivity.
    - do 4 eexists.
      eapply leads_trans;
        [apply (leads_partial_nest 100 (t :: ts) [] (rev (t :: ts)) _
                  ltac:(discriminate) eq_refl Hp Hle)|].
      rewrite length_rev. cbn [length repeat app B list_byte_of_string].
      rewrite app_nil_r.
      apply (leads_open_tag 100 []); reflexivity. }
  assert (Hwf : forall ts, forallb plain_tag ts = true ->
                utf8_wf (partial_nest ts [] ++ B "<!")).
  { intros ts Hp. apply ascii_wf.
    rewrite forallb_app, (partial_nest_ascii ts [] Hp Hnil). reflexivity. }
  split; [|split].
  - intros type st K H. destruct (next_token_COMMENT type st H) as [r Hr].
    cbn [dispatch ParseStartTag].
    rewrite (ParseComments_at_bang _ r)
      by (destruct (snd (next_token type st)); exact Hr).
    destruct r; [|reflexivity].
    unfold cancel_or_fail. destruct (negb _); reflexivity.
  - intros ts c v junk Hp Hle Hv J.
    destruct (Hlead ts (c :: v) Hp Hle) as (K & d & tags & kinds & HL).
    replace (partial_nest ts [] ++ B "<!" ++ c :: v ++ junk)
      with ((partial_nest ts [] ++ B "<!" ++ c :: v) ++ junk)
      by (rewrite <- !app_assoc; reflexivity).
    apply (ParseChunks_junk_fails 100 _ junk New); try reflexivity.
    + destruct ts; discriminate.
    + rewrite app_assoc. apply utf8_wf_app; [apply Hwf; exact Hp|exact Hv].
    + exact J.
    + eapply leads_fails; [exact HL|]. apply fails_comment.
  - intros ts junk Hp Hle Hj J.
    destruct (Hlead ts [] Hp Hle) as (K & d & tags & kinds & HL).
    rewrite app_nil_r in HL.
    destruct (Parse_wf_suspends 100 (partial_nest ts [] ++ B "<!") New _
                (start_events ts []) eq_refl
                ltac:(destruct ts; discriminate) (Hwf ts Hp) eq_refl eq_refl
                eq_refl HL) as (P1 & P2).
    { intros st1 Hr1 Hc1. apply (comment_suspends 100 K _ d tags kinds st1 Hr1 Hc1). }
    replace (partial_nest ts [] ++ B "<!" ++ junk)
      with ((partial_nest ts [] ++ B "<!") ++ junk)
      by (rewrite <- !app_assoc; reflexivity).
    destruct (ParseChunks_junk_non_utf8 (partial_nest ts [] ++ B "<!") junk
                New eq_refl eq_refl (Hwf ts Hp) Hj J) as (H1 & H2 & H3);
      [rewrite P1; reflexivity|].
    rewrite H1, H3. split; [exact P1|]. split; [exact H2|exact P2].
Qed.

Lemma comments_are_never_accepted_witness :
  fst (ParseChunks [B "<a><!-- note --></a>"] New)
  = failure_at "Dash expected in comment." EXPECTED_DASH_IN_COMMENT
      (B "<a><!-- note --></a>") (B "!-- note --></a>")
  /\ fst (Parse (B "<a><!" ++ [xff]) New) = OkStatus.
Proof.
  assert (Hp : forallb plain_tag [B "a"] = true) by (vm_compute; reflexivity).
  assert (Hle : Z.of_nat (length [B "a"]) <= 100) by (cbn; lia).
  assert (Ha : utf8_wf (B "-- note --></a>")) by (apply ascii_wf; reflexivity).
  assert (J0 : UTF8SpnStructurallyValid [] = 0%nat) by reflexivity.
  assert (J1 : UTF8SpnStructurallyValid [xff] = 0%nat) by reflexivity.
  assert (Hj : [xff] <> []) by discriminate.
  destruct comments_are_never_accepted as (_ & H1 & H2).
  split.
  - pose proof (proj1 (H1 [B "a"] "-"%byte (B "- note --></a>") [] Hp Hle
                         Ha J0)) as H.
    rewrite app_nil_r in H. exact H.
  - exact (proj1 (H2 [B "a"] [xff] Hp Hle Hj J1)).
Defined.

Lemma bytes_eqb_eq a b : bytes_eqb a b = true -> a = b.
Proof.
  unfold bytes_eqb. destruct (list_eq_dec _ a b); [trivial|discriminate].
Qed.

Lemma entity_cases e :
  IsPredefinedEntities e = true ->
  e = B "&lt;" \/ e = B "&gt;" \/ e = B "&amp;" \/ e = B "&apos;"
  \/ e = B "&quot;".
Proof.
  unfold IsPredefinedEntities. intros H.
  repeat (apply orb_true_iff in H as [H|H]);
    apply bytes_eqb_eq in H; tauto.
Qed.

(** A text that ends with an entity at the end of the input is consumed
    whole. *)
Lemma ConsumeText_entity c body e :
  text_tail body = true -> IsPredefinedEntities e = true ->
  ConsumeText (c :: body ++ e) = Some (c :: body ++ e, []).
Proof.
  intros Hb He. cbn [ConsumeText].
  rewrite (text_tail_len_plain body e Hb).
  assert (Hn : text_tail_len e = Some (length e)).
  { destruct (entity_cases e He) as [->|[->|[->|[->| ->]]]]; reflexivity. }
  rewrite Hn. cbn [option_map].
  change (c :: body ++ e) with ((c :: body) ++ e).
  replace (S (length body + length e)) with (length ((c :: body) ++ e))
    by (rewrite length_app; reflexivity).
  rewrite firstn_all, skipn_all. reflexivity.
Qed.

(** The round that reads such a text as the rest of the chunk suspends. *)
Lemma text_entity_suspends max ws c body e K ow d tags kinds st :
  forallb ascii_isspace ws = true ->
  text_head c = true -> text_tail body = true ->
  IsPredefinedEntities e = true ->
  ready max st ->
  config st = mkConfig (TEXT :: K) (ws ++ c :: body ++ e) ow d tags kinds ->
  exists st2,
    RunParser st = (OkStatus, st2) /\ stack_ st2 <> [] /\ ow_ st2 = ow.
Proof.
  intros Hws Hc Hb He (Hf & Hso & Hps & Hm) Hcfg.
  destruct (text_head_inv c Hc) as [Hc1 Hc2]. unfold config in Hcfg.
  injection Hcfg as Hs Hp Ho Hd Ht Hk.
  destruct (next_token_other TEXT ws c _ st ltac:(discriminate) Hso Hws Hc1
              Hc2 Hp) as (t & Hnt & Ht1 & Ht2).
  unfold RunParser. rewrite Hp. rewrite length_app. cbn [length].
  rewrite Nat.add_succ_r. cbn [RunParser_fuel]. rewrite Hs.
  unfold RunParser_round. rewrite Hnt. cbn [dispatch].
  rewrite (ParseText_t_other t _ Ht1 Ht2). unfold ParseText.
  replace (p_ (set_stack_ K (set_seen_non_whitespace_ true
                (set_p_ (c :: body ++ e) st))))
    with (c :: body ++ e) by (destruct st; reflexivity).
  rewrite (ConsumeText_entity c body e Hb He).
  match goal with
  | |- context [negb (finishing_ ?s) && Nat.eqb (length (p_ ?s)) 0] =>
    replace (negb (finishing_ s) && Nat.eqb (length (p_ s)) 0) with true
      by (destruct st; cbn in *; subst; reflexivity)
  end.
  cbn [ok IsCancelled fst snd].
  match goal with
  | |- context [negb (finishing_ ?s) && true] =>
    replace (negb (finishing_ s) && true) with true
      by (destruct st; cbn in *; subst; reflexivity)
  end.
  eexists. split; [reflexivity|].
  match goal with
  | |- context [save_key ?s] =>
    destruct (save_key_keeps s) as (E1 & _ & E2 & _)
  end.
  rewrite E1, E2. split; [discriminate|destruct st; exact Ho].
Qed.

(** X12.  An ampersand in a text must be the start of the end of the
    input.  ConsumeText accepts an ampersand behind the first byte of a
    text only when the whole rest of its input is one of the five entity
    names.  Parse hands the parser the longest structurally valid UTF-8
    prefix of the text, so: when in that prefix the text of an element has
    an ampersand followed by anything but exactly an entity name up to the
    end of the prefix (a closing tag, for one), Parse fails with Invalid
    text, the cursor at the first byte of the text and the context taken
    from the prefix, and the sink has received the start of the element
    only; when the prefix ends with the text and its entity, a byte that
    begins no well-formed character following, Parse returns OK and
    FinishParse fails with Encountered non UTF-8 code points. *)
Theorem ampersand_in_text_is_rejected c body :
  text_tail body = true ->
  (forall tail,
      IsPredefinedEntities ("&"%byte :: tail) = false ->
      ConsumeText (c :: body ++ "&"%byte :: tail) = None
      /\ (forall t ws junk,
             plain_tag t = true -> forallb ascii_isspace ws = true ->
             text_head c = true ->
             utf8_wf (c :: body ++ "&"%byte :: tail) ->
             UTF8SpnStructurallyValid junk = 0%nat ->
             fst (ParseChunks
                    [opener t ++ ws ++ c :: body ++ "&"%byte :: tail ++ junk]
                    New)
             = failure_at "Invalid text." INVALID_TEXT
                 (opener t ++ ws ++ c :: body ++ "&"%byte :: tail)
                 (c :: body ++ "&"%byte :: tail)
             /\ ow_ (snd (ParseChunks
                            [opener t ++ ws ++ c :: body
                               ++ "&"%byte :: tail ++ junk] New))
                = [start_object_event t []]))
  /\ (forall entity,
         IsPredefinedEntities entity = true ->
         ConsumeText (c :: body ++ entity) = Some (c :: body ++ entity, [])
         /\ (forall t ws junk,
                plain_tag t = true -> forallb ascii_isspace ws = true ->
                text_head c = true -> utf8_wf (c :: body) ->
                junk <> [] -> UTF8SpnStructurallyValid junk = 0%nat ->
                fst (Parse (opener t ++ ws ++ c :: body ++ entity ++ junk)
                       New) = OkStatus
                /\ (exists context,
                       fst (ParseChunks
                              [opener t ++ ws ++ c :: body ++ entity ++ junk]
                              New)
                       = InvalidArgumentError (Some NON_UTF_8)
                           (B "Encountered non UTF-8 code points."
                              ++ context))
                /\ ow_ (snd (ParseChunks
                               [opener t ++ ws ++ c :: body ++ entity ++ junk]
                               New))
                   = [start_object_event t []])).
Proof.
  intros Hb. split.
  - intros tail He. split; [apply ConsumeText_ampersand; assumption|].
    intros t ws junk Ht Hws Hc Hv J.
    replace (opener t ++ ws ++ c :: body ++ "&"%byte :: tail ++ junk)
      with ((opener t ++ ws ++ c :: body ++ "&"%byte :: tail) ++ junk)
      by (rewrite <- !app_assoc; cbn [app]; rewrite <- !app_assoc;
          reflexivity).
    apply (ParseChunks_junk_fails 100 _ junk New); try reflexivity.
    + unfold opener. discriminate.
    + rewrite app_assoc. apply utf8_wf_app; [|exact Hv].
      apply ascii_wf.
      rewrite forallb_app, (opener_ascii t Ht). apply space_ascii, Hws.
    + exact J.
    + eapply leads_fails; [apply leads_first_opener; [exact Ht|cbn; lia]|].
      apply fails_text_ampersand; assumption.
  - intros entity He. split; [apply ConsumeText_entity; assumption|].
    intros t ws junk Ht Hws Hc Hv Hj J.
    assert (Hwf : utf8_wf (opener t ++ ws ++ c :: body ++ entity)).
    { rewrite app_assoc. apply utf8_wf_app.
      - apply ascii_wf.
        rewrite forallb_app, (opener_ascii t Ht). apply space_ascii, Hws.
      - change (c :: body ++ entity) with ((c :: body) ++ entity).
        apply utf8_wf_app; [exact Hv|]. apply ascii_wf.
        destruct (entity_cases entity He) as [->|[->|[->|[->| ->]]]];
          reflexivity. }
    destruct (Parse_wf_suspends 100 (opener t ++ ws ++ c :: body ++ entity)
                New _ [start_object_event t []] eq_refl
                ltac:(unfold opener; discriminate) Hwf eq_refl eq_refl
                eq_refl
                (leads_first_opener 100 t _ [] [] 0 [] [] Ht ltac:(cbn; lia)))
      as (P1 & P2).
    { intros st1 Hr1 Hc1.
      apply (text_entity_suspends 100 ws c body entity _ _ _ _ _ st1 Hws Hc
               Hb He Hr1 Hc1). }
    replace (opener t ++ ws ++ c :: body ++ entity ++ junk)
      with ((opener t ++ ws ++ c :: body ++ entity) ++ junk)
      by (rewrite <- !app_assoc; cbn [app]; rewrite <- !app_assoc;
          reflexivity).
    destruct (ParseChunks_junk_non_utf8 _ junk New eq_refl eq_refl Hwf Hj J)
      as (H1 & H2 & H3); [rewrite P1; reflexivity|].
    rewrite H1, H3. split; [exact P1|]. split; [exact H2|exact P2].
Qed.

Lemma ampersand_in_text_is_rejected_witness :
  fst (ParseChunks [B "<a>x &amp; y</a>"] New)
  = failure_at "Invalid text." INVALID_TEXT
      (B "<a>x &amp; y</a>") (B "x &amp; y</a>")
  /\ fst (Parse (B "<a>x &amp;" ++ [xff] ++ B "</a>") New) = OkStatus.
Proof.
  assert (Hb : text_tail (B " ") = true) by reflexivity.
  assert (He : IsPredefinedEntities (B "&amp; y</a>") = false)
    by (vm_compute; reflexivity).
  assert (He2 : IsPredefinedEntities (B "&amp;") = true)
    by (vm_compute; reflexivity).
  assert (Ht : plain_tag (B "a") = true) by (vm_compute; reflexivity).
  assert (Hws : forallb ascii_isspace [] = true) by reflexivity.
  assert (Hc : text_head "x"%byte = true) by reflexivity.
  assert (Ha : utf8_wf (B "x &amp; y</a>")) by (apply ascii_wf; reflexivity).
  assert (Hx : utf8_wf (B "x ")) by (apply ascii_wf; reflexivity).
  assert (J0 : UTF8SpnStructurallyValid [] = 0%nat) by reflexivity.
  assert (J1 : UTF8SpnStructurallyValid ([xff] ++ B "</a>") = 0%nat)
    by reflexivity.
  assert (Hj : [xff] ++ B "</a>" <> []) by discriminate.
  destruct (ampersand_in_text_is_rejected "x"%byte (B " ") Hb) as (H1 & H2).
  split.
  - pose proof (proj1 (proj2 (H1 (B "amp; y</a>") He)
                         (B "a") [] [] Ht Hws Hc Ha J0)) as H.
    rewrite app_nil_r in H. exact H.
  - exact (proj1 (proj2 (H2 (B "&amp;") He2)
                    (B "a") [] ([xff] ++ B "</a>") Ht Hws Hc Hx Hj J1)).
Defined.

(** ** What Parse keeps *)

(** Behind [k] bytes of a well-formed text the scanner accepts at most the
    rest of that text, when what follows the text begins no well-formed
    character. *)
Lemma valid_span_after_skip V :
  utf8_wf V -> forall k X,
  UTF8SpnStructurallyValid X = 0%nat -> (k <= length V)%nat ->
  (k + UTF8SpnStructurallyValid (skipn k V ++ X) <= length V)%nat.
Proof.
  intros Hwf. induction Hwf as [|p j E Hwf IH]; intros k X HX Hk.
  - cbn [length] in Hk. replace k with 0%nat by lia. cbn [skipn app Nat.add length].
    rewrite HX. lia.
  - pose proof (utf8_char_len_le p) as Hle. rewrite E in Hle.
    destruct (Nat.eq_dec k 0) as [->|Hk0].
    + cbn [skipn]. rewrite (UTF8Spn_app p X), HX;
        [lia|apply wf_char with (k := j); assumption].
    + destruct (Nat.le_gt_cases (S j) k) as [Hge|Hlt].
      * replace k with ((k - S j) + S j)%nat at 2 by lia.
        rewrite <- skipn_skipn.
        pose proof (IH (k - S j)%nat X HX) as H.
        rewrite length_skipn in H. specialize (H ltac:(lia)). lia.
      * assert (Hc : is_cont (nth k p x00) = true)
          by (apply utf8_char_len_tail with (k := j); [exact E|lia]).
        rewrite (skipn_cons_nth x00 k p) by lia.
        rewrite UTF8Spn_unfold. cbn [app].
        rewrite utf8_char_len_cont by exact Hc. lia.
Qed.

Lemma UTF8Spn_after_skip T k :
  (k <= UTF8SpnStructurallyValid T)%nat ->
  (k + UTF8SpnStructurallyValid (skipn k T)
   <= UTF8SpnStructurallyValid T)%nat.
Proof.
  intros Hk. set (N := UTF8SpnStructurallyValid T) in *.
  pose proof (UTF8Spn_le T) as HN. fold N in HN.
  pose proof (UTF8Spn_stops T) as Hs. fold N in Hs.
  assert (HX : UTF8SpnStructurallyValid (skipn N T) = 0%nat)
    by (rewrite UTF8Spn_unfold, Hs; reflexivity).
  pose proof (valid_span_after_skip (firstn N T) (UTF8Spn_prefix_wf T) k
                (skipn N T) HX) as H.
  rewrite length_firstn, Nat.min_l in H by exact HN.
  rewrite <- skipn_app_le in H by (rewrite length_firstn; lia).
  rewrite firstn_skipn in H. apply H. exact Hk.
Qed.

Lemma UTF8Spn_app_le a b :
  (UTF8SpnStructurallyValid a <= UTF8SpnStructurallyValid (a ++ b))%nat.
Proof.
  set (n := UTF8SpnStructurallyValid a).
  replace (a ++ b) with (firstn n a ++ (skipn n a ++ b))
    by (rewrite app_assoc, firstn_skipn; reflexivity).
  rewrite (UTF8Spn_app (firstn n a)) by apply UTF8Spn_prefix_wf.
  rewrite length_firstn. pose proof (UTF8Spn_le a). fold n in H. lia.
Qed.

(** One call: what is kept starts within the valid prefix of the text. *)
Lemma Parse_keeps_the_invalid_tail xml st :
  ok (fst (Parse xml st)) = true ->
  exists k,
    (k <= UTF8SpnStructurallyValid (leftover_ st ++ xml))%nat
    /\ leftover_ (snd (Parse xml st)) = skipn k (leftover_ st ++ xml).
Proof.
  intros Hok. destruct (Parse_leftover xml st Hok) as [k Hk]. rewrite Hk.
  set (chunk := leftover_ st ++ xml).
  set (n := UTF8SpnStructurallyValid chunk).
  pose proof (UTF8Spn_le chunk) as Hn. fold n in Hn.
  destruct (Nat.le_gt_cases k n) as [Hle|Hgt].
  - exists k. split; [exact Hle|].
    rewrite <- skipn_app_le by (rewrite length_firstn; lia).
    rewrite firstn_skipn. reflexivity.
  - exists n. split; [lia|].
    rewrite skipn_all2 by (rewrite length_firstn; lia). reflexivity.
Qed.

(** X9.  Parse never drops a byte it has not handed to the parser.  After
    every sequence of Parse calls that all return OK, what the parser
    keeps for the next call is a tail of the bytes it has been given (the
    text left over before the first call followed by all the chunks) that
    starts inside the longest structurally valid UTF-8 prefix of those
    bytes or at its end: every byte from the first one that is not valid
    UTF-8 on, a character cut by the end of a chunk for one, is kept, in
    order, for the next call and for FinishParse.  (How much of the valid
    prefix is kept is the parser's choice.)  The options (the recursion
    bound, the coercion mode and the replacement text) are the same after
    the calls. *)
Theorem parse_keeps_a_tail_of_its_input chunks : forall st,
  ok (fst (ParseAll chunks st)) = true ->
  (exists k,
      (k <= UTF8SpnStructurallyValid (leftover_ st ++ concat chunks))%nat
      /\ leftover_ (snd (ParseAll chunks st))
         = skipn k (leftover_ st ++ concat chunks))
  /\ max_recursion_depth_ (snd (ParseAll chunks st)) = max_recursion_depth_ st
  /\ coerce_to_utf8_ (snd (ParseAll chunks st)) = coerce_to_utf8_ st
  /\ utf8_replacement_character_ (snd (ParseAll chunks st))
     = utf8_replacement_character_ st.
Proof.
  induction chunks as [|c rest IH]; intros st.
  - cbn. intros _. split; [|repeat split].
    exists 0%nat. rewrite app_nil_r. split; [lia|reflexivity].
  - cbn [ParseAll concat].
    pose proof (Parse_keeps_the_invalid_tail c st) as Htail.
    pose proof (Parse_good c st) as (_ & Hc & Hr & Hm).
    destruct (Parse c st) as [r st1]. cbn [fst snd] in *.
    destruct (ok r) eqn:Hok; [|cbn [fst]; congruence].
    intros H. destruct (IH st1 H) as ((k2 & Hb2 & Hk2) & Hm2 & Hc2 & Hr2).
    destruct (Htail eq_refl) as (k1 & Hb1 & Hk1).
    split; [|repeat split; congruence].
    pose proof (UTF8Spn_le (leftover_ st ++ c)) as Hle.
    pose proof (UTF8Spn_app_le (leftover_ st ++ c) (concat rest)) as Hmono.
    assert (E : leftover_ st1 ++ concat rest
                = skipn k1 (leftover_ st ++ c ++ concat rest)).
    { rewrite Hk1, app_assoc. symmetry. apply skipn_app_le. lia. }
    rewrite E in Hb2, Hk2. rewrite skipn_skipn in Hk2.
    exists (k2 + k1)%nat. split; [|exact Hk2].
    rewrite <- app_assoc in Hmono.
    pose proof (UTF8Spn_after_skip (leftover_ st ++ c ++ concat rest) k1
                  ltac:(lia)). lia.
Qed.

Lemma parse_keeps_a_tail_of_its_input_witness :
  exists k,
    (k <= UTF8SpnStructurallyValid
            (leftover_ New ++ concat [B "<a>caf" ++ [xc3]]))%nat
    /\ leftover_ (snd (ParseAll [B "<a>caf" ++ [xc3]] New))
       = skipn k (leftover_ New ++ concat [B "<a>caf" ++ [xc3]]).
Proof.
  assert (Hok : ok (fst (ParseAll [B "<a>caf" ++ [xc3]] New)) = true)
    by (vm_compute; reflexivity).
  exact (proj1 (parse_keeps_a_tail_of_its_input [B "<a>caf" ++ [xc3]] New
                  Hok)).
Defined.
